(** * RNMC: a shallow embedding of the kinetic Monte Carlo core

    The development follows the C++ sources:
    - [GMC/reaction_network.h]  (module [GMC]),
    - [core/simulation.h]       (module [Core]),
    - [NPMC/nano_particle.h]    (module [NPMC]).

    C++ [int] values are integers ([Z]).  Signed overflow is undefined
    behaviour in C++: the increments and decrements of the species counts
    report it as the fault [Overflow], and the size of the history buffer
    is computed in the range of [int].  The counters of events ([step],
    [number_of_occurrences]) are integers, which 2^31 events would be needed
    to take out of that range.  No statement below relies on an overflow.
    C++ [double] values are IEEE-754 binary64 numbers, taken from the
    executable specification [SpecFloat] of the standard library.
    A [std::vector] is a list; reading or writing outside its bounds is
    undefined behaviour and is reported as the fault [OutOfBounds]. *)

From Stdlib Require Import ZArith Lia String.
From Stdlib Require Import SpecFloat.
From stdpp Require Import base option list numbers sorting.

Open Scope Z_scope.

(** ** Outcomes of a run *)

Inductive fault : Type :=
| OutOfBounds   (* access outside a vector or a fixed-size array *)
| Sigint        (* raise(SIGINT) *)
| Abort         (* std::abort() *)
| OutOfFuel     (* the loop budget of the model was exhausted *)
| Overflow.     (* signed overflow of an int *)

Inductive result (A : Type) : Type :=
| Ok (a : A)
| Fault (f : fault).
Arguments Ok {A} a.
Arguments Fault {A} f.

#[global] Instance result_ret : MRet result := fun _ a => Ok a.
#[global] Instance result_bind : MBind result := fun _ _ f m =>
  match m with
  | Ok a => f a
  | Fault e => Fault e
  end.

#[global] Instance result_fmap : FMap result := fun _ _ f m =>
  match m with
  | Ok a => Ok (f a)
  | Fault e => Fault e
  end.

Definition is_ok {A} (r : result A) : bool :=
  match r with Ok _ => true | Fault _ => false end.

(** ** The type [int] *)

Module Int.
Definition min : Z := - 2 ^ 31.
Definition max : Z := 2 ^ 31 - 1.

Definition in_range (z : Z) : bool := (min <=? z) && (z <=? max).

(** The [int] whose mathematical value is [z]; there is none when [z] lies
    outside the range of [int]. *)
Definition checked (z : Z) : result Z :=
  if in_range z then Ok z else Fault Overflow.
End Int.

(** ** Vectors and fixed-size arrays *)

Definition vget {A} (v : list A) (i : Z) : result A :=
  if i <? 0 then Fault OutOfBounds
  else match v !! Z.to_nat i with
       | Some x => Ok x
       | None => Fault OutOfBounds
       end.

Definition vset {A} (v : list A) (i : Z) (x : A) : result (list A) :=
  if (0 <=? i) && (i <? Z.of_nat (length v))
  then Ok (<[Z.to_nat i := x]> v)
  else Fault OutOfBounds.

(** [int a[2]]: only the indices 0 and 1 exist. *)
Definition at2 {A} (a : A * A) (k : Z) : result A :=
  if k =? 0 then Ok (fst a)
  else if k =? 1 then Ok (snd a)
  else Fault OutOfBounds.

(** [for (k = lo; k < lo + n; k++) body], threading the state [s]. *)
Fixpoint for_loop {S} (n : nat) (k : Z) (body : Z -> S -> result S) (s : S)
  : result S :=
  match n with
  | O => Ok s
  | S n' => s' ← body k s; for_loop n' (k + 1) body s'
  end.

Definition for_upto {S} (hi : Z) (body : Z -> S -> result S) (s : S)
  : result S :=
  for_loop (Z.to_nat hi) 0 body s.

(** Monadic left fold: a loop over the elements of a vector. *)
Fixpoint foldM {A S : Type} (f : S -> A -> result S) (l : list A) (s : S)
  : result S :=
  match l with
  | [] => Ok s
  | a :: l' => s' ← f s a; foldM f l' s'
  end.

(** ** IEEE-754 binary64 *)

Module Double.
Definition double : Type := spec_float.
Definition prec : Z := 53.
Definition emax : Z := 1024.

Definition add : double -> double -> double := SFadd prec emax.
Definition sub : double -> double -> double := SFsub prec emax.
Definition mul : double -> double -> double := SFmul prec emax.
Definition div : double -> double -> double := SFdiv prec emax.
Definition sqrt : double -> double := SFsqrt prec emax.
Definition ltb : double -> double -> bool := SFltb.
Definition leb : double -> double -> bool := SFleb.
Definition eqb : double -> double -> bool := SFeqb.
(** [a >= b] *)
Definition geb (a b : double) : bool := SFleb b a.

(** Conversion [int -> double] (exact on 32-bit integers). *)
Definition of_int (z : Z) : double := binary_normalize prec emax z 0 false.

Definition zero : double := S754_zero false.

Definition is_finite (x : double) : bool :=
  match x with
  | S754_zero _ | S754_finite _ _ _ => true
  | _ => false
  end.

(** [x == 0.0] in C++: true for both signed zeros. *)
Definition is_zero (x : double) : bool := eqb x zero.
End Double.

Abbreviation double := Double.double.
Infix "⊗" := Double.mul (at level 40, left associativity).
Infix "⊕" := Double.add (at level 50, left associativity).
Infix "⊖" := Double.sub (at level 50, left associativity).
Infix "⊘" := Double.div (at level 40, left associativity).

(** * The reaction-network engine ([GMC/reaction_network.h]) *)

Module GMC.

Record Reaction : Type := {
  number_of_reactants : Z;        (* uint8_t *)
  number_of_products : Z;         (* uint8_t *)
  reactants : Z * Z;              (* int reactants[2] *)
  products : Z * Z;               (* int products[2] *)
  rate : double
}.

Record DependentsNode : Type := {
  dependents : option (list Z);
  number_of_occurrences : Z
}.

(** [DependentsNode()] *)
Definition fresh_node : DependentsNode :=
  {| dependents := None; number_of_occurrences := 0 |}.

(** The immutable part of [struct ReactionNetwork]; the dependency graph
    is the mutable part and is threaded explicitly. *)
Record ReactionNetwork : Type := {
  reactions : list Reaction;
  initial_state : list Z;
  initial_propensities : list double;
  factor_zero : double;
  factor_two : double;
  factor_duplicate : double;
  dependency_threshold : Z
}.

Definition graph : Type := list DependentsNode.

Record Update : Type := { index : Z; propensity : double }.

(** [ReactionNetwork::compute_propensity] *)
Definition compute_propensity (net : ReactionNetwork) (state : list Z)
    (reaction_index : Z) : result double :=
  reaction ← vget (reactions net) reaction_index;
  if number_of_reactants reaction =? 0 then
    Ok (factor_zero net ⊗ rate reaction)
  else if number_of_reactants reaction =? 1 then
    x ← vget state (fst (reactants reaction));
    Ok (Double.of_int x ⊗ rate reaction)
  else if fst (reactants reaction) =? snd (reactants reaction) then
    x ← vget state (fst (reactants reaction));
    Ok (factor_duplicate net ⊗ factor_two net
        ⊗ Double.of_int x ⊗ Double.of_int (x - 1) ⊗ rate reaction)
  else
    x0 ← vget state (fst (reactants reaction));
    x1 ← vget state (snd (reactants reaction));
    Ok (factor_two net ⊗ Double.of_int x0 ⊗ Double.of_int x1
        ⊗ rate reaction).

(** [ReactionNetwork::update_state].  [state[s]--] and [state[s]++] act on
    an [int]: a count that would leave the range of [int] is a signed
    overflow, reported as the fault [Overflow]. *)
Definition update_state (net : ReactionNetwork) (state : list Z)
    (reaction_index : Z) : result (list Z) :=
  reaction ← vget (reactions net) reaction_index;
  state ← for_upto (number_of_reactants reaction)
            (fun m st =>
               s ← at2 (reactants reaction) m;
               x ← vget st s;
               x ← Int.checked (x - 1);
               vset st s x)
            state;
  for_upto (number_of_products reaction)
    (fun m st =>
       s ← at2 (products reaction) m;
       x ← vget st s;
       x ← Int.checked (x + 1);
       vset st s x)
    state.

(** The test both passes of [compute_dependency_node] perform on the
    scanned reaction [j] against the fired reaction [reaction_index]. *)
Definition dependency_flag (net : ReactionNetwork) (j reaction_index : Z)
  : result bool :=
  rj ← vget (reactions net) j;
  for_upto (number_of_reactants rj)
    (fun l flag =>
       ri ← vget (reactions net) reaction_index;
       flag ← for_upto (number_of_reactants ri)
                (fun m flag =>
                   s ← at2 (reactants rj) l;
                   t ← at2 (reactants ri) m;
                   Ok (if s =? t then true else flag))
                flag;
       for_upto (number_of_products ri)
         (fun n flag =>
            s ← at2 (reactants rj) l;
            t ← at2 (products ri) n;
            Ok (if s =? t then true else flag))
         flag)
    false.

(** First pass: [number_of_dependents_count]. *)
Definition count_pass (net : ReactionNetwork) (reaction_index : Z)
  : result Z :=
  for_upto (Z.of_nat (length (reactions net)))
    (fun j count =>
       flag ← dependency_flag net j reaction_index;
       Ok (if flag : bool then count + 1 else count))
    0.

(** Second pass: the [while (dependents_counter < count)] loop.  Every
    iteration advances [current_reaction], and reading [reactions] past
    its end is a fault, so [S (length reactions)] iterations are enough
    and [OutOfFuel] cannot be returned with that budget. *)
Fixpoint fill_pass (fuel : nat) (net : ReactionNetwork) (reaction_index : Z)
    (count dependents_counter current_reaction : Z) (deps : list Z)
  : result (list Z) :=
  if dependents_counter <? count then
    match fuel with
    | O => Fault OutOfFuel
    | S fuel' =>
        flag ← dependency_flag net current_reaction reaction_index;
        if flag : bool then
          deps' ← vset deps dependents_counter current_reaction;
          fill_pass fuel' net reaction_index count
            (dependents_counter + 1) (current_reaction + 1) deps'
        else
          fill_pass fuel' net reaction_index count
            dependents_counter (current_reaction + 1) deps
    end
  else Ok deps.

(** The vector built by [compute_dependency_node]. *)
Definition dependents_of (net : ReactionNetwork) (reaction_index : Z)
  : result (list Z) :=
  count ← count_pass net reaction_index;
  fill_pass (S (length (reactions net))) net reaction_index count 0 0
    (replicate (Z.to_nat count) 0).

(** [ReactionNetwork::compute_dependency_node] *)
Definition compute_dependency_node (net : ReactionNetwork) (g : graph)
    (reaction_index : Z) : result graph :=
  node ← vget g reaction_index;
  deps ← dependents_of net reaction_index;
  vset g reaction_index
    {| dependents := Some deps;
       number_of_occurrences := number_of_occurrences node |}.

(** [ReactionNetwork::get_dependency_node]; the node's mutex serialises
    the calls, which is what the sequential state passing expresses. *)
Definition get_dependency_node (net : ReactionNetwork) (g : graph)
    (reaction_index : Z) : result (graph * option (list Z)) :=
  node ← vget g reaction_index;
  g ← (if bool_decide (dependents node = None)
          && (dependency_threshold net <=? number_of_occurrences node)
       then compute_dependency_node net g reaction_index
       else Ok g);
  node ← vget g reaction_index;
  let node' := {| dependents := dependents node;
                  number_of_occurrences := number_of_occurrences node + 1 |} in
  g ← vset g reaction_index node';
  Ok (g, dependents node').

(** [ReactionNetwork::update_propensities]; the calls of
    [update_function] are returned as the list of its arguments, in the
    order of the calls. *)
Definition update_propensities (net : ReactionNetwork) (g : graph)
    (state : list Z) (next_reaction : Z) : result (graph * list Update) :=
  '(g, maybe_dependents) ← get_dependency_node net g next_reaction;
  match maybe_dependents with
  | Some dependents =>
      ups ← for_upto (Z.of_nat (length dependents))
              (fun m emitted =>
                 reaction_index ← vget dependents m;
                 new_propensity ← compute_propensity net state reaction_index;
                 Ok (emitted ++ [{| index := reaction_index;
                                    propensity := new_propensity |}]))
              [];
      Ok (g, ups)
  | None =>
      ups ← for_upto (Z.of_nat (length (reactions net)))
              (fun reaction_index emitted =>
                 new_propensity ← compute_propensity net state reaction_index;
                 Ok (emitted ++ [{| index := reaction_index;
                                    propensity := new_propensity |}]))
              [];
      Ok (g, ups)
  end.

(** The row types of [GMC/sql_types.h], which is not among the sources:
    each record has the columns the constructor reads. *)
Module Sql.
Record MetadataSql : Type := {
  number_of_species : Z;
  number_of_reactions : Z
}.

Record FactorsSql : Type := {
  sql_factor_zero : double;
  sql_factor_two : double;
  sql_factor_duplicate : double
}.

Record InitialStateSql : Type := { species_id : Z; count : Z }.

Record ReactionSql : Type := {
  reaction_id : Z;
  row_number_of_reactants : Z;
  row_number_of_products : Z;
  reactant_1 : Z;
  reactant_2 : Z;
  product_1 : Z;
  product_2 : Z;
  row_rate : double
}.

(** What the two [SqlConnection]s deliver: the rows of each table, in
    reading order; [metadata] and [factors] are the first row, if any. *)
Record Database : Type := {
  metadata : option MetadataSql;
  factors : option FactorsSql;
  initial_state_rows : list InitialStateSql;
  reaction_rows : list ReactionSql
}.
End Sql.

(** [(uint8_t) n] *)
Definition to_uint8 (n : Z) : Z := n mod 256.

(** The [Reaction] built from a row. *)
Definition reaction_of_row (reaction_row : Sql.ReactionSql) : Reaction :=
  {| number_of_reactants := to_uint8 (Sql.row_number_of_reactants reaction_row);
     number_of_products := to_uint8 (Sql.row_number_of_products reaction_row);
     reactants := (Sql.reactant_1 reaction_row, Sql.reactant_2 reaction_row);
     products := (Sql.product_1 reaction_row, Sql.product_2 reaction_row);
     rate := Sql.row_rate reaction_row |}.

(** A value-initialised [Reaction], as [resize] creates it. *)
Definition zero_reaction : Reaction :=
  {| number_of_reactants := 0; number_of_products := 0;
     reactants := (0, 0); products := (0, 0); rate := Double.zero |}.

(** [v.resize(n)] or [std::vector<T>(n)]; a negative size converts to a
    size no allocation can satisfy, and the exception ends the program. *)
Definition sized {A} (n : Z) (d : A) : result (list A) :=
  if n <? 0 then Fault Abort else Ok (replicate (Z.to_nat n) d).

(** The loop over the reaction rows: the reactions and the last
    [reaction_id]. *)
Definition load_reactions (rows : list Sql.ReactionSql)
    (reactions : list Reaction) : result (list Reaction * Z) :=
  foldM (fun '(reactions, _) reaction_row =>
           reactions ← vset reactions (Sql.reaction_id reaction_row)
                          (reaction_of_row reaction_row);
           Ok (reactions, Sql.reaction_id reaction_row))
        rows (reactions, 0).

(** [ReactionNetwork::ReactionNetwork]: the network and its dependency
    graph.  [value()] on an empty optional throws, which ends the program
    like [std::abort]. *)
Definition new_reaction_network (db : Sql.Database) (threshold : Z)
  : result (ReactionNetwork * graph) :=
  match Sql.metadata db with
  | None => Fault Abort
  | Some metadata_row =>
      dependency_graph ← sized (Sql.number_of_reactions metadata_row)
                           fresh_node;
      match Sql.factors db with
      | None => Fault Abort
      | Some factors_row =>
          initial_state ← sized (Sql.number_of_species metadata_row) 0;
          initial_state ←
            foldM (fun st initial_state_row =>
                     vset st (Sql.species_id initial_state_row)
                          (Sql.count initial_state_row))
                  (Sql.initial_state_rows db) initial_state;
          reactions ← sized (Sql.number_of_reactions metadata_row)
                        zero_reaction;
          '(reactions, reaction_id) ← load_reactions (Sql.reaction_rows db)
                                         reactions;
          if negb (Sql.number_of_reactions metadata_row =? reaction_id + 1)
             || negb (Sql.number_of_reactions metadata_row
                      =? Z.of_nat (length reactions))
          then Fault Abort
          else
            let net := {| reactions := reactions;
                          initial_state := initial_state;
                          initial_propensities := [];
                          factor_zero := Sql.sql_factor_zero factors_row;
                          factor_two := Sql.sql_factor_two factors_row;
                          factor_duplicate :=
                            Sql.sql_factor_duplicate factors_row;
                          dependency_threshold := threshold |} in
            initial_propensities ←
              sized (Sql.number_of_reactions metadata_row) Double.zero;
            initial_propensities ←
              for_upto (Z.of_nat (length initial_propensities))
                (fun i propensities =>
                   p ← compute_propensity net initial_state i;
                   vset propensities i p)
                initial_propensities;
            Ok ({| reactions := reactions;
                   initial_state := initial_state;
                   initial_propensities := initial_propensities;
                   factor_zero := factor_zero net;
                   factor_two := factor_two net;
                   factor_duplicate := factor_duplicate net;
                   dependency_threshold := threshold |},
                dependency_graph)
      end
  end.

End GMC.


(** * The simulation driver ([core/simulation.h]) *)

Module Core.

Record HistoryElement : Type := {
  reaction_id : Z;   (* reaction which fired *)
  time : double      (* time after the reaction has occurred *)
}.

(** [struct Event] of [core/solvers.h], with the two fields the driver
    reads. *)
Record Event : Type := { index : Z; dt : double }.

(** The template parameter [Solver]: construction from a seed and the
    initial propensities, [event()] and [update(Update)].  Both methods may
    change the solver, so both return the new solver. *)
Class Solver (S : Type) : Type := {
  solver_new : Z -> list double -> S;
  event : S -> option Event * S;
  update : S -> GMC.Update -> S
}.

(** The template parameter [Model].  [M] holds what the model owns, also
    what [update_propensities] mutates; the calls of [update_function] made
    by [update_propensities] are returned in the order of the calls. *)
Class Model (M : Type) : Type := {
  initial_state : M -> list Z;
  initial_propensities : M -> list double;
  update_state : M -> list Z -> Z -> result (list Z);
  update_propensities : M -> list Z -> Z -> result (M * list GMC.Update)
}.

(** Outcomes of the driver: a fault of the model is kept apart from a
    write outside the history buffer. *)
Inductive outcome (A : Type) : Type :=
| Done (a : A)
| HistoryOverrun            (* history[step] outside the buffer *)
| ModelFault (f : fault)    (* a fault inside a call into the model *)
| LengthError               (* std::vector of a negative size *)
| BudgetExhausted.          (* the loop budget of the model was exhausted *)
Arguments Done {A} a.
Arguments HistoryOverrun {A}.
Arguments ModelFault {A} f.
Arguments LengthError {A}.
Arguments BudgetExhausted {A}.

Section Driver.
Context {S M : Type} `{Solver S} `{Model M}.

Record Simulation : Type := {
  model : M;
  seed : Z;
  state : list Z;
  sim_time : double;
  time_cutoff : double;
  step : Z;
  solver : S;
  history : list HistoryElement
}.

(** [Simulation::Simulation]; [history (step_cutoff + 1)] value-initialises
    the buffer.  The size is computed as an [int]: the vector refuses a
    negative size, and at the largest [int] the sum overflows, so that no
    buffer of [step_cutoff + 1] elements is built either. *)
Definition new_simulation (m : M) (seed step_cutoff : Z) (time_cutoff : double)
  : outcome Simulation :=
  if (step_cutoff + 1 <? 0) || (Int.max <? step_cutoff + 1) then LengthError
  else Done {| model := m;
               seed := seed;
               state := initial_state m;
               sim_time := Double.zero;
               time_cutoff := time_cutoff;
               step := 0;
               solver := solver_new seed (initial_propensities m);
               history := replicate (Z.to_nat (step_cutoff + 1))
                            {| reaction_id := 0; time := Double.zero |} |}.

(** [Simulation::execute_step]; the boolean is the returned value. *)
Definition execute_step (sim : Simulation) : outcome (bool * Simulation) :=
  let '(maybe_event, solver1) := event (solver sim) in
  match maybe_event with
  | None =>
      Done (false,
            {| model := model sim; seed := seed sim; state := state sim;
               sim_time := sim_time sim; time_cutoff := time_cutoff sim;
               step := step sim; solver := solver1;
               history := history sim |})
  | Some ev =>
      let next_reaction := index ev in
      let time1 := sim_time sim ⊕ dt ev in
      match vset (history sim) (step sim)
                 {| reaction_id := next_reaction; time := time1 |} with
      | Fault _ => HistoryOverrun
      | Ok history1 =>
          let step1 := step sim + 1 in
          match update_state (model sim) (state sim) next_reaction with
          | Fault f => ModelFault f
          | Ok state1 =>
              match update_propensities (model sim) state1 next_reaction with
              | Fault f => ModelFault f
              | Ok (model1, updates) =>
                  let solver2 := fold_left update updates solver1 in
                  Done (if Double.geb time1 (time_cutoff sim) then false
                        else true,
                        {| model := model1; seed := seed sim; state := state1;
                           sim_time := time1; time_cutoff := time_cutoff sim;
                           step := step1; solver := solver2;
                           history := history1 |})
              end
          end
      end
  end.

(** [Simulation::execute_steps]: [while (execute_step()) if (step >
    step_cutoff) break;], with a budget on the number of iterations. *)
Fixpoint execute_steps (fuel : nat) (step_cutoff : Z) (sim : Simulation)
  : outcome Simulation :=
  match fuel with
  | O => BudgetExhausted
  | Datatypes.S fuel' =>
      match execute_step sim with
      | Done (continue, sim1) =>
          if continue then
            if step sim1 >? step_cutoff then Done sim1
            else execute_steps fuel' step_cutoff sim1
          else Done sim1
      | HistoryOverrun => HistoryOverrun
      | ModelFault f => ModelFault f
      | LengthError => LengthError
      | BudgetExhausted => BudgetExhausted
      end
  end.
End Driver.

Arguments Simulation S M : clear implicits.

End Core.

(** The reaction network as a [Model]: the network and its dependency
    graph. *)
#[global] Instance reaction_network_model
  : Core.Model (GMC.ReactionNetwork * GMC.graph) := {|
  Core.initial_state := fun m => GMC.initial_state (fst m);
  Core.initial_propensities := fun m => GMC.initial_propensities (fst m);
  Core.update_state := fun m => GMC.update_state (fst m);
  Core.update_propensities := fun m state next =>
    '(g, ups) ← GMC.update_propensities (fst m) (snd m) state next;
    Ok ((fst m, g), ups)
|}.

(** A solver that replays a fixed list of events and ignores updates; it
    serves as a stand-in for the concrete solvers of [core/solvers.h].  A
    solver made from seed [n] fires reaction 0 [n] times, one unit of time
    apart. *)
#[global] Instance scripted_solver : Core.Solver (list Core.Event) := {|
  Core.solver_new := fun seed _ =>
    replicate (Z.to_nat seed)
      {| Core.index := 0; Core.dt := Double.of_int 1 |};
  Core.event := fun s => match s with
                         | [] => (None, [])
                         | e :: s' => (Some e, s')
                         end;
  Core.update := fun s _ => s
|}.

(** * The nanoparticle engine ([NPMC/nano_particle.h]) *)

(** [std::set<int>]: the elements in increasing order, which is the order
    in which an iterator visits them. *)
Module IntSet.

Definition t : Type := list Z.

Definition empty : t := [].

Fixpoint insert (x : Z) (s : t) : t :=
  match s with
  | [] => [x]
  | y :: s' =>
      if x <? y then x :: y :: s'
      else if x =? y then y :: s'
      else y :: insert x s'
  end.

(** [s.erase(x)] removes the element equal to [x], if any. *)
Definition erase (x : Z) (s : t) : t := filter (fun y => y <> x) s.

(** [s.find(x) != s.end()] *)
Definition mem (x : Z) (s : t) : bool := bool_decide (x ∈ s).

(** The value [s.erase(x)] returns: the number of elements removed. *)
Definition count (x : Z) (s : t) : Z := if mem x s then 1 else 0.

Definition size (s : t) : Z := Z.of_nat (length s).

End IntSet.

(** The row types of [NPMC/sql_types.h], which is not among the sources:
    each record has the columns the constructor reads. *)
Module MetadataSql.
Record t : Type := { number_of_species : Z; number_of_sites : Z }.
End MetadataSql.

Module FactorsSql.
Record t : Type := {
  one_site_interaction_factor : double;
  two_site_interaction_factor : double;
  interaction_radius_bound : double;
  distance_factor_type : string
}.
End FactorsSql.

Module SpeciesSql.
Record t : Type := { species_id : Z; degrees_of_freedom : Z }.
End SpeciesSql.

Module SiteSql.
Record t : Type := { site_id : Z; x : double; y : double; z : double;
                     species_id : Z }.
End SiteSql.

Module InteractionSql.
Record t : Type := {
  number_of_sites : Z;
  species_id_1 : Z; species_id_2 : Z;
  left_state_1 : Z; left_state_2 : Z;
  right_state_1 : Z; right_state_2 : Z;
  rate : double
}.
End InteractionSql.

Module InitialStateSql.
Record t : Type := { site_id : Z; degree_of_freedom : Z }.
End InitialStateSql.

(** What the two [SqlConnection]s deliver: the rows of each table, in
    reading order; [metadata] and [factors] are the first row, if any. *)
Record Database : Type := {
  metadata : option MetadataSql.t;
  factors : option FactorsSql.t;
  species_rows : list SpeciesSql.t;
  site_rows : list SiteSql.t;
  interaction_rows : list InteractionSql.t;
  initial_state_rows : list InitialStateSql.t
}.

Module Site.
Record t : Type := { x : double; y : double; z : double; species_id : Z }.
End Site.

(** [struct Interaction] and the nanoparticle [struct Reaction] are declared
    in [NPMC/sql_types.h]; their fields are the ones the engine initialises
    and reads. *)
Module Interaction.
Record t : Type := {
  interaction_id : Z;
  number_of_sites : Z;
  species_id : Z * Z;
  left_state : Z * Z;
  right_state : Z * Z;
  rate : double
}.
End Interaction.

Module Reaction.
Record t : Type := {
  site_id : Z * Z;
  interaction : Interaction.t;
  rate : double
}.
End Reaction.

(** [(unsigned) i] for a 32-bit [int]. *)
Definition to_unsigned (i : Z) : Z := i mod 2 ^ 32.

Module NPMC.

Definition site_distance_squared (s1 s2 : Site.t) : double :=
  let x_diff := Site.x s1 ⊖ Site.x s2 in
  let y_diff := Site.y s1 ⊖ Site.y s2 in
  let z_diff := Site.z s1 ⊖ Site.z s2 in
  x_diff ⊗ x_diff ⊕ y_diff ⊗ y_diff ⊕ z_diff ⊗ z_diff.

Record NanoParticle : Type := {
  degrees_of_freedom : list Z;
  sites : list Site.t;
  distance_matrix : list (list double);
  initial_reactions : list Reaction.t;
  site_reaction_dependency : list IntSet.t;
  one_site_interactions : list Interaction.t;
  two_site_interactions : list Interaction.t;
  one_site_interactions_map : list (list (list Interaction.t));
  two_site_interactions_map :
    list (list (list (list (list Interaction.t))));
  initial_state : list Z;
  current_state : list Z;
  one_site_interaction_factor : double;
  two_site_interaction_factor : double;
  interaction_radius_bound : double;
  distance_factor_function : double -> double
}.

(** [v.resize(n)] on an empty vector; a negative [int] converts to a size
    no allocation can satisfy, and the exception ends the program. *)
Definition resized {A} (n : Z) (d : A) : result (list A) :=
  if n <? 0 then Fault Abort else Ok (replicate (Z.to_nat n) d).

(** [one_site_interactions_map[species][state]] *)
Definition one_site_lookup (map : list (list (list Interaction.t)))
    (species state : Z) : result (list Interaction.t) :=
  by_species ← vget map species;
  vget by_species state.

(** [two_site_interactions_map[species_a][species_b][state_a][state_b]] *)
Definition two_site_lookup
    (map : list (list (list (list (list Interaction.t)))))
    (species_a species_b state_a state_b : Z) : result (list Interaction.t) :=
  m1 ← vget map species_a;
  m2 ← vget m1 species_b;
  m3 ← vget m2 state_a;
  vget m3 state_b.

(** [one_site_interactions_map[species][state].push_back(interaction)] *)
Definition one_site_push (map : list (list (list Interaction.t)))
    (species state : Z) (interaction : Interaction.t)
  : result (list (list (list Interaction.t))) :=
  m1 ← vget map species;
  cell ← vget m1 state;
  m1' ← vset m1 state (cell ++ [interaction]);
  vset map species m1'.

Definition two_site_push
    (map : list (list (list (list (list Interaction.t)))))
    (species_a species_b state_a state_b : Z) (interaction : Interaction.t)
  : result (list (list (list (list (list Interaction.t))))) :=
  m1 ← vget map species_a;
  m2 ← vget m1 species_b;
  m3 ← vget m2 state_a;
  cell ← vget m3 state_b;
  m3' ← vset m3 state_b (cell ++ [interaction]);
  m2' ← vset m2 state_a m3';
  m1' ← vset m1 species_b m2';
  vset map species_a m1'.

(** The loop over the interaction rows: the two interaction vectors, the
    interaction counter and [num_states]. *)
Definition read_interaction
    (acc : list Interaction.t * list Interaction.t * Z * Z)
    (row : InteractionSql.t)
  : list Interaction.t * list Interaction.t * Z * Z :=
  let '(one_site, two_site, interaction_counter, num_states) := acc in
  let interaction :=
    {| Interaction.interaction_id := interaction_counter;
       Interaction.number_of_sites := InteractionSql.number_of_sites row;
       Interaction.species_id := (InteractionSql.species_id_1 row,
                                  InteractionSql.species_id_2 row);
       Interaction.left_state := (InteractionSql.left_state_1 row,
                                  InteractionSql.left_state_2 row);
       Interaction.right_state := (InteractionSql.right_state_1 row,
                                   InteractionSql.right_state_2 row);
       Interaction.rate := InteractionSql.rate row |} in
  let one_site' :=
    if InteractionSql.number_of_sites row =? 1
    then one_site ++ [interaction] else one_site in
  let two_site' :=
    if InteractionSql.number_of_sites row =? 1 then two_site
    else if InteractionSql.number_of_sites row =? 2
         then two_site ++ [interaction] else two_site in
  let num_states' :=
    if num_states <? InteractionSql.left_state_1 row
    then InteractionSql.left_state_1 row else num_states in
  (one_site', two_site', interaction_counter + 1, num_states').

Definition read_interactions (rows : list InteractionSql.t)
  : list Interaction.t * list Interaction.t * Z * Z :=
  fold_left read_interaction rows ([], [], 0, 0).

(** The two lookup tensors: resized, then filled. *)
Definition build_interaction_maps (num_species num_states : Z)
    (one_site two_site : list Interaction.t)
  : result (list (list (list Interaction.t))
            * list (list (list (list (list Interaction.t))))) :=
  cells1 ← resized num_states ([] : list Interaction.t);
  map1 ← resized num_species cells1;
  cells2 ← resized num_states cells1;
  by_species2 ← resized num_species cells2;
  map2 ← resized num_species by_species2;
  map1 ← foldM (fun map interaction =>
                  one_site_push map
                    (fst (Interaction.species_id interaction))
                    (fst (Interaction.left_state interaction))
                    interaction)
               one_site map1;
  map2 ← foldM (fun map interaction =>
                  two_site_push map
                    (fst (Interaction.species_id interaction))
                    (snd (Interaction.species_id interaction))
                    (fst (Interaction.left_state interaction))
                    (snd (Interaction.left_state interaction))
                    interaction)
               two_site map2;
  Ok (map1, map2).

(** [NanoParticle::compute_distance_matrix] *)
Definition compute_distance_matrix (sites : list Site.t)
  : list (list double) :=
  map (fun si => map (fun sj => Double.sqrt (site_distance_squared si sj))
                     sites)
      sites.

(** [current_site_reaction_dependency[site].insert(slot)] *)
Definition dep_insert (deps : list IntSet.t) (site slot : Z)
  : result (list IntSet.t) :=
  set ← vget deps site;
  vset deps site (IntSet.insert slot set).

(** [current_site_reaction_dependency[site].erase(slot)], with the number
    of erased elements. *)
Definition dep_erase (deps : list IntSet.t) (site slot : Z)
  : result (list IntSet.t * Z) :=
  set ← vget deps site;
  deps' ← vset deps site (IntSet.erase slot set);
  Ok (deps', IntSet.count slot set).

Section Engine.
Variable m : NanoParticle.

Definition one_site_reaction (site_id_0 : Z) (interaction : Interaction.t)
  : Reaction.t :=
  {| Reaction.site_id := (site_id_0, -1);
     Reaction.interaction := interaction;
     Reaction.rate :=
       Interaction.rate interaction ⊗ one_site_interaction_factor m |}.

Definition two_site_reaction (donor acceptor : Z) (distance : double)
    (interaction : Interaction.t) : Reaction.t :=
  {| Reaction.site_id := (donor, acceptor);
     Reaction.interaction := interaction;
     Reaction.rate :=
       distance_factor_function m distance ⊗ Interaction.rate interaction
       ⊗ two_site_interaction_factor m |}.

(** The body of the constructor's loop over [site_id_0]: the state is
    [initial_reactions], [site_reaction_dependency] and [reaction_count]. *)
Definition enumerate_site (site_id_0 : Z)
    (acc : list Reaction.t * list IntSet.t * Z)
  : result (list Reaction.t * list IntSet.t * Z) :=
  site_0_state ← vget (current_state m) site_id_0;
  site_0 ← vget (sites m) site_id_0;
  let site_0_species_id := Site.species_id site_0 in
  available ← one_site_lookup (one_site_interactions_map m)
                 site_0_species_id site_0_state;
  acc ← foldM (fun '(reactions, deps, reaction_count) interaction =>
                 deps ← dep_insert deps site_id_0 reaction_count;
                 Ok (reactions ++ [one_site_reaction site_id_0 interaction],
                     deps, reaction_count + 1))
              available acc;
  for_upto (Z.of_nat (length (sites m)))
    (fun site_id_1 acc =>
       if site_id_0 =? site_id_1 then Ok acc
       else
         site_1_state ← vget (current_state m) site_id_1;
         site_1 ← vget (sites m) site_id_1;
         let site_1_species_id := Site.species_id site_1 in
         row ← vget (distance_matrix m) site_id_0;
         distance ← vget row site_id_1;
         if Double.ltb distance (interaction_radius_bound m) then
           available ← two_site_lookup (two_site_interactions_map m)
                          site_0_species_id site_1_species_id
                          site_0_state site_1_state;
           acc ← foldM (fun '(reactions, deps, reaction_count) interaction =>
                          deps ← dep_insert deps site_id_0 reaction_count;
                          deps ← dep_insert deps site_id_1 reaction_count;
                          Ok (reactions
                              ++ [two_site_reaction site_id_0 site_id_1
                                    distance interaction],
                              deps, reaction_count + 1))
                       available acc;
           available ← two_site_lookup (two_site_interactions_map m)
                          site_1_species_id site_0_species_id
                          site_1_state site_0_state;
           foldM (fun '(reactions, deps, reaction_count) interaction =>
                    deps ← dep_insert deps site_id_0 reaction_count;
                    deps ← dep_insert deps site_id_1 reaction_count;
                    Ok (reactions
                        ++ [two_site_reaction site_id_1 site_id_0
                              distance interaction],
                        deps, reaction_count + 1))
                 available acc
         else Ok acc)
    acc.

(** The first part of [update_reactions], for one site [k] of the fired
    reaction: the reactions of that site in its new state. *)
Definition new_reactions_of_site (state : list Z) (reaction : Reaction.t)
    (k : Z) (new_reactions : list Reaction.t) : result (list Reaction.t) :=
  site_id_0 ← at2 (Reaction.site_id reaction) k;
  other_site_id ← (if k =? 0 then Ok (snd (Reaction.site_id reaction))
                   else if k =? 1 then Ok (fst (Reaction.site_id reaction))
                   else Fault Sigint);
  site_0_state ← at2 (Interaction.right_state (Reaction.interaction reaction)) k;
  site_0 ← vget (sites m) site_id_0;
  let site_0_species_id := Site.species_id site_0 in
  available ← one_site_lookup (one_site_interactions_map m)
                 site_0_species_id site_0_state;
  let new_reactions :=
    new_reactions ++ map (one_site_reaction site_id_0) available in
  for_upto (Z.of_nat (length (sites m)))
    (fun site_id_1 new_reactions =>
       if to_unsigned site_id_0 =? site_id_1 then Ok new_reactions
       else
         site_1_state ← vget state site_id_1;
         site_1 ← vget (sites m) site_id_1;
         let site_1_species_id := Site.species_id site_1 in
         row ← vget (distance_matrix m) site_id_0;
         distance ← vget row site_id_1;
         if Double.ltb distance (interaction_radius_bound m) then
           available ← two_site_lookup (two_site_interactions_map m)
                          site_0_species_id site_1_species_id
                          site_0_state site_1_state;
           let new_reactions :=
             new_reactions
             ++ map (two_site_reaction site_id_0 site_id_1 distance)
                    available in
           if site_id_1 =? to_unsigned other_site_id then Ok new_reactions
           else
             available ← two_site_lookup (two_site_interactions_map m)
                            site_1_species_id site_0_species_id
                            site_1_state site_0_state;
             Ok (new_reactions
                 ++ map (two_site_reaction site_id_1 site_id_0 distance)
                        available)
         else Ok new_reactions)
    new_reactions.

Definition compute_new_reactions (state : list Z) (reaction : Reaction.t)
  : result (list Reaction.t) :=
  for_upto (Interaction.number_of_sites (Reaction.interaction reaction))
    (new_reactions_of_site state reaction) [].

End Engine.

(** [NanoParticle::update_state].  The function stops at the first
    [raise(SIGINT)], whose default action ends the process; the result is
    the state vector when the function stopped, and how it stopped. *)
Fixpoint update_state_loop (n : nat) (k : Z) (state : list Z)
    (reaction : Reaction.t) : list Z * result unit :=
  match n with
  | O => (state, Ok tt)
  | S n' =>
      let interaction := Reaction.interaction reaction in
      match (site ← at2 (Reaction.site_id reaction) k;
             found ← vget state site;
             expected ← at2 (Interaction.left_state interaction) k;
             Ok (site, found, expected)) with
      | Fault f => (state, Fault f)
      | Ok (site, found, expected) =>
          if found =? expected then
            match (new ← at2 (Interaction.right_state interaction) k;
                   vset state site new) with
            | Fault f => (state, Fault f)
            | Ok state' => update_state_loop n' (k + 1) state' reaction
            end
          else (state, Fault Sigint)
      end
  end.

Definition update_state (state : list Z) (reaction : Reaction.t)
  : list Z * result unit :=
  update_state_loop
    (Z.to_nat (Interaction.number_of_sites (Reaction.interaction reaction)))
    0 state reaction.

(** [for (k < number_of_sites) deps[reaction.site_id[k]].insert(slot)] *)
Definition register (deps : list IntSet.t) (reaction : Reaction.t) (slot : Z)
  : result (list IntSet.t) :=
  for_upto (Interaction.number_of_sites (Reaction.interaction reaction))
    (fun k deps =>
       site ← at2 (Reaction.site_id reaction) k;
       dep_insert deps site slot)
    deps.

(** The body of the inner loop that collects the slots to remove. *)
Definition collect_slot (current_reactions : list Reaction.t)
    (acc : IntSet.t * list IntSet.t) (reaction_id_to_remove : Z)
  : result (IntSet.t * list IntSet.t) :=
  let '(reactions_to_remove, deps) := acc in
  reaction_to_remove ← vget current_reactions reaction_id_to_remove;
  '(deps, _) ← dep_erase deps (fst (Reaction.site_id reaction_to_remove))
                 reaction_id_to_remove;
  deps ← (if Interaction.number_of_sites
               (Reaction.interaction reaction_to_remove) =? 2
          then '(deps, _) ← dep_erase deps
                              (snd (Reaction.site_id reaction_to_remove))
                              reaction_id_to_remove;
               Ok deps
          else Ok deps);
  Ok (IntSet.insert reaction_id_to_remove reactions_to_remove, deps).

(** "Find indexes of reactions to be removed" *)
Definition collect_removals (reaction : Reaction.t) (deps : list IntSet.t)
    (current_reactions : list Reaction.t)
  : result (IntSet.t * list IntSet.t) :=
  for_upto (Interaction.number_of_sites (Reaction.interaction reaction))
    (fun k acc =>
       site_id ← at2 (Reaction.site_id reaction) k;
       reaction_dependency ← vget (snd acc) site_id;
       foldM (collect_slot current_reactions) reaction_dependency acc)
    (IntSet.empty, deps).

(** "Add the new reactions to the current_reactions vector": [i] counts the
    new reactions already placed and [reactions_to_remove] is what is left
    of the set, its first element being [*reactions_to_remove_itr]. *)
Fixpoint place_new_reactions (i n_reactions_to_remove : Z)
    (new_reactions : list Reaction.t) (reactions_to_remove : IntSet.t)
    (deps : list IntSet.t) (current_reactions : list Reaction.t)
  : result (IntSet.t * list IntSet.t * list Reaction.t) :=
  match new_reactions with
  | [] => Ok (reactions_to_remove, deps, current_reactions)
  | new_reaction :: rest =>
      if i <? n_reactions_to_remove then
        match reactions_to_remove with
        | [] => Fault OutOfBounds
        | slot :: reactions_to_remove' =>
            current_reactions ← vset current_reactions slot new_reaction;
            deps ← register deps new_reaction slot;
            place_new_reactions (i + 1) n_reactions_to_remove rest
              reactions_to_remove' deps current_reactions
        end
      else
        let current_reactions := current_reactions ++ [new_reaction] in
        deps ← register deps new_reaction
                 (Z.of_nat (length current_reactions) - 1);
        place_new_reactions (i + 1) n_reactions_to_remove rest
          reactions_to_remove deps current_reactions
  end.

(** The remapping of a moved reaction in the per-site index. *)
Definition remap (deps : list IntSet.t) (reaction_to_move : Reaction.t)
    (reaction_idx_to_move destination : Z) : result (list IntSet.t) :=
  for_upto (Interaction.number_of_sites (Reaction.interaction reaction_to_move))
    (fun k deps =>
       site_id ← at2 (Reaction.site_id reaction_to_move) k;
       '(deps, num_reactions_deleted) ← dep_erase deps site_id
                                           reaction_idx_to_move;
       if num_reactions_deleted =? 1 then dep_insert deps site_id destination
       else Fault Sigint)
    deps.

(** The [while (reactions_moved < n_reactions_to_move)] loop;
    [reactions_moved_itr] is the suffix of [reactions_to_remove] that starts
    at the iterator.  Every iteration that does not leave the loop
    decrements [reaction_idx_to_move]. *)
Fixpoint move_reactions (fuel : nat)
    (n_reactions_to_move reactions_moved reaction_idx_to_move : Z)
    (reactions_to_remove : IntSet.t) (reactions_moved_itr : list Z)
    (deps : list IntSet.t) (current_reactions : list Reaction.t)
  : result (list IntSet.t * list Reaction.t) :=
  if reactions_moved <? n_reactions_to_move then
    match fuel with
    | O => Fault OutOfFuel
    | S fuel' =>
        if IntSet.mem reaction_idx_to_move reactions_to_remove then
          move_reactions fuel' n_reactions_to_move reactions_moved
            (reaction_idx_to_move - 1) reactions_to_remove
            reactions_moved_itr deps current_reactions
        else
          match reactions_moved_itr with
          | [] => Fault OutOfBounds
          | destination :: reactions_moved_itr' =>
              if reaction_idx_to_move <? destination then
                Ok (deps, current_reactions)
              else
                reaction_to_move ← vget current_reactions reaction_idx_to_move;
                current_reactions ← vset current_reactions destination
                                      reaction_to_move;
                deps ← remap deps reaction_to_move reaction_idx_to_move
                         destination;
                move_reactions fuel' n_reactions_to_move (reactions_moved + 1)
                  (reaction_idx_to_move - 1) reactions_to_remove
                  reactions_moved_itr' deps current_reactions
          end
    end
  else Ok (deps, current_reactions).

(** The part of [update_reactions] after the new reactions are known. *)
Definition replace_reactions (new_reactions : list Reaction.t)
    (reaction : Reaction.t) (deps : list IntSet.t)
    (current_reactions : list Reaction.t)
  : result (list IntSet.t * list Reaction.t) :=
  '(reactions_to_remove, deps) ← collect_removals reaction deps
                                    current_reactions;
  let n_reactions_to_remove := IntSet.size reactions_to_remove in
  '(reactions_to_remove, deps, current_reactions) ←
    place_new_reactions 0 n_reactions_to_remove new_reactions
      reactions_to_remove deps current_reactions;
  if 0 <? IntSet.size reactions_to_remove then
    let n_reactions_to_move := IntSet.size reactions_to_remove in
    '(deps, current_reactions) ←
      move_reactions (S (length current_reactions)) n_reactions_to_move 0
        (Z.of_nat (length current_reactions) - 1)
        reactions_to_remove reactions_to_remove deps current_reactions;
    Ok (deps,
        take (Z.to_nat (Z.of_nat (length current_reactions)
                        - n_reactions_to_move))
             current_reactions)
  else Ok (deps, current_reactions).

(** [NanoParticle::update_reactions]; the result is the new
    [current_site_reaction_dependency] and the new [current_reactions]. *)
Definition update_reactions (m : NanoParticle) (state : list Z)
    (deps : list IntSet.t) (current_reactions : list Reaction.t)
    (reaction : Reaction.t)
  : result (list IntSet.t * list Reaction.t) :=
  new_reactions ← compute_new_reactions m state reaction;
  replace_reactions new_reactions reaction deps current_reactions.

(** [NanoParticle::NanoParticle].  [libm_pow] stands for [pow] of the C
    library, used by the inverse-cubic distance factor. *)
Definition new_nano_particle (libm_pow : double -> double -> double)
    (db : Database) : result NanoParticle :=
  match metadata db with
  | None => Fault Abort
  | Some metadata_row =>
  match factors db with
  | None => Fault Abort
  | Some factor_row =>
      let interaction_radius_bound :=
        FactorsSql.interaction_radius_bound factor_row in
      distance_factor_function ←
        (if String.eqb (FactorsSql.distance_factor_type factor_row) "linear"
         then Ok (fun distance =>
                    Double.of_int 1 ⊖ distance ⊘ interaction_radius_bound)
         else if String.eqb (FactorsSql.distance_factor_type factor_row)
                            "inverse_cubic"
         then Ok (fun distance =>
                    Double.of_int 1 ⊘ libm_pow distance (Double.of_int 6))
         else Fault Abort);
      degrees_of_freedom ← resized (MetadataSql.number_of_species metadata_row) 0;
      degrees_of_freedom ←
        foldM (fun dof row =>
                 vset dof (SpeciesSql.species_id row)
                          (SpeciesSql.degrees_of_freedom row))
              (species_rows db) degrees_of_freedom;
      sites ← resized (MetadataSql.number_of_sites metadata_row)
                {| Site.x := Double.zero; Site.y := Double.zero;
                   Site.z := Double.zero; Site.species_id := 0 |};
      site_reaction_dependency ←
        resized (MetadataSql.number_of_sites metadata_row) IntSet.empty;
      sites ←
        foldM (fun sites row =>
                 vset sites (SiteSql.site_id row)
                   {| Site.x := SiteSql.x row; Site.y := SiteSql.y row;
                      Site.z := SiteSql.z row;
                      Site.species_id := SiteSql.species_id row |})
              (site_rows db) sites;
      let num_species := MetadataSql.number_of_species metadata_row in
      let '(one_site_interactions, two_site_interactions, _, num_states) :=
        read_interactions (interaction_rows db) in
      let num_states := num_states + 1 in
      '(one_site_interactions_map, two_site_interactions_map) ←
        build_interaction_maps num_species num_states
          one_site_interactions two_site_interactions;
      initial_state ← resized (MetadataSql.number_of_sites metadata_row) 0;
      initial_state ←
        foldM (fun st row =>
                 vset st (InitialStateSql.site_id row)
                         (InitialStateSql.degree_of_freedom row))
              (initial_state_rows db) initial_state;
      let loaded :=
        {| degrees_of_freedom := degrees_of_freedom;
           sites := sites;
           distance_matrix := compute_distance_matrix sites;
           initial_reactions := [];
           site_reaction_dependency := site_reaction_dependency;
           one_site_interactions := one_site_interactions;
           two_site_interactions := two_site_interactions;
           one_site_interactions_map := one_site_interactions_map;
           two_site_interactions_map := two_site_interactions_map;
           initial_state := initial_state;
           current_state := initial_state;
           one_site_interaction_factor :=
             FactorsSql.one_site_interaction_factor factor_row;
           two_site_interaction_factor :=
             FactorsSql.two_site_interaction_factor factor_row;
           interaction_radius_bound := interaction_radius_bound;
           distance_factor_function := distance_factor_function |} in
      '(initial_reactions, site_reaction_dependency, _) ←
        for_upto (Z.of_nat (length sites)) (enumerate_site loaded)
          ([], site_reaction_dependency, 0);
      Ok {| degrees_of_freedom := degrees_of_freedom;
            sites := sites;
            distance_matrix := distance_matrix loaded;
            initial_reactions := initial_reactions;
            site_reaction_dependency := site_reaction_dependency;
            one_site_interactions := one_site_interactions;
            two_site_interactions := two_site_interactions;
            one_site_interactions_map := one_site_interactions_map;
            two_site_interactions_map := two_site_interactions_map;
            initial_state := initial_state;
            current_state := initial_state;
            one_site_interaction_factor :=
              one_site_interaction_factor loaded;
            two_site_interaction_factor :=
              two_site_interaction_factor loaded;
            interaction_radius_bound := interaction_radius_bound;
            distance_factor_function := distance_factor_function |}
  end
  end.

End NPMC.

(** * The dependency graph of the reaction network *)

Module Dep.
Import GMC.

(** The species a reaction consumes and produces: the first
    [number_of_reactants] (resp. [number_of_products]) array entries. *)
Definition reactant_species (r : Reaction) : list Z :=
  take (Z.to_nat (number_of_reactants r))
       [fst (reactants r); snd (reactants r)].

Definition product_species (r : Reaction) : list Z :=
  take (Z.to_nat (number_of_products r))
       [fst (products r); snd (products r)].

(** The specification's [Dep]: reaction [ri] has a reactant among the
    reactants and products of the fired reaction [rj]. *)
Definition shares_species (ri rj : Reaction) : Prop :=
  exists s, s ∈ reactant_species ri
            /\ (s ∈ reactant_species rj \/ s ∈ product_species rj).

Definition sharesb (ri rj : Reaction) : bool :=
  existsb (fun s => existsb (Z.eqb s) (reactant_species rj)
                    || existsb (Z.eqb s) (product_species rj))
          (reactant_species ri).

(** The data model: at most two reactants and two products. *)
Definition wf_reaction (r : Reaction) : Prop :=
  0 <= number_of_reactants r <= 2 /\ 0 <= number_of_products r <= 2.

Definition wf_network (net : ReactionNetwork) : Prop :=
  Forall wf_reaction (reactions net).

(** The indices, counted from [start], of the [true] entries. *)
Fixpoint indices_from (start : Z) (flags : list bool) : list Z :=
  match flags with
  | [] => []
  | b :: flags' =>
      if b then start :: indices_from (start + 1) flags'
      else indices_from (start + 1) flags'
  end.

(** The dependency list of the specification, as an increasing list. *)
Definition dep_list (net : ReactionNetwork) (rj : Reaction) : list Z :=
  indices_from 0 (map (fun ri => sharesb ri rj) (reactions net)).

End Dep.

(** Scenario B of the specification: [A + A -> B] with rate 0.5 and
    [B -> A + A] with rate 0.1, all factors equal to 1. *)
Definition dimerization : GMC.ReactionNetwork :=
  {| GMC.reactions :=
       [ {| GMC.number_of_reactants := 2; GMC.number_of_products := 1;
            GMC.reactants := (0, 0); GMC.products := (1, -1);
            GMC.rate := Double.of_int 1 ⊘ Double.of_int 2 |};
         {| GMC.number_of_reactants := 1; GMC.number_of_products := 2;
            GMC.reactants := (1, -1); GMC.products := (0, 0);
            GMC.rate := Double.of_int 1 ⊘ Double.of_int 10 |} ];
     GMC.initial_state := [4; 0];
     GMC.initial_propensities := [Double.of_int 6; Double.zero];
     GMC.factor_zero := Double.of_int 1;
     GMC.factor_two := Double.of_int 1;
     GMC.factor_duplicate := Double.of_int 1;
     GMC.dependency_threshold := 0 |}.

(** A network whose two factors are the finite number [2^1000]: their
    product overflows to [+infinity]. *)
Definition huge_factors : GMC.ReactionNetwork :=
  {| GMC.reactions :=
       [ {| GMC.number_of_reactants := 2; GMC.number_of_products := 0;
            GMC.reactants := (0, 0); GMC.products := (-1, -1);
            GMC.rate := Double.of_int 1 |} ];
     GMC.initial_state := [0];
     GMC.initial_propensities := [S754_nan];
     GMC.factor_zero := Double.of_int 1;
     GMC.factor_two := S754_finite false 4503599627370496 948;
     GMC.factor_duplicate := S754_finite false 4503599627370496 948;
     GMC.dependency_threshold := 0 |}.


(** [n] successive calls of [get_dependency_node] on the same reaction. *)
Fixpoint repeated_get_dependency_node (n : nat) (net : GMC.ReactionNetwork)
    (g : GMC.graph) (reaction_index : Z) : result GMC.graph :=
  match n with
  | O => Ok g
  | S n' =>
      '(g', _) ← GMC.get_dependency_node net g reaction_index;
      repeated_get_dependency_node n' net g' reaction_index
  end.

(** The node of reaction [rj] after one more call of
    [get_dependency_node]. *)
Definition node_after_call (net : GMC.ReactionNetwork) (rj : GMC.Reaction)
    (node : GMC.DependentsNode) : GMC.DependentsNode :=
  {| GMC.dependents :=
       match GMC.dependents node with
       | Some l => Some l
       | None =>
           if GMC.dependency_threshold net <=? GMC.number_of_occurrences node
           then Some (Dep.dep_list net rj) else None
       end;
     GMC.number_of_occurrences := GMC.number_of_occurrences node + 1 |}.

(** The node of reaction [rj], created at load, after [k] calls. *)
Definition node_after (net : GMC.ReactionNetwork) (rj : GMC.Reaction) (k : Z)
  : GMC.DependentsNode :=
  {| GMC.dependents :=
       if GMC.dependency_threshold net + 1 <=? k
       then Some (Dep.dep_list net rj) else None;
     GMC.number_of_occurrences := k |}.

(** [ups] is one update per element of [l], in order, each carrying the
    propensity computed in state [x]. *)
Definition emits (net : GMC.ReactionNetwork) (x : list Z)
    (ups : list GMC.Update) (l : list Z) : Prop :=
  map GMC.index ups = l
  /\ Forall (fun u => GMC.compute_propensity net x (GMC.index u)
                      = Ok (GMC.propensity u)) ups.

(** ** The scenarios of the specification *)

Definition site_at (id : Z) (x : Z) : SiteSql.t :=
  {| SiteSql.site_id := id; SiteSql.x := Double.of_int x;
     SiteSql.y := Double.zero; SiteSql.z := Double.zero;
     SiteSql.species_id := 0 |}.

(** Scenario E: two sites of one species with two states, at distance 1;
    one two-site interaction [(0,0) -> (1,1)] with rate 1; radius bound
    10; linear distance factor; initial state [[0; 0]]. *)
Definition two_site_pair (two_site_factor : double) : Database :=
  {| metadata := Some {| MetadataSql.number_of_species := 1;
                         MetadataSql.number_of_sites := 2 |};
     factors := Some {| FactorsSql.one_site_interaction_factor := Double.of_int 1;
                        FactorsSql.two_site_interaction_factor := two_site_factor;
                        FactorsSql.interaction_radius_bound := Double.of_int 10;
                        FactorsSql.distance_factor_type := "linear" |};
     species_rows := [ {| SpeciesSql.species_id := 0;
                          SpeciesSql.degrees_of_freedom := 2 |} ];
     site_rows := [ site_at 0 0; site_at 1 1 ];
     interaction_rows :=
       [ {| InteractionSql.number_of_sites := 2;
            InteractionSql.species_id_1 := 0; InteractionSql.species_id_2 := 0;
            InteractionSql.left_state_1 := 0; InteractionSql.left_state_2 := 0;
            InteractionSql.right_state_1 := 1; InteractionSql.right_state_2 := 1;
            InteractionSql.rate := Double.of_int 1 |} ];
     initial_state_rows :=
       [ {| InitialStateSql.site_id := 0; InitialStateSql.degree_of_freedom := 0 |};
         {| InitialStateSql.site_id := 1; InitialStateSql.degree_of_freedom := 0 |} ]
  |}.

(** Scenario D: two sites of one species with two states and the single
    one-site interaction [0 -> 1] with rate 1; initial state [[0; 0]]. *)
Definition one_site_only : Database :=
  {| metadata := Some {| MetadataSql.number_of_species := 1;
                         MetadataSql.number_of_sites := 2 |};
     factors := Some {| FactorsSql.one_site_interaction_factor := Double.of_int 1;
                        FactorsSql.two_site_interaction_factor := Double.of_int 1;
                        FactorsSql.interaction_radius_bound := Double.of_int 10;
                        FactorsSql.distance_factor_type := "linear" |};
     species_rows := [ {| SpeciesSql.species_id := 0;
                          SpeciesSql.degrees_of_freedom := 2 |} ];
     site_rows := [ site_at 0 0; site_at 1 1 ];
     interaction_rows :=
       [ {| InteractionSql.number_of_sites := 1;
            InteractionSql.species_id_1 := 0; InteractionSql.species_id_2 := -1;
            InteractionSql.left_state_1 := 0; InteractionSql.left_state_2 := -1;
            InteractionSql.right_state_1 := 1; InteractionSql.right_state_2 := -1;
            InteractionSql.rate := Double.of_int 1 |} ];
     initial_state_rows :=
       [ {| InitialStateSql.site_id := 0; InitialStateSql.degree_of_freedom := 0 |};
         {| InitialStateSql.site_id := 1; InitialStateSql.degree_of_freedom := 0 |} ]
  |}.

(** The C library's [pow] is not needed by the linear distance factor; the
    scenarios run with this stand-in. *)
Definition no_pow (_ _ : double) : double := S754_nan.

(** A two-site reaction on the sites 0 and 1 that takes both from state 0
    to state 1. *)
Definition pair_reaction : Reaction.t :=
  {| Reaction.site_id := (0, 1);
     Reaction.interaction :=
       {| Interaction.interaction_id := 0;
          Interaction.number_of_sites := 2;
          Interaction.species_id := (0, 0);
          Interaction.left_state := (0, 0);
          Interaction.right_state := (1, 1);
          Interaction.rate := Double.of_int 1 |};
     Reaction.rate := Double.of_int 1 |}.

(** ** Shapes of the interaction lookup tensors *)

(** The largest [left_state_1] among the interaction rows (0 when there is
    none, or when all are negative). *)
Definition max_left_state_1 (rows : list InteractionSql.t) : Z :=
  fold_left (fun acc row => Z.max acc (InteractionSql.left_state_1 row)) rows 0.

(** [one_site_interactions_map] is [num_species x num_states]. *)
Definition one_site_shape (num_species num_states : Z)
    (map : list (list (list Interaction.t))) : Prop :=
  Z.of_nat (length map) = num_species
  /\ Forall (fun by_species => Z.of_nat (length by_species) = num_states) map.

(** [two_site_interactions_map] is
    [num_species x num_species x num_states x num_states]. *)
Definition two_site_shape (num_species num_states : Z)
    (map : list (list (list (list (list Interaction.t))))) : Prop :=
  Z.of_nat (length map) = num_species
  /\ Forall (fun m1 =>
       Z.of_nat (length m1) = num_species
       /\ Forall (fun m2 =>
            Z.of_nat (length m2) = num_states
            /\ Forall (fun m3 => Z.of_nat (length m3) = num_states) m2) m1)
     map.

(** ** The per-site reaction index *)

(** The sites of a reaction: the first [number_of_sites] entries of
    [site_id]. *)
Definition sites_of (r : Reaction.t) : list Z :=
  take (Z.to_nat (Interaction.number_of_sites (Reaction.interaction r)))
       [fst (Reaction.site_id r); snd (Reaction.site_id r)].

(** A reaction as the enumerations produce them: one or two sites, each a
    site of the model, and two sites distinct. *)
Definition grounded (num_sites : Z) (r : Reaction.t) : Prop :=
  (Interaction.number_of_sites (Reaction.interaction r) = 1
   \/ Interaction.number_of_sites (Reaction.interaction r) = 2)
  /\ Forall (fun s => 0 <= s < num_sites) (sites_of r)
  /\ NoDup (sites_of r).

(** Slot [i] is registered under site [s]. *)
Definition entry (deps : list IntSet.t) (s i : Z) : Prop :=
  exists set, vget deps s = Ok set /\ i ∈ set.

(** The invariant of the per-site index between two steps: every slot of
    [current_reactions] holds a grounded reaction and is registered under
    each of its sites, and every registered slot is a slot of
    [current_reactions] whose reaction has that site. *)
Record quiescent (deps : list IntSet.t) (current_reactions : list Reaction.t)
  : Prop := {
  quiescent_grounded :
    Forall (grounded (Z.of_nat (length deps))) current_reactions;
  quiescent_registered :
    forall i r s, vget current_reactions i = Ok r -> s ∈ sites_of r ->
                  entry deps s i;
  quiescent_live :
    forall s i, entry deps s i ->
                exists r, vget current_reactions i = Ok r /\ s ∈ sites_of r
}.

(** The same invariant while [update_reactions] runs: the slots in [hole]
    hold no live reaction. *)
Record indexed (hole : Z -> Prop) (deps : list IntSet.t)
    (current_reactions : list Reaction.t) : Prop := {
  indexed_grounded :
    forall i r, vget current_reactions i = Ok r -> ~ hole i ->
                grounded (Z.of_nat (length deps)) r;
  indexed_registered :
    forall i r s, vget current_reactions i = Ok r -> ~ hole i ->
                  s ∈ sites_of r -> entry deps s i;
  indexed_live :
    forall s i, entry deps s i ->
                ~ hole i
                /\ exists r, vget current_reactions i = Ok r /\ s ∈ sites_of r
}.

(** The fired reaction and reaction [r] have a site in common. *)
Definition touches (fired r : Reaction.t) : Prop :=
  exists s, s ∈ sites_of fired /\ s ∈ sites_of r.

(** The interactions stored in the lookup tensors are one-site, resp.
    two-site, interactions; there are at most [2^31] sites. *)
Record wf_model (m : NPMC.NanoParticle) : Prop := {
  wf_sites : Z.of_nat (length (NPMC.sites m)) <= 2 ^ 31;
  wf_one_site :
    forall species state cell i,
      NPMC.one_site_lookup (NPMC.one_site_interactions_map m) species state
      = Ok cell ->
      i ∈ cell -> Interaction.number_of_sites i = 1;
  wf_two_site :
    forall species_a species_b state_a state_b cell i,
      NPMC.two_site_lookup (NPMC.two_site_interactions_map m)
        species_a species_b state_a state_b = Ok cell ->
      i ∈ cell -> Interaction.number_of_sites i = 2
}.

(** The number of elements of [l] that are at most [x]. *)
Definition count_le (l : list Z) (x : Z) : Z :=
  Z.of_nat (length (filter (fun i => i <= x) l)).

(** Slot [i] of [current_reactions] holds a reaction that has a site of
    the fired reaction: these are the slots [update_reactions] removes. *)
Definition slot_touched (current_reactions : list Reaction.t)
    (fired : Reaction.t) (i : Z) : Prop :=
  exists r, vget current_reactions i = Ok r /\ touches fired r.

(** The invariant of the loops that collect the slots to remove: the
    collected slots are holes of the index, every slot registered at the
    start is either collected or still registered, and only touched slots
    are collected. *)
Definition collect_invariant (current_reactions : list Reaction.t)
    (deps0 : list IntSet.t) (fired : Reaction.t)
    (acc : IntSet.t * list IntSet.t) : Prop :=
  let '(R, deps) := acc in
  length deps = length deps0
  /\ StronglySorted Z.lt R
  /\ indexed (fun i => i ∈ R) deps current_reactions
  /\ (forall s i, entry deps0 s i -> i ∈ R \/ entry deps s i)
  /\ (forall i, i ∈ R -> slot_touched current_reactions fired i).

(** ** A particle for the compaction *)

(** Two sites of one species with the states 0 and 1, at distance 1 and
    within the radius bound 10.  A site in state 0 can be excited, a site
    in state 1 can relax, and an excited site can pass its excitation to a
    neighbour in state 0.  Site 0 starts excited. *)
Definition relay_db : Database :=
  {| metadata := Some {| MetadataSql.number_of_species := 1;
                         MetadataSql.number_of_sites := 2 |};
     factors := Some {| FactorsSql.one_site_interaction_factor := Double.of_int 1;
                        FactorsSql.two_site_interaction_factor := Double.of_int 1;
                        FactorsSql.interaction_radius_bound := Double.of_int 10;
                        FactorsSql.distance_factor_type := "linear" |};
     species_rows := [ {| SpeciesSql.species_id := 0;
                          SpeciesSql.degrees_of_freedom := 2 |} ];
     site_rows := [ site_at 0 0; site_at 1 1 ];
     interaction_rows :=
       [ {| InteractionSql.number_of_sites := 1;
            InteractionSql.species_id_1 := 0; InteractionSql.species_id_2 := -1;
            InteractionSql.left_state_1 := 0; InteractionSql.left_state_2 := -1;
            InteractionSql.right_state_1 := 1; InteractionSql.right_state_2 := -1;
            InteractionSql.rate := Double.of_int 1 |};
         {| InteractionSql.number_of_sites := 1;
            InteractionSql.species_id_1 := 0; InteractionSql.species_id_2 := -1;
            InteractionSql.left_state_1 := 1; InteractionSql.left_state_2 := -1;
            InteractionSql.right_state_1 := 0; InteractionSql.right_state_2 := -1;
            InteractionSql.rate := Double.of_int 1 |};
         {| InteractionSql.number_of_sites := 2;
            InteractionSql.species_id_1 := 0; InteractionSql.species_id_2 := 0;
            InteractionSql.left_state_1 := 1; InteractionSql.left_state_2 := 0;
            InteractionSql.right_state_1 := 0; InteractionSql.right_state_2 := 1;
            InteractionSql.rate := Double.of_int 1 |} ];
     initial_state_rows :=
       [ {| InitialStateSql.site_id := 0; InitialStateSql.degree_of_freedom := 1 |};
         {| InitialStateSql.site_id := 1; InitialStateSql.degree_of_freedom := 0 |} ]
  |}.

(** The three interactions as the constructor numbers them. *)
Definition excite : Interaction.t :=
  {| Interaction.interaction_id := 0; Interaction.number_of_sites := 1;
     Interaction.species_id := (0, -1); Interaction.left_state := (0, -1);
     Interaction.right_state := (1, -1); Interaction.rate := Double.of_int 1 |}.

Definition relax : Interaction.t :=
  {| Interaction.interaction_id := 1; Interaction.number_of_sites := 1;
     Interaction.species_id := (0, -1); Interaction.left_state := (1, -1);
     Interaction.right_state := (0, -1); Interaction.rate := Double.of_int 1 |}.

Definition hop : Interaction.t :=
  {| Interaction.interaction_id := 2; Interaction.number_of_sites := 2;
     Interaction.species_id := (0, 0); Interaction.left_state := (1, 0);
     Interaction.right_state := (0, 1); Interaction.rate := Double.of_int 1 |}.

(** The particle before the enumeration of its initial reactions. *)
Definition relay_loaded : NPMC.NanoParticle :=
  let sites := [ {| Site.x := Double.of_int 0; Site.y := Double.zero;
                    Site.z := Double.zero; Site.species_id := 0 |};
                 {| Site.x := Double.of_int 1; Site.y := Double.zero;
                    Site.z := Double.zero; Site.species_id := 0 |} ] in
  {| NPMC.degrees_of_freedom := [2];
     NPMC.sites := sites;
     NPMC.distance_matrix := NPMC.compute_distance_matrix sites;
     NPMC.initial_reactions := [];
     NPMC.site_reaction_dependency := [[]; []];
     NPMC.one_site_interactions := [excite; relax];
     NPMC.two_site_interactions := [hop];
     NPMC.one_site_interactions_map := [[ [excite]; [relax] ]];
     NPMC.two_site_interactions_map := [[ [ [ []; [] ]; [ [hop]; [] ] ] ]];
     NPMC.initial_state := [1; 0];
     NPMC.current_state := [1; 0];
     NPMC.one_site_interaction_factor := Double.of_int 1;
     NPMC.two_site_interaction_factor := Double.of_int 1;
     NPMC.interaction_radius_bound := Double.of_int 10;
     NPMC.distance_factor_function :=
       fun distance => Double.of_int 1 ⊖ distance ⊘ Double.of_int 10 |}.

(** The initial reactions: the relaxation of site 0, the excitation of
    site 1, and the hop from site 0 to site 1, which the enumeration finds
    from either site. *)
Definition relay_reactions : list Reaction.t :=
  [ NPMC.one_site_reaction relay_loaded 0 relax;
    NPMC.two_site_reaction relay_loaded 0 1 (Double.of_int 1) hop;
    NPMC.one_site_reaction relay_loaded 1 excite;
    NPMC.two_site_reaction relay_loaded 0 1 (Double.of_int 1) hop ].

Definition relay_dependency : list IntSet.t := [ [0; 1; 3]; [1; 2; 3] ].

Definition relay : NPMC.NanoParticle :=
  {| NPMC.degrees_of_freedom := NPMC.degrees_of_freedom relay_loaded;
     NPMC.sites := NPMC.sites relay_loaded;
     NPMC.distance_matrix := NPMC.distance_matrix relay_loaded;
     NPMC.initial_reactions := relay_reactions;
     NPMC.site_reaction_dependency := relay_dependency;
     NPMC.one_site_interactions := NPMC.one_site_interactions relay_loaded;
     NPMC.two_site_interactions := NPMC.two_site_interactions relay_loaded;
     NPMC.one_site_interactions_map :=
       NPMC.one_site_interactions_map relay_loaded;
     NPMC.two_site_interactions_map :=
       NPMC.two_site_interactions_map relay_loaded;
     NPMC.initial_state := NPMC.initial_state relay_loaded;
     NPMC.current_state := NPMC.current_state relay_loaded;
     NPMC.one_site_interaction_factor :=
       NPMC.one_site_interaction_factor relay_loaded;
     NPMC.two_site_interaction_factor :=
       NPMC.two_site_interaction_factor relay_loaded;
     NPMC.interaction_radius_bound := NPMC.interaction_radius_bound relay_loaded;
     NPMC.distance_factor_function :=
       NPMC.distance_factor_function relay_loaded |}.

(** ** Keys of the interaction lookup tensors *)

(** The cell of [one_site_interactions_map] an interaction is pushed to. *)
Definition one_site_key (i : Interaction.t) : Z * Z :=
  (fst (Interaction.species_id i), fst (Interaction.left_state i)).

(** The cell of [two_site_interactions_map] an interaction is pushed to. *)
Definition two_site_key (i : Interaction.t) : Z * Z * Z * Z :=
  (fst (Interaction.species_id i), snd (Interaction.species_id i),
   fst (Interaction.left_state i), snd (Interaction.left_state i)).

(** ** Stoichiometry *)

(** How often species [s] occurs in a list of species. *)
Definition occurrences (s : Z) (l : list Z) : Z :=
  Z.of_nat (length (filter (fun t => t = s) l)).

(** Reaction [r'] is reaction [r] run backwards: reactants and products
    are exchanged (the rates are unrelated). *)
Definition reverses (r r' : GMC.Reaction) : Prop :=
  GMC.number_of_reactants r' = GMC.number_of_products r
  /\ GMC.number_of_products r' = GMC.number_of_reactants r
  /\ GMC.reactants r' = GMC.products r
  /\ GMC.products r' = GMC.reactants r.

(** ** The reactions held by the live slots *)

(** The reactions in the slots that are not holes, in slot order; [k] is
    the index of the first slot of the list. *)
Fixpoint survivors (hole : Z -> bool) (k : Z) (current_reactions : list Reaction.t)
  : list Reaction.t :=
  match current_reactions with
  | [] => []
  | r :: rest =>
      if hole k then survivors hole (k + 1) rest
      else r :: survivors hole (k + 1) rest
  end.

(** The live slots of [current_reactions], the holes being given by
    [hole], hold the reactions [live] in some order. *)
Definition content (hole : Z -> Prop) (current_reactions live : list Reaction.t)
  : Prop :=
  exists holeb : Z -> bool,
    (forall i, 0 <= i < Z.of_nat (length current_reactions) ->
               (holeb i = true <-> hole i))
    /\ survivors holeb 0 current_reactions ≡ₚ live.

#[global] Instance touches_dec (fired r : Reaction.t)
  : Decision (touches fired r) :=
  match decide (Exists (fun s => s ∈ sites_of r) (sites_of fired)) with
  | left H => left (proj1 (Exists_exists _ _) H)
  | right H => right (fun H' => H (proj2 (Exists_exists _ _) H'))
  end.

(** ** Reactions that can fire *)

(** Reaction [r] can fire in [state]: each of its sites is in the left
    state of the interaction, which is what [update_state] tests. *)
Definition applicable (state : list Z) (r : Reaction.t) : Prop :=
  forall k site,
    0 <= k < Interaction.number_of_sites (Reaction.interaction r) ->
    at2 (Reaction.site_id r) k = Ok site ->
    vget state site = at2 (Interaction.left_state (Reaction.interaction r)) k.

(** Reaction [r] has fired in [state]: each of its sites is in the right
    state of the interaction. *)
Definition fired_in (state : list Z) (r : Reaction.t) : Prop :=
  forall k site,
    0 <= k < Interaction.number_of_sites (Reaction.interaction r) ->
    at2 (Reaction.site_id r) k = Ok site ->
    vget state site = at2 (Interaction.right_state (Reaction.interaction r)) k.

(** The cells of the lookup tensors hold interactions whose species and
    left states are the indices of the cell. *)
Record keyed_model (m : NPMC.NanoParticle) : Prop := {
  keyed_one_site :
    forall species state cell i,
      NPMC.one_site_lookup (NPMC.one_site_interactions_map m) species state
      = Ok cell ->
      i ∈ cell -> one_site_key i = (species, state);
  keyed_two_site :
    forall species_a species_b state_a state_b cell i,
      NPMC.two_site_lookup (NPMC.two_site_interactions_map m)
        species_a species_b state_a state_b = Ok cell ->
      i ∈ cell -> two_site_key i = (species_a, species_b, state_a, state_b)
}.

(** Scenario B as a database: two species, the reactions [A + A -> B] and
    [B -> A + A], four [A] at the start. *)
Definition dimerization_db : GMC.Sql.Database :=
  {| GMC.Sql.metadata :=
       Some {| GMC.Sql.number_of_species := 2;
               GMC.Sql.number_of_reactions := 2 |};
     GMC.Sql.factors :=
       Some {| GMC.Sql.sql_factor_zero := Double.of_int 1;
               GMC.Sql.sql_factor_two := Double.of_int 1;
               GMC.Sql.sql_factor_duplicate := Double.of_int 1 |};
     GMC.Sql.initial_state_rows :=
       [ {| GMC.Sql.species_id := 0; GMC.Sql.count := 4 |};
         {| GMC.Sql.species_id := 1; GMC.Sql.count := 0 |} ];
     GMC.Sql.reaction_rows :=
       [ {| GMC.Sql.reaction_id := 0;
            GMC.Sql.row_number_of_reactants := 2;
            GMC.Sql.row_number_of_products := 1;
            GMC.Sql.reactant_1 := 0; GMC.Sql.reactant_2 := 0;
            GMC.Sql.product_1 := 1; GMC.Sql.product_2 := -1;
            GMC.Sql.row_rate := Double.of_int 1 ⊘ Double.of_int 2 |};
         {| GMC.Sql.reaction_id := 1;
            GMC.Sql.row_number_of_reactants := 1;
            GMC.Sql.row_number_of_products := 2;
            GMC.Sql.reactant_1 := 1; GMC.Sql.reactant_2 := -1;
            GMC.Sql.product_1 := 0; GMC.Sql.product_2 := 0;
            GMC.Sql.row_rate := Double.of_int 1 ⊘ Double.of_int 10 |} ] |}.

(** ** Models on which a step cannot leave the tensors *)

(** The right states of an interaction are states of the tensors. *)
Definition right_in_range (num_states : Z) (i : Interaction.t) : Prop :=
  forall k v,
    0 <= k < Interaction.number_of_sites i ->
    at2 (Interaction.right_state i) k = Ok v -> 0 <= v < num_states.

(** A model whose tensors are [num_species x num_states] (resp. its
    square), whose sites have species of the tensors, whose distance matrix
    is square, and whose interactions lead to states of the tensors. *)
Record bounded_model (m : NPMC.NanoParticle) (num_species num_states : Z)
  : Prop := {
  bounded_one_site :
    one_site_shape num_species num_states (NPMC.one_site_interactions_map m);
  bounded_two_site :
    two_site_shape num_species num_states (NPMC.two_site_interactions_map m);
  bounded_species :
    Forall (fun s => 0 <= Site.species_id s < num_species) (NPMC.sites m);
  bounded_rows : length (NPMC.distance_matrix m) = length (NPMC.sites m);
  bounded_columns :
    Forall (fun row => length row = length (NPMC.sites m))
           (NPMC.distance_matrix m);
  bounded_one_site_right :
    forall species state cell i,
      NPMC.one_site_lookup (NPMC.one_site_interactions_map m) species state
      = Ok cell ->
      i ∈ cell -> right_in_range num_states i;
  bounded_two_site_right :
    forall species_a species_b state_a state_b cell i,
      NPMC.two_site_lookup (NPMC.two_site_interactions_map m)
        species_a species_b state_a state_b = Ok cell ->
      i ∈ cell -> right_in_range num_states i
}.

(** The invariant of a nanoparticle simulation between two events: the
    state assigns a state of the tensors to every site, the index is
    consistent, and every current reaction can fire and leads to states of
    the tensors. *)
Record steady (m : NPMC.NanoParticle) (num_states : Z) (state : list Z)
    (deps : list IntSet.t) (current_reactions : list Reaction.t) : Prop := {
  steady_sites : length state = length (NPMC.sites m);
  steady_states : Forall (fun v => 0 <= v < num_states) state;
  steady_index : length deps = length (NPMC.sites m);
  steady_quiescent : quiescent deps current_reactions;
  steady_applicable : Forall (applicable state) current_reactions;
  steady_right :
    Forall (fun r => right_in_range num_states (Reaction.interaction r))
           current_reactions
}.

(** ** Networks on which a step cannot leave the vectors *)

(** Every reaction has at most two reactants and two products, all of them
    species of the state vector. *)
Definition closed_network (net : GMC.ReactionNetwork) (num_species : Z)
  : Prop :=
  Dep.wf_network net
  /\ Forall (fun r => forall s,
               s ∈ Dep.reactant_species r ++ Dep.product_species r ->
               0 <= s < num_species)
            (GMC.reactions net).

(** The graph has one node per reaction, and a dependency list that is
    present is the one [compute_dependency_node] computes. *)
Definition graph_ok (net : GMC.ReactionNetwork) (g : GMC.graph) : Prop :=
  length g = length (GMC.reactions net)
  /\ forall j node l rj,
       vget g j = Ok node -> GMC.dependents node = Some l ->
       vget (GMC.reactions net) j = Ok rj -> l = Dep.dep_list net rj.

(** The solver states satisfying [good] are kept by [event] and by
    [update] with the index of a reaction, and an event drawn in such a
    state names one of the [n] reactions. *)
Definition solver_in_range {S : Type} `{Core.Solver S} (good : S -> Prop)
    (n : Z) : Prop :=
  (forall s ev s1, good s -> Core.event s = (Some ev, s1) ->
                   0 <= Core.index ev < n /\ good s1)
  /\ (forall s u, good s -> 0 <= GMC.index u < n -> good (Core.update s u)).

(** A reaction row with at most two reactants and two products whose
    species, as many as the row has, are below [num_species]. *)
Definition closed_row (num_species : Z) (row : GMC.Sql.ReactionSql) : Prop :=
  0 <= GMC.Sql.row_number_of_reactants row <= 2
  /\ 0 <= GMC.Sql.row_number_of_products row <= 2
  /\ (1 <= GMC.Sql.row_number_of_reactants row ->
      0 <= GMC.Sql.reactant_1 row < num_species)
  /\ (2 <= GMC.Sql.row_number_of_reactants row ->
      0 <= GMC.Sql.reactant_2 row < num_species)
  /\ (1 <= GMC.Sql.row_number_of_products row ->
      0 <= GMC.Sql.product_1 row < num_species)
  /\ (2 <= GMC.Sql.row_number_of_products row ->
      0 <= GMC.Sql.product_2 row < num_species).

(** ** Counts that stay in the range of [int] *)

(** Firing [r] in state [x] keeps every count an [int]: a count, lowered
    once per occurrence of its species among the reactants and then raised
    once per occurrence among the products, never leaves the range. *)
Definition fires_without_overflow (r : GMC.Reaction) (x : list Z) : Prop :=
  forall s v,
    vget x s = Ok v ->
    Int.min <= v - occurrences s (Dep.reactant_species r)
    /\ v <= Int.max
    /\ v - occurrences s (Dep.reactant_species r)
       + occurrences s (Dep.product_species r) <= Int.max.
(** * Vector and loop lemmas *)

Section Vectors.
Context {A : Type}.
Implicit Types (v : list A) (i : Z) (x : A).

Lemma vget_Ok v i x :
  vget v i = Ok x <-> 0 <= i /\ v !! Z.to_nat i = Some x.
Proof.
  unfold vget. destruct (Z.ltb_spec i 0).
  - split; [discriminate | lia].
  - destruct (v !! Z.to_nat i) eqn:E; split.
    + intros [= ->]. auto.
    + intros [_ [= ->]]. reflexivity.
    + discriminate.
    + intros [_ [=]].
Qed.

Lemma vget_range v i x : vget v i = Ok x -> 0 <= i < Z.of_nat (length v).
Proof.
  intros [H0 H]%vget_Ok. apply lookup_lt_Some in H. lia.
Qed.

Lemma vget_in_range v i :
  0 <= i < Z.of_nat (length v) -> exists x, vget v i = Ok x.
Proof.
  intros H. destruct (lookup_lt_is_Some_2 v (Z.to_nat i)) as [x Hx]; [lia|].
  exists x. apply vget_Ok. split; [lia | done].
Qed.

Lemma vget_out_of_range v i :
  ~ (0 <= i < Z.of_nat (length v)) -> vget v i = Fault OutOfBounds.
Proof.
  intros H. unfold vget. destruct (Z.ltb_spec i 0); [done|].
  rewrite lookup_ge_None_2; [done | lia].
Qed.

Lemma vget_elem_of v i x : vget v i = Ok x -> x ∈ v.
Proof. intros [_ H]%vget_Ok. eapply list_elem_of_lookup_2; eauto. Qed.

Lemma vget_cons_succ x v i : 0 <= i -> vget (x :: v) (i + 1) = vget v i.
Proof.
  intros H. unfold vget.
  destruct (Z.ltb_spec (i + 1) 0); [lia|]. destruct (Z.ltb_spec i 0); [lia|].
  replace (Z.to_nat (i + 1)) with (S (Z.to_nat i)) by lia. done.
Qed.

Lemma vget_cons_0 x v : vget (x :: v) 0 = Ok x.
Proof. reflexivity. Qed.

Lemma vset_Ok v i x v' :
  vset v i x = Ok v' <->
  0 <= i < Z.of_nat (length v) /\ v' = <[Z.to_nat i := x]> v.
Proof.
  unfold vset.
  destruct (Z.leb_spec 0 i), (Z.ltb_spec i (Z.of_nat (length v))); simpl;
    split; try discriminate; try lia.
  - intros [= <-]. split; [lia | done].
  - intros [_ ->]. done.
Qed.

Lemma vset_length v i x v' : vset v i x = Ok v' -> length v' = length v.
Proof. intros [_ ->]%vset_Ok. apply length_insert. Qed.

Lemma vget_vset_same v i x v' : vset v i x = Ok v' -> vget v' i = Ok x.
Proof.
  intros [Hi ->]%vset_Ok. apply vget_Ok. split; [lia|].
  apply list_lookup_insert_eq. lia.
Qed.

Lemma vget_vset_other v i j x v' :
  vset v i x = Ok v' -> i <> j -> vget v' j = vget v j.
Proof.
  intros [Hi ->]%vset_Ok Hne. unfold vget.
  destruct (Z.ltb_spec j 0); [done|].
  rewrite list_lookup_insert_ne; [done | lia].
Qed.
End Vectors.

Section Loops.
Context {S : Type}.
Implicit Types (body : Z -> S -> result S) (s : S).

(** The usual invariant rule for a counted loop. *)
Lemma for_loop_invariant (P : Z -> S -> Prop) body n k s s' :
  P k s ->
  (forall j t t', k <= j < k + Z.of_nat n -> P j t -> body j t = Ok t' ->
                  P (j + 1) t') ->
  for_loop n k body s = Ok s' ->
  P (k + Z.of_nat n) s'.
Proof.
  revert k s. induction n as [|n IH]; intros k s HP Hstep Hrun; simpl in Hrun.
  - injection Hrun as <-. now replace (k + Z.of_nat 0) with k by lia.
  - destruct (body k s) as [t|] eqn:Hb; [|discriminate]. simpl in Hrun.
    replace (k + Z.of_nat (Datatypes.S n)) with (k + 1 + Z.of_nat n) by lia.
    apply (IH (k + 1) t); [| |done].
    + apply (Hstep k s); [lia|done..].
    + intros j u u' Hj. apply Hstep. lia.
Qed.

(** A counted loop runs to its end when every iteration succeeds. *)
Lemma for_loop_total (P : Z -> S -> Prop) body n k s :
  P k s ->
  (forall j t, k <= j < k + Z.of_nat n -> P j t ->
               exists t', body j t = Ok t' /\ P (j + 1) t') ->
  exists s', for_loop n k body s = Ok s' /\ P (k + Z.of_nat n) s'.
Proof.
  revert k s. induction n as [|n IH]; intros k s HP Hstep; simpl.
  - exists s. split; [done|]. now replace (k + Z.of_nat 0) with k by lia.
  - destruct (Hstep k s) as (t & Hb & HPt); [lia|done|]. rewrite Hb. simpl.
    replace (k + Z.of_nat (Datatypes.S n)) with (k + 1 + Z.of_nat n) by lia.
    apply IH; [done|]. intros j u Hj. apply Hstep. lia.
Qed.

Lemma for_loop_ext body1 body2 n k s :
  (forall j t, k <= j < k + Z.of_nat n -> body1 j t = body2 j t) ->
  for_loop n k body1 s = for_loop n k body2 s.
Proof.
  revert k s. induction n as [|n IH]; intros k s H; simpl; [done|].
  rewrite H by lia. destruct (body2 k s); simpl; [|done].
  apply IH. intros. apply H. lia.
Qed.
End Loops.

Lemma vget_app_r {A} (v1 v2 : list A) (i : Z) :
  0 <= i -> vget (v1 ++ v2) (Z.of_nat (length v1) + i) = vget v2 i.
Proof.
  intros Hi. unfold vget.
  destruct (Z.ltb_spec (Z.of_nat (length v1) + i) 0); [lia|].
  destruct (Z.ltb_spec i 0); [lia|].
  rewrite lookup_app_r by lia.
  now replace (Z.to_nat (Z.of_nat (length v1) + i) - length v1)%nat
    with (Z.to_nat i) by lia.
Qed.


(** * Properties of the reaction-network engine *)

Section DoubleFacts.
Import Double.

Lemma of_int_0 : of_int 0 = S754_zero false.
Proof. reflexivity. Qed.

Lemma is_zero_signed (s : bool) : is_zero (S754_zero s) = true.
Proof. reflexivity. Qed.

(** A finite number times a zero is a zero. *)
Lemma mul_zero_r (a : double) (s : bool) :
  is_finite a = true -> exists s', a ⊗ S754_zero s = S754_zero s'.
Proof. destruct a; simpl; intros; try discriminate; eexists; reflexivity. Qed.

Lemma mul_zero_l (a : double) (s : bool) :
  is_finite a = true -> exists s', S754_zero s ⊗ a = S754_zero s'.
Proof. destruct a; simpl; intros; try discriminate; eexists; reflexivity. Qed.

(** A finite product with a zero factor on the right is itself a zero. *)
Lemma finite_mul_zero (a : double) (s : bool) :
  is_finite (a ⊗ S754_zero s) = true -> exists s', a ⊗ S754_zero s = S754_zero s'.
Proof. destruct a; simpl; intros; try discriminate; eexists; reflexivity. Qed.
End DoubleFacts.

Definition returns_zero (res : result double) : Prop :=
  exists p, res = Ok p /\ Double.is_zero p = true.

Section PropensityFormula.
Import GMC Double.
Variable net : ReactionNetwork.
Variable x : list Z.
Variable i : Z.
Variable r : Reaction.
Hypothesis Hr : vget (reactions net) i = Ok r.

Lemma propensity_zero_reactants :
  number_of_reactants r = 0 ->
  compute_propensity net x i = Ok (factor_zero net ⊗ rate r).
Proof. intros H0. unfold compute_propensity. rewrite Hr. simpl. now rewrite H0. Qed.

Lemma propensity_one_reactant (n : Z) :
  number_of_reactants r = 1 ->
  vget x (fst (reactants r)) = Ok n ->
  compute_propensity net x i = Ok (of_int n ⊗ rate r).
Proof.
  intros H1 Hx. unfold compute_propensity. rewrite Hr. simpl.
  rewrite H1. simpl. now rewrite Hx.
Qed.

Lemma propensity_two_distinct (n1 n2 : Z) :
  number_of_reactants r = 2 ->
  fst (reactants r) <> snd (reactants r) ->
  vget x (fst (reactants r)) = Ok n1 ->
  vget x (snd (reactants r)) = Ok n2 ->
  compute_propensity net x i
  = Ok (factor_two net ⊗ of_int n1 ⊗ of_int n2 ⊗ rate r).
Proof.
  intros H2 Hne Hx1 Hx2. unfold compute_propensity. rewrite Hr. simpl.
  rewrite H2. simpl.
  destruct (Z.eqb_spec (fst (reactants r)) (snd (reactants r))); [contradiction|].
  rewrite Hx1. simpl. now rewrite Hx2.
Qed.

Lemma propensity_two_equal (n : Z) :
  number_of_reactants r = 2 ->
  fst (reactants r) = snd (reactants r) ->
  vget x (fst (reactants r)) = Ok n ->
  compute_propensity net x i
  = Ok (factor_duplicate net ⊗ factor_two net
        ⊗ of_int n ⊗ of_int (n - 1) ⊗ rate r).
Proof.
  intros H2 Heq Hx. unfold compute_propensity. rewrite Hr. simpl.
  rewrite H2. simpl.
  destruct (Z.eqb_spec (fst (reactants r)) (snd (reactants r))); [|contradiction].
  now rewrite Hx.
Qed.

Lemma propensity_one_reactant_zero :
  number_of_reactants r = 1 ->
  vget x (fst (reactants r)) = Ok 0 ->
  is_finite (rate r) = true ->
  returns_zero (compute_propensity net x i).
Proof.
  intros H1 Hx Hfin. rewrite (propensity_one_reactant 0 H1 Hx).
  destruct (mul_zero_l (rate r) false Hfin) as [s Hs].
  exists (S754_zero s). split; [rewrite of_int_0; rewrite Hs; reflexivity | reflexivity].
Qed.

Lemma propensity_two_equal_zero (n : Z) :
  number_of_reactants r = 2 ->
  fst (reactants r) = snd (reactants r) ->
  vget x (fst (reactants r)) = Ok n ->
  n = 0 \/ n = 1 ->
  is_finite (factor_duplicate net ⊗ factor_two net ⊗ of_int n) = true ->
  is_finite (rate r) = true ->
  returns_zero (compute_propensity net x i).
Proof.
  intros H2 Heq Hx Hn Hprod Hfin. rewrite (propensity_two_equal n H2 Heq Hx).
  destruct Hn as [-> | ->].
  - change (of_int 0) with (S754_zero false) in *.
    destruct (finite_mul_zero _ _ Hprod) as [s1 ->].
    change (of_int (0 - 1)) with (S754_finite true 4503599627370496 (-52)).
    destruct (mul_zero_l (rate r) (xorb s1 true) Hfin) as [s2 Hs2].
    exists (S754_zero s2). split; [|reflexivity]. simpl. now rewrite <- Hs2.
  - change (of_int (1 - 1)) with (S754_zero false).
    destruct (mul_zero_r _ false Hprod) as [s1 ->].
    destruct (mul_zero_l (rate r) s1 Hfin) as [s2 ->].
    exists (S754_zero s2). split; reflexivity.
Qed.
End PropensityFormula.


(** C2, as amended.  [compute_propensity] returns [factor_zero * rate] for
    no reactant, [x[s] * rate] for one reactant [s],
    [factor_two * x[s1] * x[s2] * rate] for two distinct reactants and
    [factor_duplicate * factor_two * x[s] * (x[s] - 1) * rate] for two equal
    reactants, the products being IEEE products taken from left to right.
    The result compares equal to zero when [x[s] = 0] in the one-reactant
    case provided the rate is finite, and when [x[s]] is 0 or 1 in the
    equal-reactants case provided
    [factor_duplicate * factor_two * x[s]] and the rate are finite. *)
Theorem compute_propensity_cases
    (net : GMC.ReactionNetwork) (x : list Z) (i : Z) (r : GMC.Reaction) :
  vget (GMC.reactions net) i = Ok r ->
  (GMC.number_of_reactants r = 0 ->
     GMC.compute_propensity net x i = Ok (GMC.factor_zero net ⊗ GMC.rate r))
  /\ (forall n, GMC.number_of_reactants r = 1 ->
        vget x (fst (GMC.reactants r)) = Ok n ->
        GMC.compute_propensity net x i = Ok (Double.of_int n ⊗ GMC.rate r))
  /\ (forall n1 n2, GMC.number_of_reactants r = 2 ->
        fst (GMC.reactants r) <> snd (GMC.reactants r) ->
        vget x (fst (GMC.reactants r)) = Ok n1 ->
        vget x (snd (GMC.reactants r)) = Ok n2 ->
        GMC.compute_propensity net x i
        = Ok (GMC.factor_two net ⊗ Double.of_int n1 ⊗ Double.of_int n2
              ⊗ GMC.rate r))
  /\ (forall n, GMC.number_of_reactants r = 2 ->
        fst (GMC.reactants r) = snd (GMC.reactants r) ->
        vget x (fst (GMC.reactants r)) = Ok n ->
        GMC.compute_propensity net x i
        = Ok (GMC.factor_duplicate net ⊗ GMC.factor_two net
              ⊗ Double.of_int n ⊗ Double.of_int (n - 1) ⊗ GMC.rate r))
  /\ (GMC.number_of_reactants r = 1 ->
        vget x (fst (GMC.reactants r)) = Ok 0 ->
        Double.is_finite (GMC.rate r) = true ->
        returns_zero (GMC.compute_propensity net x i))
  /\ (forall n, GMC.number_of_reactants r = 2 ->
        fst (GMC.reactants r) = snd (GMC.reactants r) ->
        vget x (fst (GMC.reactants r)) = Ok n ->
        n = 0 \/ n = 1 ->
        Double.is_finite (GMC.factor_duplicate net ⊗ GMC.factor_two net
                          ⊗ Double.of_int n) = true ->
        Double.is_finite (GMC.rate r) = true ->
        returns_zero (GMC.compute_propensity net x i)).
Proof.
  intros Hr. repeat split.
  - now apply propensity_zero_reactants.
  - intros n. now apply propensity_one_reactant.
  - intros n1 n2. now apply propensity_two_distinct.
  - intros n. now apply propensity_two_equal.
  - now apply propensity_one_reactant_zero.
  - intros n. now apply propensity_two_equal_zero.
Qed.

(** Scenario B: at [[4; 0]] the dimerization has propensity 6 and the
    dissociation has propensity 0. *)
Lemma compute_propensity_cases_witness :
  GMC.compute_propensity dimerization [4; 0] 0 = Ok (Double.of_int 6)
  /\ returns_zero (GMC.compute_propensity dimerization [4; 0] 1).
Proof.
  split.
  - destruct (compute_propensity_cases dimerization [4; 0] 0 _ eq_refl)
      as (_ & _ & _ & Heq & _).
    rewrite (Heq 4 eq_refl eq_refl eq_refl). vm_compute. reflexivity.
  - destruct (compute_propensity_cases dimerization [4; 0] 1 _ eq_refl)
      as (_ & _ & _ & _ & Hz & _).
    apply Hz; reflexivity.
Defined.

(** C2 as stated fails: with the finite factors [2^1000] and [x[s] = 0]
    the equal-reactants propensity is [inf * 0 = NaN], not zero. *)
Lemma compute_propensity_overflow_not_zero :
  vget (GMC.reactions huge_factors) 0
  = Ok {| GMC.number_of_reactants := 2; GMC.number_of_products := 0;
          GMC.reactants := (0, 0); GMC.products := (-1, -1);
          GMC.rate := Double.of_int 1 |}
  /\ vget [0] 0 = Ok 0
  /\ GMC.compute_propensity huge_factors [0] 0 = Ok S754_nan
  /\ ~ returns_zero (GMC.compute_propensity huge_factors [0] 0).
Proof.
  repeat split.
  intros (p & Hp & Hz). vm_compute in Hp. inversion Hp; subst p. discriminate Hz.
Qed.


Section DepFacts.
Import GMC Dep.

Lemma existsb_eqb_elem_of (s : Z) (l : list Z) :
  existsb (Z.eqb s) l = true <-> s ∈ l.
Proof.
  rewrite existsb_exists. split.
  - intros (t & Hin & ->%Z.eqb_eq). now apply list_elem_of_In.
  - intros Hin. exists s. split; [now apply list_elem_of_In | apply Z.eqb_refl].
Qed.

Lemma sharesb_spec (ri rj : Reaction) :
  sharesb ri rj = true <-> shares_species ri rj.
Proof.
  unfold sharesb, shares_species. rewrite existsb_exists. split.
  - intros (s & Hs & H). exists s. split; [now apply list_elem_of_In|].
    apply orb_true_iff in H. now rewrite !existsb_eqb_elem_of in H.
  - intros (s & Hs & H). exists s. split; [now apply list_elem_of_In|].
    apply orb_true_iff. now rewrite !existsb_eqb_elem_of.
Qed.

Lemma indices_from_elem (flags : list bool) (start i : Z) :
  i ∈ indices_from start flags <->
  start <= i /\ flags !! Z.to_nat (i - start) = Some true.
Proof.
  revert start. induction flags as [|b flags IH]; intros start; simpl.
  - split; [intros H; inversion H | intros [_ [=]]].
  - assert (Htail : i ∈ indices_from (start + 1) flags <->
                    start < i /\ flags !! Z.to_nat (i - start - 1) = Some true).
    { rewrite IH. replace (i - (start + 1)) with (i - start - 1) by lia.
      split; intros [? ?]; split; (lia || done). }
    assert (Hcons : start < i ->
              (b :: flags) !! Z.to_nat (i - start)
              = flags !! Z.to_nat (i - start - 1)).
    { intros. now replace (Z.to_nat (i - start))
        with (Datatypes.S (Z.to_nat (i - start - 1))) by lia. }
    destruct b.
    + rewrite elem_of_cons, Htail. split.
      * intros [-> | [Hlt Hl]].
        -- split; [lia|]. now replace (start - start) with 0 by lia.
        -- split; [lia|]. now rewrite Hcons.
      * intros [Hle Hl]. destruct (decide (i = start)) as [-> | Hne]; [now left|].
        right. split; [lia|]. rewrite <- Hcons; [done | lia].
    + rewrite Htail. split.
      * intros [Hlt Hl]. split; [lia|]. now rewrite Hcons.
      * intros [Hle Hl]. destruct (decide (i = start)) as [-> | Hne].
        -- replace (start - start) with 0 in Hl by lia. discriminate.
        -- split; [lia|]. rewrite <- Hcons; [done | lia].
Qed.

Lemma indices_from_lower (flags : list bool) (start : Z) :
  Forall (fun i => start <= i) (indices_from start flags).
Proof.
  apply list.Forall_forall. intros i Hi. now apply indices_from_elem in Hi.
Qed.

Lemma indices_from_sorted (flags : list bool) (start : Z) :
  StronglySorted Z.lt (indices_from start flags).
Proof.
  revert start. induction flags as [|b flags IH]; intros start; simpl.
  - constructor.
  - destruct b; [|apply IH]. constructor; [apply IH|].
    eapply Forall_impl; [apply indices_from_lower|]. simpl. intros. lia.
Qed.

Lemma indices_from_app (l1 l2 : list bool) (start : Z) :
  indices_from start (l1 ++ l2)
  = indices_from start l1 ++ indices_from (start + Z.of_nat (length l1)) l2.
Proof.
  revert start. induction l1 as [|b l1 IH]; intros start; simpl.
  - now replace (start + Z.of_nat 0) with start by lia.
  - rewrite IH.
    replace (start + 1 + Z.of_nat (length l1))
      with (start + Z.of_nat (Datatypes.S (length l1))) by lia.
    now destruct b.
Qed.

End DepFacts.

Ltac small_nat :=
  change (Z.to_nat 0) with 0%nat in *;
  change (Z.to_nat 1) with 1%nat in *;
  change (Z.to_nat 2) with 2%nat in *;
  change (0 + 1) with 1 in *.

Section DependencyNode.
Import GMC Dep.

(** One inner scan of [dependency_flag]: species [s] against the first [n]
    entries of a two-element array. *)
Lemma scan_array (n s : Z) (b : Z * Z) (flag : bool) :
  0 <= n <= 2 ->
  for_upto n (fun m flag =>
                t ← at2 b m; Ok (if s =? t then true else flag)) flag
  = Ok (flag || existsb (Z.eqb s) (take (Z.to_nat n) [fst b; snd b])).
Proof.
  intros Hn. unfold for_upto.
  assert (n = 0 \/ n = 1 \/ n = 2) as [-> | [-> | ->]] by lia;
    small_nat; cbn; small_nat; cbn;
    repeat (destruct (s =? _)); destruct flag; reflexivity.
Qed.

Lemma dependency_flag_spec (net : ReactionNetwork) (j idx : Z) (rj ri : Reaction) :
  wf_reaction rj -> wf_reaction ri ->
  vget (reactions net) j = Ok rj ->
  vget (reactions net) idx = Ok ri ->
  dependency_flag net j idx = Ok (sharesb rj ri).
Proof.
  intros [Hrj _] [Hri Hpi] Hj Hidx.
  unfold dependency_flag, sharesb, reactant_species, product_species.
  rewrite Hj. cbn. unfold for_upto at 1.
  assert (number_of_reactants rj = 0 \/ number_of_reactants rj = 1
          \/ number_of_reactants rj = 2) as [-> | [-> | ->]] by lia;
    small_nat; cbn; small_nat; rewrite ?Hidx; cbn;
    rewrite ?scan_array by done; cbn; rewrite ?scan_array by done; cbn;
    rewrite ?scan_array by done; cbn; rewrite ?scan_array by done; cbn;
    rewrite ?orb_false_r; try reflexivity.
  f_equal. repeat (destruct (existsb _ _)); reflexivity.
Qed.

Variable net : ReactionNetwork.
Variable idx : Z.
Variable ri : Reaction.
Hypothesis Hwf : wf_network net.
Hypothesis Hidx : vget (reactions net) idx = Ok ri.

Let flags : list bool := map (fun r => sharesb r ri) (reactions net).

Lemma wf_idx : wf_reaction ri.
Proof.
  eapply (proj1 (list.Forall_forall _ _) Hwf), vget_elem_of, Hidx.
Qed.

Lemma dependency_flag_flags (j : Z) (b : bool) :
  0 <= j -> flags !! Z.to_nat j = Some b ->
  dependency_flag net j idx = Ok b.
Proof.
  intros Hj Hb. unfold flags in Hb. rewrite list_lookup_fmap in Hb.
  destruct (reactions net !! Z.to_nat j) as [rj|] eqn:E; [|discriminate].
  injection Hb as <-.
  apply dependency_flag_spec; [ | apply wf_idx | | done].
  - eapply (proj1 (list.Forall_forall _ _) Hwf), list_elem_of_lookup_2, E.
  - apply vget_Ok. auto.
Qed.

Lemma count_pass_spec :
  count_pass net idx = Ok (Z.of_nat (length (indices_from 0 flags))).
Proof.
  unfold count_pass, for_upto. rewrite Nat2Z.id.
  pose (P := fun (j : Z) (c : Z) =>
    c = Z.of_nat (length (indices_from 0 (take (Z.to_nat j) flags)))).
  destruct (for_loop_total P
    (fun j count => flag ← dependency_flag net j idx;
                    Ok (if flag : bool then count + 1 else count))
    (length (reactions net)) 0 0) as (c & Hrun & Hc).
  - reflexivity.
  - intros j c Hj ->.
    destruct (lookup_lt_is_Some_2 flags (Z.to_nat j)) as [b Hb].
    { unfold flags. rewrite length_map. lia. }
    rewrite (dependency_flag_flags j b) by (lia || done). cbn.
    eexists. split; [reflexivity|]. unfold P.
    replace (Z.to_nat (j + 1)) with (Datatypes.S (Z.to_nat j)) by lia.
    rewrite (take_S_r _ _ _ Hb), indices_from_app, length_app. cbn.
    destruct b; cbn; lia.
  - rewrite Hrun. f_equal. rewrite Hc. unfold P.
    rewrite take_ge; [done|]. unfold flags. rewrite length_map. lia.
Qed.

Lemma fill_pass_spec (l2 l1 : list bool) (pre rest : list Z) (fuel : nat) :
  flags = l1 ++ l2 ->
  length rest = length (indices_from (Z.of_nat (length l1)) l2) ->
  (length l2 < fuel)%nat ->
  fill_pass fuel net idx
    (Z.of_nat (length pre + length rest)) (Z.of_nat (length pre))
    (Z.of_nat (length l1)) (pre ++ rest)
  = Ok (pre ++ indices_from (Z.of_nat (length l1)) l2).
Proof.
  revert l1 pre rest fuel.
  induction l2 as [|b l2 IH]; intros l1 pre rest fuel Hfl Hrest Hfuel.
  - destruct rest; [|discriminate]. destruct fuel; simpl;
      (destruct (Z.ltb_spec (Z.of_nat (length pre))
                            (Z.of_nat (length pre + 0))); [lia | reflexivity]).
  - destruct fuel as [|fuel]; [simpl in Hfuel; lia|]. simpl in Hfuel.
    assert (Hb : flags !! Z.to_nat (Z.of_nat (length l1)) = Some b).
    { rewrite Hfl, Nat2Z.id, lookup_app_r by lia.
      now rewrite Nat.sub_diag. }
    assert (Hnext : Z.of_nat (length l1) + 1 = Z.of_nat (length (l1 ++ [b]))).
    { rewrite length_app. simpl. lia. }
    simpl fill_pass.
    destruct (Z.ltb_spec (Z.of_nat (length pre))
                         (Z.of_nat (length pre + length rest))) as [Hlt | Hge].
    + rewrite (dependency_flag_flags _ b) by (lia || done). cbn.
      simpl indices_from in *. destruct b.
      * destruct rest as [|r0 rest]; [discriminate|]. simpl in Hrest.
        unfold vset. rewrite length_app. simpl length.
        destruct (Z.leb_spec 0 (Z.of_nat (length pre))); [|lia].
        destruct (Z.ltb_spec (Z.of_nat (length pre))
                   (Z.of_nat (length pre + Datatypes.S (length rest)))); [|lia].
        cbn. rewrite Nat2Z.id.
        rewrite insert_app_r_alt, Nat.sub_diag by lia. simpl.
        replace (pre ++ Z.of_nat (length l1) :: rest)
          with ((pre ++ [Z.of_nat (length l1)]) ++ rest)
          by now rewrite <- app_assoc.
        replace (Z.of_nat (length pre + Datatypes.S (length rest)))
          with (Z.of_nat (length (pre ++ [Z.of_nat (length l1)]) + length rest))
          by (rewrite length_app; simpl; lia).
        replace (Z.of_nat (length pre) + 1)
          with (Z.of_nat (length (pre ++ [Z.of_nat (length l1)])))
          by (rewrite length_app; simpl; lia).
        rewrite Hnext.
        rewrite (IH (l1 ++ [true]) (pre ++ [Z.of_nat (length l1)]) rest fuel).
        -- rewrite <- Hnext, <- app_assoc. reflexivity.
        -- rewrite <- app_assoc. exact Hfl.
        -- rewrite <- Hnext. lia.
        -- lia.
      * rewrite Hnext. rewrite (IH (l1 ++ [false]) pre rest fuel).
        -- now rewrite <- Hnext.
        -- rewrite <- app_assoc. exact Hfl.
        -- now rewrite <- Hnext.
        -- lia.
    + (* nothing left to fill: no flagged reaction remains *)
      assert (rest = []) as -> by (destruct rest; [done | simpl in Hge; lia]).
      simpl in Hrest. simpl indices_from.
      destruct b; [discriminate|].
      destruct (indices_from (Z.of_nat (length l1) + 1) l2); [done|discriminate].
Qed.

Lemma dependents_of_spec :
  dependents_of net idx = Ok (dep_list net ri).
Proof.
  unfold dependents_of. rewrite count_pass_spec. cbn.
  rewrite Nat2Z.id.
  pose proof (fill_pass_spec flags [] []
                (replicate (length (indices_from 0 flags)) 0)
                (Datatypes.S (length (reactions net)))) as H.
  rewrite length_replicate in H. simpl in H. apply H; [done..|].
  unfold flags. rewrite length_map. lia.
Qed.
End DependencyNode.

Section DependencyCorrectness.
Import GMC Dep.

Lemma at2_in_take (a : Z * Z) (m n s : Z) :
  at2 a m = Ok s -> 0 <= m < n -> s ∈ take (Z.to_nat n) [fst a; snd a].
Proof.
  unfold at2. intros H Hm.
  destruct (Z.eqb_spec m 0) as [-> | ?].
  - injection H as <-. replace (Z.to_nat n) with (Datatypes.S (Z.to_nat (n - 1))) by lia.
    simpl. left.
  - destruct (Z.eqb_spec m 1) as [-> | ?]; [|discriminate].
    injection H as <-.
    replace (Z.to_nat n) with (Datatypes.S (Datatypes.S (Z.to_nat (n - 2)))) by lia.
    simpl. right. left.
Qed.

(** A loop of [update_state] only writes the species it names. *)
Lemma update_loop_frame (arr : Z * Z) (n d : Z) (x x' : list Z) :
  for_upto n (fun m st => s ← at2 arr m; v ← vget st s;
                          v ← Int.checked (v + d); vset st s v) x
  = Ok x' ->
  forall s, s ∉ take (Z.to_nat n) [fst arr; snd arr] -> vget x' s = vget x s.
Proof.
  intros Hrun s Hs. unfold for_upto in Hrun.
  apply (for_loop_invariant (fun _ st => vget st s = vget x s)) in Hrun;
    [done | done |].
  intros m t t' Hm Ht Hbody.
  destruct (at2 arr m) as [s0|] eqn:Hat; [|discriminate]. cbn in Hbody.
  destruct (vget t s0) as [v|]; [|discriminate]. cbn in Hbody.
  destruct (Int.checked (v + d)) as [v'|]; [|discriminate]. cbn in Hbody.
  rewrite <- Ht. eapply vget_vset_other; [exact Hbody|].
  intros ->. apply Hs. eapply at2_in_take; [exact Hat | lia].
Qed.

Lemma update_state_frame (net : ReactionNetwork) (x x' : list Z) (j : Z)
    (rj : Reaction) :
  vget (reactions net) j = Ok rj ->
  update_state net x j = Ok x' ->
  forall s, s ∉ reactant_species rj -> s ∉ product_species rj ->
            vget x' s = vget x s.
Proof.
  intros Hj Hrun s Hr Hp. unfold update_state in Hrun. rewrite Hj in Hrun.
  cbn in Hrun.
  destruct (for_upto (number_of_reactants rj) _ x) as [x1|] eqn:H1;
    [|discriminate]. cbn in Hrun.
  transitivity (vget x1 s).
  - eapply (update_loop_frame (products rj) _ 1); [exact Hrun | exact Hp].
  - eapply (update_loop_frame (reactants rj) _ (-1)); [exact H1 | exact Hr].
Qed.

(** The propensity only reads the populations of the reactants. *)
Lemma compute_propensity_reads (net : ReactionNetwork) (x x' : list Z) (i : Z)
    (ri : Reaction) :
  vget (reactions net) i = Ok ri ->
  wf_reaction ri ->
  (forall s, s ∈ reactant_species ri -> vget x' s = vget x s) ->
  compute_propensity net x' i = compute_propensity net x i.
Proof.
  intros Hi [Hn _] Hsame. unfold compute_propensity. rewrite Hi. cbn.
  unfold reactant_species in Hsame.
  assert (number_of_reactants ri = 0 \/ number_of_reactants ri = 1
          \/ number_of_reactants ri = 2) as [E | [E | E]] by lia;
    rewrite E in *; small_nat; cbn in *.
  - reflexivity.
  - rewrite Hsame by left. reflexivity.
  - rewrite !(Hsame (fst (reactants ri))) by left.
    rewrite !(Hsame (snd (reactants ri))) by (right; left). reflexivity.
Qed.

Lemma dep_list_elem (net : ReactionNetwork) (rj : Reaction) (i : Z) :
  i ∈ dep_list net rj <->
  exists ri, vget (reactions net) i = Ok ri /\ shares_species ri rj.
Proof.
  unfold dep_list. rewrite indices_from_elem, list_lookup_fmap.
  replace (i - 0) with i by lia. split.
  - intros [Hi H]. destruct (reactions net !! Z.to_nat i) as [ri|] eqn:E;
      [|discriminate]. injection H as H. exists ri. split.
    + now apply vget_Ok.
    + now apply sharesb_spec.
  - intros (ri & [Hi E]%vget_Ok & Hs). split; [done|]. rewrite E. cbn.
    f_equal. now apply sharesb_spec.
Qed.

End DependencyCorrectness.

(** C5.  [compute_dependency_node j] stores, in increasing order and
    without repetition, exactly the indices [i] such that [reactions[i]]
    has a reactant among the reactants and products of [reactions[j]];
    a reaction outside this list has the same propensity before and after
    [update_state(x, j)], for every state [x]. *)
Theorem compute_dependency_node_spec
    (net : GMC.ReactionNetwork) (g : GMC.graph) (j : Z)
    (rj : GMC.Reaction) (node : GMC.DependentsNode) :
  Dep.wf_network net ->
  vget (GMC.reactions net) j = Ok rj ->
  vget g j = Ok node ->
  exists l,
    GMC.compute_dependency_node net g j
    = Ok (<[Z.to_nat j :=
              {| GMC.dependents := Some l;
                 GMC.number_of_occurrences := GMC.number_of_occurrences node |}]> g)
    /\ StronglySorted Z.lt l
    /\ (forall i, i ∈ l <->
          exists ri, vget (GMC.reactions net) i = Ok ri
                     /\ Dep.shares_species ri rj)
    /\ (forall x x' i, i ∉ l ->
          GMC.update_state net x j = Ok x' ->
          GMC.compute_propensity net x' i = GMC.compute_propensity net x i).
Proof.
  intros Hwf Hj Hg. exists (Dep.dep_list net rj). repeat split.
  - unfold GMC.compute_dependency_node. rewrite Hg. cbn.
    rewrite (dependents_of_spec net j rj Hwf Hj). cbn.
    unfold vset. pose proof (vget_range _ _ _ Hg) as Hr.
    destruct (Z.leb_spec 0 j); [|lia].
    destruct (Z.ltb_spec j (Z.of_nat (length g))); [|lia]. reflexivity.
  - apply indices_from_sorted.
  - now apply dep_list_elem.
  - now apply dep_list_elem.
  - intros x x' i Hnot Hup.
    destruct (vget (GMC.reactions net) i) as [ri|f] eqn:Hi.
    + eapply compute_propensity_reads; [exact Hi| |].
      * eapply (proj1 (list.Forall_forall _ _) Hwf), vget_elem_of, Hi.
      * intros s Hs. eapply update_state_frame; [exact Hj | exact Hup | |];
          intros Hin; apply Hnot, dep_list_elem; exists ri;
          (split; [done|]); exists s; auto.
    + unfold GMC.compute_propensity. rewrite Hi. reflexivity.
Qed.

Section Laziness.
Import GMC Dep.
Variable net : ReactionNetwork.
Variable j : Z.
Variable rj : Reaction.
Hypothesis Hwf : wf_network net.
Hypothesis Hj : vget (reactions net) j = Ok rj.

Lemma compute_dependency_node_run (g : graph) (node : DependentsNode) :
  vget g j = Ok node ->
  compute_dependency_node net g j
  = Ok (<[Z.to_nat j :=
            {| dependents := Some (dep_list net rj);
               number_of_occurrences := number_of_occurrences node |}]> g).
Proof.
  intros Hg. unfold compute_dependency_node. rewrite Hg. cbn.
  rewrite (dependents_of_spec net j rj Hwf Hj). cbn.
  unfold vset. pose proof (vget_range _ _ _ Hg) as Hr.
  destruct (Z.leb_spec 0 j); [|lia].
  destruct (Z.ltb_spec j (Z.of_nat (length g))); [|lia]. reflexivity.
Qed.

Lemma vget_insert_same {A} (v : list A) (i : Z) (x y : A) :
  vget v i = Ok y -> vget (<[Z.to_nat i := x]> v) i = Ok x.
Proof.
  intros H. pose proof (vget_range _ _ _ H). apply vget_Ok. split; [lia|].
  apply list_lookup_insert_eq. lia.
Qed.

Lemma vset_in_range {A} (v : list A) (i : Z) (x y : A) :
  vget v i = Ok y -> vset v i x = Ok (<[Z.to_nat i := x]> v).
Proof.
  intros H. pose proof (vget_range _ _ _ H). apply vset_Ok. split; [lia|done].
Qed.

Lemma get_dependency_node_step (g : graph) (node : DependentsNode) :
  vget g j = Ok node ->
  get_dependency_node net g j
  = Ok (<[Z.to_nat j := node_after_call net rj node]> g,
        dependents (node_after_call net rj node)).
Proof.
  intros Hg. unfold get_dependency_node, node_after_call. rewrite Hg. cbn.
  destruct node as [[l|] occ]; cbn.
  - rewrite Hg. cbn. rewrite (vset_in_range _ _ _ _ Hg). reflexivity.
  - destruct (dependency_threshold net <=? occ); cbn.
    + rewrite (compute_dependency_node_run _ _ Hg). cbn.
      rewrite (vget_insert_same _ _ _ _ Hg). cbn.
      rewrite (vset_in_range _ _ _ _ (vget_insert_same _ _ _ _ Hg)).
      cbn. now rewrite list_insert_insert_eq.
    + rewrite Hg. cbn. rewrite (vset_in_range _ _ _ _ Hg). reflexivity.
Qed.

Lemma node_after_succ (k : Z) :
  0 <= dependency_threshold net ->
  node_after_call net rj (node_after net rj k) = node_after net rj (k + 1).
Proof.
  intros HT. unfold node_after_call, node_after. cbn.
  destruct (Z.leb_spec (dependency_threshold net + 1) k),
           (Z.leb_spec (dependency_threshold net + 1) (k + 1)),
           (Z.leb_spec (dependency_threshold net) k);
    try lia; reflexivity.
Qed.

Lemma repeated_calls (n : nat) (k : Z) (g : graph) :
  0 <= dependency_threshold net ->
  vget g j = Ok (node_after net rj k) ->
  exists gn, repeated_get_dependency_node n net g j = Ok gn
             /\ vget gn j = Ok (node_after net rj (k + Z.of_nat n)).
Proof.
  intros HT. revert k g. induction n as [|n IH]; intros k g Hg.
  - exists g. split; [done|]. now replace (k + Z.of_nat 0) with k by lia.
  - simpl. rewrite (get_dependency_node_step _ _ Hg). cbn.
    rewrite node_after_succ by done.
    destruct (IH (k + 1) (<[Z.to_nat j := node_after net rj (k + 1)]> g))
      as (gn & Hrun & Hn).
    { eapply vget_insert_same, Hg. }
    exists gn. split; [done|].
    now replace (k + Z.of_nat (Datatypes.S n)) with (k + 1 + Z.of_nat n) by lia.
Qed.
End Laziness.


Section Propagation.
Import GMC.
Variable net : ReactionNetwork.
Variable x : list Z.

Lemma emit_dependents (l : list Z) :
  (forall i, i ∈ l -> exists p, compute_propensity net x i = Ok p) ->
  exists ups,
    for_upto (Z.of_nat (length l))
      (fun m emitted =>
         reaction_index ← vget l m;
         new_propensity ← compute_propensity net x reaction_index;
         Ok (emitted ++ [{| index := reaction_index;
                            propensity := new_propensity |}]))
      []
    = Ok ups
    /\ emits net x ups l.
Proof.
  intros Hdef. unfold for_upto. rewrite Nat2Z.id.
  edestruct (for_loop_total
    (fun (m : Z) (acc : list Update) => emits net x acc (take (Z.to_nat m) l)))
    as (ups & Hrun & Hups); [| |exists ups; split; [exact Hrun|]].
  - split; [reflexivity | constructor].
  - intros m acc Hm [Hidx Hall].
    destruct (lookup_lt_is_Some_2 l (Z.to_nat m)) as [i Hi]; [lia|].
    assert (Hget : vget l m = Ok i) by (apply vget_Ok; split; [lia|done]).
    destruct (Hdef i) as [p Hp]; [eapply list_elem_of_lookup_2, Hi|].
    rewrite Hget. cbn. rewrite Hp. cbn. eexists. split; [reflexivity|].
    replace (Z.to_nat (m + 1)) with (Datatypes.S (Z.to_nat m)) by lia.
    rewrite (take_S_r _ _ _ Hi). split.
    + rewrite map_app, Hidx. reflexivity.
    + apply Forall_app. split; [done|]. constructor; [done|constructor].
  - cbn in Hups. rewrite take_ge in Hups by lia. exact Hups.
Qed.

Lemma vget_seqZ (n m : Z) : 0 <= m < n -> vget (seqZ 0 n) m = Ok m.
Proof.
  intros Hm. apply vget_Ok. split; [lia|]. apply lookup_seqZ. lia.
Qed.

Lemma emit_all (n : nat) :
  (forall i, 0 <= i < Z.of_nat n -> exists p, compute_propensity net x i = Ok p) ->
  exists ups,
    for_upto (Z.of_nat n)
      (fun reaction_index emitted =>
         new_propensity ← compute_propensity net x reaction_index;
         Ok (emitted ++ [{| index := reaction_index;
                            propensity := new_propensity |}]))
      []
    = Ok ups
    /\ emits net x ups (seqZ 0 (Z.of_nat n)).
Proof.
  intros Hdef.
  destruct (emit_dependents (seqZ 0 (Z.of_nat n))) as (ups & Hrun & Hups).
  { intros i [k Hk]%list_elem_of_lookup. apply lookup_seqZ in Hk.
    apply Hdef. lia. }
  exists ups. split; [|exact Hups]. rewrite <- Hrun.
  rewrite length_seqZ, Z2Nat.id by lia. unfold for_upto.
  apply for_loop_ext. intros m acc Hm. rewrite vget_seqZ by lia. reflexivity.
Qed.
End Propagation.

(** C6.  After its internal call of [get_dependency_node(next)],
    [update_propensities] emits, in order, exactly one
    [Update{i, compute_propensity(x, i)}] for each [i] of the dependency list
    when that list is present, and exactly one for each reaction index
    [0 .. |reactions| - 1] when it is absent; nothing else is emitted. *)
Theorem update_propensities_emits
    (net : GMC.ReactionNetwork) (g g' : GMC.graph) (x : list Z) (next : Z)
    (maybe_dependents : option (list Z)) :
  GMC.get_dependency_node net g next = Ok (g', maybe_dependents) ->
  let targets :=
    match maybe_dependents with
    | Some l => l
    | None => seqZ 0 (Z.of_nat (length (GMC.reactions net)))
    end in
  (forall i, i ∈ targets -> exists p, GMC.compute_propensity net x i = Ok p) ->
  exists ups,
    GMC.update_propensities net g x next = Ok (g', ups)
    /\ map GMC.index ups = targets
    /\ Forall (fun u => GMC.compute_propensity net x (GMC.index u)
                        = Ok (GMC.propensity u)) ups.
Proof.
  intros Hget targets Hdef. unfold GMC.update_propensities. rewrite Hget. cbn.
  destruct maybe_dependents as [l|]; cbn in targets.
  - destruct (emit_dependents net x l Hdef) as (ups & -> & Hups).
    exists ups. split; [reflexivity | exact Hups].
  - destruct (emit_all net x (length (GMC.reactions net))) as (ups & -> & Hups).
    { intros i Hi. apply Hdef. unfold targets.
      apply list_elem_of_lookup. exists (Z.to_nat i). apply lookup_seqZ. lia. }
    exists ups. split; [reflexivity | exact Hups].
Qed.

Lemma dimerization_wf : Dep.wf_network dimerization.
Proof. repeat constructor; cbn; lia. Qed.


Lemma compute_dependency_node_spec_witness :
  exists l,
    GMC.compute_dependency_node dimerization
      [GMC.fresh_node; GMC.fresh_node] 1
    = Ok [GMC.fresh_node;
          {| GMC.dependents := Some l; GMC.number_of_occurrences := 0 |}]
    /\ StronglySorted Z.lt l
    /\ (0 ∈ l <-> exists ri, vget (GMC.reactions dimerization) 0 = Ok ri
                             /\ Dep.shares_species ri
                                  (GMC.Build_Reaction 1 2 (1, -1) (0, 0)
                                     (Double.of_int 1 ⊘ Double.of_int 10))).
Proof.
  destruct (compute_dependency_node_spec dimerization
              [GMC.fresh_node; GMC.fresh_node] 1 _ _
              dimerization_wf eq_refl eq_refl) as (l & Hrun & Hs & Hl & _).
  exists l. split; [exact Hrun|]. split; [exact Hs|]. apply Hl.
Defined.

Lemma update_propensities_emits_witness :
  exists ups,
    GMC.update_propensities dimerization
      [GMC.fresh_node; GMC.fresh_node] [2; 1] 0
    = Ok ([{| GMC.dependents := Some [0; 1];
              GMC.number_of_occurrences := 1 |}; GMC.fresh_node], ups)
    /\ map GMC.index ups = [0; 1].
Proof.
  destruct (update_propensities_emits dimerization
              [GMC.fresh_node; GMC.fresh_node] _ [2; 1] 0 _ eq_refl)
    as (ups & Hrun & Hidx & _).
  - cbn. intros i Hi.
    apply elem_of_cons in Hi as [-> | Hi]; [eexists; reflexivity|].
    apply elem_of_cons in Hi as [-> | Hi]; [eexists; reflexivity|].
    inversion Hi.
  - exists ups. split; [exact Hrun | exact Hidx].
Defined.

(** * Properties of the simulation driver *)

Lemma positive_dt_reaches_zero_cutoff (d : double) :
  Double.ltb Double.zero d = true ->
  Double.geb (Double.zero ⊕ d) Double.zero = true.
Proof. destruct d as [s | [|] | | [|] m e]; cbn; (discriminate || reflexivity). Qed.

Section DriverFacts.
Import Core.
Context {S M : Type} `{Solver S} `{Model M}.
Implicit Types sim : Simulation S M.

Lemma execute_step_no_event sim (solver1 : S) :
  event (solver sim) = (None, solver1) ->
  execute_step sim
  = Done (false,
          {| model := model sim; seed := seed sim; state := state sim;
             sim_time := sim_time sim; time_cutoff := time_cutoff sim;
             step := step sim; solver := solver1; history := history sim |}).
Proof. intros He. unfold execute_step. now rewrite He. Qed.

Lemma execute_step_event sim (ev : Event) (solver1 : S) (state1 : list Z)
    (model1 : M) (updates : list GMC.Update) :
  event (solver sim) = (Some ev, solver1) ->
  0 <= step sim < Z.of_nat (length (history sim)) ->
  update_state (model sim) (state sim) (index ev) = Ok state1 ->
  update_propensities (model sim) state1 (index ev) = Ok (model1, updates) ->
  execute_step sim
  = Done (negb (Double.geb (sim_time sim ⊕ dt ev) (time_cutoff sim)),
          {| model := model1; seed := seed sim; state := state1;
             sim_time := sim_time sim ⊕ dt ev;
             time_cutoff := time_cutoff sim;
             step := step sim + 1;
             solver := fold_left update updates solver1;
             history := <[Z.to_nat (step sim) :=
                            {| reaction_id := index ev;
                               time := sim_time sim ⊕ dt ev |}]>
                        (history sim) |}).
Proof.
  intros He Hstep Hst Hup. unfold execute_step. rewrite He.
  unfold vset. destruct (Z.leb_spec 0 (step sim)); [|lia].
  destruct (Z.ltb_spec (step sim) (Z.of_nat (length (history sim)))); [|lia].
  cbn. rewrite Hst, Hup. now destruct (Double.geb _ _).
Qed.

(** What one step does to the counters, whatever the solver answers. *)
Lemma execute_step_counters sim (b : bool) sim' :
  execute_step sim = Done (b, sim') ->
  length (history sim') = length (history sim)
  /\ step sim <= step sim' <= step sim + 1
  /\ (b = true -> step sim' = step sim + 1).
Proof.
  unfold execute_step. destruct (event (solver sim)) as [[ev|] solver1].
  - destruct (vset _ _ _) as [h1|] eqn:Hh; [|discriminate].
    destruct (update_state _ _ _) as [st1|]; [|discriminate].
    destruct (update_propensities _ _ _) as [[m1 ups]|]; [|discriminate].
    intros [= <- <-]. cbn. apply vset_length in Hh. repeat split; (done || lia).
  - intros [= <- <-]. cbn. repeat split; (done || lia).
Qed.

Lemma execute_step_in_buffer sim :
  0 <= step sim < Z.of_nat (length (history sim)) ->
  match execute_step sim with
  | Done _ | ModelFault _ => True
  | _ => False
  end.
Proof.
  intros Hstep. unfold execute_step.
  destruct (event (solver sim)) as [[ev|] solver1]; [|done].
  unfold vset. destruct (Z.leb_spec 0 (step sim)); [|lia].
  destruct (Z.ltb_spec (step sim) (Z.of_nat (length (history sim)))); [|lia].
  cbn. destruct (update_state _ _ _); [|done].
  now destruct (update_propensities _ _ _) as [[? ?]|].
Qed.

Lemma execute_steps_in_buffer (fuel : nat) (cutoff : Z) sim :
  0 <= step sim <= cutoff ->
  Z.of_nat (length (history sim)) = cutoff + 1 ->
  cutoff - step sim < Z.of_nat fuel ->
  match execute_steps fuel cutoff sim with
  | Done sim' => step sim <= step sim' <= cutoff + 1
                 /\ Z.of_nat (length (history sim')) = cutoff + 1
  | ModelFault _ => True
  | _ => False
  end.
Proof.
  revert sim. induction fuel as [|fuel IH]; intros sim Hstep Hlen Hfuel;
    [lia|]. simpl.
  pose proof (execute_step_in_buffer sim ltac:(lia)) as Hsafe.
  destruct (execute_step sim) as [[b sim1]| | | |] eqn:Hrun; try done.
  apply execute_step_counters in Hrun as (Hl & Hs & Hb).
  destruct b.
  - specialize (Hb eq_refl).
    destruct (Z.gtb_spec (step sim1) cutoff); [split; lia|].
    specialize (IH sim1 ltac:(lia) ltac:(lia) ltac:(lia)).
    destruct (execute_steps fuel cutoff sim1); try done.
    destruct IH. split; lia.
  - split; lia.
Qed.
End DriverFacts.

(** C8.  [execute_step] returns stop when the solver yields no event and
    leaves state, time, step and history as they are.  On an event it adds
    [dt] to the time, writes the history element at index [step], increments
    [step], calls [update_state] and then [update_propensities] with the
    fired index (forwarding the updates to the solver), and returns stop
    exactly when the new time is [>= time_cutoff].  With time 0, cutoff 0
    and a positive [dt] the step fires, records its element and returns
    stop, so that [execute_steps] ends after this one firing. *)
Theorem execute_step_spec {S M : Type} `{Core.Solver S} `{Core.Model M}
    (sim : Core.Simulation S M) :
  (forall solver1,
     Core.event (Core.solver sim) = (None, solver1) ->
     Core.execute_step sim
     = Core.Done
         (false,
          {| Core.model := Core.model sim; Core.seed := Core.seed sim;
             Core.state := Core.state sim;
             Core.sim_time := Core.sim_time sim;
             Core.time_cutoff := Core.time_cutoff sim;
             Core.step := Core.step sim; Core.solver := solver1;
             Core.history := Core.history sim |}))
  /\ (forall ev solver1 state1 model1 updates,
        Core.event (Core.solver sim) = (Some ev, solver1) ->
        0 <= Core.step sim < Z.of_nat (length (Core.history sim)) ->
        Core.update_state (Core.model sim) (Core.state sim) (Core.index ev)
        = Ok state1 ->
        Core.update_propensities (Core.model sim) state1 (Core.index ev)
        = Ok (model1, updates) ->
        let time1 := Core.sim_time sim ⊕ Core.dt ev in
        let sim1 :=
          {| Core.model := model1; Core.seed := Core.seed sim;
             Core.state := state1;
             Core.sim_time := time1;
             Core.time_cutoff := Core.time_cutoff sim;
             Core.step := Core.step sim + 1;
             Core.solver := fold_left Core.update updates solver1;
             Core.history :=
               <[Z.to_nat (Core.step sim) :=
                   {| Core.reaction_id := Core.index ev;
                      Core.time := time1 |}]> (Core.history sim) |} in
        Core.execute_step sim
        = Core.Done (negb (Double.geb time1 (Core.time_cutoff sim)), sim1)
        /\ (Core.sim_time sim = Double.zero ->
            Core.time_cutoff sim = Double.zero ->
            Double.ltb Double.zero (Core.dt ev) = true ->
            Core.execute_step sim = Core.Done (false, sim1)
            /\ forall fuel cutoff,
                 Core.execute_steps (Datatypes.S fuel) cutoff sim
                 = Core.Done sim1)).
Proof.
  split.
  - intros solver1. apply execute_step_no_event.
  - intros ev solver1 state1 model1 updates He Hstep Hst Hup time1 sim1.
    pose proof (execute_step_event sim ev solver1 state1 model1 updates
                  He Hstep Hst Hup) as Hrun.
    split; [exact Hrun|]. intros Ht Hc Hdt.
    assert (Hstop : Core.execute_step sim = Core.Done (false, sim1)).
    { assert (Hge : Double.geb time1 (Core.time_cutoff sim) = true).
      { unfold time1. rewrite Ht, Hc.
        now apply positive_dt_reaches_zero_cutoff. }
      rewrite Hrun. fold time1. now rewrite Hge. }
    split; [exact Hstop|]. intros fuel cutoff. simpl. now rewrite Hstop.
Qed.

(** C9.  A simulation constructed with [step_cutoff >= 0], below the
    largest [int] so that [step_cutoff + 1] is an [int], starts at step 0
    with a history buffer of [step_cutoff + 1] elements.  [execute_steps]
    calls [execute_step] until it returns stop or [step > step_cutoff];
    within [step_cutoff + 1] iterations the run ends, and it never writes
    outside the history buffer: it ends normally with
    [step <= step_cutoff + 1], or inside a call into the model. *)
Theorem execute_steps_within_history {S M : Type}
    `{Core.Solver S} `{Core.Model M}
    (m : M) (seed step_cutoff : Z) (time_cutoff : double) :
  0 <= step_cutoff < Int.max ->
  exists sim0 : Core.Simulation S M,
    Core.new_simulation m seed step_cutoff time_cutoff = Core.Done sim0
    /\ Core.step sim0 = 0
    /\ Z.of_nat (length (Core.history sim0)) = step_cutoff + 1
    /\ (forall fuel, step_cutoff < Z.of_nat fuel ->
          match Core.execute_steps fuel step_cutoff sim0 with
          | Core.Done sim' =>
              0 <= Core.step sim' <= step_cutoff + 1
              /\ Z.of_nat (length (Core.history sim')) = step_cutoff + 1
          | Core.ModelFault _ => True
          | _ => False
          end)
    /\ (forall fuel (sim : Core.Simulation S M),
          Core.execute_steps (Datatypes.S fuel) step_cutoff sim
          = match Core.execute_step sim with
            | Core.Done (true, sim1) =>
                if Core.step sim1 >? step_cutoff then Core.Done sim1
                else Core.execute_steps fuel step_cutoff sim1
            | Core.Done (false, sim1) => Core.Done sim1
            | Core.HistoryOverrun => Core.HistoryOverrun
            | Core.ModelFault f => Core.ModelFault f
            | Core.LengthError => Core.LengthError
            | Core.BudgetExhausted => Core.BudgetExhausted
            end).
Proof.
  intros Hc. unfold Core.new_simulation.
  destruct (Z.ltb_spec (step_cutoff + 1) 0); [lia|].
  destruct (Z.ltb_spec Int.max (step_cutoff + 1)); [lia|]. cbn [orb].
  eexists. split; [reflexivity|]. cbn.
  split; [reflexivity|]. rewrite length_replicate.
  split; [lia|]. split.
  - intros fuel Hfuel.
    match goal with |- context [Core.execute_steps fuel step_cutoff ?s] =>
      pose proof (execute_steps_in_buffer fuel step_cutoff s) as Hrun end.
    cbn in Hrun. rewrite length_replicate in Hrun.
    specialize (Hrun ltac:(lia) ltac:(lia) ltac:(lia)).
    destruct (Core.execute_steps _ _ _); exact Hrun.
  - intros fuel sim. simpl.
    destruct (Core.execute_step sim) as [[[|] sim1]| | | |]; reflexivity.
Qed.

(** Scenario F on the dimerization network: one event with [dt = 1]. *)
Lemma execute_step_spec_witness :
  exists sim0 sim1 : Core.Simulation (list Core.Event)
                       (GMC.ReactionNetwork * GMC.graph),
    Core.new_simulation (dimerization, [GMC.fresh_node; GMC.fresh_node])
      1 5 Double.zero = Core.Done sim0
    /\ Core.execute_step sim0 = Core.Done (false, sim1)
    /\ Core.state sim1 = [2; 1]
    /\ Core.step sim1 = 1
    /\ Core.execute_steps 1 5 sim0 = Core.Done sim1.
Proof.
  eexists. eexists. split; [reflexivity|].
  match goal with |- Core.execute_step ?s = _ /\ _ =>
    destruct (execute_step_spec s) as [_ Hev] end.
  edestruct Hev as [_ Hzero].
  - reflexivity.
  - vm_compute. split; [discriminate | reflexivity].
  - reflexivity.
  - vm_compute. reflexivity.
  - destruct Hzero as [Hstop Hsteps]; [reflexivity..|].
    split; [exact Hstop|]. split; [reflexivity|]. split; [reflexivity|].
    apply Hsteps.
Defined.

Lemma execute_steps_within_history_witness :
  exists sim0 : Core.Simulation (list Core.Event)
                  (GMC.ReactionNetwork * GMC.graph),
    Core.new_simulation (dimerization, [GMC.fresh_node; GMC.fresh_node])
      3 1 (Double.of_int 10) = Core.Done sim0
    /\ match Core.execute_steps 2 1 sim0 with
       | Core.Done sim' => 0 <= Core.step sim' <= 1 + 1
                           /\ Z.of_nat (length (Core.history sim')) = 1 + 1
       | Core.ModelFault _ => True
       | _ => False
       end.
Proof.
  destruct (execute_steps_within_history (S := list Core.Event)
              (dimerization, [GMC.fresh_node; GMC.fresh_node])
              3 1 (Double.of_int 10) ltac:(unfold Int.max; lia))
    as (sim0 & Hnew & _ & _ & Hrun & _).
  exists sim0. split; [exact Hnew|]. apply (Hrun 2%nat). lia.
Defined.

(** * Properties of the nanoparticle engine *)

Lemma update_state_loop_frame (r : Reaction.t) (s : Z) (n : nat) (k : Z)
    (state : list Z) :
  s <> fst (Reaction.site_id r) -> s <> snd (Reaction.site_id r) ->
  vget (fst (NPMC.update_state_loop n k state r)) s = vget state s.
Proof.
  intros Hs0 Hs1. revert k state.
  induction n as [|n IH]; intros k state; [done|]. simpl.
  destruct (at2 (Reaction.site_id r) k) as [site|] eqn:Hsite; [|done]. cbn.
  destruct (vget state site) as [found|] eqn:Hf; [|done]. cbn.
  destruct (at2 (Interaction.left_state _) k) as [expected|]; [|done]. cbn.
  destruct (found =? expected); [|done].
  destruct (at2 (Interaction.right_state _) k) as [new|]; [|done]. cbn.
  destruct (vset state site new) as [state'|] eqn:Hset; [|done].
  rewrite IH. eapply vget_vset_other; [exact Hset|].
  intros ->. unfold at2 in Hsite.
  destruct (k =? 0); [congruence|]. destruct (k =? 1); congruence.
Qed.

(** C7, as amended.  [update_state] treats the sites of the reaction in
    order: it checks [state[site_id[k]] == left_state[k]] and, when the check
    passes, sets [state[site_id[k]] := right_state[k]] before it looks at the
    next site.  When every check passes, each site of the reaction holds its
    right state and every other site is unchanged.  When the check of the
    first site fails the interrupt is raised on the unchanged state; when
    the check of the second site fails, the interrupt is raised after the
    first site has been set to its right state. *)
Theorem update_state_site_by_site (state : list Z) (r : Reaction.t)
    (s0 s1 l0 l1 r0 r1 v0 : Z) :
  Reaction.site_id r = (s0, s1) ->
  Interaction.left_state (Reaction.interaction r) = (l0, l1) ->
  Interaction.right_state (Reaction.interaction r) = (r0, r1) ->
  vget state s0 = Ok v0 ->
  (Interaction.number_of_sites (Reaction.interaction r) = 1 ->
     NPMC.update_state state r
     = if v0 =? l0 then (<[Z.to_nat s0 := r0]> state, Ok tt)
       else (state, Fault Sigint))
  /\ (forall v1,
        Interaction.number_of_sites (Reaction.interaction r) = 2 ->
        s0 <> s1 ->
        vget state s1 = Ok v1 ->
        NPMC.update_state state r
        = if v0 =? l0 then
            if v1 =? l1
            then (<[Z.to_nat s1 := r1]> (<[Z.to_nat s0 := r0]> state), Ok tt)
            else (<[Z.to_nat s0 := r0]> state, Fault Sigint)
          else (state, Fault Sigint))
  /\ (forall s, s <> s0 -> s <> s1 ->
        vget (fst (NPMC.update_state state r)) s = vget state s).
Proof.
  intros Hs Hl Hr Hv0.
  pose proof (vget_range _ _ _ Hv0) as Hr0.
  assert (Hset0 : vset state s0 r0 = Ok (<[Z.to_nat s0 := r0]> state))
    by (apply vset_Ok; split; [lia | done]).
  assert (Hone : Interaction.number_of_sites (Reaction.interaction r) = 1 ->
     NPMC.update_state state r
     = if v0 =? l0 then (<[Z.to_nat s0 := r0]> state, Ok tt)
       else (state, Fault Sigint)).
  { intros Hn. unfold NPMC.update_state. rewrite Hn. small_nat. cbn.
    rewrite Hs, Hl, Hr. cbn. rewrite Hv0. cbn.
    destruct (v0 =? l0); [|done]. now rewrite Hset0. }
  assert (Htwo : forall v1,
        Interaction.number_of_sites (Reaction.interaction r) = 2 ->
        s0 <> s1 ->
        vget state s1 = Ok v1 ->
        NPMC.update_state state r
        = if v0 =? l0 then
            if v1 =? l1
            then (<[Z.to_nat s1 := r1]> (<[Z.to_nat s0 := r0]> state), Ok tt)
            else (<[Z.to_nat s0 := r0]> state, Fault Sigint)
          else (state, Fault Sigint)).
  { intros v1 Hn Hne Hv1. unfold NPMC.update_state. rewrite Hn. small_nat. cbn.
    rewrite Hs, Hl, Hr. cbn. rewrite Hv0. cbn.
    destruct (v0 =? l0); [|done]. rewrite Hset0. small_nat. cbn.
    rewrite (vget_vset_other _ _ _ _ _ Hset0 Hne), Hv1. cbn.
    destruct (v1 =? l1); [|done].
    pose proof (vget_range _ _ _ Hv1) as Hr1.
    assert (Hset1 : vset (<[Z.to_nat s0 := r0]> state) s1 r1
                    = Ok (<[Z.to_nat s1 := r1]> (<[Z.to_nat s0 := r0]> state))).
    { apply vset_Ok. rewrite length_insert. split; [lia | done]. }
    now rewrite Hset1. }
  split; [exact Hone|]. split; [exact Htwo|].
  intros s Hs0 Hs1. apply update_state_loop_frame; now rewrite Hs.
Qed.

(** C7 as stated fails: the second site does not match, and the interrupt
    is raised after the first site has been changed from 0 to 1. *)
Lemma update_state_raises_after_mutation :
  vget [0; 5] 0 = Ok 0
  /\ vget [0; 5] 1 = Ok 5
  /\ NPMC.update_state [0; 5] pair_reaction = ([1; 5], Fault Sigint)
  /\ fst (NPMC.update_state [0; 5] pair_reaction) <> [0; 5].
Proof. repeat split. discriminate. Qed.

Lemma update_state_site_by_site_witness :
  NPMC.update_state [0; 0; 7] pair_reaction = ([1; 1; 7], Ok tt)
  /\ NPMC.update_state [0; 5; 7] pair_reaction = ([1; 5; 7], Fault Sigint)
  /\ NPMC.update_state [3; 0; 7] pair_reaction = ([3; 0; 7], Fault Sigint).
Proof.
  split; [|split].
  - destruct (update_state_site_by_site [0; 0; 7] pair_reaction
                0 1 0 0 1 1 0 eq_refl eq_refl eq_refl eq_refl) as (_ & H & _).
    apply (H 0); [reflexivity | lia | reflexivity].
  - destruct (update_state_site_by_site [0; 5; 7] pair_reaction
                0 1 0 0 1 1 0 eq_refl eq_refl eq_refl eq_refl) as (_ & H & _).
    apply (H 5); [reflexivity | lia | reflexivity].
  - destruct (update_state_site_by_site [3; 0; 7] pair_reaction
                0 1 0 0 1 1 3 eq_refl eq_refl eq_refl eq_refl) as (_ & H & _).
    apply (H 0); [reflexivity | lia | reflexivity].
Defined.


(** C3, evaluated on Scenario E.  The constructor's loop visits both
    [(site_id_0, site_id_1) = (0, 1)] and [(1, 0)] and adds both orientations
    at each visit: it produces four reactions, the ordered pairs [(0,1)],
    [(1,0)], [(1,0)], [(0,1)], each registered under both sites and each with
    rate [0.9 * two_site_interaction_factor]. *)
Theorem initial_enumeration_two_site_pair (factor : double) :
  exists m,
    NPMC.new_nano_particle no_pow (two_site_pair factor) = Ok m
    /\ NPMC.distance_matrix m
       = [[Double.zero; Double.of_int 1]; [Double.of_int 1; Double.zero]]
    /\ map Reaction.site_id (NPMC.initial_reactions m)
       = [(0, 1); (1, 0); (1, 0); (0, 1)]
    /\ Forall (fun r => Reaction.rate r
                        = (Double.of_int 9 ⊘ Double.of_int 10) ⊗ factor)
              (NPMC.initial_reactions m)
    /\ NPMC.site_reaction_dependency m = [[0; 1; 2; 3]; [0; 1; 2; 3]].
Proof.
  eexists. split; [reflexivity|].
  split; [reflexivity|]. split; [reflexivity|].
  split; [|reflexivity].
  repeat constructor.
Qed.

Section TensorShapes.
Import NPMC.

Lemma vset_Forall {A} (P : A -> Prop) (v v' : list A) (i : Z) (x : A) :
  Forall P v -> P x -> vset v i x = Ok v' -> Forall P v'.
Proof. intros Hv Hx [_ ->]%vset_Ok. now apply Forall_insert. Qed.

Lemma vget_Forall {A} (P : A -> Prop) (v : list A) (i : Z) (x : A) :
  Forall P v -> vget v i = Ok x -> P x.
Proof.
  intros Hv [_ H]%vget_Ok. eapply (proj1 (Forall_lookup _ _) Hv), H.
Qed.

Lemma vset_length_Z {A} (v v' : list A) (i : Z) (x : A) :
  vset v i x = Ok v' -> Z.of_nat (length v') = Z.of_nat (length v).
Proof. intros H. now rewrite (vset_length _ _ _ _ H). Qed.

Lemma foldM_invariant {A S} (P : S -> Prop) (f : S -> A -> result S)
    (l : list A) (s s' : S) :
  P s -> (forall t a t', P t -> f t a = Ok t' -> P t') ->
  foldM f l s = Ok s' -> P s'.
Proof.
  intros Hs Hstep. revert s Hs. induction l as [|a l IH]; intros s Hs; simpl.
  - now intros [= <-].
  - destruct (f s a) as [t|] eqn:Hf; cbn; [|discriminate].
    apply IH. eapply Hstep; eauto.
Qed.

Lemma resized_Ok {A} (n : Z) (d : A) (v : list A) :
  resized n d = Ok v -> 0 <= n /\ v = replicate (Z.to_nat n) d.
Proof.
  unfold resized. destruct (Z.ltb_spec n 0); [discriminate|].
  intros [= <-]. split; [lia | done].
Qed.

Lemma one_site_push_shape (nsp ns : Z) map sp st (i : Interaction.t) map' :
  one_site_shape nsp ns map ->
  one_site_push map sp st i = Ok map' ->
  one_site_shape nsp ns map'.
Proof.
  intros [Hlen Hall]. unfold one_site_push.
  destruct (vget map sp) as [m1|] eqn:E1; cbn; [|discriminate].
  destruct (vget m1 st) as [cell|] eqn:E2; cbn; [|discriminate].
  destruct (vset m1 st _) as [m1'|] eqn:E3; cbn; [|discriminate].
  intros E4. split.
  - now rewrite (vset_length_Z _ _ _ _ E4).
  - eapply vset_Forall; [exact Hall | | exact E4]. cbn.
    rewrite (vset_length_Z _ _ _ _ E3). eapply (vget_Forall _ _ _ _ Hall E1).
Qed.

Lemma two_site_push_shape (nsp ns : Z) map spa spb sta stb
    (i : Interaction.t) map' :
  two_site_shape nsp ns map ->
  two_site_push map spa spb sta stb i = Ok map' ->
  two_site_shape nsp ns map'.
Proof.
  intros [Hlen Hall]. unfold two_site_push.
  destruct (vget map spa) as [m1|] eqn:E1; cbn; [|discriminate].
  destruct (vget m1 spb) as [m2|] eqn:E2; cbn; [|discriminate].
  destruct (vget m2 sta) as [m3|] eqn:E3; cbn; [|discriminate].
  destruct (vget m3 stb) as [cell|] eqn:E4; cbn; [|discriminate].
  destruct (vset m3 stb _) as [m3'|] eqn:E5; cbn; [|discriminate].
  destruct (vset m2 sta _) as [m2'|] eqn:E6; cbn; [|discriminate].
  destruct (vset m1 spb _) as [m1'|] eqn:E7; cbn; [|discriminate].
  intros E8.
  pose proof (vget_Forall _ _ _ _ Hall E1) as [Hl1 Hall1].
  pose proof (vget_Forall _ _ _ _ Hall1 E2) as [Hl2 Hall2].
  pose proof (vget_Forall _ _ _ _ Hall2 E3) as Hl3.
  split.
  - now rewrite (vset_length_Z _ _ _ _ E8).
  - eapply vset_Forall; [exact Hall | | exact E8]. cbn. split.
    + now rewrite (vset_length_Z _ _ _ _ E7).
    + eapply vset_Forall; [exact Hall1 | | exact E7]. cbn. split.
      * now rewrite (vset_length_Z _ _ _ _ E6).
      * eapply vset_Forall; [exact Hall2 | | exact E6]. cbn.
        now rewrite (vset_length_Z _ _ _ _ E5).
Qed.

Lemma build_interaction_maps_shape (nsp ns : Z) one two map1 map2 :
  build_interaction_maps nsp ns one two = Ok (map1, map2) ->
  one_site_shape nsp ns map1 /\ two_site_shape nsp ns map2.
Proof.
  unfold build_interaction_maps.
  destruct (resized ns []) as [cells1|] eqn:R1; cbn; [|discriminate].
  destruct (resized nsp cells1) as [m1|] eqn:R2; cbn; [|discriminate].
  destruct (resized ns cells1) as [cells2|] eqn:R3; cbn; [|discriminate].
  destruct (resized nsp cells2) as [bs2|] eqn:R4; cbn; [|discriminate].
  destruct (resized nsp bs2) as [m2|] eqn:R5; cbn; [|discriminate].
  destruct (foldM _ one m1) as [m1'|] eqn:F1; cbn; [|discriminate].
  destruct (foldM _ two m2) as [m2'|] eqn:F2; cbn; [|discriminate].
  intros [= <- <-].
  apply resized_Ok in R1 as [Hns ->], R2 as [Hnsp ->], R3 as [_ ->],
    R4 as [_ ->], R5 as [_ ->].
  split.
  - eapply (foldM_invariant (one_site_shape nsp ns)); [| |exact F1].
    + split; [rewrite length_replicate; lia|].
      apply Forall_replicate. rewrite length_replicate. lia.
    + intros t a t' Ht. apply one_site_push_shape, Ht.
  - eapply (foldM_invariant (two_site_shape nsp ns)); [| |exact F2].
    + split; [rewrite length_replicate; lia|].
      apply Forall_replicate. split; [rewrite length_replicate; lia|].
      apply Forall_replicate. split; [rewrite length_replicate; lia|].
      apply Forall_replicate. rewrite length_replicate. lia.
    + intros t a t' Ht. apply two_site_push_shape, Ht.
Qed.

Lemma one_site_lookup_in_bounds (nsp ns : Z) map sp st :
  one_site_shape nsp ns map ->
  is_ok (one_site_lookup map sp st) = true <->
  0 <= sp < nsp /\ 0 <= st < ns.
Proof.
  intros [Hlen Hall]. unfold one_site_lookup. split.
  - destruct (vget map sp) as [m1|] eqn:E1; cbn; [|discriminate].
    destruct (vget m1 st) as [cell|] eqn:E2; [|discriminate]. intros _.
    pose proof (vget_Forall _ _ _ _ Hall E1) as Hl1. cbn in Hl1.
    apply vget_range in E1, E2. lia.
  - intros [Hsp Hst].
    destruct (vget_in_range map sp) as [m1 E1]; [lia|]. rewrite E1. cbn.
    pose proof (vget_Forall _ _ _ _ Hall E1) as Hl1. cbn in Hl1.
    destruct (vget_in_range m1 st) as [cell E2]; [lia|]. now rewrite E2.
Qed.

Lemma two_site_lookup_in_bounds (nsp ns : Z) map spa spb sta stb :
  two_site_shape nsp ns map ->
  is_ok (two_site_lookup map spa spb sta stb) = true <->
  (0 <= spa < nsp /\ 0 <= spb < nsp) /\ 0 <= sta < ns /\ 0 <= stb < ns.
Proof.
  intros [Hlen Hall]. unfold two_site_lookup. split.
  - destruct (vget map spa) as [m1|] eqn:E1; cbn; [|discriminate].
    destruct (vget m1 spb) as [m2|] eqn:E2; cbn; [|discriminate].
    destruct (vget m2 sta) as [m3|] eqn:E3; cbn; [|discriminate].
    destruct (vget m3 stb) as [cell|] eqn:E4; [|discriminate]. intros _.
    pose proof (vget_Forall _ _ _ _ Hall E1) as [Hl1 Hall1].
    pose proof (vget_Forall _ _ _ _ Hall1 E2) as [Hl2 Hall2].
    pose proof (vget_Forall _ _ _ _ Hall2 E3) as Hl3. cbn in Hl3.
    apply vget_range in E1, E2, E3, E4. lia.
  - intros [[Hspa Hspb] [Hsta Hstb]].
    destruct (vget_in_range map spa) as [m1 E1]; [lia|]. rewrite E1. cbn.
    pose proof (vget_Forall _ _ _ _ Hall E1) as [Hl1 Hall1].
    destruct (vget_in_range m1 spb) as [m2 E2]; [lia|]. rewrite E2. cbn.
    pose proof (vget_Forall _ _ _ _ Hall1 E2) as [Hl2 Hall2].
    destruct (vget_in_range m2 sta) as [m3 E3]; [lia|]. rewrite E3. cbn.
    pose proof (vget_Forall _ _ _ _ Hall2 E3) as Hl3. cbn in Hl3.
    destruct (vget_in_range m3 stb) as [cell E4]; [lia|]. now rewrite E4.
Qed.

Lemma read_interactions_num_states (rows : list InteractionSql.t) :
  snd (read_interactions rows) = max_left_state_1 rows.
Proof.
  unfold read_interactions, max_left_state_1.
  generalize (@nil Interaction.t) at 1. generalize (@nil Interaction.t).
  generalize 0 at 1. generalize 0.
  induction rows as [|row rows IH]; intros ns c two one; [done|]. simpl.
  destruct (Z.ltb_spec ns (InteractionSql.left_state_1 row)).
  - rewrite Z.max_r by lia. apply IH.
  - rewrite Z.max_l by lia. apply IH.
Qed.

(** The tensors of a constructed model. *)
Lemma new_nano_particle_maps pow (db : Database) (m : NanoParticle) :
  new_nano_particle pow db = Ok m ->
  exists md,
    metadata db = Some md
    /\ build_interaction_maps (MetadataSql.number_of_species md)
         (max_left_state_1 (interaction_rows db) + 1)
         (one_site_interactions m) (two_site_interactions m)
       = Ok (one_site_interactions_map m, two_site_interactions_map m).
Proof.
  unfold new_nano_particle.
  destruct (metadata db) as [md|]; [|discriminate].
  destruct (factors db) as [fr|]; [|discriminate].
  destruct (String.eqb _ "linear");
    [|destruct (String.eqb _ "inverse_cubic"); [|cbn; discriminate]]; cbn.
  all: destruct (resized (MetadataSql.number_of_species md) 0) as [dof0|];
    cbn; [|discriminate].
  all: destruct (foldM _ (species_rows db) dof0) as [dof|]; cbn; [|discriminate].
  all: destruct (resized (MetadataSql.number_of_sites md)
                   (Site.Build_t _ _ _ _)) as [sites0|]; cbn; [|discriminate].
  all: destruct (resized (MetadataSql.number_of_sites md) IntSet.empty)
    as [deps0|]; cbn; [|discriminate].
  all: destruct (foldM _ (site_rows db) sites0) as [sites|]; cbn; [|discriminate].
  all: pose proof (read_interactions_num_states (interaction_rows db)) as Hns.
  all: destruct (read_interactions (interaction_rows db)) as [[[one two] c] ns].
  all: cbn in Hns; subst ns.
  all: destruct (build_interaction_maps _ _ one two) as [[map1 map2]|] eqn:Hb;
    cbn; [|discriminate].
  all: destruct (resized (MetadataSql.number_of_sites md) 0) as [st0|];
    cbn; [|discriminate].
  all: destruct (foldM _ (initial_state_rows db) st0) as [st|]; cbn; [|discriminate].
  all: destruct (for_upto _ _ _) as [[[rs deps] cnt]|]; cbn; [|discriminate].
  all: intros [= <-]; cbn; exists md; (split; [done | exact Hb]).
Qed.

Lemma foldM_Forall {A S} (P : S -> Prop) (Q : A -> Prop)
    (f : S -> A -> result S) (l : list A) (s s' : S) :
  P s -> (forall t a t', P t -> f t a = Ok t' -> P t' /\ Q a) ->
  foldM f l s = Ok s' -> Forall Q l.
Proof.
  intros Hs Hstep. revert s Hs. induction l as [|a l IH]; intros s Hs; simpl.
  - constructor.
  - destruct (f s a) as [t|] eqn:Hf; cbn; [|discriminate].
    destruct (Hstep _ _ _ Hs Hf) as [Ht Ha]. intros Hrun.
    constructor; [exact Ha | eapply IH; eauto].
Qed.

Lemma two_site_push_lookup map spa spb sta stb (i : Interaction.t) map' :
  two_site_push map spa spb sta stb i = Ok map' ->
  is_ok (two_site_lookup map spa spb sta stb) = true.
Proof.
  unfold two_site_push, two_site_lookup.
  destruct (vget map spa) as [m1|]; cbn; [|discriminate].
  destruct (vget m1 spb) as [m2|]; cbn; [|discriminate].
  destruct (vget m2 sta) as [m3|]; cbn; [|discriminate].
  now destruct (vget m3 stb) as [cell|].
Qed.

(** A construction that succeeds has found the left states of every stored
    two-site interaction inside the tensor. *)
Lemma build_interaction_maps_left_states (nsp ns : Z) one two map1 map2 :
  build_interaction_maps nsp ns one two = Ok (map1, map2) ->
  Forall (fun i => 0 <= fst (Interaction.left_state i) < ns
                   /\ 0 <= snd (Interaction.left_state i) < ns) two.
Proof.
  unfold build_interaction_maps.
  destruct (resized ns []) as [cells1|] eqn:R1; cbn; [|discriminate].
  destruct (resized nsp cells1) as [m1|] eqn:R2; cbn; [|discriminate].
  destruct (resized ns cells1) as [cells2|] eqn:R3; cbn; [|discriminate].
  destruct (resized nsp cells2) as [bs2|] eqn:R4; cbn; [|discriminate].
  destruct (resized nsp bs2) as [m2|] eqn:R5; cbn; [|discriminate].
  destruct (foldM _ one m1) as [m1'|] eqn:F1; cbn; [|discriminate].
  destruct (foldM _ two m2) as [m2'|] eqn:F2; cbn; [|discriminate].
  intros _.
  apply resized_Ok in R1 as [Hns ->], R2 as [Hnsp ->], R3 as [_ ->],
    R4 as [_ ->], R5 as [_ ->].
  eapply (foldM_Forall (two_site_shape nsp ns)); [| |exact F2].
  - split; [rewrite length_replicate; lia|].
    apply Forall_replicate. split; [rewrite length_replicate; lia|].
    apply Forall_replicate. split; [rewrite length_replicate; lia|].
    apply Forall_replicate. rewrite length_replicate. lia.
  - intros t a t' Ht Hpush. cbn beta in Hpush.
    split; [eapply two_site_push_shape; eauto|].
    apply two_site_push_lookup in Hpush.
    apply (two_site_lookup_in_bounds nsp ns _ _ _ _ _ Ht) in Hpush. lia.
Qed.
End TensorShapes.

(** C10.  In a constructed model both lookup tensors have their state
    dimensions equal to 1 plus the largest [left_state_1] of the interaction
    rows, whatever the degrees of freedom of the species are.  Hence a
    lookup is inside the tensor exactly when its species are below
    [number_of_species] and its states are between 0 and that largest
    [left_state_1]; the left states of every stored two-site interaction
    satisfied this during construction.  Scenario D is an input whose
    [right_state_1] exceeds every [left_state_1]: after its first reaction
    has fired, [update_reactions] reads [one_site_interactions_map[0][1]]
    past the end of the tensor. *)
Theorem interaction_tensors_sized_by_left_state_1
    (pow : double -> double -> double) (db : Database)
    (m : NPMC.NanoParticle) (md : MetadataSql.t) :
  NPMC.new_nano_particle pow db = Ok m ->
  metadata db = Some md ->
  let num_species := MetadataSql.number_of_species md in
  let largest := max_left_state_1 (interaction_rows db) in
  one_site_shape num_species (1 + largest) (NPMC.one_site_interactions_map m)
  /\ two_site_shape num_species (1 + largest)
       (NPMC.two_site_interactions_map m)
  /\ (forall species state,
        is_ok (NPMC.one_site_lookup (NPMC.one_site_interactions_map m)
                 species state) = true
        <-> 0 <= species < num_species /\ 0 <= state <= largest)
  /\ (forall species_a species_b state_a state_b,
        is_ok (NPMC.two_site_lookup (NPMC.two_site_interactions_map m)
                 species_a species_b state_a state_b) = true
        <-> (0 <= species_a < num_species /\ 0 <= species_b < num_species)
            /\ 0 <= state_a <= largest /\ 0 <= state_b <= largest)
  /\ Forall (fun i => 0 <= fst (Interaction.left_state i) <= largest
                      /\ 0 <= snd (Interaction.left_state i) <= largest)
            (NPMC.two_site_interactions m)
  /\ (exists m' r state',
        NPMC.new_nano_particle no_pow one_site_only = Ok m'
        /\ vget (NPMC.initial_reactions m') 0 = Ok r
        /\ Forall (fun row =>
                     InteractionSql.left_state_1 row
                     < fst (Interaction.right_state (Reaction.interaction r)))
                  (interaction_rows one_site_only)
        /\ NPMC.update_state (NPMC.current_state m') r = (state', Ok tt)
        /\ NPMC.update_reactions m' state' (NPMC.site_reaction_dependency m')
             (NPMC.initial_reactions m') r
           = Fault OutOfBounds).
Proof.
  intros Hnew Hmd num_species largest.
  destruct (new_nano_particle_maps _ _ _ Hnew) as (md' & Hmd' & Hbuild).
  rewrite Hmd in Hmd'. injection Hmd' as <-.
  replace (max_left_state_1 (interaction_rows db) + 1) with (1 + largest)
    in Hbuild by (unfold largest; lia).
  destruct (build_interaction_maps_shape _ _ _ _ _ _ Hbuild) as [H1 H2].
  split; [exact H1|]. split; [exact H2|]. split; [|split; [|split]].
  - intros species state.
    rewrite (one_site_lookup_in_bounds _ _ _ _ _ H1). lia.
  - intros species_a species_b state_a state_b.
    rewrite (two_site_lookup_in_bounds _ _ _ _ _ _ _ H2). lia.
  - eapply Forall_impl; [exact (build_interaction_maps_left_states _ _ _ _ _ _ Hbuild)|].
    cbn. intros i. lia.
  - eexists. eexists. eexists.
    split; [reflexivity|]. split; [reflexivity|].
    split; [repeat constructor|]. split; reflexivity.
Qed.

Lemma interaction_tensors_sized_by_left_state_1_witness :
  exists m, NPMC.new_nano_particle no_pow (two_site_pair (Double.of_int 1)) = Ok m
    /\ one_site_shape 1 (1 + 0) (NPMC.one_site_interactions_map m)
    /\ two_site_shape 1 (1 + 0) (NPMC.two_site_interactions_map m)
    /\ is_ok (NPMC.two_site_lookup (NPMC.two_site_interactions_map m)
                0 0 1 1) = false.
Proof.
  eexists. split; [reflexivity|].
  match goal with |- one_site_shape _ _ (NPMC.one_site_interactions_map ?m) /\ _ =>
    destruct (interaction_tensors_sized_by_left_state_1 no_pow
                (two_site_pair (Double.of_int 1)) m
                {| MetadataSql.number_of_species := 1;
                   MetadataSql.number_of_sites := 2 |}
                ltac:(reflexivity) eq_refl)
      as (H1 & H2 & _ & H4 & _) end.
  split; [exact H1|]. split; [exact H2|].
  apply not_true_is_false. intros Hok. apply H4 in Hok.
  cbn in Hok. lia.
Defined.


(** * The per-site index during [update_reactions] *)

Section IntSetFacts.
Implicit Types (s : IntSet.t) (x y : Z).

Lemma insert_elem x y s : y ∈ IntSet.insert x s <-> y = x \/ y ∈ s.
Proof.
  induction s as [|z s IH]; simpl.
  - rewrite list_elem_of_singleton. split; [auto | intros [?|H]; [done|inversion H]].
  - destruct (Z.ltb_spec x z).
    + rewrite elem_of_cons. tauto.
    + destruct (Z.eqb_spec x z) as [->|?].
      * rewrite elem_of_cons. tauto.
      * rewrite !elem_of_cons, IH. tauto.
Qed.

Lemma insert_sorted x s :
  StronglySorted Z.lt s -> StronglySorted Z.lt (IntSet.insert x s).
Proof.
  induction s as [|z s IH]; simpl; intros Hs.
  - repeat constructor.
  - inversion Hs as [|? ? Hs' Hz]; subst.
    destruct (Z.ltb_spec x z).
    + constructor; [done|]. constructor; [lia|].
      eapply Forall_impl; [exact Hz|]. cbn. intros. lia.
    + destruct (Z.eqb_spec x z) as [->|?]; [done|].
      constructor; [auto|]. apply list.Forall_forall. intros y Hy.
      apply insert_elem in Hy as [->|Hy]; [lia|].
      eapply (proj1 (list.Forall_forall _ _) Hz), Hy.
Qed.

Lemma erase_elem x y s : y ∈ IntSet.erase x s <-> y ∈ s /\ y <> x.
Proof. unfold IntSet.erase. rewrite list_elem_of_filter. tauto. Qed.

Lemma count_elem x s : IntSet.count x s = 1 <-> x ∈ s.
Proof.
  unfold IntSet.count, IntSet.mem. case_bool_decide; split; (done || lia).
Qed.

Lemma mem_elem x s : IntSet.mem x s = true <-> x ∈ s.
Proof. unfold IntSet.mem. apply bool_decide_eq_true. Qed.
End IntSetFacts.

Section Entries.
Import NPMC.
Implicit Types (deps : list IntSet.t) (r : Reaction.t).

Lemma entry_insert deps site (set set' : IntSet.t) (s i : Z) :
  vget deps site = Ok set ->
  entry (<[Z.to_nat site := set']> deps) s i
  <-> (s = site /\ i ∈ set') \/ (s <> site /\ entry deps s i).
Proof.
  intros Hsite. pose proof (vget_range _ _ _ Hsite) as Hr. unfold entry.
  destruct (decide (s = site)) as [->|Hne].
  - rewrite (vget_insert_same _ _ _ _ Hsite). split.
    + intros (? & [= <-] & Hi). auto.
    + intros [[_ Hi] | [? _]]; [eauto | done].
  - assert (Hsame : vget (<[Z.to_nat site := set']> deps) s = vget deps s).
    { eapply vget_vset_other; [|exact (not_eq_sym Hne)].
      apply vset_Ok. split; [lia | reflexivity]. }
    rewrite Hsame. split; [auto | intros [[? _] | [_ ?]]; done].
Qed.

Lemma dep_insert_spec deps site slot (set : IntSet.t) :
  vget deps site = Ok set ->
  exists deps',
    dep_insert deps site slot = Ok deps'
    /\ length deps' = length deps
    /\ forall s i, entry deps' s i <-> entry deps s i \/ (s = site /\ i = slot).
Proof.
  intros Hsite. unfold dep_insert. rewrite Hsite. cbn.
  rewrite (vset_in_range _ _ _ _ Hsite). eexists. split; [reflexivity|].
  split; [apply length_insert|]. intros s i.
  rewrite (entry_insert _ _ _ _ _ _ Hsite), insert_elem. unfold entry. split.
  - intros [[-> [-> | Hi]] | [_ H]]; eauto.
  - intros [(set0 & Hs & Hi) | [-> ->]]; [|auto].
    destruct (decide (s = site)) as [->|]; [|right; eauto].
    left. split; [done|]. right. congruence.
Qed.

Lemma dep_erase_spec deps site slot (set : IntSet.t) :
  vget deps site = Ok set ->
  exists deps',
    dep_erase deps site slot = Ok (deps', IntSet.count slot set)
    /\ length deps' = length deps
    /\ forall s i, entry deps' s i
                   <-> entry deps s i /\ ~ (s = site /\ i = slot).
Proof.
  intros Hsite. unfold dep_erase. rewrite Hsite. cbn.
  rewrite (vset_in_range _ _ _ _ Hsite). cbn. eexists. split; [reflexivity|].
  split; [apply length_insert|]. intros s i.
  rewrite (entry_insert _ _ _ _ _ _ Hsite), erase_elem. unfold entry. split.
  - intros [[-> [Hi Hne]] | [Hne H]]; (split; [eauto | tauto]).
  - intros [(set0 & Hs & Hi) Hnot].
    destruct (decide (s = site)) as [->|]; [|right; eauto].
    left. split; [done|]. split; [congruence | tauto].
Qed.

Lemma entry_in_range deps (s i : Z) :
  entry deps s i -> 0 <= s < Z.of_nat (length deps).
Proof. intros (set & Hs & _). eapply vget_range, Hs. Qed.

(** The two shapes of a grounded reaction. *)
Lemma grounded_cases (n : Z) r :
  grounded n r ->
  let a := fst (Reaction.site_id r) in
  let b := snd (Reaction.site_id r) in
  (Interaction.number_of_sites (Reaction.interaction r) = 1
   /\ sites_of r = [a] /\ 0 <= a < n)
  \/ (Interaction.number_of_sites (Reaction.interaction r) = 2
      /\ sites_of r = [a; b] /\ a <> b /\ 0 <= a < n /\ 0 <= b < n).
Proof.
  intros (Hn & Hall & Hnd) a b. unfold sites_of in *.
  destruct Hn as [Hn | Hn]; rewrite Hn in *; small_nat; cbn in *.
  - left. inversion Hall; subst. subst a. auto.
  - right. inversion Hall as [|? ? ? Hall']; subst. inversion Hall'; subst.
    inversion Hnd as [|? ? Hnot _]; subst.
    subst a b. repeat split; try lia.
    intros Heq. apply Hnot. rewrite Heq. left.
Qed.

Lemma register_spec deps r (slot : Z) :
  grounded (Z.of_nat (length deps)) r ->
  exists deps',
    register deps r slot = Ok deps'
    /\ length deps' = length deps
    /\ forall s i, entry deps' s i
                   <-> entry deps s i \/ (s ∈ sites_of r /\ i = slot).
Proof.
  intros Hg. unfold register, for_upto.
  destruct (grounded_cases _ _ Hg) as [(Hn & Hs & Ha) | (Hn & Hs & Hab & Ha & Hb)];
    rewrite Hn, Hs; small_nat; cbn; small_nat.
  - destruct (vget_in_range deps _ Ha) as [set Hset].
    destruct (dep_insert_spec deps _ slot set Hset) as (d1 & -> & Hl1 & He1).
    cbn. exists d1. split; [done|]. split; [done|]. intros s i.
    rewrite He1, list_elem_of_singleton. tauto.
  - destruct (vget_in_range deps _ Ha) as [set Hset].
    destruct (dep_insert_spec deps _ slot set Hset) as (d1 & -> & Hl1 & He1).
    cbn. destruct (vget_in_range d1 (snd (Reaction.site_id r))) as [set2 Hset2];
      [lia|].
    destruct (dep_insert_spec d1 _ slot set2 Hset2) as (d2 & -> & Hl2 & He2).
    cbn. exists d2. split; [done|]. split; [congruence|]. intros s i.
    rewrite He2, He1, !elem_of_cons, elem_of_nil. tauto.
Qed.
End Entries.

Section IndexSteps.
Import NPMC.
Implicit Types (deps : list IntSet.t) (r : Reaction.t) (crs : list Reaction.t).

Lemma vget_insert {A} (v : list A) (d i : Z) (x : A) :
  0 <= d < Z.of_nat (length v) ->
  vget (<[Z.to_nat d := x]> v) i = if decide (i = d) then Ok x else vget v i.
Proof.
  intros Hd. destruct (vget_in_range v d Hd) as [y Hy].
  destruct (decide (i = d)) as [->|Hne].
  - eapply vget_insert_same, Hy.
  - eapply vget_vset_other; [|exact (not_eq_sym Hne)].
    apply vset_Ok. split; [lia | reflexivity].
Qed.

Lemma entry_count deps (s i : Z) (set : IntSet.t) :
  entry deps s i -> vget deps s = Ok set -> IntSet.count i set = 1.
Proof. intros (set' & Hs & Hi) Hset. apply count_elem. congruence. Qed.

(** The erasures of one collected slot. *)
Lemma collect_slot_spec crs (R : IntSet.t) deps (id : Z) r :
  vget crs id = Ok r ->
  grounded (Z.of_nat (length deps)) r ->
  exists deps',
    collect_slot crs (R, deps) id = Ok (IntSet.insert id R, deps')
    /\ length deps' = length deps
    /\ forall s i, entry deps' s i
                   <-> entry deps s i /\ ~ (s ∈ sites_of r /\ i = id).
Proof.
  intros Hid Hg. unfold collect_slot. rewrite Hid. cbn.
  destruct (grounded_cases _ _ Hg) as [(Hn & Hs & Ha) | (Hn & Hs & Hab & Ha & Hb)];
    rewrite Hn, Hs; cbn.
  - destruct (vget_in_range deps _ Ha) as [set Hset].
    destruct (dep_erase_spec deps _ id set Hset) as (d1 & -> & Hl1 & He1).
    cbn. exists d1. split; [done|]. split; [done|]. intros s i.
    rewrite He1, list_elem_of_singleton. tauto.
  - destruct (vget_in_range deps _ Ha) as [set Hset].
    destruct (dep_erase_spec deps _ id set Hset) as (d1 & -> & Hl1 & He1).
    cbn. destruct (vget_in_range d1 (snd (Reaction.site_id r))) as [set2 Hset2];
      [lia|].
    destruct (dep_erase_spec d1 _ id set2 Hset2) as (d2 & -> & Hl2 & He2).
    cbn. exists d2. split; [done|]. split; [congruence|]. intros s i.
    rewrite He2, He1, !elem_of_cons, elem_of_nil. tauto.
Qed.

(** The remapping of a moved reaction. *)
Lemma remap_spec deps r (idx d : Z) :
  grounded (Z.of_nat (length deps)) r ->
  (forall s, s ∈ sites_of r -> entry deps s idx) ->
  exists deps',
    remap deps r idx d = Ok deps'
    /\ length deps' = length deps
    /\ forall s i, entry deps' s i
                   <-> (entry deps s i /\ ~ (s ∈ sites_of r /\ i = idx))
                       \/ (s ∈ sites_of r /\ i = d).
Proof.
  intros Hg Hreg. unfold remap, for_upto.
  destruct (grounded_cases _ _ Hg) as [(Hn & Hs & Ha) | (Hn & Hs & Hab & Ha & Hb)];
    rewrite Hn; rewrite Hs in Hreg |- *; small_nat; cbn; small_nat.
  - destruct (vget_in_range deps _ Ha) as [set Hset].
    destruct (dep_erase_spec deps _ idx set Hset) as (d1 & -> & Hl1 & He1).
    cbn. rewrite (entry_count deps _ idx set) by (auto using list_elem_of_here).
    cbn. destruct (vget_in_range d1 (fst (Reaction.site_id r))) as [set1 Hset1];
      [lia|].
    destruct (dep_insert_spec d1 _ d set1 Hset1) as (d2 & -> & Hl2 & He2).
    cbn. exists d2. split; [done|]. split; [congruence|]. intros s i.
    rewrite He2, He1, list_elem_of_singleton. tauto.
  - destruct (vget_in_range deps _ Ha) as [set Hset].
    destruct (dep_erase_spec deps _ idx set Hset) as (d1 & -> & Hl1 & He1).
    cbn. rewrite (entry_count deps _ idx set) by (auto using list_elem_of_here).
    cbn. destruct (vget_in_range d1 (fst (Reaction.site_id r))) as [set1 Hset1];
      [lia|].
    destruct (dep_insert_spec d1 _ d set1 Hset1) as (d2 & -> & Hl2 & He2).
    cbn. destruct (vget_in_range d2 (snd (Reaction.site_id r))) as [set2 Hset2];
      [lia|].
    destruct (dep_erase_spec d2 _ idx set2 Hset2) as (d3 & -> & Hl3 & He3).
    assert (Hb2 : entry d2 (snd (Reaction.site_id r)) idx).
    { apply He2. left. apply He1. split; [|intros [? _]; done].
      apply Hreg. right. left. }
    cbn. rewrite (entry_count d2 (snd (Reaction.site_id r)) idx set2 Hb2 Hset2).
    cbn. destruct (vget_in_range d3 (snd (Reaction.site_id r))) as [set3 Hset3];
      [lia|].
    destruct (dep_insert_spec d3 _ d set3 Hset3) as (d4 & -> & Hl4 & He4).
    cbn. exists d4. split; [done|]. split; [congruence|]. intros s i.
    rewrite He4, He3, He2, He1, !elem_of_cons, elem_of_nil.
    assert (Hex : s = fst (Reaction.site_id r) ->
                  s = snd (Reaction.site_id r) -> False) by congruence.
    tauto.
Qed.

Lemma indexed_ext (H H' : Z -> Prop) deps crs :
  (forall i, 0 <= i < Z.of_nat (length crs) -> (H i <-> H' i)) ->
  indexed H deps crs -> indexed H' deps crs.
Proof.
  intros Hext [HW HA HB]. split.
  - intros i r Hi Hn. apply (HW i r Hi). rewrite (Hext i); [done|].
    eapply vget_range, Hi.
  - intros i r s Hi Hn. apply (HA i r s Hi). rewrite (Hext i); [done|].
    eapply vget_range, Hi.
  - intros s i He. destruct (HB s i He) as (Hn & r & Hi & Hs).
    split; [|eauto]. rewrite <- (Hext i); [done|]. eapply vget_range, Hi.
Qed.

Lemma indexed_remove (H : Z -> Prop) deps deps' crs (id : Z) r :
  indexed H deps crs ->
  vget crs id = Ok r ->
  length deps' = length deps ->
  (forall s i, entry deps' s i
               <-> entry deps s i /\ ~ (s ∈ sites_of r /\ i = id)) ->
  indexed (fun i => H i \/ i = id) deps' crs.
Proof.
  intros [HW HA HB] Hid Hlen He. split.
  - intros i ri Hi Hn. rewrite Hlen. apply (HW i ri Hi). tauto.
  - intros i ri s Hi Hn Hs. apply He. split; [apply (HA i ri s Hi); tauto|].
    intros [_ ->]. tauto.
  - intros s i [Hent Hnot]%He. destruct (HB s i Hent) as (Hn & ri & Hi & Hs).
    split; [|eauto]. intros [?| ->]; [done|].
    apply Hnot. split; [congruence | done].
Qed.

Lemma indexed_fill (H : Z -> Prop) deps deps' crs (d : Z) r :
  indexed H deps crs ->
  H d -> 0 <= d < Z.of_nat (length crs) ->
  grounded (Z.of_nat (length deps)) r ->
  length deps' = length deps ->
  (forall s i, entry deps' s i <-> entry deps s i \/ (s ∈ sites_of r /\ i = d)) ->
  indexed (fun i => H i /\ i <> d) deps' (<[Z.to_nat d := r]> crs).
Proof.
  intros [HW HA HB] Hd Hr Hg Hlen He. split.
  - intros i ri Hi Hn. rewrite Hlen. rewrite vget_insert in Hi by done.
    destruct (decide (i = d)) as [->|Hne]; [congruence|].
    apply (HW i ri Hi). tauto.
  - intros i ri s Hi Hn Hs. apply He. rewrite vget_insert in Hi by done.
    destruct (decide (i = d)) as [->|Hne].
    + injection Hi as <-. auto.
    + left. apply (HA i ri s Hi); tauto.
  - intros s i [Hent | [Hs ->]]%He.
    + destruct (HB s i Hent) as (Hn & ri & Hi & Hsi).
      split; [tauto|]. exists ri. split; [|done].
      rewrite vget_insert by done. destruct (decide (i = d)) as [->|]; done.
    + split; [tauto|]. exists r. split; [|done].
      rewrite vget_insert by done. now destruct (decide (d = d)).
Qed.

Lemma vget_snoc {A} (v : list A) (x : A) (i : Z) :
  vget (v ++ [x]) i
  = if decide (i = Z.of_nat (length v)) then Ok x else vget v i.
Proof.
  unfold vget. destruct (Z.ltb_spec i 0).
  - destruct (decide _); [lia | done].
  - destruct (decide (i = Z.of_nat (length v))) as [->|Hne].
    + rewrite Nat2Z.id, lookup_app_r, Nat.sub_diag by lia. done.
    + destruct (decide (i < Z.of_nat (length v))).
      * rewrite lookup_app_l by lia. done.
      * rewrite !lookup_ge_None_2; [done | lia |].
        rewrite length_app. simpl. lia.
Qed.

Lemma indexed_append deps deps' crs r :
  indexed (fun _ => False) deps crs ->
  grounded (Z.of_nat (length deps)) r ->
  length deps' = length deps ->
  (forall s i, entry deps' s i
               <-> entry deps s i
                   \/ (s ∈ sites_of r /\ i = Z.of_nat (length crs))) ->
  indexed (fun _ => False) deps' (crs ++ [r]).
Proof.
  intros [HW HA HB] Hg Hlen He. split.
  - intros i ri Hi _. rewrite Hlen. rewrite vget_snoc in Hi.
    destruct (decide _); [congruence|]. apply (HW i ri Hi). tauto.
  - intros i ri s Hi _ Hs. apply He. rewrite vget_snoc in Hi.
    destruct (decide _) as [->|].
    + injection Hi as <-. auto.
    + left. apply (HA i ri s Hi); tauto.
  - intros s i [Hent | [Hs ->]]%He.
    + destruct (HB s i Hent) as (Hn & ri & Hi & Hsi).
      split; [tauto|]. exists ri. split; [|done].
      rewrite vget_snoc. destruct (decide _) as [->|]; [|done].
      apply vget_range in Hi. lia.
    + split; [tauto|]. exists r. split; [|done].
      rewrite vget_snoc. now destruct (decide _).
Qed.

Lemma indexed_move (H : Z -> Prop) deps deps' crs (h d : Z) r :
  indexed H deps crs ->
  ~ H h -> H d -> vget crs h = Ok r ->
  0 <= d < Z.of_nat (length crs) ->
  length deps' = length deps ->
  (forall s i, entry deps' s i
               <-> (entry deps s i /\ ~ (s ∈ sites_of r /\ i = h))
                   \/ (s ∈ sites_of r /\ i = d)) ->
  indexed (fun i => (H i /\ i <> d) \/ i = h) deps' (<[Z.to_nat d := r]> crs).
Proof.
  intros [HW HA HB] Hh Hd Hget Hr Hlen He.
  assert (h <> d) by (intros ->; done). split.
  - intros i ri Hi Hn. rewrite Hlen. rewrite vget_insert in Hi by done.
    destruct (decide (i = d)) as [->|Hne].
    + injection Hi as <-. eapply HW; eauto.
    + apply (HW i ri Hi). tauto.
  - intros i ri s Hi Hn Hs. apply He. rewrite vget_insert in Hi by done.
    destruct (decide (i = d)) as [->|Hne].
    + injection Hi as <-. auto.
    + left. split; [apply (HA i ri s Hi); tauto|]. intros [_ ->]. tauto.
  - intros s i [[Hent Hnot] | [Hs ->]]%He.
    + destruct (HB s i Hent) as (Hn & ri & Hi & Hsi).
      assert (i <> h) by (intros ->; apply Hnot; split; [congruence|done]).
      split; [tauto|]. exists ri. split; [|done].
      rewrite vget_insert by done. destruct (decide (i = d)) as [->|]; done.
    + split; [intros [[_ ?] | ?]; congruence|]. exists r. split; [|done].
      rewrite vget_insert by done. now destruct (decide (d = d)).
Qed.
End IndexSteps.

Lemma foldM_total {A S} (P : list A -> S -> Prop) (f : S -> A -> result S)
    (l : list A) (s : S) :
  P [] s ->
  (forall pre a t, P pre t -> a ∈ l ->
                   exists t', f t a = Ok t' /\ P (pre ++ [a]) t') ->
  exists s', foldM f l s = Ok s' /\ P l s'.
Proof.
  revert P s. induction l as [|a l IH]; intros P s H0 Hstep; simpl.
  - eauto.
  - destruct (Hstep [] a s H0) as (t & -> & Ht); [left|]. cbn.
    apply (IH (fun pre => P (a :: pre)) t Ht).
    intros pre x u Hu Hx. destruct (Hstep (a :: pre) x u Hu) as (u' & ? & ?);
      [now right | eauto].
Qed.

Lemma sites_of_at2 (r : Reaction.t) (s : Z) :
  s ∈ sites_of r ->
  exists k, 0 <= k < Interaction.number_of_sites (Reaction.interaction r)
            /\ at2 (Reaction.site_id r) k = Ok s.
Proof.
  unfold sites_of. intros (i & Hi & Hlt)%elem_of_take.
  destruct i as [|[|i]]; cbn in Hi; [| |done]; injection Hi as <-.
  - exists 0. split; [lia | done].
  - exists 1. split; [lia | done].
Qed.

Lemma quiescent_indexed deps crs :
  quiescent deps crs <-> indexed (fun _ => False) deps crs.
Proof.
  split.
  - intros [HG HA HB]. split.
    + intros i r Hi _. eapply (proj1 (list.Forall_forall _ _) HG), vget_elem_of, Hi.
    + intros i r s Hi _. eauto.
    + intros s i He. split; [tauto | auto].
  - intros [HW HA HB]. split.
    + apply Forall_lookup. intros i r Hi.
      apply (HW (Z.of_nat i) r); [|tauto]. apply vget_Ok.
      rewrite Nat2Z.id. split; [lia | done].
    + intros i r s Hi. apply (HA i r s Hi). tauto.
    + intros s i He. apply (HB s i He).
Qed.

Section Collect.
Import NPMC.
Variable crs : list Reaction.t.
Variable deps0 : list IntSet.t.
Variable fired : Reaction.t.
Hypothesis Hq : quiescent deps0 crs.
Hypothesis Hfired : grounded (Z.of_nat (length deps0)) fired.

Local Abbreviation touched := (slot_touched crs fired).
Local Abbreviation collecting := (collect_invariant crs deps0 fired).

Lemma collecting_start : collecting (IntSet.empty, deps0).
Proof.
  split; [done|]. split; [constructor|]. split; [|split].
  - eapply indexed_ext; [|apply quiescent_indexed, Hq].
    intros i _. unfold IntSet.empty. rewrite elem_of_nil. tauto.
  - auto.
  - intros i Hi. inversion Hi.
Qed.

Lemma collect_slot_step (R : IntSet.t) deps (id : Z) :
  collecting (R, deps) -> touched id ->
  exists deps',
    collect_slot crs (R, deps) id = Ok (IntSet.insert id R, deps')
    /\ collecting (IntSet.insert id R, deps')
    /\ (forall s i, entry deps' s i -> entry deps s i).
Proof.
  intros (Hlen & Hsort & Hidx & Hcov & Htouch) (r & Hid & Ht).
  assert (Hg : grounded (Z.of_nat (length deps)) r).
  { rewrite Hlen. eapply (proj1 (list.Forall_forall _ _) (quiescent_grounded _ _ Hq)),
      vget_elem_of, Hid. }
  destruct (collect_slot_spec crs R deps id r Hid Hg) as (deps' & Hrun & Hl & He).
  exists deps'. split; [exact Hrun|]. split; [|intros s i Hi; now apply He in Hi].
  split; [congruence|]. split; [now apply insert_sorted|]. split; [|split].
  - eapply indexed_ext; [|eapply indexed_remove; eauto].
    intros i _. cbn. rewrite insert_elem. tauto.
  - intros s i H0. rewrite insert_elem, He.
    destruct (Hcov s i H0) as [?|Hent]; [tauto|].
    destruct (decide (i = id)); tauto.
  - intros i [->|Hi]%insert_elem; [exists r; auto | auto].
Qed.

Lemma collect_slots (l : list Z) (R : IntSet.t) deps :
  collecting (R, deps) ->
  (forall id, id ∈ l -> touched id) ->
  exists R' deps',
    foldM (collect_slot crs) l (R, deps) = Ok (R', deps')
    /\ collecting (R', deps')
    /\ (forall id, id ∈ l -> id ∈ R')
    /\ (forall s i, entry deps' s i -> entry deps s i).
Proof.
  intros Hc Hl.
  destruct (foldM_total
    (fun pre acc => collecting acc
                    /\ (forall id, id ∈ pre -> id ∈ fst acc)
                    /\ (forall s i, entry (snd acc) s i -> entry deps s i))
    (collect_slot crs) l (R, deps)) as ([R' deps'] & Hrun & Hc' & Hin & Hsub).
  - split; [done|]. split; [intros id Hid; inversion Hid | auto].
  - intros pre id [R1 d1] (Hc1 & Hin1 & Hsub1) Hid. cbn in *.
    destruct (collect_slot_step R1 d1 id Hc1 (Hl id Hid))
      as (d2 & Hrun & Hc2 & Hsub2).
    eexists. split; [exact Hrun|]. split; [exact Hc2|]. cbn. split.
    + intros x [Hx | ->%list_elem_of_singleton]%elem_of_app;
        apply insert_elem; auto.
    + auto.
  - exists R', deps'. auto.
Qed.

Lemma collect_removals_spec :
  exists R deps,
    collect_removals fired deps0 crs = Ok (R, deps)
    /\ length deps = length deps0
    /\ StronglySorted Z.lt R
    /\ indexed (fun i => i ∈ R) deps crs
    /\ (forall i, i ∈ R <-> touched i).
Proof.
  unfold collect_removals, for_upto.
  set (n := Interaction.number_of_sites (Reaction.interaction fired)).
  assert (Hn : 0 <= n) by (destruct Hfired as ([?|?] & _); unfold n; lia).
  destruct (for_loop_total
    (fun k acc => collecting acc
                  /\ forall k' s, 0 <= k' < k ->
                       at2 (Reaction.site_id fired) k' = Ok s ->
                       forall i, ~ entry (snd acc) s i)
    (fun k acc =>
       site_id ← at2 (Reaction.site_id fired) k;
       reaction_dependency ← vget (snd acc) site_id;
       foldM (collect_slot crs) reaction_dependency acc)
    (Z.to_nat n) 0 (IntSet.empty, deps0))
    as ([R deps] & Hrun & Hc & Hempty).
  - split; [apply collecting_start | intros; lia].
  - intros k [R deps] Hk [Hc Hempty]. cbn in *.
    destruct (at2 (Reaction.site_id fired) k) as [site|] eqn:Hsite.
    2:{ unfold at2 in Hsite. destruct (Z.eqb_spec k 0); [done|].
        destruct (Z.eqb_spec k 1); [done|].
        destruct Hfired as ([?|?] & _); unfold n in Hk; lia. }
    cbn. assert (Hin : site ∈ sites_of fired).
    { eapply at2_in_take; [exact Hsite|]. unfold n in Hk. lia. }
    pose proof Hc as (Hlen & _ & Hidx & _).
    destruct (vget_in_range deps site) as [copy Hcopy].
    { rewrite Hlen. destruct Hfired as (_ & Hall & _).
      eapply (proj1 (list.Forall_forall _ _) Hall), Hin. }
    rewrite Hcopy. cbn.
    destruct (collect_slots copy R deps Hc) as (R' & deps' & Hfold & Hc' & Hall & Hsub).
    { intros id Hid.
      destruct (indexed_live _ _ _ Hidx site id) as (_ & r & Hr & Hs);
        [exists copy; auto|].
      exists r. split; [done|]. exists site. auto. }
    exists (R', deps'). split; [exact Hfold|]. split; [exact Hc'|]. cbn.
    intros k' s Hk' Hs i Hent.
    destruct (decide (k' = k)) as [->|Hne].
    + assert (s = site) as -> by congruence.
      pose proof Hc' as (_ & _ & Hidx' & _).
      destruct (indexed_live _ _ _ Hidx' site i Hent) as (Hnot & _).
      apply Hnot, Hall. destruct (Hsub _ _ Hent) as (set & Hset & Hi).
      rewrite Hcopy in Hset. injection Hset as <-. exact Hi.
    + apply (Hempty k' s ltac:(lia) Hs i). auto.
  - exists R, deps. split; [exact Hrun|].
    destruct Hc as (Hlen & Hsort & Hidx & Hcov & Htouch).
    split; [done|]. split; [done|]. split; [done|].
    intros i. split; [apply Htouch|].
    intros (r & Hi & s & Hs & Hsr).
    destruct (Hcov s i) as [?|Hent]; [|done|].
    + eapply quiescent_registered; eauto.
    + exfalso. destruct (sites_of_at2 _ _ Hs) as (k & Hk & Hat).
      eapply (Hempty k s); [|exact Hat|exact Hent]. cbn. fold n in Hk. lia.
Qed.
End Collect.

Section Placement.
Import NPMC.

Lemma sorted_head_not_in (d : Z) (l : list Z) :
  StronglySorted Z.lt (d :: l) -> d ∉ l.
Proof.
  intros Hs Hin. inversion Hs as [|? ? _ Hall]; subst.
  pose proof (proj1 (list.Forall_forall _ _) Hall d Hin). lia.
Qed.

Lemma place_new_reactions_spec (news : list Reaction.t) :
  forall (i n : Z) (H : IntSet.t) (deps : list IntSet.t)
         (crs : list Reaction.t),
  indexed (fun j => j ∈ H) deps crs ->
  StronglySorted Z.lt H ->
  (forall d, d ∈ H -> 0 <= d < Z.of_nat (length crs)) ->
  Forall (grounded (Z.of_nat (length deps))) news ->
  Z.of_nat (length H) = Z.max 0 (n - i) ->
  exists deps' crs',
    place_new_reactions i n news H deps crs
    = Ok (drop (length news) H, deps', crs')
    /\ indexed (fun j => j ∈ drop (length news) H) deps' crs'
    /\ length deps' = length deps
    /\ Z.of_nat (length crs')
       = Z.of_nat (length crs)
         + Z.max 0 (Z.of_nat (length news) - Z.of_nat (length H)).
Proof.
  induction news as [|nr rest IH]; intros i n H deps crs Hidx Hs Hr Hg Hlen.
  - exists deps, crs. simpl. rewrite drop_0.
    split; [reflexivity|]. split; [done|]. split; [done|]. lia.
  - inversion Hg as [|? ? Hnr Hrest]; subst. simpl.
    destruct (Z.ltb_spec i n).
    + destruct H as [|d H']; [simpl in Hlen; lia|]. simpl in Hlen.
      assert (Hd : 0 <= d < Z.of_nat (length crs)) by (apply Hr; left).
      assert (Hset : vset crs d nr = Ok (<[Z.to_nat d := nr]> crs))
        by (apply vset_Ok; split; [lia | done]).
      rewrite Hset. cbn.
      destruct (register_spec deps nr d Hnr) as (deps1 & -> & Hl1 & He1). cbn.
      destruct (IH (i + 1) n H' deps1 (<[Z.to_nat d := nr]> crs))
        as (deps' & crs' & Hrun & Hidx' & Hl' & Hlc).
      * eapply indexed_ext; [|eapply (indexed_fill _ deps deps1 crs d nr Hidx);
                               [left | done | done | done | exact He1]].
        intros j _. cbn. rewrite elem_of_cons.
        pose proof (sorted_head_not_in _ _ Hs). split; [|intros ?; split; [auto|]].
        -- intros [[?|?] ?]; done.
        -- intros ->. done.
      * now inversion Hs.
      * intros j Hj. rewrite length_insert. apply Hr. now right.
      * now rewrite Hl1.
      * lia.
      * exists deps', crs'. split; [exact Hrun|]. split; [exact Hidx'|].
        split; [congruence|]. rewrite length_insert in Hlc. simpl length. lia.
    + destruct H as [|d H']; [|simpl in Hlen; lia].
      destruct (register_spec deps nr
                  (Z.of_nat (length (crs ++ [nr])) - 1) Hnr)
        as (deps1 & -> & Hl1 & He1). cbn.
      destruct (IH (i + 1) n [] deps1 (crs ++ [nr]))
        as (deps' & crs' & Hrun & Hidx' & Hl' & Hlc).
      * eapply indexed_ext; [|eapply (indexed_append deps deps1 crs nr);
                               [|done|done|]].
        -- intros j _. rewrite elem_of_nil. tauto.
        -- eapply indexed_ext; [|exact Hidx]. intros j _. rewrite elem_of_nil. tauto.
        -- intros s j. rewrite He1, length_app. simpl.
           replace (Z.of_nat (length crs + 1) - 1) with (Z.of_nat (length crs))
             by lia. tauto.
      * constructor.
      * intros j Hj. inversion Hj.
      * now rewrite Hl1.
      * simpl. lia.
      * rewrite drop_nil in Hrun, Hidx'. exists deps', crs'.
        split; [exact Hrun|]. split; [exact Hidx'|].
        split; [congruence|]. rewrite length_app in Hlc. simpl in *. lia.
Qed.
End Placement.

Section Counting.
Implicit Types (l : list Z) (x y d : Z).

Lemma count_le_nil x : count_le [] x = 0.
Proof. reflexivity. Qed.

Lemma count_le_cons a l x :
  count_le (a :: l) x = (if decide (a <= x) then 1 else 0) + count_le l x.
Proof.
  unfold count_le. rewrite filter_cons.
  destruct (decide (a <= x)); simpl; lia.
Qed.

Lemma count_le_bounds l x : 0 <= count_le l x <= Z.of_nat (length l).
Proof. unfold count_le. pose proof (length_filter (fun i => i <= x) l). lia. Qed.

Lemma count_le_none l x : (forall d, d ∈ l -> x < d) -> count_le l x = 0.
Proof.
  induction l as [|a l IH]; intros H; [done|]. rewrite count_le_cons.
  destruct (decide (a <= x)) as [Ha|_].
  - specialize (H a ltac:(left)). lia.
  - rewrite IH; [done|]. intros d Hd. apply H. now right.
Qed.

Lemma count_le_all l x :
  (forall d, d ∈ l -> d <= x) -> count_le l x = Z.of_nat (length l).
Proof.
  induction l as [|a l IH]; intros H; [done|]. rewrite count_le_cons.
  destruct (decide (a <= x)) as [_|Ha].
  - rewrite IH; [simpl; lia|]. intros d Hd. apply H. now right.
  - specialize (H a ltac:(left)). lia.
Qed.

(** Stepping the bound down by one loses exactly the element [x]. *)
Lemma count_le_pred l x :
  StronglySorted Z.lt l ->
  count_le l (x - 1) = count_le l x - (if decide (x ∈ l) then 1 else 0).
Proof.
  induction l as [|a l IH]; intros Hs.
  - rewrite !count_le_nil. destruct (decide _) as [H|]; [inversion H | lia].
  - apply StronglySorted_cons in Hs as [Hall Hs]. rewrite !count_le_cons, IH by done.
    pose proof (proj1 (list.Forall_forall _ _) Hall) as Hlt.
    destruct (decide (x ∈ l)) as [Hl|Hnl].
    + specialize (Hlt x Hl). rewrite (decide_True (P := x ∈ a :: l)) by now right.
      destruct (decide (a <= x - 1)); destruct (decide (a <= x)); lia.
    + destruct (decide (x = a)) as [->|Hne].
      * rewrite (decide_True (P := a ∈ a :: l)) by left.
        destruct (decide (a <= a - 1)); destruct (decide (a <= a)); lia.
      * rewrite (decide_False (P := x ∈ a :: l)).
        2:{ intros [?|?]%elem_of_cons; done. }
        destruct (decide (a <= x - 1)); destruct (decide (a <= x)); lia.
Qed.

Lemma count_le_lookup_le l (j : nat) d x :
  StronglySorted Z.lt l -> l !! j = Some d -> d <= x ->
  Z.of_nat j + 1 <= count_le l x.
Proof.
  revert j. induction l as [|a l IH]; intros j Hs Hj Hd; [done|].
  apply StronglySorted_cons in Hs as [Hall Hs]. rewrite count_le_cons.
  destruct j as [|j]; simpl in Hj.
  - injection Hj as ->. destruct (decide (d <= x)); [|lia].
    pose proof (count_le_bounds l x). lia.
  - pose proof (proj1 (list.Forall_forall _ _) Hall d
                  (list_elem_of_lookup_2 _ _ _ Hj)).
    specialize (IH j Hs Hj Hd). destruct (decide (a <= x)); lia.
Qed.

Lemma count_le_lookup_gt l (j : nat) d x :
  StronglySorted Z.lt l -> l !! j = Some d -> x < d ->
  count_le l x <= Z.of_nat j.
Proof.
  revert j. induction l as [|a l IH]; intros j Hs Hj Hd; [done|].
  apply StronglySorted_cons in Hs as [Hall Hs]. rewrite count_le_cons.
  destruct j as [|j]; simpl in Hj.
  - injection Hj as ->. destruct (decide (d <= x)); [lia|].
    rewrite count_le_none; [lia|]. intros e He.
    pose proof (proj1 (list.Forall_forall _ _) Hall e He). lia.
  - specialize (IH j Hs Hj Hd). destruct (decide (a <= x)); lia.
Qed.

(** Between [x] and [y] there are at most [y - x] elements. *)
Lemma count_le_interval l x y :
  StronglySorted Z.lt l -> x <= y ->
  count_le l y <= count_le l x + (y - x).
Proof.
  intros Hs Hxy. remember (Z.to_nat (y - x)) as k eqn:Hk.
  revert y Hxy Hk. induction k as [|k IH]; intros y Hxy Hk.
  - replace y with x by lia. lia.
  - specialize (IH (y - 1) ltac:(lia) ltac:(lia)).
    pose proof (count_le_pred l y Hs). destruct (decide (y ∈ l)); lia.
Qed.
End Counting.

Section Moving.
Import NPMC.
Variable R : list Z.
Variable len : nat.
Hypothesis HsR : StronglySorted Z.lt R.
Hypothesis HrR : forall d, d ∈ R -> 0 <= d < Z.of_nat len.

Local Abbreviation n := (Z.of_nat (length R)).
Local Abbreviation t := (Z.of_nat len - Z.of_nat (length R)).

(** When the loop is left, the holes are exactly the slots from [t] on. *)
Lemma holes_at_exit (filled itr : list Z) (idx : Z) :
  R = filled ++ itr ->
  -1 <= idx < Z.of_nat len ->
  count_le R idx = Z.of_nat (length filled) + idx + 1 - t ->
  (forall d, d ∈ filled -> d < t) ->
  (forall i, idx < i < Z.of_nat len -> i ∉ R -> t <= i) ->
  (itr = [] \/ ((idx ∉ R) /\ exists d itr', itr = d :: itr' /\ idx < d)) ->
  forall i, 0 <= i < Z.of_nat len ->
            ((i ∈ itr \/ (idx < i /\ i ∉ R)) <-> t <= i).
Proof.
  intros HR Hidx Hcount Hfilled Hvac Hexit i Hi.
  assert (Hlt : idx < t).
  { destruct Hexit as [-> | (_ & d & itr' & -> & Hd)].
    - rewrite app_nil_r in HR. subst filled.
      pose proof (count_le_bounds R idx). lia.
    - assert (Hl : R !! length filled = Some d).
      { rewrite HR, lookup_app_r, Nat.sub_diag by lia. done. }
      pose proof (count_le_lookup_gt R _ d idx HsR Hl Hd). lia. }
  assert (Hitr : forall e, e ∈ itr -> t <= e).
  { destruct Hexit as [-> | (_ & d & itr' & -> & Hd)];
      [intros e He; inversion He|].
    assert (Hl : R !! length filled = Some d).
    { rewrite HR, lookup_app_r, Nat.sub_diag by lia. done. }
    assert (Hdt : t <= d).
    { destruct (decide (t <= d)) as [|Hn]; [done|]. exfalso.
      pose proof (count_le_lookup_le R _ d (t - 1) HsR Hl ltac:(lia)).
      pose proof (count_le_interval R idx (t - 1) HsR ltac:(lia)). lia. }
    intros e [->|He]%elem_of_cons; [done|].
    rewrite HR in HsR. apply StronglySorted_app_1_r in HsR.
    apply StronglySorted_cons in HsR as [Hall _].
    pose proof (proj1 (list.Forall_forall _ _) Hall e He). lia. }
  split.
  - intros [He | [Hgt Hn]]; [auto | apply Hvac; [lia | done]].
  - intros Hti. destruct (decide (i ∈ R)) as [Hin|Hnin]; [|right; split; [lia|done]].
    left. rewrite HR in Hin. apply elem_of_app in Hin as [Hf|?]; [|done].
    specialize (Hfilled i Hf). lia.
Qed.

Lemma move_reactions_spec (fuel : nat) :
  forall (filled itr : list Z) (idx : Z) (deps : list IntSet.t)
         (crs : list Reaction.t),
  R = filled ++ itr ->
  length crs = len ->
  -1 <= idx < Z.of_nat len ->
  idx + 1 < Z.of_nat fuel ->
  count_le R idx = Z.of_nat (length filled) + idx + 1 - t ->
  (forall d, d ∈ filled -> d < t) ->
  (forall i, idx < i < Z.of_nat len -> i ∉ R -> t <= i) ->
  indexed (fun i => i ∈ itr \/ (idx < i /\ i ∉ R)) deps crs ->
  exists deps' crs',
    move_reactions fuel n (Z.of_nat (length filled)) idx R itr deps crs
    = Ok (deps', crs')
    /\ length crs' = len
    /\ length deps' = length deps
    /\ indexed (fun i => t <= i) deps' crs'.
Proof.
  induction fuel as [|fuel IH];
    intros filled itr idx deps crs HR Hlen Hidx Hfuel Hcount Hfilled Hvac Hind;
    [lia|].
  assert (HlenR : length R = (length filled + length itr)%nat)
    by (rewrite HR, length_app; done).
  simpl. destruct (Z.ltb_spec (Z.of_nat (length filled)) n) as [Hj|Hj].
  2:{ (* every slot has been filled *)
      assert (itr = []) as -> by (destruct itr; [done | simpl in HlenR; lia]).
      exists deps, crs. split; [done|]. split; [done|]. split; [done|].
      eapply indexed_ext; [|exact Hind]. rewrite Hlen.
      apply (holes_at_exit filled [] idx); auto. }
  destruct (IntSet.mem idx R) eqn:Hmem.
  - (* the candidate is itself a slot to remove *)
    apply mem_elem in Hmem. pose proof (HrR idx Hmem) as Hr.
    apply (IH filled itr (idx - 1) deps crs); try done; try lia.
    + rewrite (count_le_pred R idx HsR), decide_True by done. lia.
    + intros i Hi Hn. apply Hvac; [|done].
      assert (i <> idx) by (intros ->; done). lia.
    + eapply indexed_ext; [|exact Hind]. intros i _.
      split; (intros [?|[? ?]]; [auto|right; split; [|done]]); [lia|].
      assert (i <> idx) by (intros ->; done). lia.
  - assert (Hnot : idx ∉ R).
    { intros Hin%mem_elem. congruence. }
    destruct itr as [|d itr']; [simpl in HlenR; lia|].
    assert (Hl : R !! length filled = Some d).
    { rewrite HR, lookup_app_r, Nat.sub_diag by lia. done. }
    assert (HdR : d ∈ R) by (eapply list_elem_of_lookup_2, Hl).
    pose proof (HrR d HdR) as Hdr.
    destruct (Z.ltb_spec idx d) as [Hlt|Hge].
    + (* break *)
      exists deps, crs. split; [done|]. split; [done|]. split; [done|].
      eapply indexed_ext; [|exact Hind]. rewrite Hlen.
      apply (holes_at_exit filled (d :: itr') idx); auto.
      right. split; [done|]. eauto.
    + (* move the candidate to the lowest pending slot *)
      assert (Hne : idx <> d) by (intros ->; done).
      destruct (vget_in_range crs idx) as [r Hr]; [lia|]. rewrite Hr. cbn.
      assert (Hset : vset crs d r = Ok (<[Z.to_nat d := r]> crs))
        by (apply vset_Ok; split; [lia | done]).
      rewrite Hset. cbn.
      assert (Hlive : ~ (idx ∈ d :: itr' \/ (idx < idx /\ idx ∉ R))).
      { intros [Hin | [? _]]; [|lia]. apply Hnot. rewrite HR.
        apply elem_of_app. now right. }
      destruct (remap_spec deps r idx d) as (deps1 & -> & Hl1 & He1).
      { eapply (indexed_grounded _ _ _ Hind); eauto. }
      { intros s Hs. eapply (indexed_registered _ _ _ Hind); eauto. }
      cbn.
      assert (Hsd : StronglySorted Z.lt (d :: itr')).
      { rewrite HR in HsR. now apply StronglySorted_app_1_r in HsR. }
      pose proof (sorted_head_not_in _ _ Hsd) as Hdn.
      assert (Hidxt : t <= idx).
      { pose proof (count_le_lookup_le R _ d idx HsR Hl ltac:(lia)). lia. }
      assert (Hdt : d < t).
      { pose proof (count_le_pred R idx HsR) as Hp.
        rewrite decide_False in Hp by done.
        pose proof (count_le_lookup_gt R _ d (d - 1) HsR Hl ltac:(lia)).
        pose proof (count_le_interval R (d - 1) (idx - 1) HsR ltac:(lia)). lia. }
      destruct (IH (filled ++ [d]) itr' (idx - 1) deps1 (<[Z.to_nat d := r]> crs))
        as (deps' & crs' & Hrun & Hlc & Hld & Hfin).
      * rewrite HR, <- app_assoc. done.
      * now rewrite length_insert.
      * lia.
      * lia.
      * rewrite (count_le_pred R idx HsR), decide_False by done.
        rewrite length_app. simpl. lia.
      * intros e [He | ->%list_elem_of_singleton]%elem_of_app; auto.
      * intros i Hi Hn. destruct (decide (i = idx)) as [->|]; [done|].
        apply Hvac; [lia | done].
      * eapply indexed_ext;
          [|eapply (indexed_move _ deps deps1 crs idx d r Hind Hlive);
            [left; apply list_elem_of_here | exact Hr | lia | exact Hl1 | exact He1]].
        intros i _. cbn. rewrite elem_of_cons. split.
        -- intros [[[[->|?]|[? ?]] ?] | ->]; [done|auto| |].
           ++ right. split; [lia|done].
           ++ right. split; [lia|done].
        -- intros [Hi | [Hi Hn]].
           ++ left. split; [auto|]. intros ->. done.
           ++ destruct (decide (i = idx)) as [->|]; [now right|].
              left. split; [right; split; [lia|done]|]. intros ->. done.
      * exists deps', crs'. rewrite length_app in Hrun. simpl in Hrun.
        replace (Z.of_nat (length filled) + 1)
          with (Z.of_nat (length filled + 1)) by lia.
        split; [exact Hrun|]. split; [done|]. split; [congruence|done].
Qed.
End Moving.

Section Generation.
Import NPMC.
Variable m : NanoParticle.
Hypothesis Hwf : wf_model m.

Local Abbreviation num_sites := (Z.of_nat (length (sites m))).

Lemma one_site_reaction_grounded (s : Z) (i : Interaction.t) :
  0 <= s < num_sites -> Interaction.number_of_sites i = 1 ->
  grounded num_sites (one_site_reaction m s i).
Proof.
  intros Hs Hi. unfold grounded, sites_of. cbn. rewrite Hi. small_nat. cbn.
  split; [auto|]. split; [repeat constructor; lia | apply NoDup_singleton].
Qed.

Lemma two_site_reaction_grounded (a b : Z) (distance : double)
    (i : Interaction.t) :
  0 <= a < num_sites -> 0 <= b < num_sites -> a <> b ->
  Interaction.number_of_sites i = 2 ->
  grounded num_sites (two_site_reaction m a b distance i).
Proof.
  intros Ha Hb Hab Hi. unfold grounded, sites_of. cbn. rewrite Hi. small_nat.
  cbn. split; [auto|]. split; [repeat constructor; lia|].
  apply list.NoDup_cons. split; [|apply NoDup_singleton].
  intros ->%list_elem_of_singleton. done.
Qed.

Lemma to_unsigned_site (s : Z) : 0 <= s < num_sites -> to_unsigned s = s.
Proof.
  intros Hs. pose proof (wf_sites m Hwf) as Hb. unfold to_unsigned.
  apply Z.mod_small. change (2 ^ 31) with 2147483648 in Hb.
  change (2 ^ 32) with 4294967296. lia.
Qed.

Lemma new_reactions_of_site_grounded state fired k acc acc' :
  grounded num_sites fired ->
  0 <= k < Interaction.number_of_sites (Reaction.interaction fired) ->
  Forall (grounded num_sites) acc ->
  new_reactions_of_site m state fired k acc = Ok acc' ->
  Forall (grounded num_sites) acc'.
Proof.
  intros Hg Hk Hacc. unfold new_reactions_of_site.
  destruct (at2 (Reaction.site_id fired) k) as [site_id_0|] eqn:E0; cbn;
    [|discriminate].
  assert (Hs0 : 0 <= site_id_0 < num_sites).
  { destruct Hg as (_ & Hall & _).
    apply (proj1 (list.Forall_forall _ _) Hall). eapply at2_in_take; eauto. }
  destruct (if k =? 0 then _ else _) as [other|] eqn:E1; cbn; [|discriminate].
  destruct (at2 (Interaction.right_state _) k) as [st|] eqn:E2; cbn;
    [|discriminate].
  destruct (vget (sites m) site_id_0) as [site_0|] eqn:E3; cbn; [|discriminate].
  destruct (one_site_lookup _ _ _) as [avail|] eqn:E4; cbn; [|discriminate].
  unfold for_upto. intros Hloop.
  apply (for_loop_invariant (fun _ l => Forall (grounded num_sites) l))
    in Hloop; [exact Hloop| |].
  - apply Forall_app. split; [done|]. apply Forall_map, list.Forall_forall.
    intros i Hi. apply one_site_reaction_grounded; [done|].
    eapply (wf_one_site m Hwf); eauto.
  - clear Hloop. intros j t t' Hj Ht. rewrite (to_unsigned_site _ Hs0).
    destruct (Z.eqb_spec site_id_0 j) as [|Hne]; [intros [= <-]; done|].
    destruct (vget state j) as [st1|] eqn:F1; cbn; [|discriminate].
    destruct (vget (sites m) j) as [site_1|] eqn:F2; cbn; [|discriminate].
    destruct (vget (distance_matrix m) site_id_0) as [row|] eqn:F3; cbn;
      [|discriminate].
    destruct (vget row j) as [distance|] eqn:F4; cbn; [|discriminate].
    destruct (Double.ltb distance _); [|intros [= <-]; done].
    destruct (two_site_lookup _ (Site.species_id site_0) _ _ _)
      as [avail1|] eqn:F5; cbn; [|discriminate].
    apply vget_range in F2.
    assert (H1 : Forall (grounded num_sites)
                   (t ++ map (two_site_reaction m site_id_0 j distance) avail1)).
    { apply Forall_app. split; [done|]. apply Forall_map, list.Forall_forall.
      intros i Hi. apply two_site_reaction_grounded; try done.
      eapply (wf_two_site m Hwf); eauto. }
    destruct (j =? to_unsigned other); [intros [= <-]; done|].
    destruct (two_site_lookup _ (Site.species_id site_1) _ _ _)
      as [avail2|] eqn:F6; cbn; [|discriminate].
    intros [= <-]. apply Forall_app. split; [done|].
    apply Forall_map, list.Forall_forall.
    intros i Hi. apply two_site_reaction_grounded; try done; try congruence.
    eapply (wf_two_site m Hwf); eauto.
Qed.

Lemma compute_new_reactions_grounded state fired news :
  grounded num_sites fired ->
  compute_new_reactions m state fired = Ok news ->
  Forall (grounded num_sites) news.
Proof.
  intros Hg. unfold compute_new_reactions, for_upto. intros Hloop.
  apply (for_loop_invariant (fun _ l => Forall (grounded num_sites) l))
    in Hloop; [exact Hloop | constructor |].
  intros j t t' Hj Ht. apply new_reactions_of_site_grounded; try done.
  destruct Hg as ([Hn|Hn] & _); rewrite Hn in *; lia.
Qed.
End Generation.

Section Compaction.
Import NPMC.

Lemma StronglySorted_drop (k : nat) (l : list Z) :
  StronglySorted Z.lt l -> StronglySorted Z.lt (drop k l).
Proof.
  intros Hs. rewrite <- (take_drop k l) in Hs.
  now apply StronglySorted_app_1_r in Hs.
Qed.

Lemma vget_take {A} (v : list A) (t i : Z) :
  0 <= i < t -> vget (take (Z.to_nat t) v) i = vget v i.
Proof.
  intros Hi. unfold vget. rewrite lookup_take_lt by lia. done.
Qed.

Lemma sorted_length_le (l : list Z) (n : Z) :
  StronglySorted Z.lt l -> (forall d, d ∈ l -> 0 <= d < n) ->
  Z.of_nat (length l) <= Z.max 0 n.
Proof.
  intros Hs Hr. destruct l as [|a l']; [simpl; lia|].
  pose proof (Hr a ltac:(left)) as Ha.
  rewrite <- (count_le_all (a :: l') (n - 1));
    [|intros d Hd; specialize (Hr d Hd); lia].
  pose proof (count_le_interval (a :: l') (-1) (n - 1) Hs ltac:(lia)) as Hi.
  rewrite (count_le_none (a :: l') (-1)) in Hi;
    [lia | intros d Hd; specialize (Hr d Hd); lia].
Qed.

(** Truncating to the slots that are not holes gives the invariant between
    two steps. *)
Lemma indexed_take (t : Z) deps crs :
  0 <= t <= Z.of_nat (length crs) ->
  indexed (fun i => t <= i) deps crs ->
  quiescent deps (take (Z.to_nat t) crs).
Proof.
  intros Ht [HW HA HB]. split.
  - apply Forall_lookup. intros i r Hi.
    pose proof (lookup_lt_Some _ _ _ Hi) as Hlt.
    rewrite length_take in Hlt.
    apply (HW (Z.of_nat i) r); [|lia].
    rewrite <- (vget_take crs t) by lia. apply vget_Ok.
    rewrite Nat2Z.id. split; [lia | done].
  - intros i r s Hi Hs. pose proof (vget_range _ _ _ Hi) as Hr.
    rewrite length_take in Hr. rewrite vget_take in Hi by lia.
    apply (HA i r s Hi); [lia | done].
  - intros s i He. destruct (HB s i He) as (Hn & r & Hr & Hs).
    exists r. split; [|done]. pose proof (vget_range _ _ _ Hr).
    rewrite vget_take by lia. done.
Qed.

(** The three phases of [update_reactions] that follow the generation of
    the new reactions: they never fault on a consistent index, they remove
    exactly the slots of the reactions that share a site with the fired
    reaction, and they leave a consistent, hole-free index. *)
Lemma replace_reactions_spec news fired deps crs :
  quiescent deps crs ->
  grounded (Z.of_nat (length deps)) fired ->
  Forall (grounded (Z.of_nat (length deps))) news ->
  exists removed deps' crs',
    replace_reactions news fired deps crs = Ok (deps', crs')
    /\ quiescent deps' crs'
    /\ length deps' = length deps
    /\ StronglySorted Z.lt removed
    /\ (forall i, i ∈ removed <-> slot_touched crs fired i)
    /\ Z.of_nat (length crs')
       = Z.of_nat (length crs) - Z.of_nat (length removed)
         + Z.of_nat (length news).
Proof.
  intros Hq Hfired Hnews. unfold replace_reactions.
  destruct (collect_removals_spec crs deps fired Hq Hfired)
    as (R & deps1 & -> & Hl1 & HsR & Hind1 & HR). cbn -[move_reactions].
  assert (HrR : forall d, d ∈ R -> 0 <= d < Z.of_nat (length crs)).
  { intros d (r & Hr & _)%HR. eapply vget_range, Hr. }
  destruct (place_new_reactions_spec news 0 (IntSet.size R) R deps1 crs)
    as (deps2 & crs2 & -> & Hind2 & Hl2 & Hlen2); auto.
  { now rewrite Hl1. }
  { unfold IntSet.size. lia. }
  cbn -[move_reactions]. exists R. unfold IntSet.size.
  set (R' := drop (length news) R) in *.
  assert (HlR' : Z.of_nat (length R')
                 = Z.max 0 (Z.of_nat (length R) - Z.of_nat (length news))).
  { unfold R'. rewrite length_drop. lia. }
  destruct (Z.ltb_spec 0 (Z.of_nat (length R'))) as [Hpos|Hzero].
  - assert (HsR' : StronglySorted Z.lt R') by now apply StronglySorted_drop.
    assert (HrR' : forall d, d ∈ R' -> 0 <= d < Z.of_nat (length crs2)).
    { intros d Hd. unfold R' in Hd.
      assert (d ∈ R) as HdR.
      { rewrite <- (take_drop (length news) R). apply elem_of_app. now right. }
      specialize (HrR d HdR). lia. }
    pose proof (sorted_length_le R' _ HsR' HrR') as HleR'.
    destruct (move_reactions_spec R' (length crs2) HsR' HrR'
                (S (length crs2)) [] R' (Z.of_nat (length crs2) - 1)
                deps2 crs2)
      as (deps3 & crs3 & Hrun & Hl3 & Hld3 & Hind3); try done; try lia.
    + rewrite count_le_all; [simpl; lia|].
      intros d Hd. specialize (HrR' d Hd). lia.
    + intros d Hd. inversion Hd.
    + eapply indexed_ext; [|exact Hind2]. intros i Hi. cbn.
      split; [auto | intros [?|[? ?]]; [done | lia]].
    + simpl length in Hrun. change (Z.of_nat 0) with 0 in Hrun.
      rewrite Hrun. cbn. exists deps3. eexists. split; [reflexivity|].
      rewrite Hl3. split; [|split; [congruence|split; [done|split; [done|]]]].
      * apply indexed_take; [lia|]. exact Hind3.
      * rewrite length_take. lia.
  - assert (R' = []) as HR' by (destruct R'; [done | simpl in Hzero; lia]).
    rewrite HR' in *. exists deps2, crs2. split; [reflexivity|].
    split; [|split; [congruence|split; [done|split; [done|]]]].
    + apply quiescent_indexed. eapply indexed_ext; [|exact Hind2].
      intros i _. cbn. split; [intros Hin; inversion Hin | done].
    + simpl in HlR'. lia.
Qed.
End Compaction.

Lemma relay_constructed : NPMC.new_nano_particle no_pow relay_db = Ok relay.
Proof. reflexivity. Qed.

Lemma relay_fire :
  NPMC.update_reactions relay [0; 0] relay_dependency relay_reactions
    (NPMC.one_site_reaction relay_loaded 0 relax)
  = Ok ([[0]; [1]],
        [NPMC.one_site_reaction relay_loaded 0 excite;
         NPMC.one_site_reaction relay_loaded 1 excite]).
Proof. reflexivity. Qed.

Section IndexOfRelay.
Import NPMC.

Lemma vget_cons_inv {A} (a : A) (l : list A) (i : Z) (x : A) :
  vget (a :: l) i = Ok x -> (i = 0 /\ x = a) \/ vget l (i - 1) = Ok x.
Proof.
  intros H. destruct (decide (i = 0)) as [->|Hne].
  - left. rewrite vget_cons_0 in H. split; congruence.
  - right. pose proof (vget_range _ _ _ H).
    replace i with ((i - 1) + 1) in H by lia.
    rewrite vget_cons_succ in H by lia. done.
Qed.

Lemma vget_nil_inv {A} (i : Z) (x : A) : vget [] i = Ok x -> False.
Proof. intros H%vget_range. simpl in H. lia. Qed.

Lemma sites_of_one_site m (s : Z) (i : Interaction.t) :
  Interaction.number_of_sites i = 1 -> sites_of (one_site_reaction m s i) = [s].
Proof. intros Hi. unfold sites_of. cbn. rewrite Hi. reflexivity. Qed.

Lemma sites_of_two_site m (a b : Z) (distance : double) (i : Interaction.t) :
  Interaction.number_of_sites i = 2 ->
  sites_of (two_site_reaction m a b distance i) = [a; b].
Proof. intros Hi. unfold sites_of. cbn. rewrite Hi. reflexivity. Qed.

Ltac vget_cases H :=
  first [ apply vget_cons_inv in H as [[? ?] | H]; [|vget_cases H]
        | exfalso; exact (vget_nil_inv _ _ H) ].

Lemma relay_wf : wf_model relay.
Proof.
  split.
  - change (2 <= 2 ^ 31). lia.
  - intros species state cell i. unfold one_site_lookup.
    destruct (vget _ species) as [m1|] eqn:E1; cbn; [|discriminate].
    intros E2 Hi. cbn in E1. vget_cases E1. subst m1.
    vget_cases E2; subst cell; apply list_elem_of_singleton in Hi as ->;
      reflexivity.
  - intros spa spb sta stb cell i. unfold two_site_lookup.
    destruct (vget _ spa) as [m1|] eqn:E1; cbn; [|discriminate].
    destruct (vget m1 spb) as [m2|] eqn:E2; cbn; [|discriminate].
    destruct (vget m2 sta) as [m3|] eqn:E3; cbn; [|discriminate].
    intros E4 Hi. cbn in E1. vget_cases E1. subst m1.
    vget_cases E2. subst m2.
    vget_cases E3; subst m3; vget_cases E4; subst cell;
      first [ by inversion Hi
            | apply list_elem_of_singleton in Hi as ->; reflexivity ].
Qed.

Lemma relay_quiescent : quiescent relay_dependency relay_reactions.
Proof.
  split.
  - repeat apply Forall_cons_2; try apply Forall_nil_2;
      first [ apply (one_site_reaction_grounded relay_loaded)
            | apply (two_site_reaction_grounded relay_loaded) ];
      first [ reflexivity | cbn; lia ].
  - intros i r s Hi Hs. unfold relay_reactions in Hi. vget_cases Hi; subst r;
      [ rewrite sites_of_one_site in Hs by reflexivity
      | rewrite sites_of_two_site in Hs by reflexivity
      | rewrite sites_of_one_site in Hs by reflexivity
      | rewrite sites_of_two_site in Hs by reflexivity ];
      rewrite ?elem_of_cons, elem_of_nil in Hs;
      destruct Hs as [->|Hs]; try destruct Hs as [->|Hs]; try done;
      (eexists; split; [reflexivity|]);
      match goal with
      | |- ?j ∈ _ =>
          first [ replace j with 0 by lia | replace j with 1 by lia
                | replace j with 2 by lia | replace j with 3 by lia ]
      end; repeat constructor.
  - intros s i (set & Hs & Hi). unfold relay_dependency in Hs.
    vget_cases Hs; subst set;
      rewrite ?elem_of_cons, elem_of_nil in Hi;
      destruct Hi as [->|[->|[->|[]]]];
      (eexists; split; [reflexivity|]);
      first [ rewrite sites_of_one_site by reflexivity
            | rewrite sites_of_two_site by reflexivity ];
      match goal with
      | |- ?j ∈ _ =>
          first [ replace j with 0 by lia | replace j with 1 by lia ]
      end; repeat constructor.
Qed.
End IndexOfRelay.

Section Construction.
Import NPMC.

(** What a successful run of the constructor went through. *)
Lemma new_nano_particle_inv pow (db : Database) (m : NanoParticle) :
  new_nano_particle pow db = Ok m ->
  exists md fr loaded cnt,
    metadata db = Some md
    /\ factors db = Some fr
    /\ (FactorsSql.distance_factor_type fr = "linear"%string
        \/ FactorsSql.distance_factor_type fr = "inverse_cubic"%string)
    /\ 0 <= MetadataSql.number_of_species md
    /\ 0 <= MetadataSql.number_of_sites md
    /\ Z.of_nat (length (degrees_of_freedom m)) = MetadataSql.number_of_species md
    /\ Z.of_nat (length (sites m)) = MetadataSql.number_of_sites md
    /\ Z.of_nat (length (initial_state m)) = MetadataSql.number_of_sites md
    /\ current_state m = initial_state m
    /\ distance_matrix m = compute_distance_matrix (sites m)
    /\ one_site_interactions m
       = fst (fst (fst (read_interactions (interaction_rows db))))
    /\ two_site_interactions m
       = snd (fst (fst (read_interactions (interaction_rows db))))
    /\ build_interaction_maps (MetadataSql.number_of_species md)
         (max_left_state_1 (interaction_rows db) + 1)
         (one_site_interactions m) (two_site_interactions m)
       = Ok (one_site_interactions_map m, two_site_interactions_map m)
    /\ (sites loaded = sites m
        /\ current_state loaded = initial_state m
        /\ distance_matrix loaded = distance_matrix m
        /\ one_site_interactions_map loaded = one_site_interactions_map m
        /\ two_site_interactions_map loaded = two_site_interactions_map m
        /\ interaction_radius_bound loaded = interaction_radius_bound m)
    /\ for_upto (Z.of_nat (length (sites m))) (enumerate_site loaded)
         ([], replicate (Z.to_nat (MetadataSql.number_of_sites md)) IntSet.empty, 0)
       = Ok (initial_reactions m, site_reaction_dependency m, cnt).
Proof.
  unfold new_nano_particle.
  destruct (metadata db) as [md|]; [|discriminate].
  destruct (factors db) as [fr|]; [|discriminate].
  assert (Htype :
    (if String.eqb (FactorsSql.distance_factor_type fr) "linear"%string then true
     else String.eqb (FactorsSql.distance_factor_type fr) "inverse_cubic"%string) = true
    -> FactorsSql.distance_factor_type fr = "linear"%string
       \/ FactorsSql.distance_factor_type fr = "inverse_cubic"%string).
  { destruct (String.eqb_spec (FactorsSql.distance_factor_type fr) "linear"%string);
      [auto|].
    destruct (String.eqb_spec (FactorsSql.distance_factor_type fr)
                "inverse_cubic"%string); [auto | discriminate]. }
  destruct (String.eqb _ "linear"%string);
    [|destruct (String.eqb _ "inverse_cubic"%string); [|cbn; discriminate]]; cbn.
  all: specialize (Htype eq_refl).
  all: destruct (resized (MetadataSql.number_of_species md) 0) as [dof0|] eqn:R1;
    cbn; [|discriminate].
  all: destruct (foldM _ (species_rows db) dof0) as [dof|] eqn:F1; cbn;
    [|discriminate].
  all: destruct (resized (MetadataSql.number_of_sites md)
                   (Site.Build_t _ _ _ _)) as [sites0|] eqn:R2; cbn;
    [|discriminate].
  all: destruct (resized (MetadataSql.number_of_sites md) IntSet.empty)
    as [deps0|] eqn:R3; cbn; [|discriminate].
  all: destruct (foldM _ (site_rows db) sites0) as [sites|] eqn:F2; cbn;
    [|discriminate].
  all: pose proof (read_interactions_num_states (interaction_rows db)) as Hns.
  all: destruct (read_interactions (interaction_rows db)) as [[[one two] c] ns].
  all: cbn in Hns; subst ns.
  all: destruct (build_interaction_maps _ _ one two) as [[map1 map2]|] eqn:Hb;
    cbn; [|discriminate].
  all: destruct (resized (MetadataSql.number_of_sites md) 0) as [st0|] eqn:R4;
    cbn; [|discriminate].
  all: destruct (foldM _ (initial_state_rows db) st0) as [st|] eqn:F3; cbn;
    [|discriminate].
  all: destruct (for_upto _ _ _) as [[[rs deps] cnt]|] eqn:L; cbn;
    [|discriminate].
  all: apply resized_Ok in R1 as [Hsp ->], R2 as [Hsi ->], R3 as [_ ->],
       R4 as [_ ->].
  all: assert (Hdof : length dof
                      = length (replicate (Z.to_nat (MetadataSql.number_of_species md)) 0))
    by (eapply (foldM_invariant (fun v => length v = _)); [reflexivity| |exact F1];
        intros t a t' <- Hset; eapply vset_length, Hset).
  all: assert (Hsites : length sites
                        = Z.to_nat (MetadataSql.number_of_sites md))
    by (eapply (foldM_invariant (fun v => length v = _));
        [apply length_replicate| |exact F2];
        intros t a t' <- Hset; eapply vset_length, Hset).
  all: assert (Hst : length st = Z.to_nat (MetadataSql.number_of_sites md))
    by (eapply (foldM_invariant (fun v => length v = _));
        [apply length_replicate| |exact F3];
        intros t a t' <- Hset; eapply vset_length, Hset).
  all: rewrite length_replicate in Hdof.
  all: intros [= <-]; cbn.
  all: eexists md, fr, _, cnt.
  all: repeat match goal with |- _ /\ _ => split end.
  all: try exact L.
  all: try reflexivity; try done; try lia.
Qed.
End Construction.

Section TensorContents.
Import NPMC.

Lemma vget_replicate {A} (n : nat) (x y : A) (i : Z) :
  vget (replicate n x) i = Ok y -> y = x.
Proof.
  intros [_ H]%vget_Ok. apply lookup_replicate in H as [-> _]. done.
Qed.

Lemma foldM_prefix_invariant {A S} (P : list A -> S -> Prop)
    (f : S -> A -> result S) (l : list A) (s s' : S) :
  P [] s ->
  (forall pre a t t', P pre t -> f t a = Ok t' -> P (pre ++ [a]) t') ->
  foldM f l s = Ok s' -> P l s'.
Proof.
  intros H0 Hstep.
  assert (Hgen : forall pre s, P pre s -> foldM f l s = Ok s' -> P (pre ++ l) s').
  { induction l as [|a l IH]; intros pre t Ht; simpl.
    - intros [= <-]. now rewrite app_nil_r.
    - destruct (f t a) as [t'|] eqn:Hf; cbn; [|discriminate]. intros Hrun.
      rewrite (cons_middle a pre l), app_assoc. eapply IH; eauto. }
  apply (Hgen [] s H0).
Qed.

Lemma one_site_push_lookup map sp st (i : Interaction.t) map' sp2 st2 :
  one_site_push map sp st i = Ok map' ->
  one_site_lookup map' sp2 st2
  = if decide ((sp2, st2) = (sp, st))
    then cell ← one_site_lookup map sp st; Ok (cell ++ [i])
    else one_site_lookup map sp2 st2.
Proof.
  unfold one_site_push, one_site_lookup.
  destruct (vget map sp) as [m1|] eqn:E1; cbn; [|discriminate].
  destruct (vget m1 st) as [cell|] eqn:E2; cbn; [|discriminate].
  destruct (vset m1 st _) as [m1'|] eqn:E3; cbn; [|discriminate].
  intros E4. destruct (decide (sp2 = sp)) as [->|Hsp].
  - rewrite (vget_vset_same _ _ _ _ E4). cbn.
    destruct (decide (st2 = st)) as [->|Hst].
    + rewrite decide_True by done. now rewrite (vget_vset_same _ _ _ _ E3).
    + rewrite decide_False by congruence.
      rewrite (vget_vset_other _ _ _ _ _ E3) by congruence. now rewrite E1.
  - rewrite decide_False by congruence.
    now rewrite (vget_vset_other _ _ _ _ _ E4) by congruence.
Qed.

Lemma two_site_push_lookup_eq map spa spb sta stb (i : Interaction.t) map'
    spa2 spb2 sta2 stb2 :
  two_site_push map spa spb sta stb i = Ok map' ->
  two_site_lookup map' spa2 spb2 sta2 stb2
  = if decide ((spa2, spb2, sta2, stb2) = (spa, spb, sta, stb))
    then cell ← two_site_lookup map spa spb sta stb; Ok (cell ++ [i])
    else two_site_lookup map spa2 spb2 sta2 stb2.
Proof.
  unfold two_site_push, two_site_lookup.
  destruct (vget map spa) as [m1|] eqn:E1; cbn; [|discriminate].
  destruct (vget m1 spb) as [m2|] eqn:E2; cbn; [|discriminate].
  destruct (vget m2 sta) as [m3|] eqn:E3; cbn; [|discriminate].
  destruct (vget m3 stb) as [cell|] eqn:E4; cbn; [|discriminate].
  destruct (vset m3 stb _) as [m3'|] eqn:E5; cbn; [|discriminate].
  destruct (vset m2 sta _) as [m2'|] eqn:E6; cbn; [|discriminate].
  destruct (vset m1 spb _) as [m1'|] eqn:E7; cbn; [|discriminate].
  intros E8. destruct (decide (spa2 = spa)) as [->|Ha].
  2:{ rewrite decide_False by congruence.
      now rewrite (vget_vset_other _ _ _ _ _ E8) by congruence. }
  rewrite (vget_vset_same _ _ _ _ E8). cbn.
  destruct (decide (spb2 = spb)) as [->|Hb].
  2:{ rewrite decide_False by congruence.
      rewrite (vget_vset_other _ _ _ _ _ E7) by congruence. now rewrite E1. }
  rewrite (vget_vset_same _ _ _ _ E7). cbn.
  destruct (decide (sta2 = sta)) as [->|Hc].
  2:{ rewrite decide_False by congruence.
      rewrite (vget_vset_other _ _ _ _ _ E6) by congruence.
      rewrite E1. cbn. now rewrite E2. }
  rewrite (vget_vset_same _ _ _ _ E6). cbn.
  destruct (decide (stb2 = stb)) as [->|Hd].
  2:{ rewrite decide_False by congruence.
      rewrite (vget_vset_other _ _ _ _ _ E5) by congruence.
      rewrite E1. cbn. rewrite E2. cbn. now rewrite E3. }
  rewrite decide_True by done. now rewrite (vget_vset_same _ _ _ _ E5).
Qed.

(** "Put interactions into interaction_map": a cell holds the loaded
    interactions of its key, in loading order. *)
Lemma build_interaction_maps_lookup (nsp ns : Z) one two map1 map2 :
  build_interaction_maps nsp ns one two = Ok (map1, map2) ->
  (forall sp st cell,
     one_site_lookup map1 sp st = Ok cell ->
     cell = filter (fun i => one_site_key i = (sp, st)) one)
  /\ (forall spa spb sta stb cell,
        two_site_lookup map2 spa spb sta stb = Ok cell ->
        cell = filter (fun i => two_site_key i = (spa, spb, sta, stb)) two).
Proof.
  unfold build_interaction_maps.
  destruct (resized ns []) as [cells1|] eqn:R1; cbn; [|discriminate].
  destruct (resized nsp cells1) as [m1|] eqn:R2; cbn; [|discriminate].
  destruct (resized ns cells1) as [cells2|] eqn:R3; cbn; [|discriminate].
  destruct (resized nsp cells2) as [bs2|] eqn:R4; cbn; [|discriminate].
  destruct (resized nsp bs2) as [m2|] eqn:R5; cbn; [|discriminate].
  destruct (foldM _ one m1) as [m1'|] eqn:F1; cbn; [|discriminate].
  destruct (foldM _ two m2) as [m2'|] eqn:F2; cbn; [|discriminate].
  intros [= <- <-].
  apply resized_Ok in R1 as [Hns ->], R2 as [Hnsp ->], R3 as [_ ->],
    R4 as [_ ->], R5 as [_ ->].
  split.
  - eapply (foldM_prefix_invariant
              (fun pre map => forall sp st cell,
                 one_site_lookup map sp st = Ok cell ->
                 cell = filter (fun i => one_site_key i = (sp, st)) pre));
      [| |exact F1].
    + intros sp st cell. unfold one_site_lookup.
      destruct (vget _ sp) as [row|] eqn:E1; cbn; [|discriminate].
      apply vget_replicate in E1 as ->. now intros ->%vget_replicate.
    + intros pre a t t' IH Hpush sp st cell.
      rewrite (one_site_push_lookup _ _ _ _ _ sp st Hpush), filter_app.
      destruct (decide ((sp, st) = _)) as [Heq|Hne].
      * destruct (one_site_lookup t _ _) as [c|] eqn:Hc; cbn; [|discriminate].
        intros [= <-]. injection Heq as -> ->. rewrite (IH _ _ _ Hc).
        rewrite decide_True by done. done.
      * intros Hc. rewrite (IH _ _ _ Hc).
        cbn. rewrite decide_False by (unfold one_site_key; congruence).
        now rewrite app_nil_r.
  - eapply (foldM_prefix_invariant
              (fun pre map => forall spa spb sta stb cell,
                 two_site_lookup map spa spb sta stb = Ok cell ->
                 cell = filter (fun i => two_site_key i = (spa, spb, sta, stb))
                               pre));
      [| |exact F2].
    + intros spa spb sta stb cell. unfold two_site_lookup.
      destruct (vget _ spa) as [x1|] eqn:E1; cbn; [|discriminate].
      apply vget_replicate in E1 as ->.
      destruct (vget _ spb) as [x2|] eqn:E2; cbn; [|discriminate].
      apply vget_replicate in E2 as ->.
      destruct (vget _ sta) as [x3|] eqn:E3; cbn; [|discriminate].
      apply vget_replicate in E3 as ->. now intros ->%vget_replicate.
    + intros pre a t t' IH Hpush spa spb sta stb cell.
      rewrite (two_site_push_lookup_eq _ _ _ _ _ _ _ spa spb sta stb Hpush),
        filter_app.
      destruct (decide ((spa, spb, sta, stb) = _)) as [Heq|Hne].
      * destruct (two_site_lookup t _ _ _ _) as [c|] eqn:Hc; cbn;
          [|discriminate].
        intros [= <-]. injection Heq as -> -> -> ->. rewrite (IH _ _ _ _ _ Hc).
        rewrite decide_True by done. done.
      * intros Hc. rewrite (IH _ _ _ _ _ Hc).
        cbn. rewrite decide_False by (unfold two_site_key; congruence).
        now rewrite app_nil_r.
Qed.

Lemma read_interactions_number_of_sites (rows : list InteractionSql.t) :
  Forall (fun i => Interaction.number_of_sites i = 1)
         (fst (fst (fst (read_interactions rows))))
  /\ Forall (fun i => Interaction.number_of_sites i = 2)
            (snd (fst (fst (read_interactions rows)))).
Proof.
  unfold read_interactions.
  assert (Hgen : forall acc,
    Forall (fun i => Interaction.number_of_sites i = 1) (fst (fst (fst acc))) ->
    Forall (fun i => Interaction.number_of_sites i = 2) (snd (fst (fst acc))) ->
    Forall (fun i => Interaction.number_of_sites i = 1)
           (fst (fst (fst (fold_left read_interaction rows acc))))
    /\ Forall (fun i => Interaction.number_of_sites i = 2)
              (snd (fst (fst (fold_left read_interaction rows acc))))).
  { induction rows as [|row rows IH]; intros [[[one two] c] ns] H1 H2;
      [split; assumption|].
    simpl fold_left. apply IH; cbn in *.
    - destruct (Z.eqb_spec (InteractionSql.number_of_sites row) 1); [|done].
      apply Forall_app. split; [done|]. repeat constructor. done.
    - destruct (Z.eqb_spec (InteractionSql.number_of_sites row) 1); [done|].
      destruct (Z.eqb_spec (InteractionSql.number_of_sites row) 2); [|done].
      apply Forall_app. split; [done|]. repeat constructor. done. }
  apply Hgen; constructor.
Qed.
End TensorContents.

Section InitialEnumeration.
Import NPMC.
Variable m : NanoParticle.
Hypothesis Hone :
  forall species state cell i,
    one_site_lookup (one_site_interactions_map m) species state = Ok cell ->
    i ∈ cell -> Interaction.number_of_sites i = 1.
Hypothesis Htwo :
  forall species_a species_b state_a state_b cell i,
    two_site_lookup (two_site_interactions_map m)
      species_a species_b state_a state_b = Ok cell ->
    i ∈ cell -> Interaction.number_of_sites i = 2.

Local Abbreviation num_sites := (Z.of_nat (length (sites m))).

(** The invariant of the constructor's enumeration: the counter is the
    number of reactions, and the index is consistent with them. *)
Local Abbreviation enumerated :=
  (fun acc : list Reaction.t * list IntSet.t * Z =>
     snd acc = Z.of_nat (length (fst (fst acc)))
     /\ length (snd (fst acc)) = length (sites m)
     /\ indexed (fun _ => False) (snd (fst acc)) (fst (fst acc))).

Lemma foldM_invariant_in {A S} (P : S -> Prop) (f : S -> A -> result S)
    (l : list A) (s s' : S) :
  P s -> (forall t a t', a ∈ l -> P t -> f t a = Ok t' -> P t') ->
  foldM f l s = Ok s' -> P s'.
Proof.
  revert s. induction l as [|a l IH]; intros s Hs Hstep; simpl.
  - now intros [= <-].
  - destruct (f s a) as [t|] eqn:Hf; cbn; [|discriminate].
    apply IH.
    + eapply Hstep; [left | exact Hs | exact Hf].
    + intros t0 b t' Hb. apply Hstep. now right.
Qed.

Lemma enumerate_one_site_step (s : Z) (i : Interaction.t) acc acc' :
  enumerated acc -> 0 <= s < num_sites ->
  Interaction.number_of_sites i = 1 ->
  (let '(reactions, deps, reaction_count) := acc in
   deps ← dep_insert deps s reaction_count;
   Ok (reactions ++ [one_site_reaction m s i], deps, reaction_count + 1))
  = Ok acc' ->
  enumerated acc'.
Proof.
  destruct acc as [[rs deps] cnt]. cbn. intros (-> & Hl & Hind) Hs Hi.
  destruct (vget_in_range deps s) as [set Hset]; [lia|].
  destruct (dep_insert_spec deps s (Z.of_nat (length rs)) set Hset)
    as (deps' & -> & Hl' & He). cbn. intros [= <-]. cbn.
  rewrite length_app. cbn. split; [lia|]. split; [congruence|].
  apply (indexed_append deps deps' rs _ Hind); [|done|].
  - rewrite Hl. now apply one_site_reaction_grounded.
  - intros s' j. rewrite He, sites_of_one_site by done.
    rewrite list_elem_of_singleton. tauto.
Qed.

Lemma enumerate_two_site_step (a b donor acceptor : Z) (distance : double)
    (i : Interaction.t) acc acc' :
  enumerated acc -> 0 <= a < num_sites -> 0 <= b < num_sites -> a <> b ->
  (donor = a /\ acceptor = b) \/ (donor = b /\ acceptor = a) ->
  Interaction.number_of_sites i = 2 ->
  (let '(reactions, deps, reaction_count) := acc in
   deps ← dep_insert deps a reaction_count;
   deps ← dep_insert deps b reaction_count;
   Ok (reactions ++ [two_site_reaction m donor acceptor distance i], deps,
       reaction_count + 1))
  = Ok acc' ->
  enumerated acc'.
Proof.
  destruct acc as [[rs deps] cnt]. cbn. intros (-> & Hl & Hind) Ha Hb Hab Hda Hi.
  destruct (vget_in_range deps a) as [seta Hseta]; [lia|].
  destruct (dep_insert_spec deps a (Z.of_nat (length rs)) seta Hseta)
    as (deps1 & -> & Hl1 & He1). cbn.
  destruct (vget_in_range deps1 b) as [setb Hsetb]; [lia|].
  destruct (dep_insert_spec deps1 b (Z.of_nat (length rs)) setb Hsetb)
    as (deps2 & -> & Hl2 & He2). cbn. intros [= <-]. cbn.
  rewrite length_app. cbn. split; [lia|]. split; [congruence|].
  apply (indexed_append deps deps2 rs _ Hind); [|congruence|].
  - rewrite Hl.
    destruct Hda as [[-> ->]|[-> ->]];
      apply two_site_reaction_grounded; auto.
  - intros s' j. rewrite He2, He1, sites_of_two_site by done.
    rewrite !elem_of_cons, elem_of_nil.
    destruct Hda as [[-> ->]|[-> ->]]; tauto.
Qed.

Lemma enumerate_site_invariant (site_id_0 : Z) acc acc' :
  0 <= site_id_0 < num_sites ->
  enumerated acc ->
  enumerate_site m site_id_0 acc = Ok acc' ->
  enumerated acc'.
Proof.
  intros Hs0 Hacc. unfold enumerate_site.
  destruct (vget (current_state m) site_id_0) as [st0|] eqn:E1; cbn;
    [|discriminate].
  destruct (vget (sites m) site_id_0) as [site_0|] eqn:E2; cbn; [|discriminate].
  destruct (one_site_lookup _ _ _) as [avail|] eqn:E3; cbn; [|discriminate].
  destruct (foldM _ avail acc) as [acc1|] eqn:F1; cbn; [|discriminate].
  assert (Hacc1 : enumerated acc1).
  { eapply (foldM_invariant_in enumerated); [exact Hacc| |exact F1].
    intros t i t' Hi Ht Hstep. destruct t as [[? ?] ?].
    apply (enumerate_one_site_step site_id_0 i _ t' Ht Hs0); [|exact Hstep].
    eapply Hone; eauto. }
  clear F1. unfold for_upto. intros Hloop.
  eapply (for_loop_invariant (fun _ acc => enumerated acc));
    [exact Hacc1 | | exact Hloop].
  clear Hloop. intros j t t' Hj Ht. cbn beta.
  destruct (Z.eqb_spec site_id_0 j) as [|Hne]; [intros [= <-]; done|].
  destruct (vget (current_state m) j) as [st1|] eqn:G1; cbn; [|discriminate].
  destruct (vget (sites m) j) as [site_1|] eqn:G2; cbn; [|discriminate].
  destruct (vget (distance_matrix m) site_id_0) as [row|] eqn:G3; cbn;
    [|discriminate].
  destruct (vget row j) as [distance|] eqn:G4; cbn; [|discriminate].
  destruct (Double.ltb distance _); [|intros [= <-]; done].
  destruct (two_site_lookup _ (Site.species_id site_0) _ _ _)
    as [avail1|] eqn:G5; cbn; [|discriminate].
  destruct (foldM _ avail1 t) as [t1|] eqn:F2; cbn; [|discriminate].
  apply vget_range in G2.
  assert (Ht1 : enumerated t1).
  { eapply (foldM_invariant_in enumerated); [exact Ht| |exact F2].
    intros u i u' Hi Hu Hstep. destruct u as [[? ?] ?].
    apply (enumerate_two_site_step site_id_0 j site_id_0 j distance i _ u' Hu);
      auto.
    eapply Htwo; eauto. }
  destruct (two_site_lookup _ (Site.species_id site_1) _ _ _)
    as [avail2|] eqn:G6; cbn; [|discriminate].
  intros F3.
  eapply (foldM_invariant_in enumerated); [exact Ht1| |exact F3].
  intros u i u' Hi Hu Hstep. destruct u as [[? ?] ?].
  apply (enumerate_two_site_step site_id_0 j j site_id_0 distance i _ u' Hu);
    auto.
  eapply Htwo; eauto.
Qed.

Lemma enumeration_invariant (deps0 : list IntSet.t) rs deps cnt :
  length deps0 = length (sites m) ->
  Forall (fun set => set = IntSet.empty) deps0 ->
  for_upto num_sites (enumerate_site m) ([], deps0, 0) = Ok (rs, deps, cnt) ->
  cnt = Z.of_nat (length rs)
  /\ length deps = length (sites m)
  /\ quiescent deps rs.
Proof.
  intros Hl Hempty Hloop. unfold for_upto in Hloop.
  apply (for_loop_invariant (fun _ acc => enumerated acc)) in Hloop.
  - destruct Hloop as (Hc & Hd & Hi). cbn in *.
    split; [done|]. split; [done|]. now apply quiescent_indexed.
  - cbn. split; [done|]. split; [done|]. split.
    + intros i r Hi. now apply vget_nil_inv in Hi.
    + intros i r s Hi. now apply vget_nil_inv in Hi.
    + intros s i (set & Hs & Hi). apply vget_elem_of in Hs.
      rewrite (proj1 (list.Forall_forall _ _) Hempty set Hs) in Hi.
      inversion Hi.
  - intros j t t' Hj Ht. apply enumerate_site_invariant; [lia | exact Ht].
Qed.
End InitialEnumeration.



Section ConstructedIndex.
Import NPMC.

Lemma constructed_index pow (db : Database) (m : NanoParticle) :
  new_nano_particle pow db = Ok m ->
  (forall species state cell i,
     one_site_lookup (one_site_interactions_map m) species state = Ok cell ->
     i ∈ cell -> Interaction.number_of_sites i = 1)
  /\ (forall species_a species_b state_a state_b cell i,
        two_site_lookup (two_site_interactions_map m)
          species_a species_b state_a state_b = Ok cell ->
        i ∈ cell -> Interaction.number_of_sites i = 2)
  /\ length (site_reaction_dependency m) = length (sites m)
  /\ quiescent (site_reaction_dependency m) (initial_reactions m).
Proof.
  intros Hnew.
  destruct (new_nano_particle_inv pow db m Hnew)
    as (md & fr & loaded & cnt & _ & _ & _ & _ & Hns & _ & Hsites & _ & _ & _
        & Hone & Htwo & Hmaps & (Ls & _ & _ & Lm1 & Lm2 & _) & Hloop).
  destruct (read_interactions_number_of_sites (interaction_rows db))
    as [H1 H2].
  rewrite <- Hone in H1. rewrite <- Htwo in H2.
  destruct (build_interaction_maps_lookup _ _ _ _ _ _ Hmaps) as [L1 L2].
  assert (W1 : forall species state cell i,
             one_site_lookup (one_site_interactions_map m) species state
             = Ok cell ->
             i ∈ cell -> Interaction.number_of_sites i = 1).
  { intros sp st cell i Hc Hi. rewrite (L1 _ _ _ Hc) in Hi.
    apply list_elem_of_filter in Hi as [_ Hi].
    apply (proj1 (list.Forall_forall _ _) H1 i Hi). }
  assert (W2 : forall species_a species_b state_a state_b cell i,
             two_site_lookup (two_site_interactions_map m)
               species_a species_b state_a state_b = Ok cell ->
             i ∈ cell -> Interaction.number_of_sites i = 2).
  { intros spa spb sta stb cell i Hc Hi. rewrite (L2 _ _ _ _ _ Hc) in Hi.
    apply list_elem_of_filter in Hi as [_ Hi].
    apply (proj1 (list.Forall_forall _ _) H2 i Hi). }
  split; [exact W1|]. split; [exact W2|].
  rewrite <- Ls in Hloop.
  apply (enumeration_invariant loaded) in Hloop.
  - destruct Hloop as (_ & Hl & Hq). rewrite Ls in Hl. auto.
  - rewrite Lm1. exact W1.
  - rewrite Lm2. exact W2.
  - rewrite length_replicate, Ls. lia.
  - apply Forall_replicate. reflexivity.
Qed.
End ConstructedIndex.

(** X2.  The constructor establishes what [update_reactions] relies on:
    the lookup tensors hold one-site, resp. two-site, interactions, the
    index has one set per site, and the initial reactions and the index
    satisfy the invariant between two steps: every initial reaction is
    registered under each of its sites, and every entry of the index is the
    slot of an initial reaction that has that site. *)
Theorem constructor_establishes_index (pow : double -> double -> double)
    (db : Database) (m : NPMC.NanoParticle) (md : MetadataSql.t) :
  NPMC.new_nano_particle pow db = Ok m ->
  metadata db = Some md ->
  MetadataSql.number_of_sites md <= 2 ^ 31 ->
  wf_model m
  /\ length (NPMC.site_reaction_dependency m) = length (NPMC.sites m)
  /\ quiescent (NPMC.site_reaction_dependency m) (NPMC.initial_reactions m).
Proof.
  intros Hnew Hmd Hbound.
  destruct (constructed_index pow db m Hnew) as (W1 & W2 & Hl & Hq).
  destruct (new_nano_particle_inv pow db m Hnew)
    as (md' & fr & loaded & cnt & Hmd' & _ & _ & _ & _ & _ & Hsites & _).
  assert (md' = md) as -> by congruence.
  split; [|auto]. split; [lia | exact W1 | exact W2].
Qed.

Lemma constructor_establishes_index_witness :
  wf_model relay
  /\ length (NPMC.site_reaction_dependency relay) = length (NPMC.sites relay)
  /\ quiescent (NPMC.site_reaction_dependency relay)
       (NPMC.initial_reactions relay).
Proof.
  apply (constructor_establishes_index no_pow relay_db relay
           {| MetadataSql.number_of_species := 1;
              MetadataSql.number_of_sites := 2 |}).
  - reflexivity.
  - reflexivity.
  - cbn. lia.
Defined.

Section History.
Import Core.
Context {S M : Type} `{Solver S} `{Model M}.

(** What one call of [execute_step] does to the record of the run. *)
Lemma execute_step_record (sim : Simulation S M) (b : bool)
    (sim' : Simulation S M) :
  execute_step sim = Done (b, sim') ->
  seed sim' = seed sim
  /\ time_cutoff sim' = time_cutoff sim
  /\ ((b = false /\ step sim' = step sim /\ history sim' = history sim
       /\ sim_time sim' = sim_time sim /\ state sim' = state sim)
      \/ (step sim' = step sim + 1
          /\ 0 <= step sim < Z.of_nat (length (history sim))
          /\ exists id,
               history sim'
               = <[Z.to_nat (step sim) :=
                     {| reaction_id := id; time := sim_time sim' |}]>
                 (history sim))).
Proof.
  unfold execute_step. destruct (event (solver sim)) as [[ev|] solver1].
  - destruct (vset _ _ _) as [h1|] eqn:Hh; [|discriminate].
    destruct (update_state _ _ _) as [st1|]; [|discriminate].
    destruct (update_propensities _ _ _) as [[m1 ups]|]; [|discriminate].
    intros [= <- <-]. cbn. split; [done|]. split; [done|]. right.
    apply vset_Ok in Hh as [Hr ->]. split; [done|]. split; [done|]. eauto.
  - intros [= <- <-]. cbn. split; [done|]. split; [done|]. left. done.
Qed.

(** X3.  The record of a run is append-only.  When [execute_steps] returns,
    the seed and the time cutoff are the ones it started with, the step
    counter has not decreased, the history buffer has kept its length and
    every element recorded before the call (index below the initial step)
    is unchanged.  If no step was added, time, state and history are
    unchanged; otherwise the element at index [step - 1] carries the
    current time of the simulation. *)
Theorem execute_steps_appends_history (fuel : nat) (cutoff : Z) :
  forall sim sim' : Simulation S M,
  execute_steps fuel cutoff sim = Done sim' ->
  seed sim' = seed sim
  /\ time_cutoff sim' = time_cutoff sim
  /\ step sim <= step sim'
  /\ length (history sim') = length (history sim)
  /\ (forall i, i < step sim -> vget (history sim') i = vget (history sim) i)
  /\ (step sim' = step sim ->
      sim_time sim' = sim_time sim /\ state sim' = state sim
      /\ history sim' = history sim)
  /\ (step sim < step sim' ->
      exists id, vget (history sim') (step sim' - 1)
                 = Ok {| reaction_id := id; time := sim_time sim' |}).
Proof.
  induction fuel as [|fuel IH]; intros sim sim'; [discriminate|]. simpl.
  destruct (execute_step sim) as [[b sim1]| | | |] eqn:Hrun; try discriminate.
  apply execute_step_record in Hrun as (Hseed & Hcut & Hcase).
  assert (Hone :
    step sim <= step sim1
    /\ length (history sim1) = length (history sim)
    /\ (forall i, i < step sim -> vget (history sim1) i = vget (history sim) i)
    /\ (step sim1 = step sim ->
        sim_time sim1 = sim_time sim /\ state sim1 = state sim
        /\ history sim1 = history sim)
    /\ (step sim < step sim1 ->
        exists id, vget (history sim1) (step sim1 - 1)
                   = Ok {| reaction_id := id; time := sim_time sim1 |})).
  { destruct Hcase as [(_ & Hs & Hh & Ht & Hst) | (Hs & Hr & id & Hh)].
    - rewrite Hs, Hh. split; [lia|]. split; [done|]. split; [done|].
      split; [done | lia].
    - rewrite Hs, Hh, length_insert. split; [lia|]. split; [done|]. split.
      + intros i Hi. rewrite vget_insert by done.
        rewrite decide_False by lia. done.
      + split; [lia|]. intros _. exists id. rewrite vget_insert by done.
        rewrite decide_True by lia. done. }
  destruct Hone as (H1 & H2 & H3 & H4 & H5).
  destruct b; [|intros [= <-]; auto 10].
  destruct (step sim1 >? cutoff); [intros [= <-]; auto 10|].
  intros Hrest. apply IH in Hrest as (I1 & I2 & I3 & I4 & I5 & I6 & I7).
  split; [congruence|]. split; [congruence|]. split; [lia|].
  split; [congruence|]. split; [|split].
  - intros i Hi. rewrite I5 by lia. auto.
  - intros Heq. destruct (I6 ltac:(lia)) as (J1 & J2 & J3).
    destruct (H4 ltac:(lia)) as (K1 & K2 & K3). repeat split; congruence.
  - intros Hlt. destruct (decide (step sim1 < step sim')) as [Hmore|Hsame];
      [auto|].
    assert (step sim' = step sim1) as Heq by lia.
    destruct (I6 Heq) as (J1 & _ & J3). rewrite Heq, J1, J3. apply H5. lia.
Qed.
Lemma execute_steps_overrun (sim : Simulation S M) (fuel : nat) (cutoff : Z) :
  execute_step sim = HistoryOverrun ->
  execute_steps (Datatypes.S fuel) cutoff sim = HistoryOverrun.
Proof. intros Hstep. simpl. now rewrite Hstep. Qed.

Lemma execute_steps_no_event (sim : Simulation S M) (solver1 : S)
    (fuel : nat) (cutoff : Z) :
  event (solver sim) = (None, solver1) ->
  execute_steps (Datatypes.S fuel) cutoff sim
  = Done {| model := model sim; seed := seed sim; state := state sim;
            sim_time := sim_time sim; time_cutoff := time_cutoff sim;
            step := step sim; solver := solver1; history := history sim |}.
Proof.
  intros Hev. simpl. now rewrite (execute_step_no_event sim solver1 Hev).
Qed.
End History.


Lemma execute_steps_appends_history_witness :
  exists sim0 : Core.Simulation (list Core.Event)
                  (GMC.ReactionNetwork * GMC.graph),
    Core.new_simulation (dimerization, [GMC.fresh_node; GMC.fresh_node])
      3 1 (Double.of_int 10) = Core.Done sim0
    /\ match Core.execute_steps 2 1 sim0 with
       | Core.Done sim' =>
           Core.step sim0 <= Core.step sim'
           /\ length (Core.history sim') = length (Core.history sim0)
           /\ (forall i, i < Core.step sim0 ->
                 vget (Core.history sim') i = vget (Core.history sim0) i)
           /\ (Core.step sim0 < Core.step sim' ->
               exists id,
                 vget (Core.history sim') (Core.step sim' - 1)
                 = Ok {| Core.reaction_id := id;
                         Core.time := Core.sim_time sim' |})
       | _ => False
       end.
Proof.
  eexists. split; [reflexivity|].
  destruct (Core.execute_steps _ _ _) as [sim'| | | |] eqn:Hrun;
    try (vm_compute in Hrun; discriminate).
  destruct (execute_steps_appends_history _ _ _ _ Hrun)
    as (_ & _ & Hstep & Hlen & Hkeep & _ & Hlast).
  auto.
Defined.

(** X4.  A negative [step_cutoff].  The constructor sizes the history
    buffer with [step_cutoff + 1]: below [-1] the size is negative and the
    construction of the vector fails; at [-1] the buffer is empty, so that
    the first event writes [history[0]] outside the buffer, while a solver
    without an event leaves the run at step 0. *)
Theorem new_simulation_negative_cutoff {S M : Type}
    `{Core.Solver S} `{Core.Model M}
    (m : M) (seed step_cutoff : Z) (time_cutoff : double) :
  step_cutoff < 0 ->
  (step_cutoff < -1 ->
   Core.new_simulation (S := S) m seed step_cutoff time_cutoff
   = Core.LengthError)
  /\ (step_cutoff = -1 ->
      exists sim0 : Core.Simulation S M,
        Core.new_simulation m seed step_cutoff time_cutoff = Core.Done sim0
        /\ Core.history sim0 = []
        /\ (forall ev solver1 fuel cutoff,
              Core.event (Core.solver sim0) = (Some ev, solver1) ->
              Core.execute_step sim0 = Core.HistoryOverrun
              /\ Core.execute_steps (Datatypes.S fuel) cutoff sim0
                 = Core.HistoryOverrun)
        /\ (forall solver1 fuel cutoff,
              Core.event (Core.solver sim0) = (None, solver1) ->
              exists sim1,
                Core.execute_steps (Datatypes.S fuel) cutoff sim0
                = Core.Done sim1
                /\ Core.step sim1 = 0 /\ Core.history sim1 = [])).
Proof.
  intros Hneg. split.
  - intros Hlt. unfold Core.new_simulation.
    destruct (Z.ltb_spec (step_cutoff + 1) 0); [done | lia].
  - intros ->. eexists. split; [reflexivity|]. split; [reflexivity|]. split.
    + intros ev solver1 fuel cutoff Hev.
      match goal with |- Core.execute_step ?s = _ /\ _ =>
        assert (Hstep : Core.execute_step s = Core.HistoryOverrun)
      end.
      { unfold Core.execute_step. rewrite Hev. reflexivity. }
      split; [exact Hstep | now apply execute_steps_overrun].
    + intros solver1 fuel cutoff Hev. eexists.
      rewrite (execute_steps_no_event _ solver1 fuel cutoff Hev).
      split; [reflexivity|]. split; reflexivity.
Qed.

Lemma new_simulation_negative_cutoff_witness :
  exists sim0 : Core.Simulation (list Core.Event)
                  (GMC.ReactionNetwork * GMC.graph),
    Core.new_simulation (dimerization, [GMC.fresh_node; GMC.fresh_node])
      1 (-1) (Double.of_int 10) = Core.Done sim0
    /\ Core.history sim0 = []
    /\ Core.execute_step sim0 = Core.HistoryOverrun.
Proof.
  destruct (new_simulation_negative_cutoff (S := list Core.Event)
              (dimerization, [GMC.fresh_node; GMC.fresh_node])
              1 (-1) (Double.of_int 10) ltac:(lia))
    as [_ Hempty].
  destruct (Hempty eq_refl) as (sim0 & Hnew & Hhist & Hev & _).
  exists sim0. split; [exact Hnew|]. split; [exact Hhist|].
  injection Hnew as <-.
  apply (Hev {| Core.index := 0; Core.dt := Double.of_int 1 |} [] 0%nat 0).
  reflexivity.
Defined.

Section Stoichiometry.
Import GMC Dep.

Lemma occurrences_nil (s : Z) : occurrences s [] = 0.
Proof. reflexivity. Qed.

Lemma occurrences_snoc (s t : Z) (l : list Z) :
  occurrences s (l ++ [t])
  = occurrences s l + (if decide (t = s) then 1 else 0).
Proof.
  unfold occurrences. rewrite filter_app, length_app. cbn.
  destruct (decide (t = s)); cbn; lia.
Qed.

Lemma take_pair_succ (a b : Z) (k s : Z) :
  at2 (a, b) k = Ok s -> 0 <= k ->
  take (Z.to_nat (k + 1)) [a; b] = take (Z.to_nat k) [a; b] ++ [s].
Proof.
  unfold at2. intros Hs Hk. destruct (Z.eqb_spec k 0) as [->|H0].
  - injection Hs as <-. reflexivity.
  - destruct (Z.eqb_spec k 1) as [->|H1]; [|discriminate].
    injection Hs as <-. reflexivity.
Qed.

Lemma occurrences_nonneg (s : Z) (l : list Z) : 0 <= occurrences s l.
Proof. unfold occurrences. lia. Qed.

Lemma occurrences_app (s : Z) (l l' : list Z) :
  occurrences s (l ++ l') = occurrences s l + occurrences s l'.
Proof. unfold occurrences. rewrite filter_app, length_app. lia. Qed.

Lemma occurrences_take_le (s : Z) (k n : nat) (l : list Z) :
  (k <= n)%nat -> occurrences s (take k l) <= occurrences s (take n l).
Proof.
  intros Hk. rewrite <- (take_drop k (take n l)), occurrences_app.
  rewrite take_take, Nat.min_l by done.
  pose proof (occurrences_nonneg s (drop k (take n l))). lia.
Qed.

Lemma occurrences_le_length (s : Z) (l : list Z) :
  occurrences s l <= Z.of_nat (length l).
Proof.
  unfold occurrences. pose proof (length_filter (fun t => t = s) l). lia.
Qed.

Lemma checked_in_range (z : Z) :
  Int.min <= z <= Int.max -> Int.checked z = Ok z.
Proof.
  intros Hz. unfold Int.checked, Int.in_range.
  destruct (Z.leb_spec Int.min z); [|lia].
  destruct (Z.leb_spec z Int.max); [done | lia].
Qed.

(** One of the two loops of [update_state]: every species of the first [n]
    array entries is changed by [d], once per occurrence, when the counts
    stay in the range of [int]. *)
Lemma update_loop_counts (arr : Z * Z) (n d : Z) (x : list Z) :
  0 <= n <= 2 ->
  d = 1 \/ d = -1 ->
  (forall s, s ∈ take (Z.to_nat n) [fst arr; snd arr] ->
             0 <= s < Z.of_nat (length x)) ->
  (forall s v, vget x s = Ok v ->
     Int.min <= v <= Int.max
     /\ Int.min
        <= v + d * occurrences s (take (Z.to_nat n) [fst arr; snd arr])
        <= Int.max) ->
  exists x',
    for_upto n (fun m st => s ← at2 arr m; v ← vget st s;
                            v ← Int.checked (v + d); vset st s v) x
    = Ok x'
    /\ length x' = length x
    /\ forall s v, vget x s = Ok v ->
         vget x' s
         = Ok (v + d * occurrences s (take (Z.to_nat n) [fst arr; snd arr])).
Proof.
  intros Hn Hd Hrange Hint. unfold for_upto.
  destruct (for_loop_total
              (fun k st =>
                 length st = length x
                 /\ forall s v, vget x s = Ok v ->
                      vget st s
                      = Ok (v + d * occurrences s
                                      (take (Z.to_nat k) [fst arr; snd arr])))
              (fun m st => s ← at2 arr m; v ← vget st s;
                           v ← Int.checked (v + d); vset st s v)
              (Z.to_nat n) 0 x) as (x' & Hrun & Hlen & Hval).
  - split; [done|]. intros s v Hv. rewrite Hv. f_equal.
    change (Z.to_nat 0) with 0%nat. rewrite take_0, occurrences_nil. lia.
  - intros k st Hk [Hl Hv]. destruct arr as [a b]. simpl fst in *. simpl snd in *.
    assert (exists s0, at2 (a, b) k = Ok s0) as [s0 Hs0].
    { unfold at2. destruct (Z.eqb_spec k 0); [eauto|].
      destruct (Z.eqb_spec k 1); [eauto | lia]. }
    rewrite Hs0. cbn.
    assert (Hin : s0 ∈ take (Z.to_nat n) [a; b]).
    { apply (at2_in_take (a, b) k n s0 Hs0). lia. }
    specialize (Hrange s0 Hin).
    destruct (vget_in_range x s0) as [w Hw]; [lia|].
    pose proof (Hv s0 w Hw) as Hv0. rewrite Hv0. cbn.
    assert (Hocc : occurrences s0 (take (Z.to_nat (k + 1)) [a; b])
                   = occurrences s0 (take (Z.to_nat k) [a; b]) + 1).
    { rewrite (take_pair_succ a b k s0 Hs0) by lia.
      rewrite occurrences_snoc, decide_True by done. reflexivity. }
    pose proof (occurrences_take_le s0 (Z.to_nat (k + 1)) (Z.to_nat n) [a; b]
                  ltac:(lia)) as Hle.
    pose proof (occurrences_nonneg s0 (take (Z.to_nat k) [a; b])) as Hge.
    destruct (Hint s0 w Hw) as [Hw0 Hw1].
    rewrite checked_in_range by (destruct Hd as [-> | ->]; lia). cbn.
    match goal with
    | |- context [vset st s0 ?z] =>
        assert (Hset : vset st s0 z = Ok (<[Z.to_nat s0 := z]> st))
          by (apply vset_Ok; split; [lia | done])
    end.
    rewrite Hset. eexists. split; [reflexivity|]. split.
    + now rewrite length_insert.
    + intros s v Hsv. rewrite (take_pair_succ a b k s0 Hs0) by lia.
      rewrite occurrences_snoc, vget_insert by lia.
      specialize (Hv s v Hsv).
      destruct (decide (s = s0)) as [->|Hne].
      * rewrite decide_True by done. rewrite Hv0 in Hv. injection Hv as ->.
        f_equal. lia.
      * rewrite decide_False by congruence. rewrite Hv. f_equal. lia.
  - exists x'. replace (0 + Z.of_nat (Z.to_nat n)) with n in Hval by lia.
    auto.
Qed.

Lemma update_state_stoichiometry (net : ReactionNetwork) (x : list Z) (j : Z)
    (r : Reaction) :
  vget (reactions net) j = Ok r ->
  wf_reaction r ->
  (forall s, s ∈ reactant_species r ++ product_species r ->
             0 <= s < Z.of_nat (length x)) ->
  fires_without_overflow r x ->
  exists x',
    update_state net x j = Ok x'
    /\ length x' = length x
    /\ forall s v, vget x s = Ok v ->
         vget x' s
         = Ok (v - occurrences s (reactant_species r)
                 + occurrences s (product_species r)).
Proof.
  intros Hj [Hnr Hnp] Hrange Hint.
  destruct (update_loop_counts (reactants r) (number_of_reactants r) (-1) x Hnr)
    as (x1 & Hrun1 & Hl1 & Hv1); [auto | |  |].
  { intros s Hs. apply Hrange, elem_of_app. now left. }
  { intros s v Hv. destruct (Hint s v Hv) as (H1 & H2 & H3).
    fold (reactant_species r).
    pose proof (occurrences_nonneg s (reactant_species r)). lia. }
  destruct (update_loop_counts (products r) (number_of_products r) 1 x1 Hnp)
    as (x2 & Hrun2 & Hl2 & Hv2); [auto | |  |].
  { intros s Hs. rewrite Hl1. apply Hrange, elem_of_app. now right. }
  { intros s v1 Hv1'.
    destruct (vget_in_range x s) as [v Hv].
    { rewrite <- Hl1. exact (vget_range _ _ _ Hv1'). }
    rewrite (Hv1 s v Hv) in Hv1'. injection Hv1' as <-.
    destruct (Hint s v Hv) as (H1 & H2 & H3).
    fold (reactant_species r). fold (product_species r).
    pose proof (occurrences_nonneg s (reactant_species r)).
    pose proof (occurrences_nonneg s (product_species r)). lia. }
  assert (E1 : for_upto (number_of_reactants r)
                 (fun m st => s ← at2 (reactants r) m; v ← vget st s;
                              v ← Int.checked (v - 1); vset st s v) x
               = Ok x1) by exact Hrun1.
  exists x2. split; [|split; [congruence|]].
  - unfold update_state. rewrite Hj. cbn. rewrite E1. cbn. exact Hrun2.
  - intros s v Hv. rewrite (Hv2 s _ (Hv1 s v Hv)). f_equal.
    unfold reactant_species, product_species. lia.
Qed.

(** Counts two away from the ends of the range of [int] allow every
    reaction with at most two reactants and two products to fire. *)
Lemma counts_with_margin (r : Reaction) (x : list Z) :
  wf_reaction r ->
  Forall (fun v => Int.min + 2 <= v <= Int.max - 2) x ->
  fires_without_overflow r x.
Proof.
  intros [Hnr Hnp] Hx s v [_ Hv]%vget_Ok.
  apply list_elem_of_lookup_2 in Hv.
  pose proof (proj1 (Forall_forall _ _) Hx v Hv) as Hb. cbn beta in Hb.
  pose proof (occurrences_nonneg s (reactant_species r)).
  pose proof (occurrences_nonneg s (product_species r)).
  pose proof (occurrences_le_length s (reactant_species r)) as Hr.
  pose proof (occurrences_le_length s (product_species r)) as Hp.
  unfold reactant_species in Hr at 2. unfold product_species in Hp at 2.
  rewrite length_take in Hr, Hp. cbn [length] in Hr, Hp. lia.
Qed.

Lemma vget_ext (x y : list Z) :
  length x = length y ->
  (forall s v, vget x s = Ok v -> vget y s = Ok v) -> y = x.
Proof.
  intros Hl Hv. apply list_eq. intros i.
  destruct (x !! i) as [v|] eqn:Hx.
  - specialize (Hv (Z.of_nat i) v). rewrite !vget_Ok, Nat2Z.id in Hv.
    apply Hv. split; [lia | done].
  - apply lookup_ge_None in Hx. apply lookup_ge_None. lia.
Qed.
End Stoichiometry.

(** X5.  [ReactionNetwork::update_state] applies the stoichiometry of the
    reaction.  For a reaction with at most two reactants and two products
    whose species are inside the state vector, and a state whose counts do
    not leave the range of [int] while the reaction fires, the call returns
    a state of the same length in which the count of every species [s] is
    lowered by the number of times [s] occurs among the reactants and raised
    by the number of times it occurs among the products. *)
Theorem update_state_applies_stoichiometry (net : GMC.ReactionNetwork)
    (x : list Z) (j : Z) (r : GMC.Reaction) :
  vget (GMC.reactions net) j = Ok r ->
  Dep.wf_reaction r ->
  (forall s, s ∈ Dep.reactant_species r ++ Dep.product_species r ->
             0 <= s < Z.of_nat (length x)) ->
  fires_without_overflow r x ->
  exists x',
    GMC.update_state net x j = Ok x'
    /\ length x' = length x
    /\ forall s v, vget x s = Ok v ->
         vget x' s
         = Ok (v - occurrences s (Dep.reactant_species r)
                 + occurrences s (Dep.product_species r)).
Proof. apply update_state_stoichiometry. Qed.

Lemma update_state_applies_stoichiometry_witness :
  exists x',
    GMC.update_state dimerization [4; 0] 0 = Ok x'
    /\ length x' = length [4; 0]
    /\ forall s v, vget [4; 0] s = Ok v ->
         vget x' s
         = Ok (v - occurrences s [0; 0] + occurrences s [1]).
Proof.
  apply (update_state_applies_stoichiometry dimerization [4; 0] 0
           {| GMC.number_of_reactants := 2; GMC.number_of_products := 1;
              GMC.reactants := (0, 0); GMC.products := (1, -1);
              GMC.rate := Double.of_int 1 ⊘ Double.of_int 2 |}).
  - reflexivity.
  - unfold Dep.wf_reaction. cbn. lia.
  - intros s Hs. change (s ∈ [0; 0; 1]) in Hs.
    rewrite !elem_of_cons, elem_of_nil in Hs. cbn. lia.
  - apply counts_with_margin; [unfold Dep.wf_reaction; cbn; lia|].
    unfold Int.min, Int.max. repeat constructor; lia.
Defined.

(** X6.  Firing a reaction and then its reverse restores the state.  If
    reaction [j'] of the network has the products of reaction [j] as
    reactants and its reactants as products, then [update_state(j)]
    followed by [update_state(j')] returns the state it started from,
    provided no count leaves the range of [int] while [j] fires (none does
    then while [j'] fires). *)
Theorem update_state_reverse_round_trip (net : GMC.ReactionNetwork)
    (x : list Z) (j j' : Z) (r r' : GMC.Reaction) :
  vget (GMC.reactions net) j = Ok r ->
  vget (GMC.reactions net) j' = Ok r' ->
  reverses r r' ->
  Dep.wf_reaction r ->
  (forall s, s ∈ Dep.reactant_species r ++ Dep.product_species r ->
             0 <= s < Z.of_nat (length x)) ->
  fires_without_overflow r x ->
  exists x',
    GMC.update_state net x j = Ok x'
    /\ fires_without_overflow r' x'
    /\ GMC.update_state net x' j' = Ok x.
Proof.
  intros Hj Hj' (Hnr & Hnp & Hr & Hp) Hwf Hrange Hint.
  assert (Hrs : Dep.reactant_species r' = Dep.product_species r)
    by (unfold Dep.reactant_species, Dep.product_species; now rewrite Hnr, Hr).
  assert (Hps : Dep.product_species r' = Dep.reactant_species r)
    by (unfold Dep.reactant_species, Dep.product_species; now rewrite Hnp, Hp).
  destruct (update_state_stoichiometry net x j r Hj Hwf Hrange Hint)
    as (x1 & Hrun1 & Hl1 & Hv1).
  assert (Hint1 : fires_without_overflow r' x1).
  { intros s v1 Hv1'. rewrite Hrs, Hps.
    destruct (vget_in_range x s) as [v Hv].
    { rewrite <- Hl1. exact (vget_range _ _ _ Hv1'). }
    rewrite (Hv1 s v Hv) in Hv1'. injection Hv1' as <-.
    destruct (Hint s v Hv) as (H1 & H2 & H3).
    pose proof (occurrences_nonneg s (Dep.reactant_species r)).
    pose proof (occurrences_nonneg s (Dep.product_species r)). lia. }
  destruct (update_state_stoichiometry net x1 j' r' Hj')
    as (x2 & Hrun2 & Hl2 & Hv2).
  { destruct Hwf. split; [rewrite Hnr | rewrite Hnp]; assumption. }
  { intros s Hs. rewrite Hl1. apply Hrange. rewrite Hrs, Hps in Hs.
    apply elem_of_app in Hs. apply elem_of_app. tauto. }
  { exact Hint1. }
  exists x1. split; [exact Hrun1|]. split; [exact Hint1|].
  rewrite Hrun2. f_equal.
  apply vget_ext; [congruence|].
  intros s v Hv. rewrite (Hv2 s _ (Hv1 s v Hv)), Hrs, Hps. f_equal. lia.
Qed.

Lemma update_state_reverse_round_trip_witness :
  exists x',
    GMC.update_state dimerization [4; 0] 0 = Ok x'
    /\ fires_without_overflow
         {| GMC.number_of_reactants := 1; GMC.number_of_products := 2;
            GMC.reactants := (1, -1); GMC.products := (0, 0);
            GMC.rate := Double.of_int 1 ⊘ Double.of_int 10 |} x'
    /\ GMC.update_state dimerization x' 1 = Ok [4; 0].
Proof.
  apply (update_state_reverse_round_trip dimerization [4; 0] 0 1
           {| GMC.number_of_reactants := 2; GMC.number_of_products := 1;
              GMC.reactants := (0, 0); GMC.products := (1, -1);
              GMC.rate := Double.of_int 1 ⊘ Double.of_int 2 |}
           {| GMC.number_of_reactants := 1; GMC.number_of_products := 2;
              GMC.reactants := (1, -1); GMC.products := (0, 0);
              GMC.rate := Double.of_int 1 ⊘ Double.of_int 10 |}).
  - reflexivity.
  - reflexivity.
  - unfold reverses. cbn. auto.
  - unfold Dep.wf_reaction. cbn. lia.
  - intros s Hs. change (s ∈ [0; 0; 1]) in Hs.
    rewrite !elem_of_cons, elem_of_nil in Hs. cbn. lia.
  - apply counts_with_margin; [unfold Dep.wf_reaction; cbn; lia|].
    unfold Int.min, Int.max. repeat constructor; lia.
Defined.

Section Survivors.

Lemma survivors_app (h : Z -> bool) (l1 l2 : list Reaction.t) : forall k,
  survivors h k (l1 ++ l2)
  = survivors h k l1 ++ survivors h (k + Z.of_nat (length l1)) l2.
Proof.
  induction l1 as [|r l1 IH]; intros k; simpl.
  - now rewrite Z.add_0_r.
  - rewrite IH. replace (k + 1 + Z.of_nat (length l1))
      with (k + Z.pos (Pos.of_succ_nat (length l1))) by lia.
    now destruct (h k).
Qed.

Lemma survivors_ext (h h' : Z -> bool) (l : list Reaction.t) : forall k,
  (forall i, k <= i < k + Z.of_nat (length l) -> h i = h' i) ->
  survivors h k l = survivors h' k l.
Proof.
  induction l as [|r l IH]; intros k Hext; simpl; [done|].
  rewrite (Hext k) by (simpl; lia).
  rewrite (IH (k + 1)); [done|]. intros i Hi. apply Hext. simpl. lia.
Qed.

Lemma survivors_none (h : Z -> bool) (l : list Reaction.t) : forall k,
  (forall i, k <= i < k + Z.of_nat (length l) -> h i = false) ->
  survivors h k l = l.
Proof.
  induction l as [|r l IH]; intros k Hh; simpl; [done|].
  rewrite (Hh k) by (simpl; lia).
  rewrite (IH (k + 1)); [done|]. intros i Hi. apply Hh. simpl. lia.
Qed.

Lemma survivors_all (h : Z -> bool) (l : list Reaction.t) : forall k,
  (forall i, k <= i < k + Z.of_nat (length l) -> h i = true) ->
  survivors h k l = [].
Proof.
  induction l as [|r l IH]; intros k Hh; simpl; [done|].
  rewrite (Hh k) by (simpl; lia).
  apply IH. intros i Hi. apply Hh. simpl. lia.
Qed.

(** The survivors of a list around its slot [d]. *)
Lemma survivors_split (h : Z -> bool) (l : list Reaction.t) (d : Z)
    (x : Reaction.t) :
  vget l d = Ok x ->
  survivors h 0 l
  = survivors h 0 (take (Z.to_nat d) l)
    ++ (if h d then [] else [x])
    ++ survivors h (d + 1) (drop (S (Z.to_nat d)) l).
Proof.
  intros [Hd Hx]%vget_Ok.
  rewrite <- (take_drop_middle l (Z.to_nat d) x Hx) at 1.
  pose proof (lookup_lt_Some _ _ _ Hx) as Hlt.
  rewrite survivors_app, length_take, Nat.min_l by lia. simpl.
  replace (0 + Z.of_nat (Z.to_nat d)) with d by lia.
  now destruct (h d).
Qed.

Lemma survivors_split_insert (h : Z -> bool) (l : list Reaction.t) (d : Z)
    (r : Reaction.t) :
  0 <= d < Z.of_nat (length l) ->
  survivors h 0 (<[Z.to_nat d := r]> l)
  = survivors h 0 (take (Z.to_nat d) l)
    ++ (if h d then [] else [r])
    ++ survivors h (d + 1) (drop (S (Z.to_nat d)) l).
Proof.
  intros Hd.
  rewrite (survivors_split h (<[Z.to_nat d := r]> l) d r).
  - rewrite take_insert_ge by lia. rewrite drop_insert_lt by lia. done.
  - rewrite vget_insert by done. now rewrite decide_True.
Qed.

(** The survivors when the holes are the slots of the reactions with
    property [Q]. *)
Lemma survivors_filter (h : Z -> bool) (Q : Reaction.t -> Prop)
    `{forall r, Decision (Q r)} (l : list Reaction.t) : forall k,
  (forall j r, l !! j = Some r -> (h (k + Z.of_nat j) = true <-> Q r)) ->
  survivors h k l = filter (fun r => ~ Q r) l.
Proof.
  induction l as [|r l IH]; intros k Hh; simpl; [done|].
  pose proof (Hh 0%nat r eq_refl) as H0. rewrite Z.add_0_r in H0.
  rewrite (IH (k + 1)).
  2:{ intros j r' Hj. rewrite <- (Hh (S j) r' Hj). f_equiv. f_equal. lia. }
  destruct (h k) eqn:Hk.
  - rewrite filter_cons_False; [done|]. intros Hn. apply Hn, H0. done.
  - rewrite filter_cons_True; [done|]. intros HQ. apply H0 in HQ. congruence.
Qed.

Lemma survivors_take (h : Z -> bool) (l : list Reaction.t) (t : Z) :
  0 <= t <= Z.of_nat (length l) ->
  (forall i, 0 <= i < Z.of_nat (length l) -> (h i = true <-> t <= i)) ->
  survivors h 0 l = take (Z.to_nat t) l.
Proof.
  intros Ht Hh. rewrite <- (take_drop (Z.to_nat t) l) at 1.
  rewrite survivors_app, length_take, Nat.min_l by lia.
  rewrite survivors_none, survivors_all; [now rewrite app_nil_r| |].
  - intros i Hi. rewrite length_drop in Hi. apply Hh; lia.
  - intros i Hi. rewrite length_take, Nat.min_l in Hi by lia.
    destruct (h i) eqn:Hhi; [|done]. apply Hh in Hhi; lia.
Qed.

Lemma content_ext (H H' : Z -> Prop) (crs live : list Reaction.t) :
  (forall i, 0 <= i < Z.of_nat (length crs) -> (H i <-> H' i)) ->
  content H crs live -> content H' crs live.
Proof.
  intros Hext (hb & Hhb & Hperm). exists hb. split; [|done].
  intros i Hi. rewrite (Hhb i Hi). auto.
Qed.

(** A hole is filled. *)
Lemma content_fill (H : Z -> Prop) (crs live : list Reaction.t) (d : Z)
    (r : Reaction.t) :
  content H crs live -> H d -> 0 <= d < Z.of_nat (length crs) ->
  content (fun i => H i /\ i <> d) (<[Z.to_nat d := r]> crs) (live ++ [r]).
Proof.
  intros (hb & Hhb & Hperm) Hd Hr.
  exists (fun i => hb i && negb (i =? d)). split.
  - intros i Hi. rewrite length_insert in Hi.
    rewrite andb_true_iff, negb_true_iff, Z.eqb_neq, (Hhb i Hi). done.
  - destruct (vget_in_range crs d Hr) as [x Hx].
    rewrite survivors_split_insert by done.
    rewrite Z.eqb_refl, andb_false_r.
    rewrite <- Hperm, (survivors_split hb crs d x Hx).
    rewrite (proj2 (Hhb d Hr) Hd).
    rewrite (survivors_ext _ hb (take _ _) 0).
    2:{ intros i Hi. rewrite length_take in Hi.
        destruct (Z.eqb_spec i d); [lia|]. now rewrite andb_true_r. }
    rewrite (survivors_ext _ hb (drop _ _) (d + 1)).
    2:{ intros i Hi. destruct (Z.eqb_spec i d); [lia|]. now rewrite andb_true_r. }
    simpl. rewrite <- Permutation_middle. apply Permutation_cons_append.
Qed.

(** A live slot becomes a hole. *)
Lemma content_remove (H : Z -> Prop) (crs live : list Reaction.t) (h : Z)
    (r : Reaction.t) :
  content H crs (live ++ [r]) -> ~ H h -> vget crs h = Ok r ->
  content (fun i => H i \/ i = h) crs live.
Proof.
  intros (hb & Hhb & Hperm) Hh Hr. pose proof (vget_range _ _ _ Hr) as Hrange.
  exists (fun i => hb i || (i =? h)). split.
  - intros i Hi. rewrite orb_true_iff, Z.eqb_eq, (Hhb i Hi). done.
  - rewrite (survivors_split hb crs h r Hr) in Hperm.
    assert (hb h = false) as Hf.
    { destruct (hb h) eqn:E; [|done]. apply (Hhb h Hrange) in E. done. }
    rewrite Hf in Hperm.
    rewrite (survivors_split _ crs h r Hr), Z.eqb_refl, orb_true_r.
    rewrite (survivors_ext _ hb (take _ _) 0).
    2:{ intros i Hi. rewrite length_take in Hi.
        destruct (Z.eqb_spec i h); [lia|]. now rewrite orb_false_r. }
    rewrite (survivors_ext _ hb (drop _ _) (h + 1)).
    2:{ intros i Hi. destruct (Z.eqb_spec i h); [lia|]. now rewrite orb_false_r. }
    simpl in *. rewrite <- Permutation_middle in Hperm.
    apply (Permutation_cons_inv (a := r)).
    rewrite Hperm. rewrite Permutation_app_comm. done.
Qed.

(** A live reaction is moved into a hole. *)
Lemma content_move (H : Z -> Prop) (crs live : list Reaction.t) (h d : Z)
    (r : Reaction.t) :
  content H crs live -> ~ H h -> H d -> vget crs h = Ok r ->
  0 <= d < Z.of_nat (length crs) ->
  content (fun i => (H i /\ i <> d) \/ i = h) (<[Z.to_nat d := r]> crs) live.
Proof.
  intros Hc Hh Hd Hr Hrange.
  assert (h <> d) as Hne by (intros ->; done).
  apply (content_remove (fun i => H i /\ i <> d) _ live h r).
  - now apply content_fill.
  - tauto.
  - rewrite vget_insert by done. now rewrite decide_False.
Qed.

(** A reaction is appended. *)
Lemma content_append (H : Z -> Prop) (crs live : list Reaction.t)
    (r : Reaction.t) :
  content H crs live -> ~ H (Z.of_nat (length crs)) ->
  content H (crs ++ [r]) (live ++ [r]).
Proof.
  intros (hb & Hhb & Hperm) Hn.
  exists (fun i => hb i && (i <? Z.of_nat (length crs))). split.
  - intros i Hi. rewrite length_app in Hi. simpl in Hi.
    rewrite andb_true_iff, Z.ltb_lt.
    destruct (decide (i = Z.of_nat (length crs))) as [->|Hne].
    + split; [lia | done].
    + rewrite (Hhb i) by lia. split; [tauto | intros; split; [done | lia]].
  - rewrite survivors_app. simpl. rewrite Z.ltb_irrefl, andb_false_r.
    rewrite (survivors_ext _ hb crs 0).
    2:{ intros i Hi. destruct (Z.ltb_spec i (Z.of_nat (length crs))); [|lia].
        now rewrite andb_true_r. }
    now rewrite Hperm.
Qed.
End Survivors.

Section ContentOfUpdate.
Import NPMC.

Lemma content_collected (crs : list Reaction.t) (fired : Reaction.t)
    (R : list Z) :
  (forall i, i ∈ R <-> slot_touched crs fired i) ->
  content (fun i => i ∈ R) crs (filter (fun r => ~ touches fired r) crs).
Proof.
  intros HR. exists (fun i => bool_decide (i ∈ R)). split.
  - intros i _. apply bool_decide_eq_true.
  - rewrite (survivors_filter _ (touches fired)); [done|].
    intros j r Hj. rewrite Z.add_0_l, bool_decide_eq_true, HR.
    unfold slot_touched. split.
    + intros (r' & Hr' & Ht). apply vget_Ok in Hr' as [_ Hr'].
      rewrite Nat2Z.id in Hr'. congruence.
    + intros Ht. exists r. split; [|done]. apply vget_Ok.
      rewrite Nat2Z.id. split; [lia | done].
Qed.

Lemma place_new_reactions_content (news : list Reaction.t) :
  forall i n (H : list Z) deps crs H' deps' crs' live,
  place_new_reactions i n news H deps crs = Ok (H', deps', crs') ->
  StronglySorted Z.lt H ->
  (forall d, d ∈ H -> 0 <= d < Z.of_nat (length crs)) ->
  Z.of_nat (length H) = Z.max 0 (n - i) ->
  content (fun j => j ∈ H) crs live ->
  content (fun j => j ∈ H') crs' (live ++ news).
Proof.
  induction news as [|r rest IH]; intros i n H deps crs H' deps' crs' live;
    simpl.
  - intros [= <- <- <-] _ _ _ Hc. now rewrite app_nil_r.
  - replace (live ++ r :: rest) with ((live ++ [r]) ++ rest)
      by (now rewrite <- app_assoc).
    destruct (Z.ltb_spec i n) as [Hlt|Hge].
    + destruct H as [|slot H1]; [discriminate|].
      destruct (vset crs slot r) as [crs1|] eqn:Hset; cbn; [|discriminate].
      destruct (register deps r slot) as [deps1|] eqn:Hreg; cbn;
        [|discriminate].
      intros Hrun Hs Hr Hlen Hc.
      apply vset_Ok in Hset as [Hslot ->].
      apply (IH (i + 1) n H1 deps1 _ H' deps' crs' (live ++ [r]) Hrun).
      * now apply StronglySorted_cons in Hs as [_ Hs].
      * intros d Hd. rewrite length_insert. apply Hr. now right.
      * simpl in Hlen. lia.
      * pose proof (sorted_head_not_in _ _ Hs) as Hnot.
        eapply content_ext;
          [|apply (content_fill _ _ _ slot r Hc); [left | lia]].
        intros j _. cbn. rewrite elem_of_cons. split.
        -- intros [[->|Hj] Hne]; done.
        -- intros Hj. split; [now right|]. intros ->. done.
    + destruct (register deps r _) as [deps1|] eqn:Hreg; cbn; [|discriminate].
      intros Hrun Hs Hr Hlen Hc.
      assert (H = []) as -> by (destruct H; [done | simpl in Hlen; lia]).
      apply (IH (i + 1) n [] deps1 _ H' deps' crs' (live ++ [r]) Hrun).
      * constructor.
      * intros d Hd. inversion Hd.
      * simpl. lia.
      * apply content_append; [done|]. intros Hin. inversion Hin.
Qed.
End ContentOfUpdate.

Section MovingContent.
Import NPMC.
Variable R : list Z.
Variable len : nat.
Hypothesis HsR : StronglySorted Z.lt R.
Hypothesis HrR : forall d, d ∈ R -> 0 <= d < Z.of_nat len.

Local Abbreviation n := (Z.of_nat (length R)).
Local Abbreviation t := (Z.of_nat len - Z.of_nat (length R)).

Lemma move_reactions_content (fuel : nat) :
  forall (filled itr : list Z) (idx : Z) (deps : list IntSet.t)
         (crs : list Reaction.t) deps' crs' (live : list Reaction.t),
  R = filled ++ itr ->
  length crs = len ->
  -1 <= idx < Z.of_nat len ->
  count_le R idx = Z.of_nat (length filled) + idx + 1 - t ->
  (forall d, d ∈ filled -> d < t) ->
  (forall i, idx < i < Z.of_nat len -> i ∉ R -> t <= i) ->
  content (fun i => i ∈ itr \/ (idx < i /\ i ∉ R)) crs live ->
  move_reactions fuel n (Z.of_nat (length filled)) idx R itr deps crs
  = Ok (deps', crs') ->
  length crs' = len /\ content (fun i => t <= i) crs' live.
Proof.
  induction fuel as [|fuel IH];
    intros filled itr idx deps crs deps' crs' live HR Hlen Hidx Hcount
           Hfilled Hvac Hc;
    assert (HlenR : length R = (length filled + length itr)%nat)
      by (rewrite HR, length_app; done);
    simpl; destruct (Z.ltb_spec (Z.of_nat (length filled)) n) as [Hj|Hj];
    try discriminate.
  1,3: assert (itr = []) as ->
         by (destruct itr; [done | simpl in HlenR; lia]);
       intros [= <- <-]; split; [done|];
       eapply content_ext; [|exact Hc]; rewrite Hlen;
       apply (holes_at_exit R len HsR filled [] idx); auto.
  destruct (IntSet.mem idx R) eqn:Hmem.
  - apply mem_elem in Hmem. pose proof (HrR idx Hmem) as Hr.
    apply (IH filled itr (idx - 1) deps crs deps' crs' live); try done;
      try lia.
    + rewrite (count_le_pred R idx HsR), decide_True by done. lia.
    + intros i Hi Hn. apply Hvac; [|done].
      assert (i <> idx) by (intros ->; done). lia.
    + eapply content_ext; [|exact Hc]. intros i _.
      split; (intros [?|[? ?]]; [auto|right; split; [|done]]); [lia|].
      assert (i <> idx) by (intros ->; done). lia.
  - assert (Hnot : idx ∉ R).
    { intros Hin%mem_elem. congruence. }
    destruct itr as [|d itr']; [simpl in HlenR; lia|].
    assert (Hl : R !! length filled = Some d).
    { rewrite HR, lookup_app_r, Nat.sub_diag by lia. done. }
    assert (HdR : d ∈ R) by (eapply list_elem_of_lookup_2, Hl).
    pose proof (HrR d HdR) as Hdr.
    destruct (Z.ltb_spec idx d) as [Hlt|Hge].
    + intros [= <- <-]. split; [done|].
      eapply content_ext; [|exact Hc]. rewrite Hlen.
      apply (holes_at_exit R len HsR filled (d :: itr') idx); auto.
      right. split; [done|]. eauto.
    + assert (Hne : idx <> d) by (intros ->; done).
      destruct (vget crs idx) as [r|] eqn:Hr; cbn; [|discriminate].
      destruct (vset crs d r) as [crs1|] eqn:Hset; cbn; [|discriminate].
      apply vset_Ok in Hset as [_ ->].
      destruct (remap deps r idx d) as [deps1|] eqn:Hremap; cbn;
        [|discriminate].
      assert (Hlive : ~ (idx ∈ d :: itr' \/ (idx < idx /\ idx ∉ R))).
      { intros [Hin | [? _]]; [|lia]. apply Hnot. rewrite HR.
        apply elem_of_app. now right. }
      assert (Hsd : StronglySorted Z.lt (d :: itr')).
      { rewrite HR in HsR. now apply StronglySorted_app_1_r in HsR. }
      pose proof (sorted_head_not_in _ _ Hsd) as Hdn.
      assert (Hidxt : t <= idx).
      { pose proof (count_le_lookup_le R _ d idx HsR Hl ltac:(lia)). lia. }
      assert (Hdt : d < t).
      { pose proof (count_le_pred R idx HsR) as Hp.
        rewrite decide_False in Hp by done.
        pose proof (count_le_lookup_gt R _ d (d - 1) HsR Hl ltac:(lia)).
        pose proof (count_le_interval R (d - 1) (idx - 1) HsR ltac:(lia)). lia. }
      intros Hrun.
      replace (Z.of_nat (length filled) + 1)
        with (Z.of_nat (length (filled ++ [d]))) in Hrun
        by (rewrite length_app; simpl; lia).
      apply (IH (filled ++ [d]) itr' (idx - 1) deps1 _ deps' crs' live)
        in Hrun; [exact Hrun | | | | | | |].
      * rewrite HR, <- app_assoc. done.
      * now rewrite length_insert.
      * lia.
      * rewrite (count_le_pred R idx HsR), decide_False by done.
        rewrite length_app. simpl. lia.
      * intros e [He | ->%list_elem_of_singleton]%elem_of_app; auto.
      * intros i Hi Hn. destruct (decide (i = idx)) as [->|]; [done|].
        apply Hvac; [lia | done].
      * eapply content_ext;
          [|eapply (content_move _ crs live idx d r Hc Hlive);
            [left; apply list_elem_of_here | exact Hr | lia]].
        intros i _. cbn. rewrite elem_of_cons. split.
        -- intros [[[[->|?]|[? ?]] ?] | ->]; [done|auto| |].
           ++ right. split; [lia|done].
           ++ right. split; [lia|done].
        -- intros [Hi | [Hi Hn]].
           ++ left. split; [auto|]. intros ->. done.
           ++ destruct (decide (i = idx)) as [->|]; [now right|].
              left. split; [right; split; [lia|done]|]. intros ->. done.
Qed.
End MovingContent.

Section ContentOfCompaction.
Import NPMC.

Lemma content_take (t : Z) (crs live : list Reaction.t) :
  0 <= t <= Z.of_nat (length crs) ->
  content (fun i => t <= i) crs live -> take (Z.to_nat t) crs ≡ₚ live.
Proof.
  intros Ht (hb & Hhb & Hperm). now rewrite <- (survivors_take hb crs t Ht Hhb).
Qed.

Lemma content_full (crs live : list Reaction.t) :
  content (fun i => i ∈ @nil Z) crs live -> crs ≡ₚ live.
Proof.
  intros (hb & Hhb & Hperm). rewrite <- Hperm, survivors_none; [done|].
  intros i Hi. destruct (hb i) eqn:E; [|done].
  apply Hhb in E; [inversion E | lia].
Qed.

(** The compaction neither loses nor duplicates a reaction. *)
Lemma replace_reactions_content news fired deps crs deps' crs' :
  quiescent deps crs ->
  grounded (Z.of_nat (length deps)) fired ->
  Forall (grounded (Z.of_nat (length deps))) news ->
  replace_reactions news fired deps crs = Ok (deps', crs') ->
  crs' ≡ₚ filter (fun r => ~ touches fired r) crs ++ news.
Proof.
  intros Hq Hfired Hnews. unfold replace_reactions.
  destruct (collect_removals_spec crs deps fired Hq Hfired)
    as (R & deps1 & -> & Hl1 & HsR & Hind1 & HR). cbn -[move_reactions].
  assert (HrR : forall d, d ∈ R -> 0 <= d < Z.of_nat (length crs)).
  { intros d (r & Hr & _)%HR. eapply vget_range, Hr. }
  pose proof (content_collected crs fired R HR) as Hc1.
  destruct (place_new_reactions_spec news 0 (IntSet.size R) R deps1 crs)
    as (deps2 & crs2 & Hplace & Hind2 & Hl2 & Hlen2); auto.
  { now rewrite Hl1. }
  { unfold IntSet.size. lia. }
  rewrite Hplace. cbn -[move_reactions]. unfold IntSet.size.
  pose proof (place_new_reactions_content news 0 (IntSet.size R) R deps1 crs
                _ _ _ _ Hplace HsR HrR ltac:(unfold IntSet.size; lia) Hc1)
    as Hc2.
  set (R' := drop (length news) R) in *.
  assert (HlR' : Z.of_nat (length R')
                 = Z.max 0 (Z.of_nat (length R) - Z.of_nat (length news))).
  { unfold R'. rewrite length_drop. lia. }
  destruct (Z.ltb_spec 0 (Z.of_nat (length R'))) as [Hpos|Hzero].
  - assert (HsR' : StronglySorted Z.lt R') by now apply StronglySorted_drop.
    assert (HrR' : forall d, d ∈ R' -> 0 <= d < Z.of_nat (length crs2)).
    { intros d Hd. unfold R' in Hd.
      assert (d ∈ R) as HdR.
      { rewrite <- (take_drop (length news) R). apply elem_of_app. now right. }
      specialize (HrR d HdR). lia. }
    pose proof (sorted_length_le R' _ HsR' HrR') as HleR'.
    destruct (move_reactions (S (length crs2)) (Z.of_nat (length R')) 0
                (Z.of_nat (length crs2) - 1) R' R' deps2 crs2)
      as [[deps3 crs3]|] eqn:Hrun; cbn; [|discriminate].
    intros [= <- <-].
    destruct (move_reactions_content R' (length crs2) HsR' HrR'
                (S (length crs2)) [] R' (Z.of_nat (length crs2) - 1)
                deps2 crs2 deps3 crs3
                (filter (fun r => ~ touches fired r) crs ++ news))
      as (Hl3 & Hc3); try done; try lia.
    + rewrite count_le_all; [simpl; lia|].
      intros d Hd. specialize (HrR' d Hd). lia.
    + intros d Hd. inversion Hd.
    + eapply content_ext; [|exact Hc2]. intros i Hi. cbn.
      split; [auto | intros [?|[? ?]]; [done | lia]].
    + apply content_take; [lia|]. rewrite Hl3. exact Hc3.
  - assert (R' = []) as HR' by (destruct R'; [done | simpl in Hzero; lia]).
    rewrite HR' in *. intros [= <- <-]. now apply content_full.
Qed.
End ContentOfCompaction.

(** X7.  [update_reactions] neither loses nor duplicates a reaction.  Under
    the conditions of the index invariant (consistent index, fired reaction
    among the current reactions, generation of the new reactions [news]
    inside the lookup tensors), the reactions after the call are, up to
    their order, the reactions that had no site in common with the fired
    reaction, each as often as before, followed by the new reactions. *)
Theorem update_reactions_keeps_untouched (m : NPMC.NanoParticle)
    (state : list Z) (deps : list IntSet.t) (crs : list Reaction.t)
    (fired : Reaction.t) (news : list Reaction.t) :
  wf_model m ->
  length deps = length (NPMC.sites m) ->
  quiescent deps crs ->
  fired ∈ crs ->
  NPMC.compute_new_reactions m state fired = Ok news ->
  exists deps' crs',
    NPMC.update_reactions m state deps crs fired = Ok (deps', crs')
    /\ crs' ≡ₚ filter (fun r => ~ touches fired r) crs ++ news.
Proof.
  intros Hwf Hlen Hq Hfired Hnews.
  assert (Hg : grounded (Z.of_nat (length deps)) fired).
  { apply (proj1 (list.Forall_forall _ _) (quiescent_grounded _ _ Hq)), Hfired. }
  assert (Hgn : Forall (grounded (Z.of_nat (length deps))) news).
  { rewrite Hlen. apply (compute_new_reactions_grounded m Hwf state fired).
    - rewrite <- Hlen. exact Hg.
    - exact Hnews. }
  destruct (replace_reactions_spec news fired deps crs Hq Hg Hgn)
    as (removed & deps' & crs' & Hrun & _).
  exists deps', crs'. unfold NPMC.update_reactions. rewrite Hnews.
  split; [exact Hrun|].
  exact (replace_reactions_content news fired deps crs deps' crs' Hq Hg Hgn Hrun).
Qed.

Lemma update_reactions_keeps_untouched_witness :
  exists deps' crs',
    NPMC.update_reactions relay [0; 0] relay_dependency relay_reactions
      (NPMC.one_site_reaction relay_loaded 0 relax) = Ok (deps', crs')
    /\ crs' ≡ₚ filter (fun r => ~ touches
                                   (NPMC.one_site_reaction relay_loaded 0 relax) r)
                      relay_reactions
               ++ [NPMC.one_site_reaction relay_loaded 0 excite].
Proof.
  apply (update_reactions_keeps_untouched relay [0; 0] relay_dependency
           relay_reactions (NPMC.one_site_reaction relay_loaded 0 relax)
           [NPMC.one_site_reaction relay_loaded 0 excite]).
  - exact relay_wf.
  - reflexivity.
  - exact relay_quiescent.
  - left.
  - reflexivity.
Defined.

Section Applicable.
Import NPMC.

Lemma at2_0 {A} (a : A * A) : at2 a 0 = Ok (fst a).
Proof. reflexivity. Qed.

Lemma at2_1 {A} (a : A * A) : at2 a 1 = Ok (snd a).
Proof. reflexivity. Qed.

(** [update_state] on a reaction that can fire: no interrupt, the sites of
    the reaction take their right states, the other sites keep theirs. *)
Lemma update_state_applicable (state : list Z) (r : Reaction.t) :
  grounded (Z.of_nat (length state)) r ->
  applicable state r ->
  exists state',
    update_state state r = (state', Ok tt)
    /\ length state' = length state
    /\ fired_in state' r
    /\ (forall s, s ∉ sites_of r -> vget state' s = vget state s).
Proof.
  intros Hg Happ. unfold update_state.
  destruct (grounded_cases _ _ Hg)
    as [(Hn & Hs & Ha) | (Hn & Hs & Hab & Ha & Hb)].
  - pose proof (Happ 0 _ ltac:(lia) (at2_0 _)) as H0. rewrite at2_0 in H0.
    rewrite Hn. small_nat. cbn. rewrite H0. cbn. rewrite Z.eqb_refl.
    assert (Hset : vset state (fst (Reaction.site_id r))
                     (fst (Interaction.right_state (Reaction.interaction r)))
                   = Ok (<[Z.to_nat (fst (Reaction.site_id r)) :=
                             fst (Interaction.right_state (Reaction.interaction r))]>
                         state))
      by (apply vset_Ok; split; [lia | done]).
    rewrite Hset. eexists. split; [reflexivity|]. split; [apply length_insert|].
    split.
    + intros k site Hk Hsite. rewrite Hn in Hk. assert (k = 0) as -> by lia.
      rewrite at2_0 in *. injection Hsite as <-.
      rewrite vget_insert by done. now rewrite decide_True.
    + intros s Hnot. rewrite Hs, list_elem_of_singleton in Hnot.
      rewrite vget_insert by done. now rewrite decide_False.
  - pose proof (Happ 0 _ ltac:(lia) (at2_0 _)) as H0. rewrite at2_0 in H0.
    pose proof (Happ 1 _ ltac:(lia) (at2_1 _)) as H1. rewrite at2_1 in H1.
    rewrite Hn. small_nat. cbn. rewrite H0. cbn. rewrite Z.eqb_refl.
    assert (Hset0 : vset state (fst (Reaction.site_id r))
                      (fst (Interaction.right_state (Reaction.interaction r)))
                    = Ok (<[Z.to_nat (fst (Reaction.site_id r)) :=
                              fst (Interaction.right_state (Reaction.interaction r))]>
                          state))
      by (apply vset_Ok; split; [lia | done]).
    rewrite Hset0. small_nat. cbn.
    rewrite vget_insert by done. rewrite decide_False by congruence.
    rewrite H1. cbn. rewrite Z.eqb_refl.
    match goal with |- context [vset ?v ?i ?x] =>
      assert (Hset1 : vset v i x = Ok (<[Z.to_nat i := x]> v))
        by (apply vset_Ok; rewrite length_insert; split; [lia | done])
    end.
    rewrite Hset1. eexists. split; [reflexivity|].
    split; [now rewrite !length_insert|]. split.
    + intros k site Hk Hsite. rewrite Hn in Hk.
      assert (k = 0 \/ k = 1) as [-> | ->] by lia.
      * rewrite at2_0 in *. injection Hsite as <-.
        rewrite vget_insert by (rewrite length_insert; lia).
        rewrite decide_False by done.
        rewrite vget_insert by done. now rewrite decide_True.
      * rewrite at2_1 in *. injection Hsite as <-.
        rewrite vget_insert by (rewrite length_insert; lia).
        now rewrite decide_True.
    + intros s Hnot. rewrite Hs, !elem_of_cons, elem_of_nil in Hnot.
      rewrite vget_insert by (rewrite length_insert; lia).
      rewrite decide_False by tauto.
      rewrite vget_insert by done. rewrite decide_False by tauto. done.
Qed.

(** A reaction that can fire and has no site of the fired reaction can
    still fire afterwards. *)
Lemma applicable_untouched (state state' : list Z) (fired r : Reaction.t) :
  (forall s, s ∉ sites_of fired -> vget state' s = vget state s) ->
  applicable state r -> ~ touches fired r -> applicable state' r.
Proof.
  intros Hframe Happ Hnot k site Hk Hsite.
  rewrite <- (Happ k site Hk Hsite). apply Hframe. intros Hin.
  apply Hnot. exists site. split; [done|].
  eapply at2_in_take; [exact Hsite | done].
Qed.
End Applicable.

Section GeneratedApplicable.
Import NPMC.
Variable m : NanoParticle.
Hypothesis Hone :
  forall species state cell i,
    one_site_lookup (one_site_interactions_map m) species state = Ok cell ->
    i ∈ cell ->
    Interaction.number_of_sites i = 1 /\ one_site_key i = (species, state).
Hypothesis Htwo :
  forall species_a species_b state_a state_b cell i,
    two_site_lookup (two_site_interactions_map m)
      species_a species_b state_a state_b = Ok cell ->
    i ∈ cell ->
    Interaction.number_of_sites i = 2
    /\ two_site_key i = (species_a, species_b, state_a, state_b).

Lemma one_site_reaction_applicable (state : list Z) (s st : Z)
    (i : Interaction.t) :
  vget state s = Ok st ->
  Interaction.number_of_sites i = 1 ->
  fst (Interaction.left_state i) = st ->
  applicable state (one_site_reaction m s i).
Proof.
  intros Hs Hn Hl k site Hk Hsite. cbn in *. rewrite Hn in Hk.
  assert (k = 0) as -> by lia. rewrite at2_0 in *. cbn in Hsite.
  injection Hsite as <-. now rewrite Hs, Hl.
Qed.

Lemma two_site_reaction_applicable (state : list Z) (a b sta stb : Z)
    (distance : double) (i : Interaction.t) :
  vget state a = Ok sta -> vget state b = Ok stb ->
  Interaction.number_of_sites i = 2 ->
  Interaction.left_state i = (sta, stb) ->
  applicable state (two_site_reaction m a b distance i).
Proof.
  intros Ha Hb Hn Hl k site Hk Hsite. cbn in *. rewrite Hn in Hk.
  assert (k = 0 \/ k = 1) as [-> | ->] by lia.
  - rewrite at2_0 in *. cbn in Hsite. injection Hsite as <-.
    now rewrite Ha, Hl.
  - rewrite at2_1 in *. cbn in Hsite. injection Hsite as <-.
    now rewrite Hb, Hl.
Qed.

Lemma two_site_key_left (i : Interaction.t) (spa spb sta stb : Z) :
  two_site_key i = (spa, spb, sta, stb) ->
  Interaction.left_state i = (sta, stb).
Proof.
  unfold two_site_key. destruct (Interaction.left_state i). cbn. congruence.
Qed.

Lemma one_site_cell_applicable (state : list Z) (s st sp : Z) cell :
  vget state s = Ok st ->
  one_site_lookup (one_site_interactions_map m) sp st = Ok cell ->
  Forall (applicable state) (map (one_site_reaction m s) cell).
Proof.
  intros Hs Hc. apply Forall_map, list.Forall_forall. intros i Hi.
  destruct (Hone _ _ _ _ Hc Hi) as [Hn Hk].
  apply (one_site_reaction_applicable state s st i Hs Hn).
  unfold one_site_key in Hk. congruence.
Qed.

Lemma two_site_cell_applicable (state : list Z) (a b sta stb spa spb : Z)
    (distance : double) cell :
  vget state a = Ok sta -> vget state b = Ok stb ->
  two_site_lookup (two_site_interactions_map m) spa spb sta stb = Ok cell ->
  Forall (applicable state) (map (two_site_reaction m a b distance) cell).
Proof.
  intros Ha Hb Hc. apply Forall_map, list.Forall_forall. intros i Hi.
  destruct (Htwo _ _ _ _ _ _ Hc Hi) as [Hn Hk].
  apply (two_site_reaction_applicable state a b sta stb distance i Ha Hb Hn).
  eapply two_site_key_left, Hk.
Qed.

Lemma new_reactions_of_site_applicable state fired k acc acc' :
  fired_in state fired ->
  0 <= k < Interaction.number_of_sites (Reaction.interaction fired) ->
  Forall (applicable state) acc ->
  new_reactions_of_site m state fired k acc = Ok acc' ->
  Forall (applicable state) acc'.
Proof.
  intros Hfired Hk Hacc. unfold new_reactions_of_site.
  destruct (at2 (Reaction.site_id fired) k) as [site_id_0|] eqn:E0; cbn;
    [|discriminate].
  destruct (if k =? 0 then _ else _) as [other|] eqn:E1; cbn; [|discriminate].
  destruct (at2 (Interaction.right_state _) k) as [st|] eqn:E2; cbn;
    [|discriminate].
  pose proof (Hfired k site_id_0 Hk E0) as Hst0. rewrite E2 in Hst0.
  destruct (vget (sites m) site_id_0) as [site_0|] eqn:E3; cbn; [|discriminate].
  destruct (one_site_lookup _ _ _) as [avail|] eqn:E4; cbn; [|discriminate].
  unfold for_upto. intros Hloop.
  apply (for_loop_invariant (fun _ l => Forall (applicable state) l))
    in Hloop; [exact Hloop| |].
  - apply Forall_app. split; [done|].
    eapply one_site_cell_applicable; eauto.
  - clear Hloop. intros j t t' Hj Ht. cbn beta.
    destruct (to_unsigned site_id_0 =? j); [intros [= <-]; done|].
    destruct (vget state j) as [st1|] eqn:F1; cbn; [|discriminate].
    destruct (vget (sites m) j) as [site_1|] eqn:F2; cbn; [|discriminate].
    destruct (vget (distance_matrix m) site_id_0) as [row|] eqn:F3; cbn;
      [|discriminate].
    destruct (vget row j) as [distance|] eqn:F4; cbn; [|discriminate].
    destruct (Double.ltb distance _); [|intros [= <-]; done].
    destruct (two_site_lookup _ (Site.species_id site_0) _ _ _)
      as [avail1|] eqn:F5; cbn; [|discriminate].
    assert (H1 : Forall (applicable state)
                   (t ++ map (two_site_reaction m site_id_0 j distance) avail1)).
    { apply Forall_app. split; [done|].
      eapply two_site_cell_applicable; eauto. }
    destruct (j =? to_unsigned other); [intros [= <-]; done|].
    destruct (two_site_lookup _ (Site.species_id site_1) _ _ _)
      as [avail2|] eqn:F6; cbn; [|discriminate].
    intros [= <-]. apply Forall_app. split; [done|].
    eapply two_site_cell_applicable; eauto.
Qed.

Lemma compute_new_reactions_applicable state fired news :
  fired_in state fired ->
  compute_new_reactions m state fired = Ok news ->
  Forall (applicable state) news.
Proof.
  intros Hfired. unfold compute_new_reactions, for_upto. intros Hloop.
  apply (for_loop_invariant (fun _ l => Forall (applicable state) l))
    in Hloop; [exact Hloop | constructor |].
  intros j t t' Hj Ht. apply new_reactions_of_site_applicable; try done.
  destruct (Z.le_gt_cases
              (Interaction.number_of_sites (Reaction.interaction fired)) 0);
    lia.
Qed.

(** The constructor's enumeration only produces reactions that can fire in
    the initial state. *)
Lemma enumerate_site_applicable (site_id_0 : Z) acc acc' :
  Forall (applicable (current_state m)) (fst (fst acc)) ->
  enumerate_site m site_id_0 acc = Ok acc' ->
  Forall (applicable (current_state m)) (fst (fst acc')).
Proof.
  intros Hacc. unfold enumerate_site.
  destruct (vget (current_state m) site_id_0) as [st0|] eqn:E1; cbn;
    [|discriminate].
  destruct (vget (sites m) site_id_0) as [site_0|] eqn:E2; cbn; [|discriminate].
  destruct (one_site_lookup _ _ _) as [avail|] eqn:E3; cbn; [|discriminate].
  destruct (foldM _ avail acc) as [acc1|] eqn:F1; cbn; [|discriminate].
  assert (Hacc1 : Forall (applicable (current_state m)) (fst (fst acc1))).
  { eapply (foldM_invariant_in
              (fun a => Forall (applicable (current_state m)) (fst (fst a))));
      [exact Hacc| |exact F1].
    intros [[rs deps] cnt] i t' Hi Ht. cbn.
    destruct (dep_insert deps site_id_0 cnt); cbn; [|discriminate].
    intros [= <-]. cbn. apply Forall_app. split; [done|].
    repeat constructor. destruct (Hone _ _ _ _ E3 Hi) as [Hn Hk].
    apply (one_site_reaction_applicable _ site_id_0 st0 i E1 Hn).
    unfold one_site_key in Hk. congruence. }
  clear F1. unfold for_upto. intros Hloop.
  eapply (for_loop_invariant
            (fun _ a => Forall (applicable (current_state m)) (fst (fst a))));
    [exact Hacc1 | | exact Hloop].
  clear Hloop. intros j t t' Hj Ht. cbn beta.
  destruct (site_id_0 =? j); [intros [= <-]; done|].
  destruct (vget (current_state m) j) as [st1|] eqn:G1; cbn; [|discriminate].
  destruct (vget (sites m) j) as [site_1|] eqn:G2; cbn; [|discriminate].
  destruct (vget (distance_matrix m) site_id_0) as [row|] eqn:G3; cbn;
    [|discriminate].
  destruct (vget row j) as [distance|] eqn:G4; cbn; [|discriminate].
  destruct (Double.ltb distance _); [|intros [= <-]; done].
  destruct (two_site_lookup _ (Site.species_id site_0) _ _ _)
    as [avail1|] eqn:G5; cbn; [|discriminate].
  destruct (foldM _ avail1 t) as [t1|] eqn:F2; cbn; [|discriminate].
  assert (Ht1 : Forall (applicable (current_state m)) (fst (fst t1))).
  { eapply (foldM_invariant_in
              (fun a => Forall (applicable (current_state m)) (fst (fst a))));
      [exact Ht| |exact F2].
    intros [[rs deps] cnt] i u' Hi Hu. cbn.
    destruct (dep_insert deps site_id_0 cnt) as [d1|]; cbn; [|discriminate].
    destruct (dep_insert d1 j cnt) as [d2|]; cbn; [|discriminate].
    intros [= <-]. cbn. apply Forall_app. split; [done|].
    repeat constructor. destruct (Htwo _ _ _ _ _ _ G5 Hi) as [Hn Hk].
    apply (two_site_reaction_applicable _ site_id_0 j st0 st1 distance i
             E1 G1 Hn).
    eapply two_site_key_left, Hk. }
  destruct (two_site_lookup _ (Site.species_id site_1) _ _ _)
    as [avail2|] eqn:G6; cbn; [|discriminate].
  intros F3.
  eapply (foldM_invariant_in
            (fun a => Forall (applicable (current_state m)) (fst (fst a))));
    [exact Ht1| |exact F3].
  intros [[rs deps] cnt] i u' Hi Hu. cbn.
  destruct (dep_insert deps site_id_0 cnt) as [d1|]; cbn; [|discriminate].
  destruct (dep_insert d1 j cnt) as [d2|]; cbn; [|discriminate].
  intros [= <-]. cbn. apply Forall_app. split; [done|].
  repeat constructor. destruct (Htwo _ _ _ _ _ _ G6 Hi) as [Hn Hk].
  apply (two_site_reaction_applicable _ j site_id_0 st1 st0 distance i
           G1 E1 Hn).
  eapply two_site_key_left, Hk.
Qed.
End GeneratedApplicable.

Section ApplicableInvariant.
Import NPMC.

Lemma constructed_cells pow (db : Database) (m : NanoParticle) :
  new_nano_particle pow db = Ok m ->
  (forall species state cell i,
     one_site_lookup (one_site_interactions_map m) species state = Ok cell ->
     i ∈ cell ->
     Interaction.number_of_sites i = 1 /\ one_site_key i = (species, state))
  /\ (forall species_a species_b state_a state_b cell i,
        two_site_lookup (two_site_interactions_map m)
          species_a species_b state_a state_b = Ok cell ->
        i ∈ cell ->
        Interaction.number_of_sites i = 2
        /\ two_site_key i = (species_a, species_b, state_a, state_b)).
Proof.
  intros Hnew.
  destruct (new_nano_particle_inv pow db m Hnew)
    as (md & fr & loaded & cnt & _ & _ & _ & _ & _ & _ & _ & _ & _ & _
        & Hone & Htwo & Hmaps & _).
  destruct (read_interactions_number_of_sites (interaction_rows db))
    as [H1 H2].
  rewrite <- Hone in H1. rewrite <- Htwo in H2.
  destruct (build_interaction_maps_lookup _ _ _ _ _ _ Hmaps) as [L1 L2].
  split.
  - intros sp st cell i Hc Hi. rewrite (L1 _ _ _ Hc) in Hi.
    apply list_elem_of_filter in Hi as [Hk Hi]. split; [|exact Hk].
    apply (proj1 (list.Forall_forall _ _) H1 i Hi).
  - intros spa spb sta stb cell i Hc Hi. rewrite (L2 _ _ _ _ _ Hc) in Hi.
    apply list_elem_of_filter in Hi as [Hk Hi]. split; [|exact Hk].
    apply (proj1 (list.Forall_forall _ _) H2 i Hi).
Qed.

Lemma constructed_applicable pow (db : Database) (m : NanoParticle) :
  new_nano_particle pow db = Ok m ->
  Forall (applicable (initial_state m)) (initial_reactions m).
Proof.
  intros Hnew. destruct (constructed_cells pow db m Hnew) as [C1 C2].
  destruct (new_nano_particle_inv pow db m Hnew)
    as (md & fr & loaded & cnt & _ & _ & _ & _ & _ & _ & _ & _ & _ & _
        & _ & _ & _ & (Ls & Lc & _ & Lm1 & Lm2 & _) & Hloop).
  unfold for_upto in Hloop. rewrite <- Lc.
  apply (for_loop_invariant
           (fun _ a => Forall (applicable (current_state loaded)) (fst (fst a))))
    in Hloop; [exact Hloop | constructor |].
  intros j t t' Hj Ht. apply enumerate_site_applicable; [| |exact Ht].
  - rewrite Lm1. exact C1.
  - rewrite Lm2. exact C2.
Qed.

Lemma model_cells (m : NanoParticle) :
  wf_model m -> keyed_model m ->
  (forall species state cell i,
     one_site_lookup (one_site_interactions_map m) species state = Ok cell ->
     i ∈ cell ->
     Interaction.number_of_sites i = 1 /\ one_site_key i = (species, state))
  /\ (forall species_a species_b state_a state_b cell i,
        two_site_lookup (two_site_interactions_map m)
          species_a species_b state_a state_b = Ok cell ->
        i ∈ cell ->
        Interaction.number_of_sites i = 2
        /\ two_site_key i = (species_a, species_b, state_a, state_b)).
Proof.
  intros [_ W1 W2] [K1 K2]. split.
  - intros sp st cell i Hc Hi. split; [eapply W1 | eapply K1]; eauto.
  - intros spa spb sta stb cell i Hc Hi. split; [eapply W2 | eapply K2]; eauto.
Qed.

(** One event keeps the reactions ready to fire. *)
Lemma event_keeps_applicable (m : NanoParticle) (state : list Z)
    (deps : list IntSet.t) (crs : list Reaction.t) (fired : Reaction.t) :
  wf_model m -> keyed_model m ->
  length deps = length (sites m) ->
  length state = length (sites m) ->
  quiescent deps crs ->
  Forall (applicable state) crs ->
  fired ∈ crs ->
  exists state',
    update_state state fired = (state', Ok tt)
    /\ length state' = length state
    /\ forall news,
         compute_new_reactions m state' fired = Ok news ->
         exists deps' crs',
           update_reactions m state' deps crs fired = Ok (deps', crs')
           /\ quiescent deps' crs'
           /\ length deps' = length deps
           /\ Forall (applicable state') crs'.
Proof.
  intros Hwf Hkey Hld Hls Hq Happ Hfired.
  assert (Hg : grounded (Z.of_nat (length deps)) fired).
  { apply (proj1 (list.Forall_forall _ _) (quiescent_grounded _ _ Hq)), Hfired. }
  pose proof (proj1 (list.Forall_forall _ _) Happ fired Hfired) as Hfa.
  destruct (update_state_applicable state fired) as (state' & Hup & Hl' & Hfi & Hframe).
  { rewrite Hls, <- Hld. exact Hg. }
  { exact Hfa. }
  exists state'. split; [exact Hup|]. split; [exact Hl'|].
  intros news Hnews.
  assert (Hgn : Forall (grounded (Z.of_nat (length deps))) news).
  { rewrite Hld. apply (compute_new_reactions_grounded m Hwf state' fired).
    - rewrite <- Hld. exact Hg.
    - exact Hnews. }
  destruct (replace_reactions_spec news fired deps crs Hq Hg Hgn)
    as (removed & deps' & crs' & Hrun & Hq' & Hl & _).
  exists deps', crs'. unfold update_reactions. rewrite Hnews.
  split; [exact Hrun|]. split; [exact Hq'|]. split; [exact Hl|].
  rewrite (replace_reactions_content news fired deps crs deps' crs' Hq Hg Hgn Hrun).
  destruct (model_cells m Hwf Hkey) as [C1 C2].
  apply Forall_app. split.
  - apply list.Forall_forall. intros r [Hnt Hr]%list_elem_of_filter.
    apply (applicable_untouched state state' fired r Hframe); [|exact Hnt].
    apply (proj1 (list.Forall_forall _ _) Happ r Hr).
  - apply (compute_new_reactions_applicable m C1 C2 state' fired news Hfi Hnews).
Qed.
End ApplicableInvariant.

(** X10.  One event keeps every reaction ready to fire.  In a model whose
    tensors are keyed by species and left state and hold one-site, resp.
    two-site, interactions, let the index be consistent and let every
    current reaction be able to fire in the current state.  Then firing one
    of them passes the check of [update_state], and after the following
    [update_reactions] (if the generation of the new reactions stays inside
    the tensors) the index is consistent again and every current reaction
    can fire in the new state: the interrupt of [update_state] is never
    raised for a reaction taken from the current reactions. *)
Theorem update_reactions_keeps_applicable (m : NPMC.NanoParticle)
    (state : list Z) (deps : list IntSet.t) (crs : list Reaction.t)
    (fired : Reaction.t) :
  wf_model m -> keyed_model m ->
  length deps = length (NPMC.sites m) ->
  length state = length (NPMC.sites m) ->
  quiescent deps crs ->
  Forall (applicable state) crs ->
  fired ∈ crs ->
  exists state',
    NPMC.update_state state fired = (state', Ok tt)
    /\ length state' = length state
    /\ forall news,
         NPMC.compute_new_reactions m state' fired = Ok news ->
         exists deps' crs',
           NPMC.update_reactions m state' deps crs fired = Ok (deps', crs')
           /\ quiescent deps' crs'
           /\ length deps' = length deps
           /\ Forall (applicable state') crs'.
Proof. apply event_keeps_applicable. Qed.

(** X8.  [NanoParticle::update_state] accepts every reaction that can fire.
    If each site of the reaction is in the left state of its interaction
    (and the reaction has one site, or two distinct sites, inside the state
    vector), the call raises no interrupt, sets each site of the reaction
    to the right state of the interaction and leaves every other site
    unchanged. *)
Theorem update_state_accepts_applicable (state : list Z) (r : Reaction.t) :
  grounded (Z.of_nat (length state)) r ->
  applicable state r ->
  exists state',
    NPMC.update_state state r = (state', Ok tt)
    /\ length state' = length state
    /\ fired_in state' r
    /\ (forall s, s ∉ sites_of r -> vget state' s = vget state s).
Proof. apply update_state_applicable. Qed.

Lemma update_state_accepts_applicable_witness :
  exists state',
    NPMC.update_state [0; 0; 7] pair_reaction = (state', Ok tt)
    /\ length state' = length [0; 0; 7]
    /\ fired_in state' pair_reaction
    /\ (forall s, s ∉ sites_of pair_reaction ->
                  vget state' s = vget [0; 0; 7] s).
Proof.
  apply (update_state_accepts_applicable [0; 0; 7] pair_reaction).
  - split; [right; reflexivity|]. split.
    + repeat constructor; cbn; lia.
    + apply list.NoDup_cons. split; [|apply NoDup_singleton].
      intros H%list_elem_of_singleton. discriminate.
  - intros k site Hk Hsite. change (0 <= k < 2) in Hk.
    assert (k = 0 \/ k = 1) as [-> | ->] by lia;
      injection Hsite as <-; reflexivity.
Defined.

(** X9.  The constructor only enumerates reactions that can fire, from
    tensors keyed by species and left state: in a constructed model every
    interaction found in a cell of a lookup tensor has the species and left
    states of that cell, and every initial reaction has each of its sites
    in the left state of its interaction in the initial state. *)
Theorem constructor_enumerates_applicable (pow : double -> double -> double)
    (db : Database) (m : NPMC.NanoParticle) :
  NPMC.new_nano_particle pow db = Ok m ->
  keyed_model m
  /\ Forall (applicable (NPMC.initial_state m)) (NPMC.initial_reactions m).
Proof.
  intros Hnew. split; [|exact (constructed_applicable pow db m Hnew)].
  destruct (constructed_cells pow db m Hnew) as [C1 C2]. split.
  - intros sp st cell i Hc Hi. now destruct (C1 _ _ _ _ Hc Hi).
  - intros spa spb sta stb cell i Hc Hi. now destruct (C2 _ _ _ _ _ _ Hc Hi).
Qed.

Lemma constructor_enumerates_applicable_witness :
  keyed_model relay
  /\ Forall (applicable (NPMC.initial_state relay))
            (NPMC.initial_reactions relay).
Proof.
  apply (constructor_enumerates_applicable no_pow relay_db relay). reflexivity.
Defined.


Lemma relay_keyed : keyed_model relay.
Proof.
  destruct (constructed_cells no_pow relay_db relay relay_constructed)
    as [C1 C2]. split.
  - intros sp st cell i Hc Hi. now destruct (C1 _ _ _ _ Hc Hi).
  - intros spa spb sta stb cell i Hc Hi. now destruct (C2 _ _ _ _ _ _ Hc Hi).
Qed.

Lemma relay_applicable : Forall (applicable [1; 0]) relay_reactions.
Proof. exact (constructed_applicable no_pow relay_db relay relay_constructed). Qed.

Lemma update_reactions_keeps_applicable_witness :
  exists state',
    NPMC.update_state [1; 0] (NPMC.one_site_reaction relay_loaded 0 relax)
    = (state', Ok tt)
    /\ length state' = length [1; 0]
    /\ forall news,
         NPMC.compute_new_reactions relay state'
           (NPMC.one_site_reaction relay_loaded 0 relax) = Ok news ->
         exists deps' crs',
           NPMC.update_reactions relay state' relay_dependency relay_reactions
             (NPMC.one_site_reaction relay_loaded 0 relax) = Ok (deps', crs')
           /\ quiescent deps' crs'
           /\ length deps' = length relay_dependency
           /\ Forall (applicable state') crs'.
Proof.
  apply (update_reactions_keeps_applicable relay [1; 0] relay_dependency
           relay_reactions (NPMC.one_site_reaction relay_loaded 0 relax)).
  - exact relay_wf.
  - exact relay_keyed.
  - reflexivity.
  - reflexivity.
  - exact relay_quiescent.
  - exact relay_applicable.
  - left.
Defined.

Section NetworkConstruction.
Import GMC.

Lemma sized_Ok {A} (n : Z) (d : A) (v : list A) :
  sized n d = Ok v -> 0 <= n /\ v = replicate (Z.to_nat n) d.
Proof.
  unfold sized. destruct (Z.ltb_spec n 0); [discriminate|].
  intros [= <-]. split; [lia | done].
Qed.

Lemma compute_propensity_fields (net net' : ReactionNetwork) (x : list Z)
    (i : Z) :
  reactions net' = reactions net ->
  factor_zero net' = factor_zero net ->
  factor_two net' = factor_two net ->
  factor_duplicate net' = factor_duplicate net ->
  compute_propensity net' x i = compute_propensity net x i.
Proof.
  intros Hr H0 H2 Hd. unfold compute_propensity. now rewrite Hr, H0, H2, Hd.
Qed.

(** The loop over the reaction rows: a slot holds the reaction of the last
    row with its index, and the loop remembers the last index. *)
Lemma load_reactions_spec (rows : list Sql.ReactionSql)
    (rs0 rs : list Reaction) (id : Z) :
  load_reactions rows rs0 = Ok (rs, id) ->
  length rs = length rs0
  /\ id = default 0 (last (map Sql.reaction_id rows))
  /\ Forall (fun row => 0 <= Sql.reaction_id row < Z.of_nat (length rs0)) rows
  /\ forall i,
       vget rs i
       = match List.find (fun row => Sql.reaction_id row =? i) (rev rows) with
         | Some row => Ok (reaction_of_row row)
         | None => vget rs0 i
         end.
Proof.
  unfold load_reactions. intros Hrun.
  apply (foldM_prefix_invariant
           (fun pre (acc : list Reaction * Z) =>
              length (fst acc) = length rs0
              /\ snd acc = default 0 (last (map Sql.reaction_id pre))
              /\ Forall (fun row => 0 <= Sql.reaction_id row
                                    < Z.of_nat (length rs0)) pre
              /\ forall i,
                   vget (fst acc) i
                   = match List.find (fun row => Sql.reaction_id row =? i)
                                     (rev pre) with
                     | Some row => Ok (reaction_of_row row)
                     | None => vget rs0 i
                     end)) in Hrun; [exact Hrun | |].
  - cbn. auto.
  - clear Hrun. intros pre row [t tid] t' (Hl & Hid & Hall & Hv). cbn in *.
    destruct (vset t _ _) as [t1|] eqn:Hset; cbn; [|discriminate].
    intros [= <-]. cbn. split; [|split; [|split]].
    + rewrite (vset_length _ _ _ _ Hset). done.
    + rewrite map_app. cbn. now rewrite last_snoc.
    + apply Forall_app. split; [done|]. constructor; [|constructor].
      apply vset_Ok in Hset as [Hr _]. lia.
    + intros i. rewrite rev_app_distr. cbn.
      destruct (Z.eqb_spec (Sql.reaction_id row) i) as [<-|Hne].
      * apply (vget_vset_same _ _ _ _ Hset).
      * rewrite (vget_vset_other _ _ _ _ _ Hset Hne). apply Hv.
Qed.

Lemma initial_propensities_loop (net : ReactionNetwork) (st : list Z)
    (n : Z) (props0 props : list double) :
  for_upto n (fun i propensities =>
                p ← compute_propensity net st i; vset propensities i p)
           props0 = Ok props ->
  length props = length props0
  /\ forall i, 0 <= i < n ->
       exists p, compute_propensity net st i = Ok p /\ vget props i = Ok p.
Proof.
  unfold for_upto. intros Hrun.
  apply (for_loop_invariant
           (fun k v => length v = length props0
                       /\ forall i, 0 <= i < k ->
                            exists p, compute_propensity net st i = Ok p
                                      /\ vget v i = Ok p)) in Hrun.
  - destruct Hrun as [Hl Hv]. split; [done|]. intros i Hi. apply Hv. lia.
  - split; [done|]. intros i Hi. lia.
  - clear Hrun. intros j t t' Hj [Hl Hv]. cbn beta.
    destruct (compute_propensity net st j) as [p|] eqn:Hp; cbn; [|discriminate].
    intros Hset. split; [now rewrite (vset_length _ _ _ _ Hset)|].
    intros i Hi. destruct (decide (i = j)) as [->|Hne].
    + exists p. split; [done|]. apply (vget_vset_same _ _ _ _ Hset).
    + destruct (Hv i ltac:(lia)) as (q & Hq & Hvq). exists q. split; [done|].
      rewrite (vget_vset_other _ _ _ _ _ Hset) by congruence. done.
Qed.

(** What the constructor has established when it returns. *)
Lemma new_reaction_network_inv (db : Sql.Database) (threshold : Z)
    (net : ReactionNetwork) (g : graph) :
  new_reaction_network db threshold = Ok (net, g) ->
  exists md fr,
    Sql.metadata db = Some md
    /\ Sql.factors db = Some fr
    /\ 1 <= Sql.number_of_reactions md
    /\ Z.of_nat (length (reactions net)) = Sql.number_of_reactions md
    /\ g = replicate (Z.to_nat (Sql.number_of_reactions md)) fresh_node
    /\ Z.of_nat (length (initial_state net)) = Sql.number_of_species md
    /\ Z.of_nat (length (initial_propensities net)) = Sql.number_of_reactions md
    /\ dependency_threshold net = threshold
    /\ (factor_zero net = Sql.sql_factor_zero fr
        /\ factor_two net = Sql.sql_factor_two fr
        /\ factor_duplicate net = Sql.sql_factor_duplicate fr)
    /\ default 0 (last (map Sql.reaction_id (Sql.reaction_rows db))) + 1
       = Sql.number_of_reactions md
    /\ (forall i, 0 <= i < Sql.number_of_reactions md ->
          exists p, compute_propensity net (initial_state net) i = Ok p
                    /\ vget (initial_propensities net) i = Ok p)
    /\ (forall i, 0 <= i < Sql.number_of_reactions md ->
          vget (reactions net) i
          = Ok match List.find (fun row => Sql.reaction_id row =? i)
                               (rev (Sql.reaction_rows db)) with
               | Some row => reaction_of_row row
               | None => zero_reaction
               end).
Proof.
  unfold new_reaction_network.
  destruct (Sql.metadata db) as [md|]; [|discriminate].
  destruct (sized (Sql.number_of_reactions md) fresh_node) as [g0|] eqn:S1;
    cbn; [|discriminate].
  destruct (Sql.factors db) as [fr|]; [|discriminate].
  destruct (sized (Sql.number_of_species md) 0) as [st0|] eqn:S2; cbn;
    [|discriminate].
  destruct (foldM _ (Sql.initial_state_rows db) st0) as [st|] eqn:F1; cbn;
    [|discriminate].
  destruct (sized (Sql.number_of_reactions md) zero_reaction) as [rs0|] eqn:S3;
    cbn; [|discriminate].
  destruct (load_reactions _ rs0) as [[rs id]|] eqn:L; cbn; [|discriminate].
  destruct (Z.eqb_spec (Sql.number_of_reactions md) (id + 1)) as [Hid|];
    [|discriminate].
  destruct (Z.eqb_spec (Sql.number_of_reactions md) (Z.of_nat (length rs)))
    as [Hlen|]; [|discriminate]. cbn.
  destruct (sized (Sql.number_of_reactions md) Double.zero) as [p0|] eqn:S4;
    cbn; [|discriminate].
  destruct (for_upto _ _ p0) as [props|] eqn:P; cbn; [|discriminate].
  intros [= <- <-]. cbn.
  apply sized_Ok in S1 as [Hn ->], S2 as [Hsp ->], S3 as [_ ->], S4 as [_ ->].
  apply load_reactions_spec in L as (Hl & Hlast & Hall & Hv).
  rewrite length_replicate in *.
  assert (Hst : length st = Z.to_nat (Sql.number_of_species md)).
  { eapply (foldM_invariant (fun v => length v = _));
      [apply length_replicate| |exact F1].
    intros t a t' <- Hset. eapply vset_length, Hset. }
  apply initial_propensities_loop in P as [Hpl Hpv].
  rewrite length_replicate in Hpl.
  assert (Hone : 1 <= Sql.number_of_reactions md).
  { rewrite Hid, Hlast. clear -Hall.
    induction (Sql.reaction_rows db) as [|r0 rows' _] using rev_ind;
      [cbn; lia|].
    rewrite map_app. cbn. rewrite last_snoc. cbn.
    apply Forall_app in Hall as [_ Hall]. inversion Hall; subst. lia. }
  exists md, fr. repeat match goal with |- _ /\ _ => split end;
    try done; try lia.
  - intros i Hi. destruct (Hpv i ltac:(lia)) as (p & Hp & Hvp).
    exists p. split; [|done]. rewrite <- Hp.
    now apply compute_propensity_fields.
  - intros i Hi. rewrite Hv.
    destruct (List.find _ _); [done|].
    apply vget_Ok. split; [lia|]. apply lookup_replicate. split; [done | lia].
Qed.

(** X11.  What a loaded reaction network looks like.  When the constructor
    of [ReactionNetwork] returns, the metadata and the factors were read,
    there is at least one reaction, the reaction vector, the dependency
    graph and the initial propensities have [number_of_reactions] entries,
    every node of the graph is as created (no list, counter 0), the initial
    state has [number_of_species] entries, the [reaction_id] of the last
    reaction row is [number_of_reactions - 1] (no row at all counts as a
    last id of 0), [initial_propensities[i]] is
    [compute_propensity(initial_state, i)], and [reactions[i]] is built
    from the last row whose [reaction_id] is [i], or is value-initialised
    when there is no such row. *)
Theorem constructed_reaction_network (db : Sql.Database) (threshold : Z)
    (net : ReactionNetwork) (g : graph) :
  new_reaction_network db threshold = Ok (net, g) ->
  exists md fr,
    Sql.metadata db = Some md
    /\ Sql.factors db = Some fr
    /\ 1 <= Sql.number_of_reactions md
    /\ Z.of_nat (length (reactions net)) = Sql.number_of_reactions md
    /\ g = replicate (Z.to_nat (Sql.number_of_reactions md)) fresh_node
    /\ Z.of_nat (length (initial_state net)) = Sql.number_of_species md
    /\ Z.of_nat (length (initial_propensities net)) = Sql.number_of_reactions md
    /\ dependency_threshold net = threshold
    /\ (factor_zero net = Sql.sql_factor_zero fr
        /\ factor_two net = Sql.sql_factor_two fr
        /\ factor_duplicate net = Sql.sql_factor_duplicate fr)
    /\ default 0 (last (map Sql.reaction_id (Sql.reaction_rows db))) + 1
       = Sql.number_of_reactions md
    /\ (forall i, 0 <= i < Sql.number_of_reactions md ->
          exists p, compute_propensity net (initial_state net) i = Ok p
                    /\ vget (initial_propensities net) i = Ok p)
    /\ (forall i, 0 <= i < Sql.number_of_reactions md ->
          vget (reactions net) i
          = Ok match List.find (fun row => Sql.reaction_id row =? i)
                               (rev (Sql.reaction_rows db)) with
               | Some row => reaction_of_row row
               | None => zero_reaction
               end).
Proof. apply new_reaction_network_inv. Qed.
End NetworkConstruction.

Section Distances.
Import NPMC.

Lemma abs_binary_round_aux (s s' : bool) (m e : Z) (l : location) :
  SFabs (binary_round_aux Double.prec Double.emax s m e l)
  = SFabs (binary_round_aux Double.prec Double.emax s' m e l).
Proof.
  unfold binary_round_aux.
  destruct (shr_fexp _ _ m e l) as [mrs' e'].
  destruct (shr_fexp _ _ _ e' loc_Exact) as [mrs'' e''].
  destruct (shr_m mrs'') as [|p|p]; [done | | done].
  now destruct (e'' <=? _).
Qed.

Lemma abs_binary_normalize_opp (d e : Z) :
  SFabs (binary_normalize Double.prec Double.emax (- d) e false)
  = SFabs (binary_normalize Double.prec Double.emax d e false).
Proof.
  destruct d as [|p|p]; [done | |].
  - change (- Z.pos p) with (Z.neg p). unfold binary_normalize, binary_round.
    destruct (shl_align _ _ _) as [mz ez]. apply abs_binary_round_aux.
  - change (- Z.neg p) with (Z.pos p). unfold binary_normalize, binary_round.
    destruct (shl_align _ _ _) as [mz ez]. apply abs_binary_round_aux.
Qed.

(** [a - b] and [b - a] differ in sign only. *)
Lemma abs_sub_comm (a b : double) : SFabs (a ⊖ b) = SFabs (b ⊖ a).
Proof.
  unfold Double.sub.
  destruct a as [sa|sa| |sa ma ea], b as [sb|sb| |sb mb eb];
    try reflexivity; try (destruct sa, sb; reflexivity).
  cbn [SFsub]. rewrite (Z.min_comm eb ea).
  rewrite <- abs_binary_normalize_opp. f_equal. f_equal. lia.
Qed.

(** The square of a number depends on its magnitude only. *)
Lemma square_abs (a b : double) : SFabs a = SFabs b -> a ⊗ a = b ⊗ b.
Proof.
  unfold Double.mul.
  destruct a as [sa|sa| |sa ma ea], b as [sb|sb| |sb mb eb];
    try discriminate; cbn; intros [=]; subst;
    try reflexivity; destruct sa, sb; reflexivity.
Qed.

Lemma site_distance_squared_comm (s1 s2 : Site.t) :
  site_distance_squared s1 s2 = site_distance_squared s2 s1.
Proof.
  unfold site_distance_squared.
  rewrite (square_abs _ _ (abs_sub_comm (Site.x s1) (Site.x s2))).
  rewrite (square_abs _ _ (abs_sub_comm (Site.y s1) (Site.y s2))).
  rewrite (square_abs _ _ (abs_sub_comm (Site.z s1) (Site.z s2))).
  reflexivity.
Qed.

Lemma sub_self (a : double) : Double.is_finite a = true -> a ⊖ a = Double.zero.
Proof.
  unfold Double.sub. destruct a as [s|s| |s m e]; try discriminate; intros _.
  - now destruct s.
  - cbn [SFsub]. rewrite Z.sub_diag. reflexivity.
Qed.

Lemma site_distance_squared_self (s : Site.t) :
  Double.is_finite (Site.x s) = true ->
  Double.is_finite (Site.y s) = true ->
  Double.is_finite (Site.z s) = true ->
  Double.sqrt (site_distance_squared s s) = Double.zero.
Proof.
  intros Hx Hy Hz. unfold site_distance_squared.
  rewrite (sub_self _ Hx), (sub_self _ Hy), (sub_self _ Hz). reflexivity.
Qed.

Lemma lookup_map {A B} (f : A -> B) (l : list A) (i : nat) :
  map f l !! i = f <$> (l !! i).
Proof.
  revert i. induction l as [|a l IH]; intros [|i]; cbn; auto.
Qed.

Lemma vget_map {A B} (f : A -> B) (l : list A) (i : Z) (y : B) :
  vget (map f l) i = Ok y <-> exists x, vget l i = Ok x /\ y = f x.
Proof.
  rewrite vget_Ok, lookup_map. split.
  - intros [Hi Hy]. destruct (l !! Z.to_nat i) as [x|] eqn:Hx; [|discriminate].
    injection Hy as <-. exists x. split; [|done]. apply vget_Ok. done.
  - intros (x & [Hi Hx]%vget_Ok & ->). split; [done|]. now rewrite Hx.
Qed.

Lemma distance_matrix_entry (sites : list Site.t) (i j : Z) (d : double) :
  (exists row, vget (compute_distance_matrix sites) i = Ok row
               /\ vget row j = Ok d)
  <-> exists si sj, vget sites i = Ok si /\ vget sites j = Ok sj
                    /\ d = Double.sqrt (site_distance_squared si sj).
Proof.
  unfold compute_distance_matrix. split.
  - intros (row & (si & Hsi & ->)%vget_map & (sj & Hsj & ->)%vget_map). eauto.
  - intros (si & sj & Hsi & Hsj & ->). eexists. split.
    + apply vget_map. eauto.
    + apply vget_map. eauto.
Qed.
End Distances.

(** X12.  [compute_distance_matrix] builds a square matrix that is exactly
    symmetric in IEEE arithmetic, with a zero diagonal.  The matrix has one
    row per site and every row has one entry per site;
    [distance_matrix[i][j]] is the square root of
    [site_distance_squared(sites[i], sites[j])]; the entries [i][j] and
    [j][i] are the same double (the differences of the coordinates change
    sign only, and the squares do not see the sign); and the entry
    [i][i] is [+0] when the coordinates of site [i] are finite. *)
Theorem distance_matrix_symmetric (sites : list Site.t) :
  let dm := NPMC.compute_distance_matrix sites in
  length dm = length sites
  /\ Forall (fun row => length row = length sites) dm
  /\ (forall i j row d,
        vget dm i = Ok row -> vget row j = Ok d ->
        exists si sj row',
          vget sites i = Ok si /\ vget sites j = Ok sj
          /\ d = Double.sqrt (NPMC.site_distance_squared si sj)
          /\ vget dm j = Ok row' /\ vget row' i = Ok d)
  /\ (forall i si row,
        vget sites i = Ok si -> vget dm i = Ok row ->
        Double.is_finite (Site.x si) = true ->
        Double.is_finite (Site.y si) = true ->
        Double.is_finite (Site.z si) = true ->
        vget row i = Ok Double.zero).
Proof.
  cbn zeta. split; [|split; [|split]].
  - unfold NPMC.compute_distance_matrix. now rewrite length_map.
  - unfold NPMC.compute_distance_matrix. apply Forall_map, list.Forall_forall.
    intros s _. now rewrite length_map.
  - intros i j row d Hrow Hd.
    destruct (proj1 (distance_matrix_entry sites i j d))
      as (si & sj & Hsi & Hsj & ->); [eauto|].
    destruct (proj2 (distance_matrix_entry sites j i
                       (Double.sqrt (NPMC.site_distance_squared sj si))))
      as (row' & Hrow' & Hd'); [eauto 6|].
    exists si, sj, row'. rewrite (site_distance_squared_comm si sj). auto.
  - intros i si row Hsi Hrow Hx Hy Hz.
    destruct (proj2 (distance_matrix_entry sites i i
                       (Double.sqrt (NPMC.site_distance_squared si si))))
      as (row' & Hrow' & Hd'); [eauto 6|].
    rewrite Hrow in Hrow'. injection Hrow' as <-.
    now rewrite Hd', site_distance_squared_self.
Qed.

Lemma distance_matrix_symmetric_witness :
  exists row',
    vget (NPMC.compute_distance_matrix (NPMC.sites relay)) 1 = Ok row'
    /\ vget row' 0 = Ok (Double.of_int 1).
Proof.
  destruct (distance_matrix_symmetric (NPMC.sites relay))
    as (_ & _ & Hsym & _).
  destruct (Hsym 0 1 [Double.zero; Double.of_int 1] (Double.of_int 1)
              ltac:(reflexivity) ltac:(reflexivity))
    as (si & sj & row' & _ & _ & _ & Hrow' & Hd).
  exists row'. split; [exact Hrow' | exact Hd].
Defined.


Lemma dimerization_constructed :
  GMC.new_reaction_network dimerization_db 0
  = Ok (dimerization, [GMC.fresh_node; GMC.fresh_node]).
Proof. reflexivity. Qed.

Lemma constructed_reaction_network_witness :
  exists md fr,
    GMC.Sql.metadata dimerization_db = Some md
    /\ GMC.Sql.factors dimerization_db = Some fr
    /\ 1 <= GMC.Sql.number_of_reactions md
    /\ Z.of_nat (length (GMC.reactions dimerization))
       = GMC.Sql.number_of_reactions md
    /\ [GMC.fresh_node; GMC.fresh_node]
       = replicate (Z.to_nat (GMC.Sql.number_of_reactions md)) GMC.fresh_node
    /\ Z.of_nat (length (GMC.initial_state dimerization))
       = GMC.Sql.number_of_species md
    /\ Z.of_nat (length (GMC.initial_propensities dimerization))
       = GMC.Sql.number_of_reactions md
    /\ GMC.dependency_threshold dimerization = 0
    /\ (GMC.factor_zero dimerization = GMC.Sql.sql_factor_zero fr
        /\ GMC.factor_two dimerization = GMC.Sql.sql_factor_two fr
        /\ GMC.factor_duplicate dimerization = GMC.Sql.sql_factor_duplicate fr)
    /\ default 0 (last (map GMC.Sql.reaction_id
                            (GMC.Sql.reaction_rows dimerization_db))) + 1
       = GMC.Sql.number_of_reactions md
    /\ (forall i, 0 <= i < GMC.Sql.number_of_reactions md ->
          exists p,
            GMC.compute_propensity dimerization (GMC.initial_state dimerization) i
            = Ok p
            /\ vget (GMC.initial_propensities dimerization) i = Ok p)
    /\ (forall i, 0 <= i < GMC.Sql.number_of_reactions md ->
          vget (GMC.reactions dimerization) i
          = Ok match List.find (fun row => GMC.Sql.reaction_id row =? i)
                               (rev (GMC.Sql.reaction_rows dimerization_db)) with
               | Some row => GMC.reaction_of_row row
               | None => GMC.zero_reaction
               end).
Proof.
  apply (constructed_reaction_network dimerization_db 0 dimerization
           [GMC.fresh_node; GMC.fresh_node]).
  reflexivity.
Defined.

Section GraphFrame.
Import GMC.

Lemma compute_dependency_node_frame (net : ReactionNetwork) (g g' : graph)
    (j : Z) (node : DependentsNode) :
  vget g j = Ok node ->
  compute_dependency_node net g j = Ok g' ->
  length g' = length g
  /\ (forall k, k <> j -> vget g' k = vget g k)
  /\ exists l, vget g' j
               = Ok {| dependents := Some l;
                       number_of_occurrences := number_of_occurrences node |}.
Proof.
  intros Hnode. unfold compute_dependency_node. rewrite Hnode. cbn.
  destruct (dependents_of net j) as [l|]; cbn; [|discriminate]. intros Hset.
  split; [eapply vset_length, Hset|]. split.
  - intros k Hk. eapply vget_vset_other; [exact Hset | congruence].
  - exists l. eapply vget_vset_same, Hset.
Qed.

Lemma get_dependency_node_frame (net : ReactionNetwork) (g g' : graph)
    (j : Z) (maybe_dependents : option (list Z)) :
  get_dependency_node net g j = Ok (g', maybe_dependents) ->
  length g' = length g
  /\ (forall k, k <> j -> vget g' k = vget g k)
  /\ exists node node',
       vget g j = Ok node /\ vget g' j = Ok node'
       /\ dependents node' = maybe_dependents
       /\ number_of_occurrences node' = number_of_occurrences node + 1
       /\ (forall l, dependents node = Some l -> dependents node' = Some l)
       /\ (dependents node = None ->
           number_of_occurrences node < dependency_threshold net ->
           dependents node' = None).
Proof.
  unfold get_dependency_node.
  destruct (vget g j) as [node|] eqn:Hnode; cbn; [|discriminate].
  destruct (bool_decide (dependents node = None)
            && (dependency_threshold net <=? number_of_occurrences node))
    eqn:Hcond.
  - destruct (compute_dependency_node net g j) as [g1|] eqn:Hc; cbn;
      [|discriminate].
    destruct (compute_dependency_node_frame net g g1 j node Hnode Hc)
      as (Hl1 & Hf1 & l & Hj1).
    rewrite Hj1. cbn. destruct (vset g1 j _) as [g2|] eqn:Hset; cbn;
      [|discriminate].
    intros [= <- <-]. apply andb_true_iff in Hcond as [Hnone Hthr].
    apply bool_decide_eq_true in Hnone. apply Z.leb_le in Hthr.
    split; [rewrite (vset_length _ _ _ _ Hset); done|]. split.
    + intros k Hk. rewrite (vget_vset_other _ _ _ _ _ Hset) by congruence.
      now apply Hf1.
    + eexists node, _. split; [done|].
      split; [eapply vget_vset_same, Hset|]. cbn.
      split; [done|]. split; [done|]. split; [congruence | lia].
  - cbn. rewrite Hnode. cbn.
    destruct (vset g j _) as [g2|] eqn:Hset; cbn; [|discriminate].
    intros [= <- <-].
    split; [rewrite (vset_length _ _ _ _ Hset); done|]. split.
    + intros k Hk. eapply vget_vset_other; [exact Hset | congruence].
    + eexists node, _. split; [done|].
      split; [eapply vget_vset_same, Hset|]. cbn. auto.
Qed.
End GraphFrame.

(** X13.  [update_propensities] changes one node of the dependency graph.
    The graph keeps its length, every node other than the one of the fired
    reaction is unchanged, and the node of the fired reaction has its
    counter incremented by one; a dependency list that was present is kept,
    and an absent one stays absent while the counter read is below the
    threshold. *)
Theorem update_propensities_touches_one_node (net : GMC.ReactionNetwork)
    (g g' : GMC.graph) (x : list Z) (next : Z) (ups : list GMC.Update) :
  GMC.update_propensities net g x next = Ok (g', ups) ->
  length g' = length g
  /\ (forall k, k <> next -> vget g' k = vget g k)
  /\ exists node node',
       vget g next = Ok node /\ vget g' next = Ok node'
       /\ GMC.number_of_occurrences node'
          = GMC.number_of_occurrences node + 1
       /\ (forall l, GMC.dependents node = Some l ->
                     GMC.dependents node' = Some l)
       /\ (GMC.dependents node = None ->
           GMC.number_of_occurrences node < GMC.dependency_threshold net ->
           GMC.dependents node' = None).
Proof.
  unfold GMC.update_propensities.
  destruct (GMC.get_dependency_node net g next) as [[g1 md]|] eqn:Hget; cbn;
    [|discriminate].
  destruct (get_dependency_node_frame net g g1 next md Hget)
    as (Hl & Hf & node & node' & Hn & Hn' & _ & Hc & Hs & Hnone).
  intros Hrest.
  assert (g' = g1) as ->.
  { destruct md as [l|];
      destruct (for_upto _ _ []) as [u|]; cbn in Hrest; congruence. }
  split; [done|]. split; [done|]. exists node, node'. auto.
Qed.

Lemma update_propensities_touches_one_node_witness :
  match GMC.update_propensities dimerization
          [GMC.fresh_node; GMC.fresh_node] [2; 1] 0 with
  | Ok (g', _) =>
      length g' = 2%nat
      /\ vget g' 1 = Ok GMC.fresh_node
      /\ exists node', vget g' 0 = Ok node'
                       /\ GMC.number_of_occurrences node' = 1
  | Fault _ => False
  end.
Proof.
  destruct (GMC.update_propensities dimerization _ _ _) as [[g' ups]|] eqn:Hrun;
    [|vm_compute in Hrun; discriminate].
  destruct (update_propensities_touches_one_node _ _ _ _ _ _ Hrun)
    as (Hl & Hf & node & node' & Hn & Hn' & Hc & _).
  split; [exact Hl|]. split; [exact (Hf 1 ltac:(lia))|].
  exists node'. split; [exact Hn'|]. injection Hn as <-. exact Hc.
Defined.

Section GenerationInBounds.
Import NPMC.
Variable m : NanoParticle.
Variables num_species num_states : Z.
Hypothesis Hb : bounded_model m num_species num_states.

Lemma one_site_lookup_Ok (species state : Z) :
  0 <= species < num_species -> 0 <= state < num_states ->
  exists cell,
    one_site_lookup (one_site_interactions_map m) species state = Ok cell.
Proof.
  intros Hsp Hst.
  pose proof (proj2 (one_site_lookup_in_bounds _ _ _ species state
                       (bounded_one_site _ _ _ Hb)) (conj Hsp Hst)) as Hok.
  destruct (one_site_lookup _ _ _) as [cell|]; [eauto | discriminate].
Qed.

Lemma two_site_lookup_Ok (spa spb sta stb : Z) :
  0 <= spa < num_species -> 0 <= spb < num_species ->
  0 <= sta < num_states -> 0 <= stb < num_states ->
  exists cell,
    two_site_lookup (two_site_interactions_map m) spa spb sta stb = Ok cell.
Proof.
  intros Ha Hb' Hsa Hsb.
  pose proof (proj2 (two_site_lookup_in_bounds _ _ _ spa spb sta stb
                       (bounded_two_site _ _ _ Hb))
                (conj (conj Ha Hb') (conj Hsa Hsb))) as Hok.
  destruct (two_site_lookup _ _ _ _ _) as [cell|]; [eauto | discriminate].
Qed.

Lemma site_species (s : Z) (site : Site.t) :
  vget (sites m) s = Ok site -> 0 <= Site.species_id site < num_species.
Proof.
  intros Hs. exact (vget_Forall _ _ _ _ (bounded_species _ _ _ Hb) Hs).
Qed.

Lemma distance_entry (a b : Z) :
  0 <= a < Z.of_nat (length (sites m)) ->
  0 <= b < Z.of_nat (length (sites m)) ->
  exists row d, vget (distance_matrix m) a = Ok row /\ vget row b = Ok d.
Proof.
  intros Ha Hb'.
  destruct (vget_in_range (distance_matrix m) a) as [row Hrow].
  { rewrite (bounded_rows _ _ _ Hb). lia. }
  pose proof (vget_Forall _ _ _ _ (bounded_columns _ _ _ Hb) Hrow) as Hl.
  cbn in Hl. destruct (vget_in_range row b) as [d Hd]; [lia|]. eauto.
Qed.

(** The generation of the new reactions stays inside the tensors. *)
Lemma new_reactions_of_site_total (state : list Z) (fired : Reaction.t)
    (k : Z) (acc : list Reaction.t) :
  length state = length (sites m) ->
  Forall (fun v => 0 <= v < num_states) state ->
  grounded (Z.of_nat (length (sites m))) fired ->
  right_in_range num_states (Reaction.interaction fired) ->
  0 <= k < Interaction.number_of_sites (Reaction.interaction fired) ->
  exists acc', new_reactions_of_site m state fired k acc = Ok acc'.
Proof.
  intros Hls Hst Hg Hright Hk. unfold new_reactions_of_site.
  assert (k = 0 \/ k = 1) as Hk01.
  { destruct Hg as ([Hn|Hn] & _); lia. }
  assert (exists s0, at2 (Reaction.site_id fired) k = Ok s0) as [s0 Hs0].
  { destruct Hk01 as [-> | ->]; eauto. }
  rewrite Hs0. cbn.
  assert (Hs0r : 0 <= s0 < Z.of_nat (length (sites m))).
  { destruct Hg as (_ & Hall & _).
    apply (proj1 (list.Forall_forall _ _) Hall). eapply at2_in_take; eauto. }
  assert (exists other,
            (if k =? 0 then Ok (snd (Reaction.site_id fired))
             else if k =? 1 then Ok (fst (Reaction.site_id fired))
                  else Fault Sigint) = Ok other) as [other ->].
  { destruct Hk01 as [-> | ->]; eauto. }
  cbn.
  assert (exists st, at2 (Interaction.right_state (Reaction.interaction fired)) k
                     = Ok st) as [st Hst0].
  { destruct Hk01 as [-> | ->]; eauto. }
  rewrite Hst0. cbn. pose proof (Hright k st Hk Hst0) as Hstr.
  destruct (vget_in_range (sites m) s0 Hs0r) as [site_0 Hsite0].
  rewrite Hsite0. cbn. pose proof (site_species _ _ Hsite0) as Hsp0.
  destruct (one_site_lookup_Ok (Site.species_id site_0) st Hsp0 Hstr)
    as [avail ->]. cbn.
  unfold for_upto.
  destruct (for_loop_total (fun _ _ => True)
              (fun site_id_1 new_reactions =>
                 if to_unsigned s0 =? site_id_1 then Ok new_reactions
                 else
                   site_1_state ← vget state site_id_1;
                   site_1 ← vget (sites m) site_id_1;
                   let site_1_species_id := Site.species_id site_1 in
                   row ← vget (distance_matrix m) s0;
                   distance ← vget row site_id_1;
                   if Double.ltb distance (interaction_radius_bound m) then
                     available ← two_site_lookup (two_site_interactions_map m)
                                    (Site.species_id site_0) site_1_species_id
                                    st site_1_state;
                     let new_reactions :=
                       new_reactions
                       ++ map (two_site_reaction m s0 site_id_1 distance)
                              available in
                     if site_id_1 =? to_unsigned other then Ok new_reactions
                     else
                       available ← two_site_lookup (two_site_interactions_map m)
                                      site_1_species_id (Site.species_id site_0)
                                      site_1_state st;
                       Ok (new_reactions
                           ++ map (two_site_reaction m site_id_1 s0 distance)
                                  available)
                   else Ok new_reactions)
              (Z.to_nat (Z.of_nat (length (sites m)))) 0
              (acc ++ map (one_site_reaction m s0) avail))
    as (acc' & Hrun & _); [done| |eauto].
  intros j t Hj _. destruct (to_unsigned s0 =? j); [eauto|].
  assert (Hjr : 0 <= j < Z.of_nat (length (sites m))) by lia.
  destruct (vget_in_range state j) as [st1 Hst1]; [lia|]. rewrite Hst1. cbn.
  pose proof (vget_Forall _ _ _ _ Hst Hst1) as Hst1r. cbn in Hst1r.
  destruct (vget_in_range (sites m) j Hjr) as [site_1 Hsite1].
  rewrite Hsite1. cbn. pose proof (site_species _ _ Hsite1) as Hsp1.
  destruct (distance_entry s0 j Hs0r Hjr) as (row & d & -> & Hd). cbn.
  rewrite Hd. cbn. destruct (Double.ltb d _); [|eauto].
  destruct (two_site_lookup_Ok (Site.species_id site_0)
              (Site.species_id site_1) st st1 Hsp0 Hsp1 Hstr Hst1r)
    as [a1 ->]. cbn.
  destruct (j =? to_unsigned other); [eauto|].
  destruct (two_site_lookup_Ok (Site.species_id site_1)
              (Site.species_id site_0) st1 st Hsp1 Hsp0 Hst1r Hstr)
    as [a2 ->]. cbn. eauto.
Qed.

Lemma compute_new_reactions_total (state : list Z) (fired : Reaction.t) :
  length state = length (sites m) ->
  Forall (fun v => 0 <= v < num_states) state ->
  grounded (Z.of_nat (length (sites m))) fired ->
  right_in_range num_states (Reaction.interaction fired) ->
  exists news, compute_new_reactions m state fired = Ok news.
Proof.
  intros Hls Hst Hg Hright. unfold compute_new_reactions, for_upto.
  destruct (for_loop_total (fun _ _ => True)
              (new_reactions_of_site m state fired)
              (Z.to_nat (Interaction.number_of_sites (Reaction.interaction fired)))
              0 []) as (news & Hrun & _); [done| |eauto].
  intros j t Hj _.
  destruct (new_reactions_of_site_total state fired j t Hls Hst Hg Hright)
    as [t' Ht']; [|eauto].
  destruct Hg as ([Hn|Hn] & _); rewrite Hn in *; lia.
Qed.

(** The new reactions lead to states of the tensors. *)
Lemma new_reactions_of_site_right state fired k acc acc' :
  Forall (fun r => right_in_range num_states (Reaction.interaction r)) acc ->
  new_reactions_of_site m state fired k acc = Ok acc' ->
  Forall (fun r => right_in_range num_states (Reaction.interaction r)) acc'.
Proof.
  intros Hacc. unfold new_reactions_of_site.
  destruct (at2 (Reaction.site_id fired) k) as [site_id_0|] eqn:E0; cbn;
    [|discriminate].
  destruct (if k =? 0 then _ else _) as [other|] eqn:E1; cbn; [|discriminate].
  destruct (at2 (Interaction.right_state _) k) as [st|] eqn:E2; cbn;
    [|discriminate].
  destruct (vget (sites m) site_id_0) as [site_0|] eqn:E3; cbn; [|discriminate].
  destruct (one_site_lookup _ _ _) as [avail|] eqn:E4; cbn; [|discriminate].
  unfold for_upto. intros Hloop.
  apply (for_loop_invariant
           (fun _ l => Forall (fun r => right_in_range num_states
                                          (Reaction.interaction r)) l))
    in Hloop; [exact Hloop| |].
  - apply Forall_app. split; [done|]. apply Forall_map, list.Forall_forall.
    intros i Hi. cbn. eapply (bounded_one_site_right _ _ _ Hb); eauto.
  - clear Hloop. intros j t t' Hj Ht. cbn beta.
    destruct (to_unsigned site_id_0 =? j); [intros [= <-]; done|].
    destruct (vget state j) as [st1|] eqn:F1; cbn; [|discriminate].
    destruct (vget (sites m) j) as [site_1|] eqn:F2; cbn; [|discriminate].
    destruct (vget (distance_matrix m) site_id_0) as [row|] eqn:F3; cbn;
      [|discriminate].
    destruct (vget row j) as [distance|] eqn:F4; cbn; [|discriminate].
    destruct (Double.ltb distance _); [|intros [= <-]; done].
    destruct (two_site_lookup _ (Site.species_id site_0) _ _ _)
      as [avail1|] eqn:F5; cbn; [|discriminate].
    assert (H1 : Forall (fun r => right_in_range num_states
                                    (Reaction.interaction r))
                   (t ++ map (two_site_reaction m site_id_0 j distance) avail1)).
    { apply Forall_app. split; [done|]. apply Forall_map, list.Forall_forall.
      intros i Hi. cbn. eapply (bounded_two_site_right _ _ _ Hb); eauto. }
    destruct (j =? to_unsigned other); [intros [= <-]; done|].
    destruct (two_site_lookup _ (Site.species_id site_1) _ _ _)
      as [avail2|] eqn:F6; cbn; [|discriminate].
    intros [= <-]. apply Forall_app. split; [done|].
    apply Forall_map, list.Forall_forall.
    intros i Hi. cbn. eapply (bounded_two_site_right _ _ _ Hb); eauto.
Qed.

Lemma compute_new_reactions_right state fired news :
  compute_new_reactions m state fired = Ok news ->
  Forall (fun r => right_in_range num_states (Reaction.interaction r)) news.
Proof.
  unfold compute_new_reactions, for_upto. intros Hloop.
  apply (for_loop_invariant
           (fun _ l => Forall (fun r => right_in_range num_states
                                          (Reaction.interaction r)) l))
    in Hloop; [exact Hloop | constructor |].
  intros j t t' Hj Ht. now apply new_reactions_of_site_right.
Qed.
End GenerationInBounds.

Section SteadyStep.
Import NPMC.

Lemma fired_state_in_range (num_states : Z) (state state' : list Z)
    (fired : Reaction.t) :
  Forall (fun v => 0 <= v < num_states) state ->
  right_in_range num_states (Reaction.interaction fired) ->
  fired_in state' fired ->
  (forall s, s ∉ sites_of fired -> vget state' s = vget state s) ->
  Forall (fun v => 0 <= v < num_states) state'.
Proof.
  intros Hst Hright Hfi Hframe. apply Forall_lookup. intros i v Hi.
  assert (Hv : vget state' (Z.of_nat i) = Ok v).
  { apply vget_Ok. rewrite Nat2Z.id. split; [lia | done]. }
  destruct (decide (Z.of_nat i ∈ sites_of fired)) as [Hin|Hnot].
  - destruct (sites_of_at2 _ _ Hin) as (k & Hk & Hat).
    rewrite (Hfi k _ Hk Hat) in Hv. exact (Hright k v Hk Hv).
  - rewrite (Hframe _ Hnot) in Hv. exact (vget_Forall _ _ _ _ Hst Hv).
Qed.

(** One event on a bounded model: nothing faults and the invariant between
    two events is kept. *)
Lemma event_keeps_steady (m : NanoParticle) (num_species num_states : Z)
    (state : list Z) (deps : list IntSet.t) (crs : list Reaction.t)
    (fired : Reaction.t) :
  wf_model m -> keyed_model m -> bounded_model m num_species num_states ->
  steady m num_states state deps crs ->
  fired ∈ crs ->
  exists state' deps' crs',
    update_state state fired = (state', Ok tt)
    /\ update_reactions m state' deps crs fired = Ok (deps', crs')
    /\ steady m num_states state' deps' crs'.
Proof.
  intros Hwf Hkey Hb [Hls Hst Hld Hq Happ Hright] Hfired.
  assert (Hg : grounded (Z.of_nat (length deps)) fired).
  { apply (proj1 (list.Forall_forall _ _) (quiescent_grounded _ _ Hq)), Hfired. }
  pose proof (proj1 (list.Forall_forall _ _) Happ fired Hfired) as Hfa.
  pose proof (proj1 (list.Forall_forall _ _) Hright fired Hfired) as Hfr.
  cbn in Hfr.
  destruct (update_state_applicable state fired)
    as (state' & Hup & Hl' & Hfi & Hframe).
  { rewrite Hls, <- Hld. exact Hg. }
  { exact Hfa. }
  pose proof (fired_state_in_range num_states state state' fired
                Hst Hfr Hfi Hframe) as Hst'.
  destruct (compute_new_reactions_total m num_species num_states Hb
              state' fired) as [news Hnews]; try done.
  { congruence. }
  { rewrite <- Hld. exact Hg. }
  assert (Hgn : Forall (grounded (Z.of_nat (length deps))) news).
  { rewrite Hld. apply (compute_new_reactions_grounded m Hwf state' fired).
    - rewrite <- Hld. exact Hg.
    - exact Hnews. }
  destruct (replace_reactions_spec news fired deps crs Hq Hg Hgn)
    as (removed & deps' & crs' & Hrun & Hq' & Hl & _).
  pose proof (replace_reactions_content news fired deps crs deps' crs'
                Hq Hg Hgn Hrun) as Hperm.
  destruct (model_cells m Hwf Hkey) as [C1 C2].
  exists state', deps', crs'. split; [exact Hup|]. split.
  { unfold update_reactions. rewrite Hnews. exact Hrun. }
  split; try done; try congruence.
  - rewrite Hperm. apply Forall_app. split.
    + apply list.Forall_forall. intros r [Hnt Hr]%list_elem_of_filter.
      apply (applicable_untouched state state' fired r Hframe); [|exact Hnt].
      apply (proj1 (list.Forall_forall _ _) Happ r Hr).
    + apply (compute_new_reactions_applicable m C1 C2 state' fired news Hfi
               Hnews).
  - rewrite Hperm. apply Forall_app. split.
    + apply list.Forall_forall. intros r [_ Hr]%list_elem_of_filter.
      apply (proj1 (list.Forall_forall _ _) Hright r Hr).
    + apply (compute_new_reactions_right m num_species num_states Hb
               state' fired news Hnews).
Qed.
End SteadyStep.

(** X14.  On a bounded model an event never faults.  Let the tensors of
    the model be [num_species x num_states], keyed by species and left
    state, with one-site, resp. two-site, interactions whose right states
    are below [num_states], let the sites have species of the tensors and
    the distance matrix be square.  If, between two events, every site is
    in a state below [num_states], the index is consistent, and every
    current reaction can fire and leads to states below [num_states], then
    for each current reaction [update_state] raises no interrupt,
    [update_reactions] returns without reading outside a vector, and the
    same holds again afterwards. *)
Theorem event_never_faults (m : NPMC.NanoParticle)
    (num_species num_states : Z) (state : list Z) (deps : list IntSet.t)
    (crs : list Reaction.t) (fired : Reaction.t) :
  wf_model m -> keyed_model m -> bounded_model m num_species num_states ->
  steady m num_states state deps crs ->
  fired ∈ crs ->
  exists state' deps' crs',
    NPMC.update_state state fired = (state', Ok tt)
    /\ NPMC.update_reactions m state' deps crs fired = Ok (deps', crs')
    /\ steady m num_states state' deps' crs'.
Proof. apply event_keeps_steady. Qed.

Section ConstructedSteady.
Import NPMC.

(** An interaction row whose right states are states of the tensors. *)
Local Abbreviation row_right_ok := (fun (ns : Z) (row : InteractionSql.t) =>
  (InteractionSql.number_of_sites row = 1 ->
   0 <= InteractionSql.right_state_1 row < ns)
  /\ (InteractionSql.number_of_sites row = 2 ->
      0 <= InteractionSql.right_state_1 row < ns
      /\ 0 <= InteractionSql.right_state_2 row < ns)).

Lemma read_interactions_right (ns : Z) (rows : list InteractionSql.t) :
  Forall (row_right_ok ns) rows ->
  Forall (right_in_range ns) (fst (fst (fst (read_interactions rows))))
  /\ Forall (right_in_range ns) (snd (fst (fst (read_interactions rows)))).
Proof.
  unfold read_interactions.
  assert (Hgen : forall acc,
    Forall (row_right_ok ns) rows ->
    Forall (right_in_range ns) (fst (fst (fst acc))) ->
    Forall (right_in_range ns) (snd (fst (fst acc))) ->
    Forall (right_in_range ns)
           (fst (fst (fst (fold_left read_interaction rows acc))))
    /\ Forall (right_in_range ns)
              (snd (fst (fst (fold_left read_interaction rows acc))))).
  { induction rows as [|row rows IH]; intros [[[one two] c] n] Hrows H1 H2;
      [split; assumption|].
    apply Forall_cons in Hrows as [[Hr1 Hr2] Hrows].
    simpl fold_left. apply IH; [exact Hrows | |]; cbn in *.
    - destruct (Z.eqb_spec (InteractionSql.number_of_sites row) 1) as [E|];
        [|done].
      apply Forall_app. split; [done|]. constructor; [|constructor].
      intros k v Hk Hv. cbn in *. rewrite E in Hk.
      assert (k = 0) as -> by lia. injection Hv as <-. auto.
    - destruct (Z.eqb_spec (InteractionSql.number_of_sites row) 1); [done|].
      destruct (Z.eqb_spec (InteractionSql.number_of_sites row) 2) as [E|];
        [|done].
      apply Forall_app. split; [done|]. constructor; [|constructor].
      intros k v Hk Hv. cbn in *. rewrite E in Hk. destruct (Hr2 E).
      assert (k = 0 \/ k = 1) as [-> | ->] by lia; injection Hv as <-; auto. }
  intros Hrows. apply Hgen; [exact Hrows | constructor | constructor].
Qed.

(** The enumeration looks up the one-site interactions of every site, so
    that it returns only if every site has a species and a state of the
    tensors. *)
Lemma enumeration_visits_sites (m : NanoParticle) (n : nat) acc acc' :
  for_loop n 0 (enumerate_site m) acc = Ok acc' ->
  forall s, 0 <= s < Z.of_nat n ->
    exists st site cell,
      vget (current_state m) s = Ok st /\ vget (sites m) s = Ok site
      /\ one_site_lookup (one_site_interactions_map m)
           (Site.species_id site) st = Ok cell.
Proof.
  intros Hloop.
  assert (Hinv : forall s, 0 <= s < 0 + Z.of_nat n ->
            exists st site cell,
              vget (current_state m) s = Ok st /\ vget (sites m) s = Ok site
              /\ one_site_lookup (one_site_interactions_map m)
                   (Site.species_id site) st = Ok cell).
  { eapply (for_loop_invariant
              (fun k _ => forall s, 0 <= s < k ->
                 exists st site cell,
                   vget (current_state m) s = Ok st
                   /\ vget (sites m) s = Ok site
                   /\ one_site_lookup (one_site_interactions_map m)
                        (Site.species_id site) st = Ok cell));
      [| |exact Hloop].
    - intros s Hs. lia.
    - intros j t t' Hj Ht Hstep s Hs.
      destruct (decide (s = j)) as [->|Hne]; [|apply Ht; lia].
      unfold enumerate_site in Hstep.
      destruct (vget (current_state m) j) as [st0|] eqn:E1; cbn in Hstep;
        [|discriminate].
      destruct (vget (sites m) j) as [site_0|] eqn:E2; cbn in Hstep;
        [|discriminate].
      destruct (one_site_lookup _ _ _) as [avail|] eqn:E3; [|discriminate].
      exists st0, site_0, avail. auto. }
  intros s Hs. apply Hinv. lia.
Qed.

(** The interactions of the enumerated reactions come from the tensors. *)
Lemma enumerate_site_interactions (m : NanoParticle)
    (P : Interaction.t -> Prop) (site_id_0 : Z) acc acc' :
  (forall species state cell i,
     one_site_lookup (one_site_interactions_map m) species state = Ok cell ->
     i ∈ cell -> P i) ->
  (forall species_a species_b state_a state_b cell i,
     two_site_lookup (two_site_interactions_map m)
       species_a species_b state_a state_b = Ok cell ->
     i ∈ cell -> P i) ->
  Forall (fun r => P (Reaction.interaction r)) (fst (fst acc)) ->
  enumerate_site m site_id_0 acc = Ok acc' ->
  Forall (fun r => P (Reaction.interaction r)) (fst (fst acc')).
Proof.
  intros Hone Htwo Hacc. unfold enumerate_site.
  destruct (vget (current_state m) site_id_0) as [st0|] eqn:E1; cbn;
    [|discriminate].
  destruct (vget (sites m) site_id_0) as [site_0|] eqn:E2; cbn; [|discriminate].
  destruct (one_site_lookup _ _ _) as [avail|] eqn:E3; cbn; [|discriminate].
  destruct (foldM _ avail acc) as [acc1|] eqn:F1; cbn; [|discriminate].
  assert (Hacc1 : Forall (fun r => P (Reaction.interaction r)) (fst (fst acc1))).
  { eapply (foldM_invariant_in
              (fun a => Forall (fun r => P (Reaction.interaction r))
                               (fst (fst a))));
      [exact Hacc| |exact F1].
    intros [[rs deps] cnt] i t' Hi Ht. cbn.
    destruct (dep_insert deps site_id_0 cnt); cbn; [|discriminate].
    intros [= <-]. cbn. apply Forall_app. split; [done|].
    constructor; [|constructor]. cbn. eapply Hone; eauto. }
  clear F1. unfold for_upto. intros Hloop.
  eapply (for_loop_invariant
            (fun _ a => Forall (fun r => P (Reaction.interaction r))
                               (fst (fst a))));
    [exact Hacc1 | | exact Hloop].
  clear Hloop. intros j t t' Hj Ht. cbn beta.
  destruct (site_id_0 =? j); [intros [= <-]; done|].
  destruct (vget (current_state m) j) as [st1|] eqn:G1; cbn; [|discriminate].
  destruct (vget (sites m) j) as [site_1|] eqn:G2; cbn; [|discriminate].
  destruct (vget (distance_matrix m) site_id_0) as [row|] eqn:G3; cbn;
    [|discriminate].
  destruct (vget row j) as [distance|] eqn:G4; cbn; [|discriminate].
  destruct (Double.ltb distance _); [|intros [= <-]; done].
  destruct (two_site_lookup _ (Site.species_id site_0) _ _ _)
    as [avail1|] eqn:G5; cbn; [|discriminate].
  destruct (foldM _ avail1 t) as [t1|] eqn:F2; cbn; [|discriminate].
  assert (Ht1 : Forall (fun r => P (Reaction.interaction r)) (fst (fst t1))).
  { eapply (foldM_invariant_in
              (fun a => Forall (fun r => P (Reaction.interaction r))
                               (fst (fst a))));
      [exact Ht| |exact F2].
    intros [[rs deps] cnt] i u' Hi Hu. cbn.
    destruct (dep_insert deps site_id_0 cnt) as [d1|]; cbn; [|discriminate].
    destruct (dep_insert d1 j cnt) as [d2|]; cbn; [|discriminate].
    intros [= <-]. cbn. apply Forall_app. split; [done|].
    constructor; [|constructor]. cbn. eapply Htwo; eauto. }
  destruct (two_site_lookup _ (Site.species_id site_1) _ _ _)
    as [avail2|] eqn:G6; cbn; [|discriminate].
  intros F3.
  eapply (foldM_invariant_in
            (fun a => Forall (fun r => P (Reaction.interaction r))
                             (fst (fst a))));
    [exact Ht1| |exact F3].
  intros [[rs deps] cnt] i u' Hi Hu. cbn.
  destruct (dep_insert deps site_id_0 cnt) as [d1|]; cbn; [|discriminate].
  destruct (dep_insert d1 j cnt) as [d2|]; cbn; [|discriminate].
  intros [= <-]. cbn. apply Forall_app. split; [done|].
  constructor; [|constructor]. cbn. eapply Htwo; eauto.
Qed.

Lemma constructed_steady pow (db : Database) (m : NanoParticle)
    (md : MetadataSql.t) :
  new_nano_particle pow db = Ok m ->
  metadata db = Some md ->
  Forall (row_right_ok (1 + max_left_state_1 (interaction_rows db)))
         (interaction_rows db) ->
  keyed_model m
  /\ bounded_model m (MetadataSql.number_of_species md)
       (1 + max_left_state_1 (interaction_rows db))
  /\ steady m (1 + max_left_state_1 (interaction_rows db))
       (initial_state m) (site_reaction_dependency m) (initial_reactions m).
Proof.
  intros Hnew Hmd Hrows.
  set (ns := 1 + max_left_state_1 (interaction_rows db)) in *.
  destruct (constructed_cells pow db m Hnew) as [C1 C2].
  destruct (constructed_index pow db m Hnew) as (_ & _ & Hld & Hq).
  pose proof (constructed_applicable pow db m Hnew) as Happ.
  destruct (new_nano_particle_inv pow db m Hnew)
    as (md' & fr & loaded & cnt & Hmd' & _ & _ & _ & _ & _ & Hsites & Hinit
        & Hcur & Hdm & Hone & Htwo & Hmaps
        & (Ls & Lc & Ld & Lm1 & Lm2 & _) & Hloop).
  assert (md' = md) as -> by congruence.
  replace (max_left_state_1 (interaction_rows db) + 1) with ns in Hmaps
    by (unfold ns; lia).
  destruct (build_interaction_maps_shape _ _ _ _ _ _ Hmaps) as [S1 S2].
  destruct (build_interaction_maps_lookup _ _ _ _ _ _ Hmaps) as [L1 L2].
  destruct (read_interactions_right ns _ Hrows) as [R1 R2].
  rewrite <- Hone in R1. rewrite <- Htwo in R2.
  assert (B1 : forall species state cell i,
             one_site_lookup (one_site_interactions_map m) species state
             = Ok cell -> i ∈ cell -> right_in_range ns i).
  { intros sp st cell i Hc Hi. rewrite (L1 _ _ _ Hc) in Hi.
    apply list_elem_of_filter in Hi as [_ Hi].
    apply (proj1 (list.Forall_forall _ _) R1 i Hi). }
  assert (B2 : forall species_a species_b state_a state_b cell i,
             two_site_lookup (two_site_interactions_map m)
               species_a species_b state_a state_b = Ok cell ->
             i ∈ cell -> right_in_range ns i).
  { intros spa spb sta stb cell i Hc Hi. rewrite (L2 _ _ _ _ _ Hc) in Hi.
    apply list_elem_of_filter in Hi as [_ Hi].
    apply (proj1 (list.Forall_forall _ _) R2 i Hi). }
  assert (Hvisit : forall s, 0 <= s < Z.of_nat (length (sites m)) ->
            exists st site,
              vget (initial_state m) s = Ok st /\ vget (sites m) s = Ok site
              /\ 0 <= Site.species_id site < MetadataSql.number_of_species md
              /\ 0 <= st < ns).
  { intros s Hs. unfold for_upto in Hloop.
    destruct (enumeration_visits_sites loaded _ _ _ Hloop s ltac:(lia))
      as (st & site & cell & Hst & Hsite & Hcell).
    rewrite Lc in Hst. rewrite Ls in Hsite. rewrite Lm1 in Hcell.
    exists st, site. split; [done|]. split; [done|].
    apply (one_site_lookup_in_bounds _ _ _ _ _ S1). now rewrite Hcell. }
  split; [|split].
  - split.
    + intros sp st cell i Hc Hi. now destruct (C1 _ _ _ _ Hc Hi).
    + intros spa spb sta stb cell i Hc Hi. now destruct (C2 _ _ _ _ _ _ Hc Hi).
  - split; try done.
    + apply Forall_lookup. intros i site Hi.
      pose proof (lookup_lt_Some _ _ _ Hi) as Hlt.
      destruct (Hvisit (Z.of_nat i) ltac:(lia)) as (st & site' & _ & Hs & Hr & _).
      apply vget_Ok in Hs as [_ Hs]. rewrite Nat2Z.id in Hs. congruence.
    + rewrite Hdm. unfold compute_distance_matrix. now rewrite length_map.
    + rewrite Hdm. unfold compute_distance_matrix.
      apply Forall_map, list.Forall_forall. intros s _. now rewrite length_map.
  - split; try done.
    + lia.
    + apply Forall_lookup. intros i v Hi.
      pose proof (lookup_lt_Some _ _ _ Hi) as Hlt.
      destruct (Hvisit (Z.of_nat i) ltac:(lia)) as (st & site & Hs & _ & _ & Hr).
      apply vget_Ok in Hs as [_ Hs]. rewrite Nat2Z.id in Hs. congruence.
    + unfold for_upto in Hloop.
      apply (for_loop_invariant
               (fun _ a => Forall (fun r => right_in_range ns
                                              (Reaction.interaction r))
                                  (fst (fst a)))) in Hloop;
        [exact Hloop | constructor |].
      intros j t t' Hj Ht.
      apply (enumerate_site_interactions loaded (right_in_range ns));
        [rewrite Lm1; exact B1 | rewrite Lm2; exact B2 | exact Ht].
Qed.
End ConstructedSteady.

(** X15.  The constructor establishes the invariant of a fault-free run.
    If the constructor returns and, in the interaction rows, the right
    states of the sites an interaction has are at most the largest
    [left_state_1], then the constructed model is bounded by
    [number_of_species] and [1 + largest left_state_1] with tensors keyed
    by species and left state, every site has a species and an initial
    state of the tensors, the index is consistent, and every initial
    reaction can fire and leads to states of the tensors. *)
Theorem constructor_establishes_steady (pow : double -> double -> double)
    (db : Database) (m : NPMC.NanoParticle) (md : MetadataSql.t) :
  NPMC.new_nano_particle pow db = Ok m ->
  metadata db = Some md ->
  MetadataSql.number_of_sites md <= 2 ^ 31 ->
  Forall (fun row =>
            (InteractionSql.number_of_sites row = 1 ->
             0 <= InteractionSql.right_state_1 row
             < 1 + max_left_state_1 (interaction_rows db))
            /\ (InteractionSql.number_of_sites row = 2 ->
                0 <= InteractionSql.right_state_1 row
                < 1 + max_left_state_1 (interaction_rows db)
                /\ 0 <= InteractionSql.right_state_2 row
                   < 1 + max_left_state_1 (interaction_rows db)))
         (interaction_rows db) ->
  wf_model m
  /\ keyed_model m
  /\ bounded_model m (MetadataSql.number_of_species md)
       (1 + max_left_state_1 (interaction_rows db))
  /\ steady m (1 + max_left_state_1 (interaction_rows db))
       (NPMC.initial_state m) (NPMC.site_reaction_dependency m)
       (NPMC.initial_reactions m).
Proof.
  intros Hnew Hmd Hbound Hrows.
  destruct (constructed_steady pow db m md Hnew Hmd Hrows) as (K & B & S).
  split; [|auto].
  destruct (constructed_index pow db m Hnew) as (W1 & W2 & _).
  destruct (new_nano_particle_inv pow db m Hnew)
    as (md' & fr & loaded & cnt & Hmd' & _ & _ & _ & _ & _ & Hsites & _).
  assert (md' = md) as -> by congruence.
  split; [lia | exact W1 | exact W2].
Qed.

Lemma relay_rows_right :
  Forall (fun row =>
            (InteractionSql.number_of_sites row = 1 ->
             0 <= InteractionSql.right_state_1 row
             < 1 + max_left_state_1 (interaction_rows relay_db))
            /\ (InteractionSql.number_of_sites row = 2 ->
                0 <= InteractionSql.right_state_1 row
                < 1 + max_left_state_1 (interaction_rows relay_db)
                /\ 0 <= InteractionSql.right_state_2 row
                   < 1 + max_left_state_1 (interaction_rows relay_db)))
         (interaction_rows relay_db).
Proof.
  change (max_left_state_1 (interaction_rows relay_db)) with 1.
  repeat constructor; cbn; intros; try discriminate; lia.
Qed.

Lemma constructor_establishes_steady_witness :
  wf_model relay
  /\ keyed_model relay
  /\ bounded_model relay 1 (1 + max_left_state_1 (interaction_rows relay_db))
  /\ steady relay (1 + max_left_state_1 (interaction_rows relay_db))
       (NPMC.initial_state relay) (NPMC.site_reaction_dependency relay)
       (NPMC.initial_reactions relay).
Proof.
  apply (constructor_establishes_steady no_pow relay_db relay
           {| MetadataSql.number_of_species := 1;
              MetadataSql.number_of_sites := 2 |}).
  - reflexivity.
  - reflexivity.
  - cbn. lia.
  - exact relay_rows_right.
Defined.

Lemma relay_bounded : bounded_model relay 1 2.
Proof.
  exact (proj1 (proj2 (constructed_steady no_pow relay_db relay _
                         relay_constructed eq_refl relay_rows_right))).
Qed.

Lemma relay_steady : steady relay 2 [1; 0] relay_dependency relay_reactions.
Proof.
  exact (proj2 (proj2 (constructed_steady no_pow relay_db relay _
                         relay_constructed eq_refl relay_rows_right))).
Qed.

Lemma event_never_faults_witness :
  exists state' deps' crs',
    NPMC.update_state [1; 0] (NPMC.one_site_reaction relay_loaded 0 relax)
    = (state', Ok tt)
    /\ NPMC.update_reactions relay state' relay_dependency relay_reactions
         (NPMC.one_site_reaction relay_loaded 0 relax) = Ok (deps', crs')
    /\ steady relay 2 state' deps' crs'.
Proof.
  apply (event_never_faults relay 1 2 [1; 0] relay_dependency relay_reactions
           (NPMC.one_site_reaction relay_loaded 0 relax)).
  - exact relay_wf.
  - exact relay_keyed.
  - exact relay_bounded.
  - exact relay_steady.
  - left.
Defined.




(** ** A step of the reaction-network engine stays inside its vectors *)

Section ClosedNetwork.
Import GMC Dep.
Variable net : ReactionNetwork.
Variable num_species : Z.
Hypothesis Hclosed : closed_network net num_species.

Lemma closed_reaction (j : Z) (rj : Reaction) :
  vget (reactions net) j = Ok rj ->
  wf_reaction rj
  /\ forall s, s ∈ reactant_species rj ++ product_species rj ->
               0 <= s < num_species.
Proof.
  intros [_ Hj]%vget_Ok. destruct Hclosed as [Hwf Hsp].
  apply list_elem_of_lookup_2 in Hj. split.
  - exact (proj1 (Forall_forall _ _) Hwf _ Hj).
  - exact (proj1 (Forall_forall _ _) Hsp _ Hj).
Qed.

Lemma compute_propensity_total (x : list Z) (i : Z) :
  Z.of_nat (length x) = num_species ->
  0 <= i < Z.of_nat (length (reactions net)) ->
  exists p, compute_propensity net x i = Ok p.
Proof.
  intros Hx Hi. destruct (vget_in_range _ _ Hi) as [r Hr].
  destruct (closed_reaction i r Hr) as [[Hnr _] Hsp].
  assert (Hreact : forall s, s ∈ reactant_species r ->
                             exists v, vget x s = Ok v).
  { intros s Hs. apply vget_in_range. rewrite Hx. apply Hsp, elem_of_app.
    now left. }
  unfold compute_propensity. rewrite Hr. cbn.
  destruct (Z.eqb_spec (number_of_reactants r) 0) as [|H0]; [eauto|].
  destruct (Z.eqb_spec (number_of_reactants r) 1) as [E1|H1].
  - destruct (Hreact (fst (reactants r))) as [v Hv].
    { unfold reactant_species. rewrite E1. cbn. apply list_elem_of_here. }
    rewrite Hv. cbn. eauto.
  - assert (E2 : number_of_reactants r = 2) by lia.
    destruct (Hreact (fst (reactants r))) as [v0 Hv0].
    { unfold reactant_species. rewrite E2. cbn. apply list_elem_of_here. }
    destruct (Hreact (snd (reactants r))) as [v1 Hv1].
    { unfold reactant_species. rewrite E2. cbn.
      apply list_elem_of_further, list_elem_of_here. }
    destruct (fst (reactants r) =? snd (reactants r));
      rewrite Hv0; cbn; [eauto|]. rewrite Hv1. cbn. eauto.
Qed.

Lemma dep_list_in_range (rj : Reaction) (i : Z) :
  i ∈ dep_list net rj -> 0 <= i < Z.of_nat (length (reactions net)).
Proof.
  intros (ri & Hri & _)%dep_list_elem. exact (vget_range _ _ _ Hri).
Qed.

Lemma graph_ok_after_call (g : list DependentsNode) (j : Z) (rj : Reaction)
    (node : DependentsNode) :
  graph_ok net g ->
  vget (reactions net) j = Ok rj ->
  vget g j = Ok node ->
  graph_ok net (<[Z.to_nat j := node_after_call net rj node]> g).
Proof.
  intros [Hlen Hlists] Hj Hg. split; [rewrite <- Hlen; apply length_insert|].
  intros j' node' l rj' Hg' Hl Hj'.
  pose proof (vget_range _ _ _ Hg) as Hr.
  apply vget_Ok in Hg' as [H0 Hg'].
  destruct (decide (Z.to_nat j = Z.to_nat j')) as [E|NE].
  - assert (j' = j) as -> by lia.
    rewrite list_lookup_insert_eq in Hg' by lia.
    injection Hg' as <-. assert (rj' = rj) as -> by congruence.
    unfold node_after_call in Hl. cbn in Hl.
    destruct (dependents node) as [l0|] eqn:El.
    + injection Hl as <-. eapply Hlists; eauto.
    + destruct (dependency_threshold net <=? number_of_occurrences node);
        [|discriminate]. now injection Hl as <-.
  - rewrite list_lookup_insert_ne in Hg' by done.
    eapply (Hlists j'); eauto. apply vget_Ok. auto.
Qed.

Lemma update_propensities_total (g : graph) (x : list Z) (j : Z) :
  graph_ok net g ->
  Z.of_nat (length x) = num_species ->
  0 <= j < Z.of_nat (length (reactions net)) ->
  exists g' ups,
    update_propensities net g x j = Ok (g', ups)
    /\ graph_ok net g'
    /\ Forall (fun u => 0 <= index u < Z.of_nat (length (reactions net))
                        /\ compute_propensity net x (index u)
                           = Ok (propensity u)) ups.
Proof.
  intros Hg Hx Hj. destruct (vget_in_range _ _ Hj) as [rj Hrj].
  destruct (vget_in_range g j) as [node Hnode].
  { destruct Hg as [-> _]. exact Hj. }
  pose proof (get_dependency_node_step net j rj (proj1 Hclosed) Hrj g node
                Hnode) as Hstep.
  pose proof (graph_ok_after_call g j rj node Hg Hrj Hnode) as Hg'.
  unfold update_propensities.
  destruct (dependents (node_after_call net rj node)) as [l|] eqn:El;
    rewrite Hstep; cbn.
  - assert (l = dep_list net rj) as Hl.
    { destruct Hg' as [_ Hlists]. eapply (Hlists j); eauto.
      eapply vget_insert_same, Hnode. }
    destruct (emit_dependents net x l) as (ups & Hrun & Hidx & Hall).
    { intros i Hi. apply compute_propensity_total; [done|].
      subst l. eapply dep_list_in_range, Hi. }
    rewrite Hrun. cbn. eexists _, ups. split; [reflexivity|].
    split; [exact Hg'|]. apply Forall_forall. intros u Hu. split.
    + subst l. apply (dep_list_in_range rj). rewrite <- Hidx.
      apply list_elem_of_fmap. eauto.
    + exact (proj1 (Forall_forall _ _) Hall u Hu).
  - destruct (emit_all net x (length (reactions net)))
      as (ups & Hrun & Hidx & Hall).
    { intros i Hi. now apply compute_propensity_total. }
    rewrite Hrun. cbn. eexists _, ups. split; [reflexivity|].
    split; [exact Hg'|]. apply Forall_forall. intros u Hu. split.
    + assert (Hin : index u ∈ seqZ 0 (Z.of_nat (length (reactions net)))).
      { rewrite <- Hidx. apply list_elem_of_fmap. eauto. }
      apply elem_of_seqZ in Hin. lia.
    + exact (proj1 (Forall_forall _ _) Hall u Hu).
Qed.

Lemma counts_after_event (x x' : list Z) (r : Reaction) (lo hi : Z) :
  wf_reaction r ->
  length x' = length x ->
  (forall s v, vget x s = Ok v ->
     vget x' s
     = Ok (v - occurrences s (reactant_species r)
             + occurrences s (product_species r))) ->
  Forall (fun v => lo <= v <= hi) x ->
  Forall (fun v => lo - 2 <= v <= hi + 2) x'.
Proof.
  intros [Hnr Hnp] Hlen Hval Hx. apply Forall_forall.
  intros v' [k Hk]%list_elem_of_lookup.
  pose proof (lookup_lt_Some _ _ _ Hk) as Hlt.
  destruct (lookup_lt_is_Some_2 x k) as [v Hv]; [lia|].
  assert (Hget : vget x (Z.of_nat k) = Ok v).
  { apply vget_Ok. rewrite Nat2Z.id. split; [lia | done]. }
  apply Hval in Hget. apply vget_Ok in Hget as [_ Hget].
  rewrite Nat2Z.id, Hk in Hget. injection Hget as ->.
  apply list_elem_of_lookup_2 in Hv.
  pose proof (proj1 (Forall_forall _ _) Hx v Hv) as Hb. cbn beta in Hb.
  pose proof (occurrences_nonneg (Z.of_nat k) (reactant_species r)).
  pose proof (occurrences_nonneg (Z.of_nat k) (product_species r)).
  pose proof (occurrences_le_length (Z.of_nat k) (reactant_species r)) as Hr.
  pose proof (occurrences_le_length (Z.of_nat k) (product_species r)) as Hp.
  unfold reactant_species in Hr at 2. unfold product_species in Hp at 2.
  rewrite length_take in Hr, Hp. cbn [length] in Hr, Hp. lia.
Qed.

Lemma reaction_event_total (g : graph) (x : list Z) (j : Z) (lo hi : Z) :
  graph_ok net g ->
  Z.of_nat (length x) = num_species ->
  0 <= j < Z.of_nat (length (reactions net)) ->
  Int.min + 2 <= lo -> hi <= Int.max - 2 ->
  Forall (fun v => lo <= v <= hi) x ->
  exists x' g' ups,
    update_state net x j = Ok x'
    /\ update_propensities net g x' j = Ok (g', ups)
    /\ Z.of_nat (length x') = num_species
    /\ graph_ok net g'
    /\ Forall (fun u => 0 <= index u < Z.of_nat (length (reactions net))
                        /\ compute_propensity net x' (index u)
                           = Ok (propensity u)) ups
    /\ Forall (fun v => lo - 2 <= v <= hi + 2) x'.
Proof.
  intros Hg Hx Hj Hlo Hhi Hcounts. destruct (vget_in_range _ _ Hj) as [rj Hrj].
  destruct (closed_reaction j rj Hrj) as [Hwf Hsp].
  destruct (update_state_stoichiometry net x j rj Hrj Hwf)
    as (x' & Hrun & Hlen & Hval).
  { intros s Hs. rewrite Hx. now apply Hsp. }
  { apply counts_with_margin; [exact Hwf|].
    eapply Forall_impl; [exact Hcounts|]. cbn beta. intros v Hv. lia. }
  assert (Hx' : Z.of_nat (length x') = num_species) by (rewrite Hlen; exact Hx).
  destruct (update_propensities_total g x' j Hg Hx' Hj)
    as (g' & ups & Hup & Hg' & Hups).
  exists x', g', ups. do 5 (split; [done|]).
  exact (counts_after_event x x' rj lo hi Hwf Hlen Hval Hcounts).
Qed.
End ClosedNetwork.


Lemma dimerization_closed : closed_network dimerization 2.
Proof.
  split; [repeat constructor; cbn; lia|].
  unfold dimerization; cbn [GMC.reactions].
  apply Forall_cons_2; [|apply Forall_cons_2; [|apply Forall_nil_2]];
    intros s Hs; unfold Dep.reactant_species, Dep.product_species in Hs;
    simpl in Hs;
    repeat (apply elem_of_cons in Hs as [->|Hs]; [lia|]);
    apply elem_of_nil in Hs; destruct Hs.
Qed.

Lemma fresh_graph_ok (net : GMC.ReactionNetwork) :
  graph_ok net (replicate (length (GMC.reactions net)) GMC.fresh_node).
Proof.
  split; [apply length_replicate|].
  intros j node l rj [_ Hg]%vget_Ok Hl _.
  apply lookup_replicate in Hg as [-> _]. discriminate.
Qed.


(** ** A run of the driver on a closed network *)

Section NetworkRun.
Context {S : Type} `{Core.Solver S}.
Variable good : S -> Prop.
Variable net : GMC.ReactionNetwork.
Variable num_species : Z.
Hypothesis Hclosed : closed_network net num_species.
Hypothesis Hsolver :
  solver_in_range good (Z.of_nat (length (GMC.reactions net))).

Lemma updates_keep_good (ups : list GMC.Update) (s : S) :
  good s ->
  Forall (fun u => 0 <= GMC.index u
                   < Z.of_nat (length (GMC.reactions net))) ups ->
  good (fold_left Core.update ups s).
Proof.
  revert s. induction ups as [|u ups IH]; intros s Hs Hall; [done|].
  inversion Hall; subst. cbn. apply IH; [|done].
  now apply (proj2 Hsolver).
Qed.

Lemma execute_step_on_network
    (sim : Core.Simulation S (GMC.ReactionNetwork * GMC.graph)) (lo hi : Z) :
  fst (Core.model sim) = net ->
  graph_ok net (snd (Core.model sim)) ->
  Z.of_nat (length (Core.state sim)) = num_species ->
  good (Core.solver sim) ->
  0 <= Core.step sim < Z.of_nat (length (Core.history sim)) ->
  Int.min + 2 <= lo -> hi <= Int.max - 2 ->
  Forall (fun v => lo <= v <= hi) (Core.state sim) ->
  exists continue sim',
    Core.execute_step sim = Core.Done (continue, sim')
    /\ fst (Core.model sim') = net
    /\ graph_ok net (snd (Core.model sim'))
    /\ Z.of_nat (length (Core.state sim')) = num_species
    /\ length (Core.history sim') = length (Core.history sim)
    /\ Core.step sim <= Core.step sim' <= Core.step sim + 1
    /\ Forall (fun v => lo - 2 <= v <= hi + 2) (Core.state sim')
    /\ (continue = true ->
        Core.step sim' = Core.step sim + 1 /\ good (Core.solver sim')).
Proof.
  intros Hnet Hg Hx Hgood Hstep Hlo Hhi Hcounts. unfold Core.execute_step.
  destruct (Core.event (Core.solver sim)) as [[ev|] s1] eqn:Hev.
  - destruct (proj1 Hsolver _ _ _ Hgood Hev) as [Hidx Hs1].
    destruct (reaction_event_total net num_species Hclosed
                (snd (Core.model sim)) (Core.state sim) (Core.index ev) lo hi
                Hg Hx Hidx Hlo Hhi Hcounts)
      as (x' & g' & ups & Hrun & Hup & Hx' & Hg' & Hups & Hc').
    assert (Hset : vset (Core.history sim) (Core.step sim)
                     {| Core.reaction_id := Core.index ev;
                        Core.time := Core.sim_time sim ⊕ Core.dt ev |}
                   = Ok (<[Z.to_nat (Core.step sim) :=
                             {| Core.reaction_id := Core.index ev;
                                Core.time := Core.sim_time sim ⊕ Core.dt ev |}]>
                           (Core.history sim))).
    { apply vset_Ok. split; [lia | done]. }
    rewrite Hset.
    assert (Hrun' : Core.update_state (Core.model sim) (Core.state sim)
                      (Core.index ev) = Ok x').
    { unfold Core.update_state, reaction_network_model. now rewrite Hnet. }
    assert (Hup' : Core.update_propensities (Core.model sim) x'
                     (Core.index ev)
                   = Ok ((fst (Core.model sim), g'), ups)).
    { unfold Core.update_propensities, reaction_network_model.
      rewrite Hnet, Hup. reflexivity. }
    rewrite Hrun', Hup'. eexists _, _. split; [reflexivity|]. cbn.
    split; [done|]. split; [done|]. split; [done|].
    split; [apply length_insert|]. split; [lia|]. split; [done|].
    intros _. split; [done|].
    apply updates_keep_good; [done|].
    eapply Forall_impl; [exact Hups|]. now intros u [Hu _].
  - eexists _, _. split; [reflexivity|]. cbn.
    split; [done|]. split; [done|]. split; [done|]. split; [done|].
    split; [lia|]. split; [|discriminate].
    eapply Forall_impl; [exact Hcounts|]. cbn beta. intros v Hv. lia.
Qed.

Lemma execute_steps_on_network (step_cutoff : Z) (fuel : nat)
    (sim : Core.Simulation S (GMC.ReactionNetwork * GMC.graph)) :
  fst (Core.model sim) = net ->
  graph_ok net (snd (Core.model sim)) ->
  Z.of_nat (length (Core.state sim)) = num_species ->
  good (Core.solver sim) ->
  0 <= Core.step sim <= step_cutoff ->
  Z.of_nat (length (Core.history sim)) = step_cutoff + 1 ->
  step_cutoff - Core.step sim < Z.of_nat fuel ->
  Forall (fun v =>
            Int.min + 2 * (step_cutoff + 1 - Core.step sim) < v
            <= Int.max - 2 * (step_cutoff + 1 - Core.step sim))
         (Core.state sim) ->
  exists sim',
    Core.execute_steps fuel step_cutoff sim = Core.Done sim'
    /\ fst (Core.model sim') = net
    /\ graph_ok net (snd (Core.model sim'))
    /\ Z.of_nat (length (Core.state sim')) = num_species
    /\ Forall (fun v => Int.min < v <= Int.max) (Core.state sim')
    /\ Core.step sim <= Core.step sim' <= step_cutoff + 1.
Proof.
  revert sim. induction fuel as [|fuel IH];
    intros sim Hnet Hg Hx Hgood Hstep Hhist Hfuel Hcounts; [lia|].
  destruct (execute_step_on_network sim
              (Int.min + 2 * (step_cutoff + 1 - Core.step sim) + 1)
              (Int.max - 2 * (step_cutoff + 1 - Core.step sim))
              Hnet Hg Hx Hgood ltac:(lia) ltac:(lia) ltac:(lia))
    as (continue & sim1 & Hrun & Hnet1 & Hg1 & Hx1 & Hh1 & Hs1 & Hc1 & Hcont).
  { eapply Forall_impl; [exact Hcounts|]. cbn beta. intros v Hv. lia. }
  assert (Hend : Forall (fun v => Int.min < v <= Int.max) (Core.state sim1)).
  { eapply Forall_impl; [exact Hc1|]. cbn beta. intros v Hv. lia. }
  cbn [Core.execute_steps]. rewrite Hrun. destruct continue.
  - destruct (Hcont eq_refl) as [Hs1' Hgood1].
    destruct (Z.gtb_spec (Core.step sim1) step_cutoff).
    + exists sim1. do 5 (split; [done|]). lia.
    + destruct (IH sim1 Hnet1 Hg1 Hx1 Hgood1 ltac:(lia) ltac:(lia) ltac:(lia))
        as (sim' & Hrun' & Hnet' & Hg' & Hx' & Hc' & Hs').
      { eapply Forall_impl; [exact Hc1|]. cbn beta. intros v Hv. lia. }
      exists sim'. do 5 (split; [done|]). lia.
  - exists sim1. do 5 (split; [done|]). lia.
Qed.
End NetworkRun.


Lemma scripted_solver_in_range (n : Z) :
  0 < n ->
  solver_in_range (Forall (fun ev : Core.Event => Core.index ev = 0)) n.
Proof.
  intros Hn. split.
  - intros [|e s] ev s1 Hs; cbn; [discriminate|]. intros [= -> ->].
    inversion Hs; subst. split; [lia | done].
  - intros s u Hs _. exact Hs.
Qed.


(** ** The constructor builds a closed network *)

Section ClosedConstruction.
Import GMC Dep.

Lemma species_in_range (n a b num_species : Z) (s : Z) :
  0 <= n <= 2 ->
  (1 <= n -> 0 <= a < num_species) ->
  (2 <= n -> 0 <= b < num_species) ->
  s ∈ take (Z.to_nat n) [a; b] -> 0 <= s < num_species.
Proof.
  intros Hn Ha Hb Hs.
  assert (n = 0 \/ n = 1 \/ n = 2) as [-> | [-> | ->]] by lia.
  - apply elem_of_nil in Hs. destruct Hs.
  - change (s ∈ [a]) in Hs. apply list_elem_of_singleton in Hs as ->.
    apply Ha. lia.
  - change (s ∈ [a; b]) in Hs.
    apply elem_of_cons in Hs as [->|Hs]; [apply Ha; lia|].
    apply list_elem_of_singleton in Hs as ->. apply Hb. lia.
Qed.

Lemma closed_row_reaction (num_species : Z) (row : Sql.ReactionSql) :
  closed_row num_species row ->
  wf_reaction (reaction_of_row row)
  /\ forall s, s ∈ reactant_species (reaction_of_row row)
                   ++ product_species (reaction_of_row row) ->
               0 <= s < num_species.
Proof.
  intros (Hnr & Hnp & Hr1 & Hr2 & Hp1 & Hp2).
  assert (Er : to_uint8 (Sql.row_number_of_reactants row)
               = Sql.row_number_of_reactants row).
  { unfold to_uint8. apply Z.mod_small. lia. }
  assert (Ep : to_uint8 (Sql.row_number_of_products row)
               = Sql.row_number_of_products row).
  { unfold to_uint8. apply Z.mod_small. lia. }
  split.
  - unfold wf_reaction, reaction_of_row. cbn. rewrite Er, Ep. done.
  - intros s. unfold reactant_species, product_species, reaction_of_row. cbn.
    rewrite Er, Ep. intros [Hs|Hs]%elem_of_app.
    + exact (species_in_range _ _ _ _ s Hnr Hr1 Hr2 Hs).
    + exact (species_in_range _ _ _ _ s Hnp Hp1 Hp2 Hs).
Qed.

Lemma zero_reaction_closed (num_species : Z) :
  wf_reaction zero_reaction
  /\ forall s, s ∈ reactant_species zero_reaction
                   ++ product_species zero_reaction ->
               0 <= s < num_species.
Proof.
  split; [unfold wf_reaction; cbn; lia|].
  intros s Hs. apply elem_of_nil in Hs. destruct Hs.
Qed.

Lemma constructed_closed (db : Sql.Database) (threshold : Z)
    (net : ReactionNetwork) (g : graph) (md : Sql.MetadataSql) :
  new_reaction_network db threshold = Ok (net, g) ->
  Sql.metadata db = Some md ->
  Forall (closed_row (Sql.number_of_species md)) (Sql.reaction_rows db) ->
  closed_network net (Sql.number_of_species md)
  /\ graph_ok net g
  /\ Z.of_nat (length (initial_state net)) = Sql.number_of_species md.
Proof.
  intros Hnew Hmd Hrows.
  destruct (new_reaction_network_inv db threshold net g Hnew)
    as (md' & fr & Hmd' & _ & _ & Hlen & Hg & Hst & _ & _ & _ & _ & _ & Hv).
  assert (md' = md) as -> by congruence.
  assert (Hall : forall r, r ∈ reactions net ->
            wf_reaction r
            /\ forall s, s ∈ reactant_species r ++ product_species r ->
                         0 <= s < Sql.number_of_species md).
  { intros r [k Hk]%list_elem_of_lookup.
    pose proof (lookup_lt_Some _ _ _ Hk) as Hlt.
    assert (Hget : vget (reactions net) (Z.of_nat k) = Ok r).
    { apply vget_Ok. rewrite Nat2Z.id. split; [lia | done]. }
    rewrite Hv in Hget by lia.
    destruct (List.find _ _) as [row|] eqn:Hfind.
    - injection Hget as <-. apply closed_row_reaction.
      apply find_some in Hfind as [Hin _].
      apply in_rev, list_elem_of_In in Hin.
      exact (proj1 (Forall_forall _ _) Hrows _ Hin).
    - injection Hget as <-. apply zero_reaction_closed. }
  split; [|split; [|exact Hst]].
  - split; apply Forall_forall; intros r Hr; now apply Hall.
  - subst g. rewrite <- Hlen, Nat2Z.id. apply fresh_graph_ok.
Qed.
End ClosedConstruction.

(** X18.  The constructor builds a closed network.  If the constructor of
    [ReactionNetwork] returns and every reaction row has between 0 and 2
    reactants and products, the species it lists (as many as it has
    reactants, resp. products) being below [number_of_species], then every
    reaction of the network has at most two reactants and two products
    that are species of the state vector, the dependency graph has one
    node per reaction and holds no list yet, and the initial state has
    [number_of_species] entries: the conditions on the network and the
    graph under which no event faults. *)
Theorem constructor_establishes_closed_network
    (db : GMC.Sql.Database) (threshold : Z)
    (net : GMC.ReactionNetwork) (g : GMC.graph) (md : GMC.Sql.MetadataSql) :
  GMC.new_reaction_network db threshold = Ok (net, g) ->
  GMC.Sql.metadata db = Some md ->
  Forall (closed_row (GMC.Sql.number_of_species md))
         (GMC.Sql.reaction_rows db) ->
  closed_network net (GMC.Sql.number_of_species md)
  /\ graph_ok net g
  /\ Forall (fun node => GMC.dependents node = None) g
  /\ Z.of_nat (length (GMC.initial_state net)) = GMC.Sql.number_of_species md.
Proof.
  intros Hnew Hmd Hrows.
  destruct (constructed_closed db threshold net g md Hnew Hmd Hrows)
    as (Hclosed & Hg & Hst).
  do 2 (split; [done|]). split; [|done].
  destruct (new_reaction_network_inv db threshold net g Hnew)
    as (md' & fr & _ & _ & _ & _ & -> & _).
  apply Forall_forall. intros node [-> _]%elem_of_replicate. reflexivity.
Qed.

Lemma constructor_establishes_closed_network_witness :
  closed_network dimerization 2
  /\ graph_ok dimerization [GMC.fresh_node; GMC.fresh_node]
  /\ Forall (fun node => GMC.dependents node = None)
            [GMC.fresh_node; GMC.fresh_node]
  /\ Z.of_nat (length (GMC.initial_state dimerization)) = 2.
Proof.
  apply (constructor_establishes_closed_network dimerization_db 0
           dimerization [GMC.fresh_node; GMC.fresh_node]
           {| GMC.Sql.number_of_species := 2;
              GMC.Sql.number_of_reactions := 2 |}).
  - reflexivity.
  - reflexivity.
  - apply Forall_cons_2; [|apply Forall_cons_2; [|apply Forall_nil_2]];
      unfold closed_row; cbn; lia.
Defined.
